(** * SpikeyBot sharding control plane: ShardingMaster and ShardingSlave

    A shallow embedding of the orchestrator ([ShardingMaster]) and of the
    worker agent ([ShardingSlave]), followed by the properties of the
    reconciliation pass, the connection handshake, the command surface and
    the worker-side request handling.

    Conventions of the embedding.
    - JavaScript numbers that hold timestamps, counters and shard ids are
      integers ([Z]); every handler run reads the clock once ([now]).
    - A JavaScript object used as a dictionary whose enumeration order is
      observable ([_knownUsers], [_shardSockets]) is an association list in
      enumeration order; objects held by reference are named by their key.
    - A handler is a function from the state to the next state and the list
      of effects it performs, in program order. *)

From Stdlib Require Import ZArith String Ascii List Bool Lia.
From stdpp Require Import base decidable option list sorting gmap strings.
Local Open Scope Z_scope.

(** ** Data model *)

Module ShardStatus.
(** Modelled from the spec: [ShardStatus.js] is not part of the sources at
    hand.  The HealthSnapshot of the data model: identity and assignment
    context, activity counters with their delta since the previous
    snapshot, and the time of the report.  A new status starts unassigned
    with every counter at zero; [update] keeps the latest value of every
    field, and [from] builds a status out of a received payload. *)
Record t := mk {
  id : string;
  isMaster : bool;
  goalShardId : Z;
  goalShardCount : Z;
  currentShardId : Z;
  currentShardCount : Z;
  messageCountDelta : Z;
  messageCountTotal : Z;
  timestamp : Z;
  timeDelta : Z;
}.

Definition new (name : string) : t := mk name false (-1) (-1) (-1) (-1) 0 0 0 0.

Definition update (self status : t) : t :=
  mk (id self) (isMaster status) (goalShardId status) (goalShardCount status)
     (currentShardId status) (currentShardCount status)
     (messageCountDelta status) (messageCountTotal status)
     (timestamp status) (timeDelta status).

(** The payload of a [status] event: nothing usable, or the fields of a
    snapshot.  [from] throws on the former. *)
Definition from (payload : option t) : option t :=
  match payload with
  | None => None
  | Some obj => Some (update (new (id obj)) obj)
  end.
End ShardStatus.

Module ShardInfo.
(** Modelled from the spec: [ShardInfo.js] is not part of the sources at
    hand.  The RegistryEntry of the data model, with the field names the
    orchestrator reads and writes; a fresh entry has no key, no assignment
    ([-1]) and zeroed timestamps. *)
Record t := mk {
  id : string;
  key : option string;
  isMaster : bool;
  goalShardId : Z;
  goalShardCount : Z;
  currentShardId : Z;
  currentShardCount : Z;
  lastSeen : Z;
  lastHeartbeat : Z;
  bootTime : Z;
  stopTime : Z;
  stats : option ShardStatus.t;
}.

Definition new (name : string) : t :=
  mk name None false (-1) (-1) (-1) (-1) 0 0 0 0 None.

Definition set_key (v : option string) (e : t) : t :=
  mk (id e) v (isMaster e) (goalShardId e) (goalShardCount e)
     (currentShardId e) (currentShardCount e) (lastSeen e) (lastHeartbeat e)
     (bootTime e) (stopTime e) (stats e).
Definition set_isMaster (v : bool) (e : t) : t :=
  mk (id e) (key e) v (goalShardId e) (goalShardCount e)
     (currentShardId e) (currentShardCount e) (lastSeen e) (lastHeartbeat e)
     (bootTime e) (stopTime e) (stats e).
Definition set_goalShardId (v : Z) (e : t) : t :=
  mk (id e) (key e) (isMaster e) v (goalShardCount e)
     (currentShardId e) (currentShardCount e) (lastSeen e) (lastHeartbeat e)
     (bootTime e) (stopTime e) (stats e).
Definition set_goalShardCount (v : Z) (e : t) : t :=
  mk (id e) (key e) (isMaster e) (goalShardId e) v
     (currentShardId e) (currentShardCount e) (lastSeen e) (lastHeartbeat e)
     (bootTime e) (stopTime e) (stats e).
Definition set_currentShardId (v : Z) (e : t) : t :=
  mk (id e) (key e) (isMaster e) (goalShardId e) (goalShardCount e)
     v (currentShardCount e) (lastSeen e) (lastHeartbeat e)
     (bootTime e) (stopTime e) (stats e).
Definition set_currentShardCount (v : Z) (e : t) : t :=
  mk (id e) (key e) (isMaster e) (goalShardId e) (goalShardCount e)
     (currentShardId e) v (lastSeen e) (lastHeartbeat e)
     (bootTime e) (stopTime e) (stats e).
Definition set_lastSeen (v : Z) (e : t) : t :=
  mk (id e) (key e) (isMaster e) (goalShardId e) (goalShardCount e)
     (currentShardId e) (currentShardCount e) v (lastHeartbeat e)
     (bootTime e) (stopTime e) (stats e).
Definition set_lastHeartbeat (v : Z) (e : t) : t :=
  mk (id e) (key e) (isMaster e) (goalShardId e) (goalShardCount e)
     (currentShardId e) (currentShardCount e) (lastSeen e) v
     (bootTime e) (stopTime e) (stats e).
Definition set_bootTime (v : Z) (e : t) : t :=
  mk (id e) (key e) (isMaster e) (goalShardId e) (goalShardCount e)
     (currentShardId e) (currentShardCount e) (lastSeen e) (lastHeartbeat e)
     v (stopTime e) (stats e).
Definition set_stopTime (v : Z) (e : t) : t :=
  mk (id e) (key e) (isMaster e) (goalShardId e) (goalShardCount e)
     (currentShardId e) (currentShardCount e) (lastSeen e) (lastHeartbeat e)
     (bootTime e) v (stats e).
Definition set_stats (v : option ShardStatus.t) (e : t) : t :=
  mk (id e) (key e) (isMaster e) (goalShardId e) (goalShardCount e)
     (currentShardId e) (currentShardCount e) (lastSeen e) (lastHeartbeat e)
     (bootTime e) (stopTime e) v.
End ShardInfo.

(** ** The registry: [_knownUsers]

    An object mapping shard names to [ShardInfo] objects.  [Object.values]
    enumerates it front to back; a key that is not an array index is
    enumerated in insertion order, so assigning a new key appends. *)

Module Registry.
Definition t := list (string * ShardInfo.t).

Definition keys (r : t) : list string := map fst r.
Definition values (r : t) : list ShardInfo.t := map snd r.

(** [r[k]] *)
Fixpoint get (k : string) (r : t) : option ShardInfo.t :=
  match r with
  | [] => None
  | (k', v) :: r' => if decide (k = k') then Some v else get k r'
  end.

(** [r[k] = v] *)
Fixpoint set (k : string) (v : ShardInfo.t) (r : t) : t :=
  match r with
  | [] => [(k, v)]
  | (k', v') :: r' =>
      if decide (k = k') then (k, v) :: r' else (k', v') :: set k v r'
  end.

(** [delete r[k]] *)
Fixpoint delete (k : string) (r : t) : t :=
  match r with
  | [] => []
  | (k', v') :: r' =>
      if decide (k = k') then r' else (k', v') :: delete k r'
  end.

(** A field assignment through a reference to the object stored at [k]. *)
Fixpoint modify (k : string) (f : ShardInfo.t -> ShardInfo.t) (r : t) : t :=
  match r with
  | [] => []
  | (k', v') :: r' =>
      if decide (k = k') then (k', f v') :: r' else (k', v') :: modify k f r'
  end.
End Registry.

(** ** ShardingMaster: configuration and state *)

Module ShardingMaster.

(** The fields of [ShardMasterConfig] that the orchestrator reads.  The
    configuration file is not part of the sources at hand; the record
    lists exactly the properties accessed through [this._config]. *)
Record HeartbeatConfig := mkHeartbeatConfig {
  updateStyle : string;
  interval : Z;
  disperse : bool;
  requestRebootAfter : Z;
  expectRebootAfter : Z;
  assumeDeadAfter : Z;
  useMessageStats : bool;
}.

Record MailConfig := mkMailConfig {
  enabled : bool;
  command : string;
  failArgs : list string;
  shardConfigCreateFailMessage : string;
}.

Record ShardMasterConfig := mkShardMasterConfig {
  numShards : Z;
  autoDetectNumShards : bool;
  connCount : Z;
  connTime : Z;
  tsPrecision : Z;
  respawnDelay : Z;
  heartbeat : HeartbeatConfig;
  mail : MailConfig;
}.

Definition SocketId := string.

(** What [ShardInfo#request] hands to [_sendHeartbeatRequest]: the settings
    object whose [id], [count] and [master] properties the worker reads in
    [_updateRequest]. *)
Record UpdateRequest := mkUpdateRequest {
  req_id : Z;
  req_count : Z;
  req_master : bool;
}.

Definition request (e : ShardInfo.t) : UpdateRequest :=
  mkUpdateRequest (ShardInfo.goalShardId e) (ShardInfo.goalShardCount e)
                  (ShardInfo.isMaster e).

(** Listeners the orchestrator attaches to a socket. *)
Inductive Listener :=
| OnDisconnect
| OnStatus (userId : string)
| OnBroadcastEval
| OnRespawnAll
| OnSendSQL.

(** Observable actions of a handler, in program order.  Of the log only the
    error lines of a failed mint are kept. *)
Inductive Effect :=
| LogError (message : string)
| Disconnect (socket : SocketId)
| EmitMasterVerification (socket : SocketId) (masterSig signData : string)
| EmitUpdate (socket : SocketId) (req : UpdateRequest)
| EmitEvalRequest (socket : SocketId) (script : string)
| EmitRespawn (socket : SocketId) (delay : Z)
| GenerateKeyPair (made : string) (isMaster : bool)
| SendEmail (cmd : string) (args : list string) (stdin : string)
| SaveUsers.

Record t := mk {
  _config : ShardMasterConfig;
  _knownUsers : option Registry.t;
  _detectedNumShards : Z;
  _privKey : option string;
  _pubKey : option string;
  _nextHeartbeatTime : Z;
  _heartbeatLoopStartTime : Z;
  _ipConnectHistory : list (string * Z);
  _sockets : list SocketId;
  _shardSockets : list (string * SocketId);
  _masterShardSocket : option SocketId;
  (** [socket.userId], set once a signature has been verified *)
  _socketUserId : list (SocketId * string);
  (** listeners attached with [socket.on] *)
  _listeners : list (SocketId * Listener);
  (** the [user] objects of [status] listeners that the registry no longer
      holds: the listener of a socket closes over the entry its name had
      when the socket was accepted, and [_updateUsers] puts new objects
      into [_knownUsers]; a socket that is not listed here closes over the
      entry the registry holds under its name *)
  _detached : list (SocketId * ShardInfo.t);
}.

Definition set_knownUsers (v : option Registry.t) (m : t) : t :=
  mk (_config m) v (_detectedNumShards m) (_privKey m) (_pubKey m)
     (_nextHeartbeatTime m) (_heartbeatLoopStartTime m) (_ipConnectHistory m)
     (_sockets m) (_shardSockets m) (_masterShardSocket m) (_socketUserId m)
     (_listeners m) (_detached m).
Definition set_ipConnectHistory (v : list (string * Z)) (m : t) : t :=
  mk (_config m) (_knownUsers m) (_detectedNumShards m) (_privKey m) (_pubKey m)
     (_nextHeartbeatTime m) (_heartbeatLoopStartTime m) v
     (_sockets m) (_shardSockets m) (_masterShardSocket m) (_socketUserId m)
     (_listeners m) (_detached m).
Definition set_sockets (v : list SocketId) (m : t) : t :=
  mk (_config m) (_knownUsers m) (_detectedNumShards m) (_privKey m) (_pubKey m)
     (_nextHeartbeatTime m) (_heartbeatLoopStartTime m) (_ipConnectHistory m)
     v (_shardSockets m) (_masterShardSocket m) (_socketUserId m)
     (_listeners m) (_detached m).
Definition set_shardSockets (v : list (string * SocketId)) (m : t) : t :=
  mk (_config m) (_knownUsers m) (_detectedNumShards m) (_privKey m) (_pubKey m)
     (_nextHeartbeatTime m) (_heartbeatLoopStartTime m) (_ipConnectHistory m)
     (_sockets m) v (_masterShardSocket m) (_socketUserId m)
     (_listeners m) (_detached m).
Definition set_masterShardSocket (v : option SocketId) (m : t) : t :=
  mk (_config m) (_knownUsers m) (_detectedNumShards m) (_privKey m) (_pubKey m)
     (_nextHeartbeatTime m) (_heartbeatLoopStartTime m) (_ipConnectHistory m)
     (_sockets m) (_shardSockets m) v (_socketUserId m)
     (_listeners m) (_detached m).
Definition set_socketUserId (v : list (SocketId * string)) (m : t) : t :=
  mk (_config m) (_knownUsers m) (_detectedNumShards m) (_privKey m) (_pubKey m)
     (_nextHeartbeatTime m) (_heartbeatLoopStartTime m) (_ipConnectHistory m)
     (_sockets m) (_shardSockets m) (_masterShardSocket m) v
     (_listeners m) (_detached m).
Definition set_listeners (v : list (SocketId * Listener)) (m : t) : t :=
  mk (_config m) (_knownUsers m) (_detectedNumShards m) (_privKey m) (_pubKey m)
     (_nextHeartbeatTime m) (_heartbeatLoopStartTime m) (_ipConnectHistory m)
     (_sockets m) (_shardSockets m) (_masterShardSocket m) (_socketUserId m)
     v (_detached m).
Definition set_nextHeartbeatTime (v : Z) (m : t) : t :=
  mk (_config m) (_knownUsers m) (_detectedNumShards m) (_privKey m) (_pubKey m)
     v (_heartbeatLoopStartTime m) (_ipConnectHistory m)
     (_sockets m) (_shardSockets m) (_masterShardSocket m) (_socketUserId m)
     (_listeners m) (_detached m).
Definition set_heartbeatLoopStartTime (v : Z) (m : t) : t :=
  mk (_config m) (_knownUsers m) (_detectedNumShards m) (_privKey m) (_pubKey m)
     (_nextHeartbeatTime m) v (_ipConnectHistory m)
     (_sockets m) (_shardSockets m) (_masterShardSocket m) (_socketUserId m)
     (_listeners m) (_detached m).

Definition set_detached (v : list (SocketId * ShardInfo.t)) (m : t) : t :=
  mk (_config m) (_knownUsers m) (_detectedNumShards m) (_privKey m) (_pubKey m)
     (_nextHeartbeatTime m) (_heartbeatLoopStartTime m) (_ipConnectHistory m)
     (_sockets m) (_shardSockets m) (_masterShardSocket m) (_socketUserId m)
     (_listeners m) v.

(** The registry once loaded; [{}] stands in while it is still [null], where
    every caller has returned before reading it. *)
Definition users (m : t) : Registry.t := default [] (_knownUsers m).

(** Lookup in the [_shardSockets] object. *)
Fixpoint socket_of (k : string) (l : list (string * SocketId)) : option SocketId :=
  match l with
  | [] => None
  | (k', s) :: l' => if decide (k = k') then Some s else socket_of k l'
  end.

(** ** Counting and partitioning the registry *)

(** [getGoalShardCount]: the configured number of shards, or the number
    last detected (-1 until one has been fetched).  The throttled fetch it
    may start completes in a later turn and is left out. *)
Definition getGoalShardCount (m : t) : Z :=
  if autoDetectNumShards (_config m) then _detectedNumShards m
  else numShards (_config m).

Definition getCurrentShardCount (m : t) : Z :=
  Z.of_nat (length (_shardSockets m)).

Definition getKnownShardCount (m : t) : Z :=
  match _knownUsers m with
  | None => 0
  | Some r =>
      Z.of_nat (length (List.filter (fun el => negb (ShardInfo.isMaster el))
                                    (Registry.values r)))
  end.

(** The [goal] a helper works with: its argument, unless that is negative. *)
Definition goal_or_default (goal : Z) (m : t) : Z :=
  if bool_decide (goal < 0) then getGoalShardCount m else goal.

Definition is_configured (now goal : Z) (hb : HeartbeatConfig)
    (el : ShardInfo.t) : bool :=
  negb (ShardInfo.isMaster el)
  && bool_decide (ShardInfo.goalShardCount el = goal)
  && bool_decide (now - assumeDeadAfter hb < ShardInfo.lastHeartbeat el).

Definition is_unconfigured (now goal : Z) (hb : HeartbeatConfig)
    (el : ShardInfo.t) : bool :=
  negb (ShardInfo.isMaster el)
  && negb (bool_decide (ShardInfo.goalShardCount el = goal))
  && bool_decide (now - assumeDeadAfter hb < ShardInfo.lastSeen el).

(** [_getCurrentConfigured]: references to the shards configured for
    [goal] whose last heartbeat is younger than [assumeDeadAfter]. *)
Definition _getCurrentConfigured (now goal : Z) (m : t) : list string :=
  match _knownUsers m with
  | None => []
  | Some r =>
      let goal := goal_or_default goal m in
      map fst (List.filter
                 (fun kv => is_configured now goal (heartbeat (_config m)) (snd kv))
                 r)
  end.

Definition getCurrentConfiguredCount (now goal : Z) (m : t) : Z :=
  Z.of_nat (length (_getCurrentConfigured now goal m)).

(** [_getCurrentUnconfigured] *)
Definition _getCurrentUnconfigured (now goal : Z) (m : t) : list string :=
  match _knownUsers m with
  | None => []
  | Some r =>
      let goal := goal_or_default goal m in
      map fst (List.filter
                 (fun kv => is_unconfigured now goal (heartbeat (_config m)) (snd kv))
                 r)
  end.

(** [ids.indexOf(x)] followed by [ids.splice(index, 1)] when found. *)
Fixpoint remove_first (x : Z) (ids : list Z) : list Z :=
  match ids with
  | [] => []
  | y :: ids' => if decide (x = y) then ids' else y :: remove_first x ids'
  end.

(** [_getCurrentUnboundIds]: start from [0 .. goal-1] and strike the goal
    id of every non-master entry whose goal count is [goal]. *)
Definition _getCurrentUnboundIds (goal : Z) (m : t) : list Z :=
  match _knownUsers m with
  | None => []
  | Some r =>
      let goal := goal_or_default goal m in
      if bool_decide (goal < 0) then []
      else
        fold_left
          (fun ids el =>
             if ShardInfo.isMaster el then ids
             else if bool_decide (ShardInfo.goalShardCount el = goal)
                  then remove_first (ShardInfo.goalShardId el) ids
                  else ids)
          (Registry.values r) (seqZ 0 goal)
  end.

(** [_getShardById] and [_getMasterUser] return the first match. *)
Definition _getShardById (shardId : Z) (m : t) : option string :=
  fst <$> List.find
    (fun kv => negb (ShardInfo.isMaster (snd kv))
               && bool_decide (ShardInfo.goalShardId (snd kv) = shardId))
    (users m).

Definition _getMasterUser (m : t) : option string :=
  fst <$> List.find (fun kv => ShardInfo.isMaster (snd kv)) (users m).

(** ** Minting a worker identity *)

(** [_generateShardName]: draw three-letter names until one is free.  The
    successive outcomes of the random draws are the list [draws]; the result
    is the first one that is not a key of the registry. *)
Definition _generateShardName (draws : list string) (r : Registry.t) : option string :=
  List.find (fun out => negb (bool_decide (is_Some (Registry.get out r)))) draws.

(** [generateShardConfig], up to the request for a key pair: the provisional
    entry is stored under its name before any key exists.  [name] is the
    name [_generateShardName] returned. *)
Definition generateShardConfig (name : string) (isMaster : bool) (m : t)
    : t * list Effect :=
  let made := ShardInfo.new name in
  let r := Registry.set (ShardInfo.id made) made (users m) in
  let r := if isMaster
           then Registry.modify (ShardInfo.id made) (ShardInfo.set_isMaster true) r
           else r in
  (set_knownUsers (Some r) m, [GenerateKeyPair name isMaster]).

(** [_sendShardCreateFailEmail]: nothing is sent unless mail is enabled.
    The replacer is handed the whole match, braces included, which none of
    its cases names, so the message text goes out as configured. *)
Definition _sendShardCreateFailEmail (conf : MailConfig) (errs : list string)
    : list Effect :=
  if negb (enabled conf) then []
  else [SendEmail (command conf) (failArgs conf) (shardConfigCreateFailMessage conf)].

(** The callback of [generateKeyPair] when it is called with an error:
    the entry is deleted, the error is logged ([common.error], then
    [console.error] with the error itself) and the e-mail is asked for. *)
Definition generateShardConfig_keyPairFailed (name : string) (err : string) (m : t)
    : t * list Effect :=
  (set_knownUsers (Some (Registry.delete name (users m))) m,
   [LogError "Failed to generate key-pair!"; LogError err]
   ++ _sendShardCreateFailEmail (mail (_config m)) ["Failed to generate key-pair!"; err]).

(** ** The reconciliation pass: [_refreshShardStatus] *)

(** [Array.prototype.sort] with comparator [cmp]: [a] stays in front of [b]
    when [cmp a b <= 0]; elements that compare equal keep their order. *)
Fixpoint sort_insert {A} (cmp : A -> A -> Z) (a : A) (l : list A) : list A :=
  match l with
  | [] => [a]
  | b :: l' => if bool_decide (cmp a b <= 0) then a :: b :: l'
               else b :: sort_insert cmp a l'
  end.

Definition sort {A} (cmp : A -> A -> Z) (l : list A) : list A :=
  fold_right (sort_insert cmp) [] l.

Definition bootTimeOf (r : Registry.t) (k : string) : Z :=
  from_option ShardInfo.bootTime 0 (Registry.get k r).

(** The locals of one pass together with the registry they point into. *)
Record Pass := mkPass {
  p_users : Registry.t;
  p_correct : list string;
  p_configuring : list string;
  p_foundIds : list (Z * Z);
}.

(** The three assignments that turn an entry into a shutdown directive. *)
Definition shutdown (now : Z) (s : ShardInfo.t) : ShardInfo.t :=
  ShardInfo.set_goalShardCount (-1)
    (ShardInfo.set_goalShardId (-1) (ShardInfo.set_stopTime now s)).

Definition is_stale (now : Z) (hb : HeartbeatConfig) (el : ShardInfo.t) : bool :=
  bool_decide (requestRebootAfter hb < now - ShardInfo.lastHeartbeat el)
  && bool_decide (now - ShardInfo.lastHeartbeat el < expectRebootAfter hb).

Definition found_match (el : ShardInfo.t) (f : Z * Z) : bool :=
  bool_decide (fst f = ShardInfo.goalShardId el)
  && bool_decide (snd f = ShardInfo.goalShardCount el).

(** One turn of the loop over [correct], for the element [k] at index [i].
    [p_correct] is the part of the array in front of [i]: a spliced element
    leaves it, any other joins it. *)
Definition refresh_step (now : Z) (hb : HeartbeatConfig) (p : Pass) (k : string)
    : Pass :=
  match Registry.get k (p_users p) with
  | None => p
  | Some el =>
      if is_stale now hb el then
        mkPass (Registry.modify k (shutdown now) (p_users p))
               (p_correct p) (p_configuring p ++ [k]) (p_foundIds p)
      else
        match List.find (found_match el) (p_foundIds p) with
        | Some _ =>
            mkPass (Registry.modify k (shutdown now) (p_users p))
                   (p_correct p) (p_configuring p ++ [k]) (p_foundIds p)
        | None =>
            mkPass (p_users p) (p_correct p ++ [k])
                   (if negb (bool_decide (ShardInfo.goalShardId el = ShardInfo.currentShardId el))
                       || negb (bool_decide (ShardInfo.goalShardCount el = ShardInfo.currentShardCount el))
                    then p_configuring p ++ [k] else p_configuring p)
                   (p_foundIds p ++ [(ShardInfo.goalShardId el, ShardInfo.goalShardCount el)])
        end
  end.

Definition refresh_loop (now : Z) (hb : HeartbeatConfig) (correct : list string)
    (r : Registry.t) : Pass :=
  fold_left (refresh_step now hb) correct (mkPass r [] [] []).

(** [newIds.forEach]: hand each unbound id to the next spare entry. *)
Definition assign_step (now goal : Z)
    (acc : Registry.t * list string * list string) (el : Z)
    : Registry.t * list string * list string :=
  let '(r, incorrect, configuring) := acc in
  match incorrect with
  | [] => acc
  | s :: incorrect' =>
      (Registry.modify s
         (fun e => ShardInfo.set_goalShardCount goal
                     (ShardInfo.set_goalShardId el (ShardInfo.set_bootTime now e))) r,
       incorrect', configuring ++ [s])
  end.

(** The master entry is given id 1000 when it holds a negative goal id. *)
Definition assign_master (goal : Z) (master : option string)
    (acc : Registry.t * list string) : Registry.t * list string :=
  let '(r, configuring) := acc in
  match master with
  | None => acc
  | Some k =>
      match Registry.get k r with
      | None => acc
      | Some e =>
          if bool_decide (ShardInfo.goalShardId e < 0)
          then (Registry.modify k
                  (fun e => ShardInfo.set_goalShardCount goal
                              (ShardInfo.set_goalShardId 1000 e)) r,
                configuring ++ [k])
          else acc
      end
  end.

(** [_sendHeartbeatRequest] for a reference to an entry (or none). *)
Definition _sendHeartbeatRequest (updating : option string) (m : t) : list Effect :=
  match updating with
  | None => []
  | Some k =>
      match Registry.get k (users m) with
      | None => []
      | Some el =>
          if bool_decide (ShardInfo.id el = "") then []
          else
            let socket := if ShardInfo.isMaster el then _masterShardSocket m
                          else socket_of (ShardInfo.id el) (_shardSockets m) in
            match socket with
            | None => []
            | Some s => [EmitUpdate s (request el)]
            end
      end
  end.

(** The registry and the local arrays once the three assignment phases of a
    pass are over: the loop over [correct], [newIds.forEach], and the master
    entry.  [m] is the state after any identity was minted; the arrays were
    computed before. *)
Definition refresh_assign (now goal : Z) (correct incorrect : list string)
    (newIds : list Z) (master : option string) (m : t) : Pass :=
  let hbConf := heartbeat (_config m) in
  let sorted := sort (fun a b => bootTimeOf (users m) b - bootTimeOf (users m) a) correct in
  let p := refresh_loop now hbConf sorted (users m) in
  let '(r, _, configuring) :=
    fold_left (assign_step now goal) newIds (p_users p, incorrect, p_configuring p) in
  let '(r, configuring) := assign_master goal master (r, configuring) in
  mkPass r (p_correct p) configuring (p_foundIds p).

(** The shutdown requests of [configuring], sent ahead of the cadence. *)
Definition shutdown_requests (configuring : list string) (m : t) : list Effect :=
  flat_map
    (fun k =>
       match Registry.get k (users m) with
       | Some el => if bool_decide (0 <= ShardInfo.goalShardId el) then []
                    else _sendHeartbeatRequest (Some k) m
       | None => []
       end)
    configuring.

(** The cadence of the heartbeat requests, the last part of a pass that
    runs at or after [_nextHeartbeatTime]: the shutdown requests go out
    first, then the start of the loop and the time of the next heartbeat are
    moved on and the requests of this slot are sent.  [updateId] is the
    value of [Math.floor(((now - start) / interval) * (goal + 1))], which is
    computed in floating point, or [None] when that is not a number;
    [master] is the master entry found when the pass began.
    [Math.floor(interval / (goal + 1))] is the quotient rounded down.  In the
    undispersed pull style the loop over [Object.keys] hands
    [_sendHeartbeatRequest] the keys, which are strings without an [id], so
    that it sends nothing; the master entry is then looked up again. *)
Definition heartbeat_cadence (updateId : option Z) (now goal : Z)
    (master : option string) (configuring : list string) (m : t) : t * list Effect :=
  let hbConf := heartbeat (_config m) in
  if bool_decide (_nextHeartbeatTime m <= now) then
    let e1 := shutdown_requests configuring m in
    let m := if bool_decide (_heartbeatLoopStartTime m < now - interval hbConf)
             then set_heartbeatLoopStartTime
                    (_heartbeatLoopStartTime m + interval hbConf) m
             else m in
    if bool_decide (updateStyle hbConf = "pull") then
      if disperse hbConf then
        let delta := interval hbConf / (goal + 1) in
        let m := set_nextHeartbeatTime (_nextHeartbeatTime m + delta) m in
        let e2 := match updateId with
                  | None => []
                  | Some updateId =>
                      if bool_decide (goal <= updateId)
                      then _sendHeartbeatRequest master m
                      else _sendHeartbeatRequest (_getShardById updateId m) m
                  end in
        (m, e1 ++ e2)
      else
        let m := set_nextHeartbeatTime (_nextHeartbeatTime m + interval hbConf) m in
        (m, e1 ++ _sendHeartbeatRequest (_getMasterUser m) m)
    else
      (set_nextHeartbeatTime (_nextHeartbeatTime m + interval hbConf) m, e1)
  else (m, []).

(** [_refreshShardStatus].  [name1] and [name2] are the names
    [_generateShardName] returns when a shard, respectively a master shard,
    is minted, and [updateId] is the slot of the cadence.  The timers
    ([_setHBTimeout]) are left out. *)
Definition _refreshShardStatus (updateId : option Z) (now : Z)
    (name1 name2 : string) (m : t) : t * list Effect :=
  match _knownUsers m with
  | None => (m, [])
  | Some _ =>
      let goal := getGoalShardCount m in
      if bool_decide (goal < 0) then (m, [])
      else
        let known := getKnownShardCount m in
        let correct := _getCurrentConfigured now goal m in
        let incorrect := _getCurrentUnconfigured now goal m in
        let newIds := _getCurrentUnboundIds goal m in
        let master := _getMasterUser m in
        let '(m1, e1) := if bool_decide (known < goal)
                         then generateShardConfig name1 false m else (m, []) in
        let '(m2, e2) := if bool_decide (master = None)
                         then generateShardConfig name2 true m1 else (m1, []) in
        let p := refresh_assign now goal correct incorrect newIds master m2 in
        let m3 := set_knownUsers (Some (p_users p)) m2 in
        let c := heartbeat_cadence updateId now goal master (p_configuring p) m3 in
        (fst c, e1 ++ e2 ++ snd c)
  end.

(** The locals of the pass that [_refreshShardStatus] runs from [m]. *)
Definition refresh_locals (now : Z) (name1 name2 : string) (m : t) : Pass :=
  let goal := getGoalShardCount m in
  let m1 := if bool_decide (getKnownShardCount m < goal)
            then fst (generateShardConfig name1 false m) else m in
  let m2 := if bool_decide (_getMasterUser m = None)
            then fst (generateShardConfig name2 true m1) else m1 in
  refresh_assign now goal (_getCurrentConfigured now goal m)
    (_getCurrentUnconfigured now goal m) (_getCurrentUnboundIds goal m)
    (_getMasterUser m) m2.

(** ** Vocabulary for the properties of a pass *)

Definition pair_of (el : ShardInfo.t) : Z * Z :=
  (ShardInfo.goalShardId el, ShardInfo.goalShardCount el).

(** The comparator [(a, b) => f(b) - f(a)], and the order it sorts into. *)
Definition by_desc {A} (f : A -> Z) (a b : A) : Z := f b - f a.
Definition desc {A} (f : A -> Z) (a b : A) : Prop := f b <= f a.

(** The entries under the keys still to be visited are as in [r]. *)
Definition untouched (r : Registry.t) (L : list string) (p : Pass) : Prop :=
  forall k, k ∈ L -> Registry.get k (p_users p) = Registry.get k r.

(** What a pass leaves of an entry it turned into a shutdown directive. *)
Definition demoted (now : Z) (k : string) (el : ShardInfo.t) (p : Pass) : Prop :=
  Registry.get k (p_users p) = Some (shutdown now el)
  /\ k ∈ p_configuring p /\ k ∉ p_correct p.

(** What a pass leaves of an entry it lets stand. *)
Definition retained (k : string) (el : ShardInfo.t) (p : Pass) : Prop :=
  Registry.get k (p_users p) = Some el /\ k ∈ p_correct p.

(** The key [k] resolves in [r] to an entry that is not inside the reboot
    window and holds the pair [pi]. *)
Definition claims (now : Z) (hb : HeartbeatConfig) (r : Registry.t)
    (pi : Z * Z) (k : string) : bool :=
  match Registry.get k r with
  | Some el => negb (is_stale now hb el) && bool_decide (pair_of el = pi)
  | None => false
  end.

(** A live entry configured for the goal count that holds goal id [sid] and
    is not inside the reboot window. *)
Definition claimant (now : Z) (m : t) (sid : Z)
    (k : string) (el : ShardInfo.t) : Prop :=
  Registry.get k (users m) = Some el
  /\ is_configured now (getGoalShardCount m) (heartbeat (_config m)) el = true
  /\ is_stale now (heartbeat (_config m)) el = false
  /\ ShardInfo.goalShardId el = sid.

(** ** Accepting a connection: [_socketConnection] *)

(** The handshake data of a connecting socket. *)
Record Socket := mkSocket {
  socket_id : SocketId;
  forwardedFor : option string;
  address : string;
  authorization : option string;
}.

(** Why a connection was turned away, one per [socket.disconnect(true)] of
    [_socketConnection], in program order. *)
Inductive Rejection :=
| TooManyConnections
| NoAuthorizationHeader
| InvalidAuthorizationHeader
| UsersNotLoaded
| InvalidUserId
| AlreadyConnected
| InvalidTimestamp
| NoPrivateKey
| NoPublicKey
| SignatureNotVerified
| MasterAlreadyConnected.

Inductive Outcome :=
| Rejected (why : Rejection)
| Accepted.

(** The [while] loop over [_ipConnectHistory]: [i] is the index of the head
    of [hist]; the result is [(remove, ipCount)]. *)
Fixpoint scan_history (connCount connTime now : Z) (ipName : string)
    (hist : list (string * Z)) (i remove : nat) (ipCount : Z) : nat * Z :=
  match hist with
  | [] => (remove, ipCount)
  | (ip, stamp) :: hist' =>
      if bool_decide (ipCount < connCount) then
        if bool_decide (connTime <= now - stamp)
        then scan_history connCount connTime now ipName hist' (S i) (S i) ipCount
        else if decide (ipName = ip)
             then scan_history connCount connTime now ipName hist' (S i) remove (ipCount + 1)
             else scan_history connCount connTime now ipName hist' (S i) remove ipCount
      else (remove, ipCount)
  end.

(** The limiter at the head of [_socketConnection]: the attempt is recorded
    first, then counted with the others; returns the history kept and
    whether the socket is to be disconnected. *)
Definition rate_limit (conf : ShardMasterConfig) (now : Z) (ipName : string)
    (history : list (string * Z)) : list (string * Z) * bool :=
  let history := history ++ [(ipName, now)] in
  let '(remove, ipCount) :=
    scan_history (connCount conf) (connTime conf) now ipName history 0 0 0 in
  (drop remove history, bool_decide (connCount conf <= ipCount)).





(** [String.prototype.split] on a one-character separator. *)
Fixpoint split_on (sep : ascii) (s : string) : list string :=
  match s with
  | EmptyString => [EmptyString]
  | String c s' =>
      if decide (c = sep) then EmptyString :: split_on sep s'
      else match split_on sep s' with
           | [] => [String c EmptyString]
           | x :: xs => String c x :: xs
           end
  end.

(** Truthiness of a possibly missing string. *)
Definition truthy (s : option string) : bool :=
  match s with
  | None => false
  | Some s => negb (bool_decide (s = ""))
  end.

Definition add_socket (s : SocketId) (l : list SocketId) : list SocketId :=
  if bool_decide (s ∈ l) then l else l ++ [s].

Definition set_socket (k : string) (s : SocketId) (l : list (string * SocketId))
    : list (string * SocketId) :=
  if bool_decide (is_Some (socket_of k l))
  then map (fun ks => if decide (k = fst ks) then (k, s) else ks) l
  else l ++ [(k, s)].

Definition modify_users (f : Registry.t -> Registry.t) (m : t) : t :=
  match _knownUsers m with
  | None => m
  | Some r => set_knownUsers (Some (f r)) m
  end.

Section Handshake.

(** The collaborators of the handshake that live outside of the class:
    [common.getIPName], the coercion of a string to a number ([None] for
    [NaN]), signature verification with a public key (a throw counts as
    [false], as the [catch] leaves [ver] unset), and signing with the
    orchestrator's private key. *)
Variable getIPName : string -> string.
Variable toNumber : string -> option Z.
Variable verify : string -> string -> string -> bool.
Variable sign : string -> string -> string.
Variable showNumber : Z -> string.

(** [common.getIPName(headers['x-forwarded-for'] || handshake.address)] *)
Definition ipName_of (socket : Socket) : string :=
  getIPName (if truthy (forwardedFor socket)
             then default "" (forwardedFor socket)
             else address socket).

(** [_socketConnection].  [updateId], [name1] and [name2] are passed on to
    the pass that follows a successful handshake.  The [status] listener
    closes over [user], the entry the registry holds under [userId]: the
    socket is not among the detached ones. *)
Definition _socketConnection (updateId : option Z) (now : Z)
    (name1 name2 : string) (socket : Socket)
    (m : t) : t * list Effect * Outcome :=
  let sid := socket_id socket in
  let ipName := ipName_of socket in
  let '(history, limited) :=
    rate_limit (_config m) now ipName (_ipConnectHistory m) in
  let m := set_ipConnectHistory history m in
  if limited then (m, [Disconnect sid], Rejected TooManyConnections)
  else
  let m := set_sockets (add_socket sid (_sockets m)) m in
  let m := set_listeners (_listeners m ++ [(sid, OnDisconnect)]) m in
  let shardAuth := authorization socket in
  if negb (truthy shardAuth)
  then (m, [Disconnect sid], Rejected NoAuthorizationHeader)
  else
  let parts := split_on "," (default "" shardAuth) in
  let userId := parts !! 0%nat in
  let userSig := parts !! 1%nat in
  let timestamp := parts !! 2%nat in
  let stampNum := timestamp ≫= toNumber in
  if negb (truthy userId) || negb (truthy userSig)
     || negb (bool_decide (is_Some stampNum ∧ stampNum ≠ Some 0))
  then (m, [Disconnect sid], Rejected InvalidAuthorizationHeader)
  else
  let userId := default "" userId in
  let userSig := default "" userSig in
  let timestamp := default "" timestamp in
  let stampNum := default 0 stampNum in
  match _knownUsers m with
  | None => (m, [Disconnect sid], Rejected UsersNotLoaded)
  | Some knownUsers =>
  match Registry.get userId knownUsers with
  | None => (m, [Disconnect sid], Rejected InvalidUserId)
  | Some user =>
  if bool_decide (is_Some (socket_of userId (_shardSockets m)))
  then (m, [Disconnect sid], Rejected AlreadyConnected)
  else
  if bool_decide (tsPrecision (_config m) < Z.abs (stampNum - now))
  then (m, [Disconnect sid], Rejected InvalidTimestamp)
  else
  match _privKey m with
  | None => (m, [Disconnect sid], Rejected NoPrivateKey)
  | Some privKey =>
  match ShardInfo.key user with
  | None => (m, [Disconnect sid], Rejected NoPublicKey)
  | Some key =>
  let verifData := userId +:+ timestamp in
  let ver := verify key verifData userSig in
  if negb ver then (m, [Disconnect sid], Rejected SignatureNotVerified)
  else
  let m := modify_users (Registry.modify userId (ShardInfo.set_lastSeen now)) m in
  let m := set_socketUserId (_socketUserId m ++ [(sid, userId)]) m in
  if ShardInfo.isMaster user && bool_decide (is_Some (_masterShardSocket m))
  then (m, [Disconnect sid], Rejected MasterAlreadyConnected)
  else
  let signData := "Look at me, I'm the captain now. " +:+ showNumber now in
  let masterSig := sign privKey signData in
  let e1 := [EmitMasterVerification sid masterSig signData] in
  let m := if ShardInfo.isMaster user
           then set_masterShardSocket (Some sid) m
           else set_shardSockets (set_socket userId sid (_shardSockets m)) m in
  let '(m, e2) := _refreshShardStatus updateId now name1 name2 m in
  let m := set_listeners
             (_listeners m ++ [(sid, OnStatus userId); (sid, OnBroadcastEval);
                               (sid, OnRespawnAll); (sid, OnSendSQL)]) m in
  let m := set_detached
             (List.filter (fun d => negb (bool_decide (fst d = sid))) (_detached m)) m in
  (m, e1 ++ e2, Accepted)
  end end end end.

End Handshake.

(** What the [status] listener does to the entry once the payload has been
    turned into [status]: stats, heartbeat, current assignment. *)
Definition apply_status (hb : HeartbeatConfig) (userId : string)
    (status : ShardStatus.t) (user : ShardInfo.t) : ShardInfo.t :=
  let stats := match ShardInfo.stats user with
               | None => ShardStatus.new userId
               | Some old => ShardStatus.update old status
               end in
  let user := ShardInfo.set_stats (Some stats) user in
  let user :=
    if useMessageStats hb then
      if bool_decide (0 < ShardStatus.messageCountDelta stats)
      then ShardInfo.set_lastHeartbeat (ShardInfo.lastSeen user) user
      else user
    else ShardInfo.set_lastHeartbeat (ShardInfo.lastSeen user) user in
  ShardInfo.set_currentShardCount (ShardStatus.currentShardCount stats)
    (ShardInfo.set_currentShardId (ShardStatus.currentShardId stats) user).

(** The [status] listener of a verified socket whose [user] is still the
    entry the registry holds under [userId], the name the listener closed
    over: what is written to [user] is written to that entry. *)
Definition on_status (now : Z) (userId : string) (payload : option ShardStatus.t)
    (m : t) : t * list Effect :=
  let m := modify_users (Registry.modify userId (ShardInfo.set_lastSeen now)) m in
  match ShardStatus.from payload with
  | None => (m, [])
  | Some status =>
      let hb := heartbeat (_config m) in
      let m := modify_users (Registry.modify userId (apply_status hb userId status)) m in
      (m, if bool_decide (updateStyle hb = "push")
          then _sendHeartbeatRequest (Some userId) m else [])
  end.

(** [_sendHeartbeatRequest] called with an entry object. *)
Definition heartbeat_request_to (el : ShardInfo.t) (m : t) : list Effect :=
  if bool_decide (ShardInfo.id el = "") then []
  else
    let socket := if ShardInfo.isMaster el then _masterShardSocket m
                  else socket_of (ShardInfo.id el) (_shardSockets m) in
    match socket with
    | None => []
    | Some s => [EmitUpdate s (request el)]
    end.

(** [obj] takes the place of the object kept for socket [sid]. *)
Definition replace_detached (sid : SocketId) (obj : ShardInfo.t)
    (l : list (SocketId * ShardInfo.t)) : list (SocketId * ShardInfo.t) :=
  map (fun d => if bool_decide (fst d = sid) then (sid, obj) else d) l.

(** The same listener once the registry holds another object under
    [userId]: what it writes goes to [user], the object it closed over,
    and the registry is not touched. *)
Definition on_status_detached (now : Z) (sid : SocketId) (userId : string)
    (user : ShardInfo.t) (payload : option ShardStatus.t) (m : t)
    : t * list Effect :=
  let user := ShardInfo.set_lastSeen now user in
  match ShardStatus.from payload with
  | None => (set_detached (replace_detached sid user (_detached m)) m, [])
  | Some status =>
      let hb := heartbeat (_config m) in
      let user := apply_status hb userId status user in
      (set_detached (replace_detached sid user (_detached m)) m,
       if bool_decide (updateStyle hb = "push")
       then heartbeat_request_to user m else [])
  end.

(** Delivery of a [status] event on a socket: it reaches the listener the
    socket carries, if any, which writes to the object it closed over. *)
Definition status_event (now : Z) (sid : SocketId) (payload : option ShardStatus.t)
    (m : t) : t * list Effect :=
  match List.find (fun sl => bool_decide (fst sl = sid)
                             && match snd sl with OnStatus _ => true | _ => false end)
                  (_listeners m) with
  | Some (_, OnStatus userId) =>
      match List.find (fun d => bool_decide (fst d = sid)) (_detached m) with
      | None => on_status now userId payload m
      | Some (_, user) => on_status_detached now sid userId user payload m
      end
  | _ => (m, [])
  end.

(** ** Broadcast evaluate: [broadcastEvalToShards] *)

(** A call of the requester's callback: [cb(err)] or [cb(null, out)]. *)
Inductive CbCall :=
| CbError (err : string)
| CbResult (out : list (option string)).

(** [out[i] = v] on an array with holes: a write past the end extends it. *)
Fixpoint array_set (i : nat) (v : option string) (out : list (option string))
    : list (option string) :=
  match i, out with
  | O, [] => [v]
  | O, _ :: out' => v :: out'
  | S i', [] => None :: array_set i' v []
  | S i', x :: out' => x :: array_set i' v out'
  end.

(** The variables one call closes over, the acknowledgements still
    outstanding (socket and the shard id captured with it), the calls of
    [cb] made so far, and whether [forEach] was left by a [TypeError]. *)
Record Broadcast := mkBroadcast {
  b_num : Z;
  b_out : list (option string);
  b_numDone : Z;
  b_err : option string;
  b_pending : list (SocketId * Z);
  b_cb : list CbCall;
  b_threw : bool;
}.

(** The inner function [done]. *)
Definition done (b : Broadcast) : Broadcast :=
  let numDone := b_numDone b + 1 in
  match b_err b with
  | Some err =>
      if bool_decide (numDone <= b_num b)
      then mkBroadcast (b_num b) (b_out b) (b_num b + 1) (b_err b) (b_pending b)
                       (b_cb b ++ [CbError err]) (b_threw b)
      else mkBroadcast (b_num b) (b_out b) numDone (b_err b) (b_pending b)
                       (b_cb b) (b_threw b)
  | None =>
      if bool_decide (numDone = b_num b)
      then mkBroadcast (b_num b) (b_out b) numDone (b_err b) (b_pending b)
                       (b_cb b ++ [CbResult (b_out b)]) (b_threw b)
      else mkBroadcast (b_num b) (b_out b) numDone (b_err b) (b_pending b)
                       (b_cb b) (b_threw b)
  end.

(** The body of [sockets.forEach] for one entry of [_shardSockets]. *)
Definition broadcast_visit (script : string) (m : t)
    (acc : Broadcast * list Effect) (ent : string * SocketId)
    : Broadcast * list Effect :=
  let '(b, eff) := acc in
  if b_threw b then acc
  else
    match Registry.get (fst ent) (users m) with
    | None => (mkBroadcast (b_num b) (b_out b) (b_numDone b) (b_err b)
                           (b_pending b) (b_cb b) true, eff)
    | Some user =>
        let id := ShardInfo.currentShardId user in
        if bool_decide (id < 0) then (done b, eff)
        else (mkBroadcast (b_num b) (b_out b) (b_numDone b) (b_err b)
                          (b_pending b ++ [(snd ent, id)]) (b_cb b) (b_threw b),
              eff ++ [EmitEvalRequest (snd ent) script])
    end.

Definition broadcastEvalToShards (script : string) (m : t)
    : Broadcast * list Effect :=
  let sockets := _shardSockets m in
  let num := Z.of_nat (length sockets) in
  fold_left (broadcast_visit script m) sockets
    (mkBroadcast num (replicate (length sockets) None) 0 None [] [] false, []).

Fixpoint take_pending (sid : SocketId) (l : list (SocketId * Z))
    : option (Z * list (SocketId * Z)) :=
  match l with
  | [] => None
  | (s, id) :: l' =>
      if decide (sid = s) then Some (id, l')
      else match take_pending sid l' with
           | Some (id', rest) => Some (id', (s, id) :: rest)
           | None => None
           end
  end.

(** The acknowledgement of one [evalRequest]: socket [sid] answers with
    [(error, res)].  An acknowledgement fires at most once. *)
Definition broadcast_reply (sid : SocketId) (error res : option string)
    (b : Broadcast) : Broadcast :=
  match take_pending sid (b_pending b) with
  | None => b
  | Some (id, rest) =>
      if truthy error
      then done (mkBroadcast (b_num b) (b_out b) (b_numDone b) error rest
                             (b_cb b) (b_threw b))
      else done (mkBroadcast (b_num b) (array_set (Z.to_nat id) res (b_out b))
                             (b_numDone b) (b_err b) rest (b_cb b) (b_threw b))
  end.

Definition broadcast_replies
    (replies : list (SocketId * option string * option string))
    (b : Broadcast) : Broadcast :=
  fold_left (fun b r => broadcast_reply (fst (fst r)) (snd (fst r)) (snd r) b)
            replies b.

(** The sockets a broadcast sends [evalRequest] to, each with the shard id
    its acknowledgement closes over: the entries of [_shardSockets] whose
    registry entry reports a current shard id that is not negative. *)
Definition asked (m : t) : list (SocketId * Z) :=
  flat_map
    (fun ent =>
       match Registry.get (fst ent) (users m) with
       | Some user =>
           if bool_decide (ShardInfo.currentShardId user < 0) then []
           else [(snd ent, ShardInfo.currentShardId user)]
       | None => []
       end)
    (_shardSockets m).

(** What [forEach] adds for the entries [sockets] of [_shardSockets]. *)
Definition asked_among (m : t) (sockets : list (string * SocketId))
    : list (SocketId * Z) :=
  flat_map
    (fun ent =>
       match Registry.get (fst ent) (users m) with
       | Some user =>
           if bool_decide (ShardInfo.currentShardId user < 0) then []
           else [(snd ent, ShardInfo.currentShardId user)]
       | None => []
       end)
    sockets.

(** The state of the call while [forEach] has visited [k] sockets. *)
Definition visiting (k : Z) (b : Broadcast) : Prop :=
  b_err b = None /\ b_threw b = false
  /\ b_numDone b + Z.of_nat (length (b_pending b)) = k
  /\ (b_numDone b < b_num b -> b_cb b = [])
  /\ (b_numDone b = b_num b -> 0 < k -> b_cb b = [CbResult (b_out b)]).

(** The stages of a broadcast: waiting for acknowledgements with nothing
    reported yet, completed with the collected array, failed with an error. *)
Definition running (b : Broadcast) : Prop :=
  b_err b = None /\ b_cb b = []
  /\ b_numDone b + Z.of_nat (length (b_pending b)) = b_num b
  /\ b_pending b <> [].

Definition completed (b : Broadcast) : Prop :=
  b_err b = None /\ b_pending b = [] /\ b_cb b = [CbResult (b_out b)].

Definition failed (e : string) (b : Broadcast) : Prop :=
  b_cb b = [CbError e] /\ is_Some (b_err b) /\ b_num b < b_numDone b.

(** A reply as it arrives: socket, error, result. *)
Definition Reply : Type := SocketId * option string * option string.
Definition reply_socket (r : Reply) : SocketId := fst (fst r).
Definition reply_error (r : Reply) : option string := snd (fst r).
Definition reply_result (r : Reply) : option string := snd r.

(** ** ShardingMaster: further handlers and vocabulary *)

(** What [newIds.forEach] writes into the spare entry it hands the id [el]
    to: [s.bootTime = now; s.goalShardId = el; s.goalShardCount = goal]. *)
Definition assigned (now goal el : Z) (s : ShardInfo.t) : ShardInfo.t :=
  ShardInfo.set_goalShardCount goal
    (ShardInfo.set_goalShardId el (ShardInfo.set_bootTime now s)).

(** The effect asks for a key pair: [generateShardConfig] was called. *)
Definition is_keygen (e : Effect) : bool :=
  match e with
  | GenerateKeyPair _ _ => true
  | _ => false
  end.

(** ** The [disconnect] listener of a socket *)

(** [delete obj[k]] on the [_shardSockets] object. *)
Fixpoint delete_socket (k : string) (l : list (string * SocketId))
    : list (string * SocketId) :=
  match l with
  | [] => []
  | (k', s) :: l' => if decide (k = k') then l' else (k', s) :: delete_socket k l'
  end.

(** [socket.userId], once set. *)
Definition userId_of (sid : SocketId) (m : t) : option string :=
  snd <$> List.find (fun su => bool_decide (fst su = sid)) (_socketUserId m).

(** The [disconnect] listener [_socketConnection] attaches to a socket
    that passed the limiter.  [isMasterShard] is the property of that name
    on the socket, which the handshake sets to [true] on the socket it
    accepts for the master entry. *)
Definition on_disconnect (sid : SocketId) (isMasterShard : bool) (m : t) : t :=
  let m := set_sockets (List.filter (fun s => negb (bool_decide (s = sid)))
                                    (_sockets m)) m in
  let m := if truthy (userId_of sid m)
           then set_shardSockets
                  (delete_socket (default "" (userId_of sid m)) (_shardSockets m)) m
           else m in
  if isMasterShard then set_masterShardSocket None m else m.

(** ** Reloading the registry: [_updateUsers] *)

(** What the callback of [fs.readFile] in [_updateUsers] finds: an error
    other than [ENOENT], no file, a file [JSON.parse] throws on, or the
    parsed object, property by property in the order of [for ... in], each
    with the entry [ShardInfo.from] builds of its value ([None] for a value
    that is falsy and skipped).  [UsersCut] is the parsed object up to a
    property on which [ShardInfo.from] throws. *)
Inductive UsersFile :=
| ReadFailed
| NoFile
| Unparsable
| Users (parsed : list (string * option ShardInfo.t))
| UsersCut (parsed : list (string * option ShardInfo.t)).

(** [this._knownUsers = {}] followed by the loop that fills it. *)
Definition loaded_users (parsed : list (string * option ShardInfo.t)) : Registry.t :=
  fold_left
    (fun r kv => match snd kv with
                 | Some el => if bool_decide (fst kv = "") then r
                              else Registry.set (fst kv) el r
                 | None => r
                 end)
    parsed [].

(** What becomes of the [user] objects of the [status] listeners when the
    registry is given new objects: a listener that closed over an entry of
    the registry keeps that entry, as it was, to itself.  A listener is
    attached by a handshake that found the entry of its name in the
    registry, with a key, and no handler modelled here takes an entry with
    a key out of the registry, so that the entry is still there. *)
Definition detach (m : t) : list (SocketId * ShardInfo.t) :=
  _detached m
  ++ flat_map
       (fun sl => match snd sl with
                  | OnStatus userId =>
                      if bool_decide (fst sl ∈ map fst (_detached m)) then []
                      else match Registry.get userId (users m) with
                           | Some user => [(fst sl, user)]
                           | None => []
                           end
                  | _ => []
                  end)
       (_listeners m).

(** The callback of [fs.readFile] in [_updateUsers]; the log is left out.
    The registry is replaced by new objects and a pass follows; a read
    error and a file that does not parse leave everything as it is, and an
    exception in the loop leaves the registry as far as it was filled,
    without a pass. *)
Definition _updateUsers (file : UsersFile) (updateId : option Z) (now : Z)
    (name1 name2 : string) (m : t) : t * list Effect :=
  match file with
  | ReadFailed => (m, [])
  | Unparsable => (m, [])
  | NoFile =>
      _refreshShardStatus updateId now name1 name2
        (set_knownUsers (Some []) (set_detached (detach m) m))
  | Users parsed =>
      _refreshShardStatus updateId now name1 name2
        (set_knownUsers (Some (loaded_users parsed)) (set_detached (detach m) m))
  | UsersCut parsed =>
      (set_knownUsers (Some (loaded_users parsed)) (set_detached (detach m) m), [])
  end.

(** ** [respawnAll] *)

(** The body of [list.forEach] in [respawnAll], with the counter [i]: an
    entry that runs its goal shard takes the delay [i * respawnDelay] and
    moves the counter on, whether its socket is there or not. *)
Fixpoint respawn_visit (m : t) (i : Z) (infos : list ShardInfo.t) : list Effect :=
  match infos with
  | [] => []
  | info :: infos' =>
      if bool_decide (ShardInfo.goalShardId info < 0)
         || negb (bool_decide (ShardInfo.goalShardId info = ShardInfo.currentShardId info))
      then respawn_visit m i infos'
      else
        match socket_of (ShardInfo.id info) (_shardSockets m) with
        | Some socket => [EmitRespawn socket (i * respawnDelay (_config m))]
        | None => []
        end ++ respawn_visit m (i + 1) infos'
  end.

(** [respawnAll]: the [respawn] events it emits, after which [cb] is
    called; [None] when the registry is still [null], where [Object.values]
    throws. *)
Definition respawnAll (m : t) : option (list Effect) :=
  match _knownUsers m with
  | None => None
  | Some r => Some (respawn_visit m 0 (Registry.values r))
  end.

(** The delays of the [respawn] events among the effects. *)
Definition respawn_delays (eff : list Effect) : list Z :=
  flat_map (fun e => match e with EmitRespawn _ delay => [delay] | _ => [] end) eff.

(** The entry runs the shard it is to run. *)
Definition runs_goal (info : ShardInfo.t) : bool :=
  negb (bool_decide (ShardInfo.goalShardId info < 0)
        || negb (bool_decide (ShardInfo.goalShardId info = ShardInfo.currentShardId info))).

(** A string without the separator of the authorization header. *)
Fixpoint no_comma (s : string) : bool :=
  match s with
  | EmptyString => true
  | String c s' => negb (bool_decide (c = ","%char)) && no_comma s'
  end.

End ShardingMaster.

(** ** ShardingSlave: the worker agent *)

Module ShardingSlave.

Definition ChildId := nat.

(** The callback of one [_evalRequest] call: the acknowledgement of an
    [evalRequest] event, or the closure around [_hbEvalResHandler]. *)
Definition CbId := nat.

(** What a callback is called with: [cb(null, res)] or [cb(err)]. *)
Inductive EvalOutcome :=
| EvalResult (res : string)
| EvalError (err : string).

(** A promise of [_evals]: pending with the callbacks chained on it, in the
    order they were chained, or settled. *)
Inductive Promise :=
| Pending (waiters : list CbId)
| Settled (o : EvalOutcome).

(** A message of the child process, as far as [_evalRequest] reads it. *)
Record Message := mkMessage {
  _eval : option string;
  _error : option string;
  _result : string;
}.

(** The settings of an [update] event, as far as [_updateRequest] reads
    them: [settings.id], [settings.count] and
    [settings.config.heartbeat.updateStyle]. *)
Record Settings := mkSettings {
  id : Z;
  count : Z;
  updateStyle : string;
}.

Record t := mk {
  _lastSeen : Z;
  (** the assignment in [this._status] *)
  goalShardId : Z;
  goalShardCount : Z;
  currentShardId : Z;
  currentShardCount : Z;
  (** [this._child], and how many children were forked so far *)
  _child : option ChildId;
  forked : nat;
  (** [this._evals] *)
  _evals : gmap string nat;
  (** every promise [_evalRequest] created, by creation index *)
  promises : list Promise;
  (** the [message] listeners of [_evalRequest], per child object *)
  listeners : list (ChildId * (string * nat));
  (** the [{_eval: script}] messages handed to [child.send] *)
  sends : list (ChildId * string);
  (** completion callbacks of [child.send] not yet called *)
  sendCallbacks : list (string * nat);
  (** calls of the callbacks, oldest first *)
  calls : list (CbId * EvalOutcome);
  (** the process is gone: an exception escaped a listener, or [exit] ran *)
  halted : bool;
}.

(** The agent as its constructor leaves it: the status is a new
    [ShardStatus], there is no child, and [_evals] is empty. *)
Definition new (name : string) : t :=
  let status := ShardStatus.new name in
  mk 0 (ShardStatus.goalShardId status) (ShardStatus.goalShardCount status)
     (ShardStatus.currentShardId status) (ShardStatus.currentShardCount status)
     None 0 ∅ [] [] [] [] [] false.

Definition truthy (s : option string) : bool :=
  match s with
  | None => false
  | Some s => negb (bool_decide (s = ""))
  end.

Definition set_lastSeen (now : Z) (s : t) : t :=
  mk now (goalShardId s) (goalShardCount s) (currentShardId s)
     (currentShardCount s) (_child s) (forked s) (_evals s) (promises s)
     (listeners s) (sends s) (sendCallbacks s) (calls s) (halted s).

Definition set_child (c : option ChildId) (s : t) : t :=
  mk (_lastSeen s) (goalShardId s) (goalShardCount s) (currentShardId s)
     (currentShardCount s) c (forked s) (_evals s) (promises s)
     (listeners s) (sends s) (sendCallbacks s) (calls s) (halted s).

Definition set_goal (shardId shardCount : Z) (s : t) : t :=
  mk (_lastSeen s) shardId shardCount (currentShardId s)
     (currentShardCount s) (_child s) (forked s) (_evals s) (promises s)
     (listeners s) (sends s) (sendCallbacks s) (calls s) (halted s).

Definition set_current (shardId shardCount : Z) (s : t) : t :=
  mk (_lastSeen s) (goalShardId s) (goalShardCount s) shardId shardCount
     (_child s) (forked s) (_evals s) (promises s)
     (listeners s) (sends s) (sendCallbacks s) (calls s) (halted s).

Definition halt (s : t) : t :=
  mk (_lastSeen s) (goalShardId s) (goalShardCount s) (currentShardId s)
     (currentShardCount s) (_child s) (forked s) (_evals s) (promises s)
     (listeners s) (sends s) (sendCallbacks s) (calls s) true.

(** [resolve] or [reject] of promise [p]: the callbacks chained on a pending
    promise are called in order; a settled promise stays as it is. *)
Definition settle (p : nat) (o : EvalOutcome) (s : t) : t :=
  match promises s !! p with
  | Some (Pending ws) =>
      mk (_lastSeen s) (goalShardId s) (goalShardCount s) (currentShardId s)
         (currentShardCount s) (_child s) (forked s) (_evals s)
         (<[p := Settled o]> (promises s)) (listeners s) (sends s)
         (sendCallbacks s) (calls s ++ map (fun cb => (cb, o)) ws) (halted s)
  | _ => s
  end.

(** [promise.then((res) => cb(null, res)).catch((err) => cb(err))] *)
Definition chain (p : nat) (cb : CbId) (s : t) : t :=
  match promises s !! p with
  | Some (Pending ws) =>
      mk (_lastSeen s) (goalShardId s) (goalShardCount s) (currentShardId s)
         (currentShardCount s) (_child s) (forked s) (_evals s)
         (<[p := Pending (ws ++ [cb])]> (promises s)) (listeners s) (sends s)
         (sendCallbacks s) (calls s) (halted s)
  | Some (Settled o) =>
      mk (_lastSeen s) (goalShardId s) (goalShardCount s) (currentShardId s)
         (currentShardCount s) (_child s) (forked s) (_evals s)
         (promises s) (listeners s) (sends s)
         (sendCallbacks s) (calls s ++ [(cb, o)]) (halted s)
  | None => s
  end.

(** [_evalRequest] *)
Definition _evalRequest (now : Z) (script : string) (cb : CbId) (s : t) : t :=
  let s := set_lastSeen now s in
  match _child s with
  | None =>
      mk (_lastSeen s) (goalShardId s) (goalShardCount s) (currentShardId s)
         (currentShardCount s) (_child s) (forked s) (_evals s)
         (promises s) (listeners s) (sends s) (sendCallbacks s)
         (calls s ++ [(cb, EvalError "Not Running")]) (halted s)
  | Some child =>
      match _evals s !! script with
      | Some p => chain p cb s
      | None =>
          let p := length (promises s) in
          chain p cb
            (mk (_lastSeen s) (goalShardId s) (goalShardCount s)
                (currentShardId s) (currentShardCount s) (_child s) (forked s)
                (<[script := p]> (_evals s))
                (promises s ++ [Pending []])
                (listeners s ++ [(child, (script, p))])
                (sends s ++ [(child, script)])
                (sendCallbacks s ++ [(script, p)])
                (calls s) (halted s))
      end
  end.

Definition same_listener (a b : ChildId * (string * nat)) : bool :=
  bool_decide (a = b).

(** What the listener and the completion callback of [child.send] share:
    detach from the current child, forget the script, settle.  Reading
    [this._child] when it is [null] throws. *)
Definition finish (script : string) (p : nat) (o : EvalOutcome) (s : t) : t :=
  match _child s with
  | None => halt s
  | Some cur =>
      settle p o
        (mk (_lastSeen s) (goalShardId s) (goalShardCount s) (currentShardId s)
            (currentShardCount s) (_child s) (forked s)
            (delete script (_evals s)) (promises s)
            (List.filter (fun l => negb (same_listener (cur, (script, p)) l))
                         (listeners s))
            (sends s) (sendCallbacks s) (calls s) (halted s))
  end.

(** The [listener] closure of the promise [p] created for [script]. *)
Definition listener (script : string) (p : nat) (message : Message) (s : t) : t :=
  if negb (bool_decide (_eval message = Some script)) then s
  else if negb (truthy (_error message))
       then finish script p (EvalResult (_result message)) s
       else finish script p (EvalError (default "" (_error message))) s.

(** A [message] event of child [c]: the listeners attached to [c] when the
    event is emitted run in order, until one throws. *)
Fixpoint run_listeners (ls : list (string * nat)) (message : Message) (s : t) : t :=
  match ls with
  | [] => s
  | (script, p) :: ls' =>
      if halted s then s
      else run_listeners ls' message (listener script p message s)
  end.

Definition child_message (c : ChildId) (message : Message) (s : t) : t :=
  run_listeners
    (map snd (List.filter (fun l => bool_decide (fst l = c)) (listeners s)))
    message s.

(** The completion callback of [child.send] for the promise [p]. *)
Definition send_done (script : string) (p : nat) (err : option string) (s : t) : t :=
  if bool_decide ((script, p) ∈ sendCallbacks s) then
    let s := mk (_lastSeen s) (goalShardId s) (goalShardCount s)
                (currentShardId s) (currentShardCount s) (_child s) (forked s)
                (_evals s) (promises s) (listeners s) (sends s)
                (List.filter (fun c => negb (bool_decide (c = (script, p))))
                             (sendCallbacks s))
                (calls s) (halted s) in
    if negb (truthy err) then s
    else finish script p (EvalError (default "" err)) s
  else s.

(** [_spawnChild], as far as it decides [this._child] and the assignment.
    [this._status.reset()] is a method of [ShardStatus]; the goal it leaves
    is the one the child is started for. *)
Definition _spawnChild (s : t) : t :=
  if bool_decide (goalShardId s < 0) then s
  else match _child s with
       | Some _ => s
       | None =>
           mk (_lastSeen s) (goalShardId s) (goalShardCount s)
              (goalShardId s) (goalShardCount s)
              (Some (forked s)) (S (forked s))
              (_evals s) (promises s) (listeners s) (sends s)
              (sendCallbacks s) (calls s) (halted s)
       end.

(** [_handleExit] *)
Definition _handleExit (s : t) : t :=
  let s := set_current (-1) (-1) (set_child None s) in
  if bool_decide (0 <= goalShardId s) then _spawnChild s else s.

(** [_handleError] *)
Definition _handleError (s : t) : t :=
  set_current (-1) (-1) (set_goal (-1) (-1) (set_child None s)).

(** [_respawnChild] called without a delay: a child that runs is sent a
    signal (its exit is an event of its own); without one, a child is
    spawned when there is a goal. *)
Definition _respawnChild (s : t) : t :=
  match _child s with
  | Some _ => s
  | None => if bool_decide (0 <= goalShardId s) then _spawnChild s else s
  end.

(** [exit]: the process ends. *)
Definition exit (s : t) : t :=
  halt (if bool_decide (0 <= goalShardId s) then set_goal (-2) (-2) s else s).

(** The script of the heartbeat, [hbEvalReq]. *)
Definition hbEvalReq : string := "this.getStats && this.getStats(true) || null".

(** [_generateHeartbeat]: [connected] is [this._socket.connected], and [cb]
    names the closure around [_hbEvalResHandler]. *)
Definition _generateHeartbeat (now : Z) (connected : bool) (cb : CbId) (s : t) : t :=
  if negb connected then s else _evalRequest now hbEvalReq cb s.

(** [_updateRequest] with the [_hbTimeoutHandler] it ends on.  [settings]
    is [None] for a payload that is not an object.  The timer is left out,
    and so are the staleness tests of [_hbTimeoutHandler]: they compare the
    age of [_lastSeen], which was just set, with thresholds. *)
Definition _updateRequest (now : Z) (connected : bool) (cb : CbId)
    (settings : option Settings) (s : t) : t :=
  let s := set_lastSeen now s in
  match settings with
  | None => s
  | Some settings =>
      let s := set_goal (id settings) (count settings) s in
      let changed := negb (bool_decide (currentShardId s = goalShardId s))
                     || negb (bool_decide (currentShardCount s = goalShardCount s)) in
      if changed && bool_decide (goalShardId s < -1) then exit s
      else
        let s := if changed
                 then if bool_decide (0 <= currentShardId s)
                      then _respawnChild s else _spawnChild s
                 else s in
        let s := if bool_decide (updateStyle settings = "pull")
                 then _generateHeartbeat now connected cb s else s in
        if bool_decide (updateStyle settings = "push")
        then _generateHeartbeat now connected cb s else s
  end.

(** The events of the worker's event loop that touch evaluation. *)
Inductive Event :=
| EvalRequest (now : Z) (script : string) (cb : CbId)
| ChildMessage (c : ChildId) (message : Message)
| SendDone (script : string) (p : nat) (err : option string)
| ChildExit
| ChildError
| UpdateRequest (now : Z) (connected : bool) (cb : CbId) (settings : option Settings)
| Respawn
| Exit.

Definition step (s : t) (e : Event) : t :=
  if halted s then s
  else match e with
       | EvalRequest now script cb => _evalRequest now script cb s
       | ChildMessage c message => child_message c message s
       | SendDone script p err => send_done script p err s
       | ChildExit => _handleExit s
       | ChildError => _handleError s
       | UpdateRequest now connected cb settings =>
           _updateRequest now connected cb settings s
       | Respawn => _respawnChild s
       | Exit => exit s
       end.

Definition run (trace : list Event) (s : t) : t := fold_left step trace s.

(** ** Vocabulary for the properties of evaluation requests *)

(** The outcomes callback [cb] has been called with, oldest first. *)
Definition outs (cb : CbId) (l : list (CbId * EvalOutcome)) : list EvalOutcome :=
  map snd (List.filter (fun c => bool_decide (fst c = cb)) l).

Definition outcomes (cb : CbId) (s : t) : list EvalOutcome := outs cb (calls s).

(** How many [{_eval: script}] messages were handed to a child. *)
Definition sent_count (script : string) (s : t) : nat :=
  length (List.filter (fun m => bool_decide (snd m = script)) (sends s)).

(** How often [cb] is chained on a promise. *)
Definition waiting (cb : CbId) (pr : Promise) : nat :=
  match pr with
  | Pending ws => length (List.filter (fun w => bool_decide (w = cb)) ws)
  | Settled _ => 0%nat
  end.

(** A request for [script] is pending: [this._evals.has(script)]. *)
Definition pending (script : string) (s : t) : bool :=
  bool_decide (is_Some (_evals s !! script)).

(** [cb] is unused in [s]: chained on no promise and never called. *)
Definition unused (cb : CbId) (s : t) : Prop :=
  (forall q pr, promises s !! q = Some pr -> waiting cb pr = 0%nat)
  /\ outcomes cb s = [].

(** [owner] names the script every promise of [s] was created for: the
    listeners and the completion callbacks are closures over the script and
    the promise they were made with, and a script in [_evals] is mapped to a
    promise of its own that is pending. *)
Definition owned (owner : list string) (s : t) : Prop :=
  length owner = length (promises s)
  /\ (forall c script p, (c, (script, p)) ∈ listeners s -> owner !! p = Some script)
  /\ (forall script p, (script, p) ∈ sendCallbacks s -> owner !! p = Some script)
  /\ (forall script p, _evals s !! script = Some p ->
        owner !! p = Some script
        /\ exists ws, promises s !! p = Some (Pending ws)).

(** [s'] differs from [s] in the clock, the assignment, the child or the
    end of the process only: what evaluation keeps is the same. *)
Definition same_evals (s s' : t) : Prop :=
  _evals s' = _evals s /\ promises s' = promises s
  /\ listeners s' = listeners s /\ sends s' = sends s
  /\ sendCallbacks s' = sendCallbacks s /\ calls s' = calls s.

(** The event settles a request for [script]: a message of a child that
    answers [script], or the failure of a send for [script]. *)
Definition settles (script : string) (e : Event) : bool :=
  match e with
  | ChildMessage _ message => bool_decide (_eval message = Some script)
  | SendDone script' _ err => bool_decide (script' = script) && truthy err
  | _ => false
  end.

(** The event makes a request whose callback is [cb]. *)
Definition uses (cb : CbId) (e : Event) : bool :=
  match e with
  | EvalRequest _ _ cb' => bool_decide (cb' = cb)
  | UpdateRequest _ _ cb' _ => bool_decide (cb' = cb)
  | _ => false
  end.

(** [cb1] and [cb2] wait on the same promises and were called alike. *)
Definition balanced (cb1 cb2 : CbId) (s : t) : Prop :=
  (forall q pr, promises s !! q = Some pr -> waiting cb1 pr = waiting cb2 pr)
  /\ outcomes cb1 s = outcomes cb2 s.

(** A request for [script] is in flight on promise [p]: [_evals] maps the
    script to [p], [p] is pending with [cb1] chained on it once and [cb2] not
    at all, neither callback waits elsewhere or was called, [sent] messages
    for the script went to a child, and the closures made with [p] are those
    of [script]. *)
Definition in_flight (script : string) (p : nat) (cb1 cb2 : CbId) (sent : nat)
    (s : t) : Prop :=
  _evals s !! script = Some p
  /\ (exists ws, promises s !! p = Some (Pending ws)
                 /\ waiting cb1 (Pending ws) = 1%nat
                 /\ waiting cb2 (Pending ws) = 0%nat)
  /\ (forall q pr, promises s !! q = Some pr -> q <> p ->
        waiting cb1 pr = 0%nat /\ waiting cb2 pr = 0%nat)
  /\ outcomes cb1 s = [] /\ outcomes cb2 s = []
  /\ sent_count script s = sent
  /\ (forall c script' p', (c, (script', p')) ∈ listeners s ->
        (p' < length (promises s))%nat /\ (p' = p -> script' = script))
  /\ (forall script' p', (script', p') ∈ sendCallbacks s ->
        (p' < length (promises s))%nat /\ (p' = p -> script' = script)).

(** The outcome the [listener] closure settles its promise with when a
    message answers its script: [resolve(message._result)] without
    [message._error], and [reject(message._error)] with it. *)
Definition outcome_of (message : Message) : EvalOutcome :=
  if negb (truthy (_error message)) then EvalResult (_result message)
  else EvalError (default "" (_error message)).

(** Every script of [_evals] has the listener of its promise on a child
    that was sent the script. *)
Definition listened (s : t) : Prop :=
  forall script p, _evals s !! script = Some p ->
    exists c, (c, (script, p)) ∈ listeners s /\ (c, script) ∈ sends s.

(** [cb] has joined the request for [script] on promise [p], whose
    listener is on child [c]: [cb] waits on no other promise; the closures
    made with [p] are those of [script]; and either [p] is pending with [cb]
    chained on it once, [cb] was not called and the listener is attached,
    or [p] is settled and [cb] was called once, with the outcome [p] was
    settled with. *)
Definition joined (script : string) (p : nat) (c : ChildId) (cb : CbId)
    (s : t) : Prop :=
  (forall q pr, promises s !! q = Some pr -> q <> p -> waiting cb pr = 0%nat)
  /\ (forall c' script', (c', (script', p)) ∈ listeners s -> script' = script)
  /\ (forall script', (script', p) ∈ sendCallbacks s -> script' = script)
  /\ match promises s !! p with
     | Some (Pending ws) =>
         waiting cb (Pending ws) = 1%nat /\ outcomes cb s = []
         /\ (c, (script, p)) ∈ listeners s
     | Some (Settled o) => outcomes cb s = [o]
     | None => False
     end.

(** ** File relay: [_receiveMasterFile] and [_sendMasterFile] *)

(** The segments of a path: the pieces between slashes. *)
Definition segments (path : string) : list string :=
  ShardingMaster.split_on "/" path.

(** One segment applied to the segments resolved so far (innermost last). *)
Definition resolve_step (acc : list string) (seg : string) : list string :=
  if bool_decide (seg = "") || bool_decide (seg = ".") then acc
  else if bool_decide (seg = "..") then removelast acc
  else acc ++ [seg].

Definition join (segs : list string) : string :=
  match segs with
  | [] => "/"
  | _ => fold_right (fun seg rest => "/" +:+ seg +:+ rest) "" segs
  end.

(** POSIX [path.resolve] of one absolute path: empty and [.] segments
    vanish, [..] drops the segment before it and is void at the root. *)
Definition resolve_segments (path : string) : list string :=
  fold_left resolve_step (segments path) [].

Definition path_resolve (path : string) : string :=
  join (resolve_segments path).

Inductive FileEffect :=
| MkAndWrite (file : string) (data : string)
| ReadFile (file : string)
| Reply (data : option string).

(** How a handler ends: it returns, or an exception escapes it. *)
Inductive Completion :=
| Returned
| Threw (what : string).

(** [_receiveMasterFile]; [botCWD] is the constant of that name, the
    project root.  The warning of the rejecting branch is sent to
    [this.logWarning], which the class does not define. *)
Definition _receiveMasterFile (botCWD : string) (now : Z) (filename data : string)
    (s : t) : t * list FileEffect * Completion :=
  let s := set_lastSeen now s in
  let file := path_resolve (botCWD +:+ "/" +:+ filename) in
  if negb (String.prefix botCWD file)
  then (s, [], Threw "TypeError: this.logWarning is not a function")
  else (s, [MkAndWrite file data], Returned).

(** [_sendMasterFile], up to the call of [fs.readFile]. *)
Definition _sendMasterFile (botCWD : string) (now : Z) (filename : string)
    (s : t) : t * list FileEffect * Completion :=
  let s := set_lastSeen now s in
  let file := path_resolve (botCWD +:+ "/" +:+ filename) in
  if negb (String.prefix botCWD file)
  then (s, [Reply None], Returned)
  else (s, [ReadFile file], Returned).

(** The effects of a handler run. *)
Definition effects (r : t * list FileEffect * Completion) : list FileEffect :=
  snd (fst r).

(** The callback of [fs.readFile]. *)
Definition _sendMasterFile_read (result : option string) : list FileEffect :=
  [Reply result].

(** [file] lies in the directory [root] or below it. *)
Definition within (root file : string) : Prop :=
  resolve_segments root `prefix_of` resolve_segments file.

(** ** ShardingSlave: further handlers and vocabulary *)

(** ** Counting callbacks and following the child *)

(** How often [cb] is chained on the promises of [s]. *)
Definition waits (cb : CbId) (s : t) : nat :=
  list_sum (map (waiting cb) (promises s)).

(** The calls of [cb] made so far and those the pending promises will
    still make. *)
Definition budget (cb : CbId) (s : t) : nat :=
  (waits cb s + length (outcomes cb s))%nat.

(** [s'] has the child, the assignment and the fork count of [s]. *)
Definition same_child (s s' : t) : Prop :=
  _child s' = _child s /\ goalShardId s' = goalShardId s
  /\ currentShardId s' = currentShardId s /\ forked s' = forked s.

(** An agent without a child reports no shard. *)
Definition idle_reports_none (s : t) : Prop :=
  _child s = None -> currentShardId s < 0.

(** The agent has no child and no goal, and has forked [n] children. *)
Definition given_up (n : nat) (s : t) : Prop :=
  _child s = None /\ goalShardId s < 0 /\ forked s = n.

(** The event is an [update] of the orchestrator. *)
Definition is_update (e : Event) : bool :=
  match e with
  | UpdateRequest _ _ _ _ => true
  | _ => false
  end.

(** ** Segments of a resolved path *)

(** The character [c] occurs in [s]. *)
Fixpoint has_char (c : ascii) (s : string) : bool :=
  match s with
  | EmptyString => false
  | String c' s' => bool_decide (c' = c) || has_char c s'
  end.

(** A segment [resolve_step] appends: not empty, not [.], not [..]. *)
Definition kept (seg : string) : bool :=
  negb (bool_decide (seg = "") || bool_decide (seg = "."))
  && negb (bool_decide (seg = "..")).

(** A segment of a resolved path: kept, and without a slash. *)
Definition proper (seg : string) : bool :=
  kept seg && negb (has_char "/" seg).

(** ** The connection to the orchestrator *)

(** What the agent keeps about the state of its connection:
    [this._verified]. *)
Record Link := mkLink {
  _verified : bool;
}.

Section Connection.

(** Signing and verification come from [crypto], and a number is written
    into a template string by [showNumber]. *)
Variable sign : string -> string -> string.
Variable verify : string -> string -> string -> bool.
Variable showNumber : Z -> string.

(** [_generateAuthHeader], for the agent named [name] that holds the
    private key [privKey]. *)
Definition _generateAuthHeader (name privKey : string) (now : Z) : string :=
  let signData := name +:+ showNumber now in
  let signature := sign privKey signData in
  name +:+ "," +:+ signature +:+ "," +:+ showNumber now.

(** [_masterVerification]; [masterPubKey] is [this._config.masterPubKey].
    A signature that does not verify is logged and changes nothing but
    [_lastSeen]. *)
Definition _masterVerification (masterPubKey : string) (now : Z) (sig data : string)
    (s : t) (l : Link) : t * Link :=
  let s := set_lastSeen now s in
  if negb (verify masterPubKey data sig) then (s, l)
  else (s, mkLink true).

End Connection.

End ShardingSlave.

(** ** Sample configurations and registries *)

Module Sample.
Import ShardingMaster.

Definition hb : HeartbeatConfig :=
  mkHeartbeatConfig "pull" 10000 false 30000 60000 120000 false.

Definition mailOff : MailConfig := mkMailConfig false "mail" ["-s"; "failed"] "failed".
Definition mailOn : MailConfig := mkMailConfig true "mail" ["-s"; "failed"] "failed".

Definition conf : ShardMasterConfig :=
  mkShardMasterConfig 2 false 3 10000 5000 1000 hb mailOff.

Definition now : Z := 1000000.

(** A worker entry that runs what it was told to, last heard of at [beat]. *)
Definition worker (name : string) (shardId count boot beat : Z) : ShardInfo.t :=
  ShardInfo.mk name (Some "pub") false shardId count shardId count beat beat
               boot 0 None.

Definition masterEntry : ShardInfo.t :=
  ShardInfo.mk "mas" (Some "pub") true 1000 2 1000 2 0 0 0 0 None.

Definition master (r : Registry.t) : ShardingMaster.t :=
  ShardingMaster.mk conf (Some r) (-1) (Some "priv") (Some "pub") 0 0
                    [] [] [] None [] [] [].

(** Two live workers on shard 0 of 2, one booted after the other. *)
Definition twins : Registry.t :=
  [("aaa", worker "aaa" 0 2 400 (now - 1000));
   ("bbb", worker "bbb" 0 2 500 (now - 2000));
   ("mas", masterEntry)].

(** The same, but the one booted last has been silent for 40 seconds. *)
Definition twinsNewestSilent : Registry.t :=
  [("aaa", worker "aaa" 0 2 500 (now - 40000));
   ("bbb", worker "bbb" 0 2 400 (now - 1000));
   ("mas", masterEntry)].

(** A worker silent for exactly [requestRebootAfter], and one silent for a
    millisecond more. *)
Definition silentOnTheDot : Registry.t :=
  [("aaa", worker "aaa" 0 2 500 (now - 30000));
   ("bbb", worker "bbb" 1 2 500 (now - 30001));
   ("mas", masterEntry)].

(** A worker on shard 0 of 2 silent for longer than [assumeDeadAfter]. *)
Definition oneDead : Registry.t :=
  [("aaa", worker "aaa" 0 2 500 (now - 130000)); ("mas", masterEntry)].

(** Stand-ins for the collaborators of the handshake: addresses are their
    own names, numbers are strings of decimal digits, and a signature is
    valid when it spells out key and data. *)
Definition getIPName (address : string) : string := address.

Fixpoint digits (s : string) (acc : Z) : option Z :=
  match s with
  | EmptyString => Some acc
  | String c s' =>
      let d := Z.of_nat (nat_of_ascii c) - 48 in
      if bool_decide (0 <= d) && bool_decide (d <= 9)
      then digits s' (10 * acc + d) else None
  end.

Definition toNumber (s : string) : option Z := digits s 0.

Definition verify (key data signature : string) : bool :=
  bool_decide (signature = key +:+ "/" +:+ data).

Definition sign (privKey data : string) : string := privKey +:+ "/" +:+ data.

Definition showNumber (n : Z) : string := "now".

(** The master shard is connected on socket [s1]; a second socket presents
    the master's name with a valid signature. *)
Definition masterConnected : ShardingMaster.t :=
  ShardingMaster.mk conf (Some twins) (-1) (Some "priv") (Some "pub") 0 0
                    [] ["s1"] [] (Some "s1") [("s1", "mas")]
                    [("s1", OnDisconnect); ("s1", OnStatus "mas")] [].

Definition secondMasterSocket : Socket :=
  mkSocket "s2" None "10.0.0.7" (Some "mas,pub/mas1000000,1000000").



(** A socket that presents a known name with a signature that is not one. *)
Definition forgedSocket : Socket :=
  mkSocket "s4" None "10.0.0.9" (Some "aaa,forged,1000000").

(** The same orchestrator with heartbeats taken from message activity, and
    with mail switched on. *)
Definition hbStats : HeartbeatConfig :=
  mkHeartbeatConfig "pull" 10000 false 30000 60000 120000 true.

Definition confStats : ShardMasterConfig :=
  mkShardMasterConfig 2 false 3 10000 5000 1000 hbStats mailOff.

Definition confMail : ShardMasterConfig :=
  mkShardMasterConfig 2 false 3 10000 5000 1000 hb mailOn.

Definition masterStats (r : Registry.t) : ShardingMaster.t :=
  ShardingMaster.mk confStats (Some r) (-1) (Some "priv") (Some "pub") 0 0
                    [] [] [] None [] [] [].

Definition masterMail (r : Registry.t) : ShardingMaster.t :=
  ShardingMaster.mk confMail (Some r) (-1) (Some "priv") (Some "pub") 0 0
                    [] [] [] None [] [] [].

(** A worker that has reported before, and a report of an idle interval. *)
Definition reported : ShardInfo.t :=
  ShardInfo.set_stats (Some (ShardStatus.new "aaa"))
                      (worker "aaa" 0 2 400 (now - 20000)).

Definition idleReport : ShardStatus.t :=
  ShardStatus.mk "aaa" false 0 2 0 2 0 1234 now 10000.

Definition oneReported : Registry.t := [("aaa", reported); ("mas", masterEntry)].

(** Two workers connected: [aaa] runs shard 0, [ccc] has reported no shard
    yet. *)
Definition idle (name : string) : ShardInfo.t :=
  ShardInfo.mk name (Some "pub") false 1 2 (-1) (-1) (now - 1000) (now - 1000)
               600 0 None.

Definition oneIdle : Registry.t :=
  [("aaa", worker "aaa" 0 2 400 (now - 1000)); ("ccc", idle "ccc");
   ("mas", masterEntry)].

Definition twoConnected : ShardingMaster.t :=
  ShardingMaster.mk conf (Some oneIdle) (-1) (Some "priv") (Some "pub") 0 0
                    [] ["s1"; "s2"] [("aaa", "s1"); ("ccc", "s2")] None [] [] [].

Definition onlyIdleConnected : ShardingMaster.t :=
  ShardingMaster.mk conf (Some oneIdle) (-1) (Some "priv") (Some "pub") 0 0
                    [] ["s2"] [("ccc", "s2")] None [] [] [].

Definition noneConnected : ShardingMaster.t := master oneIdle.

(** A worker agent with child 0 running shard 0 of 1 and nothing in
    flight. *)
Definition agent : ShardingSlave.t :=
  ShardingSlave.mk 0 0 1 0 1 (Some 0%nat) 1 ∅ [] [] [] [] [] false.

(** The settings of an [update] event that assigns shard [shardId] of
    [shardCount]. *)
Definition assign (shardId shardCount : Z) : option ShardingSlave.Settings :=
  Some (ShardingSlave.mkSettings shardId shardCount "pull").

(** The history that leads a new agent to [agent]: the orchestrator assigns
    shard 0 of 1 while the socket is down, so no heartbeat is generated. *)
Definition boot : list ShardingSlave.Event :=
  [ShardingSlave.UpdateRequest 0 false 0%nat (assign 0 1)].

(** A request, then the orchestrator retires the worker and the child
    exits, then the same request again. *)
Definition retiredBetween : list ShardingSlave.Event :=
  [ShardingSlave.EvalRequest 100 "1+1" 1%nat;
   ShardingSlave.UpdateRequest 150 false 0%nat (assign (-1) (-1));
   ShardingSlave.ChildExit;
   ShardingSlave.EvalRequest 200 "1+1" 2%nat].

(** Further samples. *)

(** A worker on shard 0 of 2, two live entries without an assignment and
    the master: shard 1 is unbound. *)
Definition spare (name : string) : ShardInfo.t :=
  ShardInfo.mk name (Some "pub") false (-1) (-1) (-1) (-1) (now - 1000) (now - 1000)
               0 0 None.

Definition withSpares : Registry.t :=
  [("aaa", worker "aaa" 0 2 400 (now - 1000)); ("ccc", spare "ccc");
   ("ddd", spare "ddd"); ("mas", masterEntry)].

(** The orchestrator of [silentOnTheDot] with the worker [bbb], silent for
    a millisecond more than [requestRebootAfter], connected on [s2]. *)
Definition staleConnected : ShardingMaster.t :=
  ShardingMaster.mk conf (Some silentOnTheDot) (-1) (Some "priv") (Some "pub") 0 0
                    [] ["s2"] [("bbb", "s2")] None [] [] [].

(** The entry [ccc] of [oneIdle] presents itself on a new socket with a
    valid signature. *)
Definition workerSocket : Socket :=
  mkSocket "s3" None "10.0.0.8" (Some "ccc,pub/ccc1000000,1000000").

(** A number in decimal digits, as a template string writes it. *)
Fixpoint showDigits (fuel : nat) (n : Z) (acc : string) : string :=
  match fuel with
  | O => acc
  | S fuel' =>
      let acc := String (ascii_of_nat (Z.to_nat (n mod 10) + 48)) acc in
      if bool_decide (n < 10) then acc else showDigits fuel' (n / 10) acc
  end.

Definition showStamp (n : Z) : string := showDigits 20 n "".

(** Two workers connected, with the master entry ahead of them in the
    registry. *)
Definition masterFirst : ShardingMaster.t :=
  ShardingMaster.mk conf
    (Some [("mas", masterEntry);
           ("aaa", worker "aaa" 0 2 400 (now - 1000));
           ("bbb", worker "bbb" 1 2 500 (now - 2000))])
    (-1) (Some "priv") (Some "pub") 0 0
    [] ["s0"; "s1"; "s2"] [("aaa", "s1"); ("bbb", "s2")] (Some "s0") [] [] [].

(** The same orchestrator with the heartbeat requests dispersed over the
    interval. *)
Definition hbDisperse : HeartbeatConfig :=
  mkHeartbeatConfig "pull" 10000 true 30000 60000 120000 false.

Definition twinsDispersed : ShardingMaster.t :=
  ShardingMaster.mk (mkShardMasterConfig 2 false 3 10000 5000 1000 hbDisperse mailOff)
                    (Some twins) (-1) (Some "priv") (Some "pub") 0 0
                    [] ["s1"; "s2"] [("aaa", "s1"); ("bbb", "s2")] None [] [] [].

(** An orchestrator in which the worker [aaa] has been accepted on the
    socket [s1]. *)
Definition listening (m : ShardingMaster.t) : ShardingMaster.t :=
  set_shardSockets [("aaa", "s1")]
    (set_listeners [("s1", OnDisconnect); ("s1", OnStatus "aaa")] m).

(** A report of an interval with five messages. *)
Definition busyReport : ShardStatus.t :=
  ShardStatus.mk "aaa" false 0 2 0 2 5 1239 (now + 1000) 10000.

(** The users file with the entries of [oneReported]. *)
Definition usersFile : UsersFile :=
  Users [("aaa", Some reported); ("mas", Some masterEntry)].

End Sample.

(** * Properties *)

Import ShardingMaster.

(** A decidable closed proposition, settled by evaluating its decision. *)
Ltac decide_by_compute :=
  match goal with
  | |- ?P => apply (@bool_decide_unpack P _); vm_compute; exact I
  end.

(** ** Lists and the registry *)

Lemma elem_of_List_filter {A} (f : A -> bool) (l : list A) (x : A) :
  x ∈ List.filter f l <-> x ∈ l /\ f x = true.
Proof.
  rewrite !list_elem_of_In. apply filter_In.
Qed.

Section RegistryFacts.
Import Registry.

Lemma get_Some_elem k v (r : Registry.t) :
  get k r = Some v -> (k, v) ∈ r.
Proof.
  induction r as [|[k' v'] r IH]; simpl; [discriminate|].
  destruct (decide (k = k')) as [->|Hne]; intros H.
  - injection H as ->. left.
  - right. auto.
Qed.

Lemma get_None_keys k (r : Registry.t) :
  get k r = None <-> k ∉ keys r.
Proof.
  unfold keys. induction r as [|[k' v'] r IH]; simpl.
  - split; [intros _; apply not_elem_of_nil | reflexivity].
  - rewrite not_elem_of_cons. destruct (decide (k = k')) as [->|Hne].
    + split; [discriminate | intros [? _]; congruence].
    + rewrite IH. tauto.
Qed.

Lemma elem_get k v (r : Registry.t) :
  NoDup (keys r) -> (k, v) ∈ r -> get k r = Some v.
Proof.
  unfold keys. induction r as [|[k' v'] r IH]; simpl; intros Hnd Hin.
  - inversion Hin.
  - apply NoDup_cons in Hnd as [Hk' Hnd].
    apply elem_of_cons in Hin as [Heq|Hin].
    + injection Heq as -> ->. rewrite decide_True; auto.
    + destruct (decide (k = k')) as [->|Hne]; [|auto].
      exfalso. apply Hk'. apply (list_elem_of_fmap_2 fst _ _ Hin).
Qed.

Lemma get_modify k k' f (r : Registry.t) :
  get k' (modify k f r) = if decide (k' = k) then f <$> get k r else get k' r.
Proof.
  induction r as [|[k0 v0] r IH]; simpl.
  - destruct (decide (k' = k)); reflexivity.
  - destruct (decide (k = k0)) as [->|Hne]; simpl.
    + destruct (decide (k' = k0)) as [->|Hne']; reflexivity.
    + destruct (decide (k' = k0)) as [->|Hne'].
      * rewrite decide_False by congruence. reflexivity.
      * apply IH.
Qed.

Lemma get_modify_eq k f (r : Registry.t) :
  get k (modify k f r) = f <$> get k r.
Proof. rewrite get_modify, decide_True; reflexivity. Qed.

Lemma get_modify_ne k k' f (r : Registry.t) :
  k' <> k -> get k' (modify k f r) = get k' r.
Proof. intros. rewrite get_modify, decide_False; auto. Qed.

Lemma keys_modify k f (r : Registry.t) : keys (modify k f r) = keys r.
Proof.
  unfold keys. induction r as [|[k0 v0] r IH]; simpl; [reflexivity|].
  destruct (decide (k = k0)); simpl; congruence.
Qed.

Lemma get_set k k' v (r : Registry.t) :
  get k' (set k v r) = if decide (k' = k) then Some v else get k' r.
Proof.
  induction r as [|[k0 v0] r IH]; simpl.
  - destruct (decide (k' = k)); reflexivity.
  - destruct (decide (k = k0)) as [->|Hne]; simpl.
    + destruct (decide (k' = k0)); reflexivity.
    + destruct (decide (k' = k0)) as [->|Hne'].
      * rewrite decide_False by congruence. reflexivity.
      * apply IH.
Qed.

Lemma set_fresh k v (r : Registry.t) :
  get k r = None -> set k v r = r ++ [(k, v)].
Proof.
  induction r as [|[k0 v0] r IH]; simpl; [reflexivity|].
  destruct (decide (k = k0)); [discriminate|].
  intros H. rewrite IH; auto.
Qed.

Lemma delete_fresh k (r : Registry.t) :
  get k r = None -> delete k r = r.
Proof.
  induction r as [|[k0 v0] r IH]; simpl; [reflexivity|].
  destruct (decide (k = k0)); [discriminate|].
  intros H. rewrite IH; auto.
Qed.

Lemma delete_set_fresh k v (r : Registry.t) :
  get k r = None -> delete k (set k v r) = r.
Proof.
  induction r as [|[k0 v0] r IH]; simpl; intros H.
  - rewrite decide_True; reflexivity.
  - destruct (decide (k = k0)); [discriminate|]. simpl.
    rewrite decide_False by assumption. rewrite IH; auto.
Qed.

Lemma delete_modify k f (r : Registry.t) :
  delete k (modify k f r) = delete k r.
Proof.
  induction r as [|[k0 v0] r IH]; simpl; [reflexivity|].
  destruct (decide (k = k0)) as [->|Hne]; simpl.
  - rewrite decide_True; reflexivity.
  - rewrite decide_False by assumption. congruence.
Qed.

(** A key selected by a filter over the registry resolves to an entry that
    passes the filter, and conversely. *)
Lemma filter_keys_get (P : ShardInfo.t -> bool) k (r : Registry.t) :
  NoDup (keys r) ->
  k ∈ map fst (List.filter (fun kv => P (snd kv)) r) <->
  exists el, get k r = Some el /\ P el = true.
Proof.
  intros Hnd. rewrite list_elem_of_fmap. split.
  - intros [[k' el] [-> Hin]]. apply elem_of_List_filter in Hin as [Hin HP].
    exists el. split; [apply elem_get; assumption | assumption].
  - intros [el [Hget HP]]. exists (k, el). split; [reflexivity|].
    apply elem_of_List_filter. split; [apply get_Some_elem; assumption | assumption].
Qed.

Lemma filter_keys_NoDup (P : string * ShardInfo.t -> bool) (r : Registry.t) :
  NoDup (keys r) -> NoDup (map fst (List.filter P r)).
Proof.
  unfold keys. induction r as [|[k0 v0] r IH]; simpl; intros Hnd.
  - constructor.
  - apply NoDup_cons in Hnd as [Hk Hnd].
    destruct (P (k0, v0)); simpl; [|auto].
    apply NoDup_cons. split; [|auto].
    intros Hin. apply Hk. apply list_elem_of_fmap in Hin as [[k' v'] [-> Hin]].
    apply elem_of_List_filter in Hin as [Hin _].
    apply (list_elem_of_fmap_2 fst _ _ Hin).
Qed.

End RegistryFacts.

(** ** The loop over [correct] *)

Section RefreshLoop.

Variables (now : Z) (hb : HeartbeatConfig).

(** The registry the loop starts from. *)
Variable r : Registry.t.

Lemma find_found_match el found :
  List.find (found_match el) found = None <-> pair_of el ∉ found.
Proof.
  induction found as [|[a b] found IH]; simpl.
  - split; [intros _; apply not_elem_of_nil | reflexivity].
  - rewrite not_elem_of_cons. unfold found_match at 1. simpl.
    destruct (bool_decide (a = ShardInfo.goalShardId el)) eqn:Ha;
      destruct (bool_decide (b = ShardInfo.goalShardCount el)) eqn:Hb; simpl;
      try apply bool_decide_eq_true in Ha; try apply bool_decide_eq_true in Hb;
      try apply bool_decide_eq_false in Ha; try apply bool_decide_eq_false in Hb.
    + subst. split; [discriminate | intros [H _]; exfalso; apply H; reflexivity].
    + rewrite IH. unfold pair_of. split; [intros H; split; [congruence | exact H] | tauto].
    + rewrite IH. unfold pair_of. split; [intros H; split; [congruence | exact H] | tauto].
    + rewrite IH. unfold pair_of. split; [intros H; split; [congruence | exact H] | tauto].
Qed.

Lemma step_shutdown_stale p k el :
  Registry.get k (p_users p) = Some el -> is_stale now hb el = true ->
  refresh_step now hb p k =
    mkPass (Registry.modify k (shutdown now) (p_users p)) (p_correct p)
           (p_configuring p ++ [k]) (p_foundIds p).
Proof. intros Hget Hst. unfold refresh_step. rewrite Hget, Hst. reflexivity. Qed.

Lemma step_shutdown_dup p k el :
  Registry.get k (p_users p) = Some el -> is_stale now hb el = false ->
  pair_of el ∈ p_foundIds p ->
  refresh_step now hb p k =
    mkPass (Registry.modify k (shutdown now) (p_users p)) (p_correct p)
           (p_configuring p ++ [k]) (p_foundIds p).
Proof.
  intros Hget Hst Hin. unfold refresh_step. rewrite Hget, Hst.
  destruct (List.find (found_match el) (p_foundIds p)) eqn:Hf; [reflexivity|].
  apply find_found_match in Hf. contradiction.
Qed.

Lemma step_keep p k el :
  Registry.get k (p_users p) = Some el -> is_stale now hb el = false ->
  pair_of el ∉ p_foundIds p ->
  exists configuring,
    refresh_step now hb p k =
      mkPass (p_users p) (p_correct p ++ [k]) configuring
             (p_foundIds p ++ [pair_of el])
    /\ forall x, x ∈ p_configuring p -> x ∈ configuring.
Proof.
  intros Hget Hst Hnin. unfold refresh_step. rewrite Hget, Hst.
  apply find_found_match in Hnin. rewrite Hnin.
  eexists. split; [reflexivity|].
  intros x Hx. destruct (_ || _); [apply elem_of_app; left|]; exact Hx.
Qed.

(** The four shapes a turn of the loop can take. *)
Lemma step_cases p k :
  (Registry.get k (p_users p) = None /\ refresh_step now hb p k = p)
  \/ (exists el, Registry.get k (p_users p) = Some el
       /\ (is_stale now hb el = true \/ (pair_of el ∈ p_foundIds p))
       /\ refresh_step now hb p k =
            mkPass (Registry.modify k (shutdown now) (p_users p)) (p_correct p)
                   (p_configuring p ++ [k]) (p_foundIds p))
  \/ (exists el configuring, Registry.get k (p_users p) = Some el
       /\ is_stale now hb el = false /\ (pair_of el ∉ p_foundIds p)
       /\ refresh_step now hb p k =
            mkPass (p_users p) (p_correct p ++ [k]) configuring
                   (p_foundIds p ++ [pair_of el])
       /\ forall x, x ∈ p_configuring p -> x ∈ configuring).
Proof.
  destruct (Registry.get k (p_users p)) as [el|] eqn:Hget.
  - right. destruct (is_stale now hb el) eqn:Hst.
    + left. exists el. split; [reflexivity|]. split; [left; exact Hst|].
      apply step_shutdown_stale with el; [exact Hget | exact Hst].
    + destruct (decide (pair_of el ∈ p_foundIds p)) as [Hin|Hnin].
      * left. exists el. split; [reflexivity|]. split; [right; assumption|].
        apply step_shutdown_dup with el; [exact Hget | exact Hst | assumption].
      * right. destruct (step_keep p k el Hget Hst Hnin) as [c [Heq Hc]].
        exists el, c. auto.
  - left. split; [reflexivity|]. unfold refresh_step. rewrite Hget. reflexivity.
Qed.

Lemma step_get_other p a k :
  k <> a ->
  Registry.get k (p_users (refresh_step now hb p a)) = Registry.get k (p_users p).
Proof.
  intros Hne.
  destruct (step_cases p a) as [[_ ->]|[(el & _ & _ & ->)|(el & c & _ & _ & _ & -> & _)]];
    simpl; [reflexivity| |reflexivity].
  apply get_modify_ne; assumption.
Qed.

Lemma step_correct p a k :
  k ∈ p_correct (refresh_step now hb p a) -> k ∈ p_correct p \/ k = a.
Proof.
  destruct (step_cases p a) as [[_ ->]|[(el & _ & _ & ->)|(el & c & _ & _ & _ & -> & _)]];
    simpl; auto.
  intros H. apply elem_of_app in H as [H|H]; [auto|].
  right. apply list_elem_of_singleton in H. exact H.
Qed.

Lemma step_correct_incl p a k :
  k ∈ p_correct p -> k ∈ p_correct (refresh_step now hb p a).
Proof.
  destruct (step_cases p a) as [[_ ->]|[(el & _ & _ & ->)|(el & c & _ & _ & _ & -> & _)]];
    simpl; auto.
  intros H. apply elem_of_app. auto.
Qed.

Lemma step_configuring_incl p a k :
  k ∈ p_configuring p -> k ∈ p_configuring (refresh_step now hb p a).
Proof.
  destruct (step_cases p a) as [[_ ->]|[(el & _ & _ & ->)|(el & c & _ & _ & _ & -> & Hc)]];
    simpl; auto.
  intros H. apply elem_of_app. auto.
Qed.

Lemma step_found_incl p a f :
  f ∈ p_foundIds p -> f ∈ p_foundIds (refresh_step now hb p a).
Proof.
  destruct (step_cases p a) as [[_ ->]|[(el & _ & _ & ->)|(el & c & _ & _ & _ & -> & _)]];
    simpl; auto.
  intros H. apply elem_of_app. auto.
Qed.

Lemma loop_get_other L : forall p k,
  k ∉ L ->
  Registry.get k (p_users (fold_left (refresh_step now hb) L p))
  = Registry.get k (p_users p).
Proof.
  induction L as [|a L IH]; intros p k Hk; simpl; [reflexivity|].
  apply not_elem_of_cons in Hk as [Hne Hk].
  rewrite IH by assumption. apply step_get_other; assumption.
Qed.

Lemma loop_correct L : forall p k,
  k ∈ p_correct (fold_left (refresh_step now hb) L p) -> k ∈ p_correct p \/ k ∈ L.
Proof.
  induction L as [|a L IH]; intros p k; simpl; [auto|].
  intros H. apply IH in H as [H|H].
  - apply step_correct in H as [H| ->]; [auto|]. right. left.
  - right. right. exact H.
Qed.

Lemma loop_correct_incl L : forall p k,
  k ∈ p_correct p -> k ∈ p_correct (fold_left (refresh_step now hb) L p).
Proof.
  induction L as [|a L IH]; intros p k H; simpl; [exact H|].
  apply IH. apply step_correct_incl. exact H.
Qed.

Lemma loop_configuring_incl L : forall p k,
  k ∈ p_configuring p -> k ∈ p_configuring (fold_left (refresh_step now hb) L p).
Proof.
  induction L as [|a L IH]; intros p k H; simpl; [exact H|].
  apply IH. apply step_configuring_incl. exact H.
Qed.

Lemma untouched_step a L p :
  a ∉ L -> untouched r (a :: L) p -> untouched r L (refresh_step now hb p a).
Proof.
  intros Ha Hu k Hk. rewrite step_get_other.
  - apply Hu. right. exact Hk.
  - intros ->. contradiction.
Qed.

(** An entry is turned into a shutdown directive when its turn finds it
    stale or finds its pair taken; no later turn touches it again. *)
Lemma loop_demotes L : forall p k el,
  NoDup L -> untouched r L p -> k ∈ L -> k ∉ p_correct p ->
  Registry.get k r = Some el ->
  is_stale now hb el = true \/ (pair_of el ∈ p_foundIds p) ->
  demoted now k el (fold_left (refresh_step now hb) L p).
Proof.
  induction L as [|a L IH]; intros p k el Hnd Hu Hk Hnc Hget Hwhy.
  - inversion Hk.
  - apply NoDup_cons in Hnd as [Ha Hnd]. simpl.
    destruct (decide (k = a)) as [->|Hne].
    + assert (Hget' : Registry.get a (p_users p) = Some el)
        by (rewrite Hu; [exact Hget | left]).
      assert (Hstep : refresh_step now hb p a =
                mkPass (Registry.modify a (shutdown now) (p_users p)) (p_correct p)
                       (p_configuring p ++ [a]) (p_foundIds p)).
      { destruct Hwhy as [Hst|Hin].
        - apply step_shutdown_stale with el; assumption.
        - destruct (is_stale now hb el) eqn:Hst.
          + apply step_shutdown_stale with el; assumption.
          + apply step_shutdown_dup with el; assumption. }
      rewrite Hstep. repeat split.
      * rewrite loop_get_other by assumption. simpl.
        rewrite get_modify_eq, Hget'. reflexivity.
      * apply loop_configuring_incl. simpl. apply elem_of_app. right. left.
      * intros Hc. apply loop_correct in Hc as [Hc|Hc]; simpl in Hc; contradiction.
    + apply elem_of_cons in Hk as [Hk|Hk]; [contradiction|].
      apply IH; try assumption.
      * apply untouched_step; assumption.
      * intros Hc. apply step_correct in Hc as [Hc|Hc]; contradiction.
      * destruct Hwhy as [Hst|Hin]; [left; exact Hst|].
        right. apply step_found_incl. exact Hin.
Qed.

(** Of the claims on one pair, the loop lets the first stand and turns
    every later one into a shutdown directive. *)
Lemma loop_first_claim L : forall p pi k0 rest,
  NoDup L -> untouched r L p -> (forall k, k ∈ L -> k ∉ p_correct p) ->
  pi ∉ p_foundIds p ->
  List.filter (claims now hb r pi) L = k0 :: rest ->
  (exists el, Registry.get k0 r = Some el
     /\ retained k0 el (fold_left (refresh_step now hb) L p))
  /\ (forall k el, k ∈ rest -> Registry.get k r = Some el ->
        demoted now k el (fold_left (refresh_step now hb) L p)).
Proof.
  induction L as [|a L IH]; intros p pi k0 rest Hnd Hu Hnc Hpi Hf.
  - discriminate.
  - apply NoDup_cons in Hnd as [Ha Hnd]. simpl in Hf |- *.
    assert (Hu' : untouched r L (refresh_step now hb p a))
      by (apply untouched_step; assumption).
    assert (Hnc' : forall k, k ∈ L -> k ∉ p_correct (refresh_step now hb p a)).
    { intros k Hk Hc. apply step_correct in Hc as [Hc| ->]; [|contradiction].
      apply (Hnc k); [right; exact Hk | exact Hc]. }
    destruct (claims now hb r pi a) eqn:Hca.
    + injection Hf as <- <-.
      unfold claims in Hca. destruct (Registry.get a r) as [el|] eqn:Hget; [|discriminate].
      apply andb_true_iff in Hca as [Hst Hpair].
      apply negb_true_iff in Hst. apply bool_decide_eq_true in Hpair. subst pi.
      assert (Hget' : Registry.get a (p_users p) = Some el)
        by (rewrite Hu; [exact Hget | left]).
      destruct (step_keep p a el Hget' Hst Hpi) as [c [Hstep Hc]].
      split.
      * exists el. split; [reflexivity|]. split.
        -- rewrite loop_get_other by assumption. rewrite Hstep. simpl. exact Hget'.
        -- apply loop_correct_incl. rewrite Hstep. simpl. apply elem_of_app. right. left.
      * intros k el' Hk Hgk. apply elem_of_List_filter in Hk as [Hk Hck].
        apply loop_demotes; try assumption.
        -- apply Hnc'. exact Hk.
        -- right. rewrite Hstep. simpl. apply elem_of_app. right.
           unfold claims in Hck. rewrite Hgk in Hck.
           apply andb_true_iff in Hck as [_ Hp]. apply bool_decide_eq_true in Hp.
           rewrite Hp. left.
    + apply (IH (refresh_step now hb p a) pi k0 rest); try assumption.
      destruct (step_cases p a)
        as [[_ ->]|[(el & _ & _ & ->)|(el & c & Hget' & Hst & _ & -> & _)]];
        simpl; try assumption.
      intros Hin. apply elem_of_app in Hin as [Hin|Hin]; [contradiction|].
      apply list_elem_of_singleton in Hin.
      unfold claims in Hca. rewrite <- (Hu a) in Hca by left.
      rewrite Hget', Hst in Hca. simpl in Hca.
      apply bool_decide_eq_false in Hca. congruence.
Qed.

End RefreshLoop.

(** ** Sorting by descending key *)

Section SortDesc.
Context {A : Type} (f : A -> Z).

Lemma sort_insert_perm a (l : list A) :
  sort_insert (by_desc f) a l ≡ₚ a :: l.
Proof.
  induction l as [|b l IH]; simpl; [reflexivity|].
  case_bool_decide; [reflexivity|].
  rewrite IH. apply Permutation_swap.
Qed.

Lemma sort_perm (l : list A) : sort (by_desc f) l ≡ₚ l.
Proof.
  induction l as [|a l IH]; simpl; [reflexivity|].
  rewrite sort_insert_perm. rewrite IH. reflexivity.
Qed.

Lemma sort_insert_sorted a (l : list A) :
  StronglySorted (desc f) l -> StronglySorted (desc f) (sort_insert (by_desc f) a l).
Proof.
  induction l as [|b l IH]; simpl; intros Hs.
  - repeat constructor.
  - apply StronglySorted_inv in Hs as [Hs Hb].
    unfold by_desc at 1. case_bool_decide as Hcmp.
    + constructor; [constructor; assumption|].
      constructor; [unfold desc; lia|].
      eapply Forall_impl; [exact Hb|]. unfold desc. intros x Hx. lia.
    + constructor; [apply IH; exact Hs|].
      rewrite sort_insert_perm. constructor; [unfold desc; lia | exact Hb].
Qed.

Lemma sort_sorted (l : list A) : StronglySorted (desc f) (sort (by_desc f) l).
Proof.
  induction l as [|a l IH]; simpl; [constructor|].
  apply sort_insert_sorted. exact IH.
Qed.

(** In a list sorted by descending key, the first element that passes a
    test has the greatest key of all that pass it. *)
Lemma sorted_filter_head (P : A -> bool) (l : list A) k0 rest :
  StronglySorted (desc f) l -> List.filter P l = k0 :: rest ->
  forall k, k ∈ rest -> f k <= f k0.
Proof.
  induction l as [|a l IH]; simpl; intros Hs Hf k Hk; [discriminate|].
  apply StronglySorted_inv in Hs as [Hs Ha].
  destruct (P a).
  - injection Hf as <- <-. apply elem_of_List_filter in Hk as [Hk _].
    rewrite Forall_forall in Ha. apply Ha. exact Hk.
  - apply IH; assumption.
Qed.

End SortDesc.

(** ** The phases that follow the loop *)

Section RefreshAssign.

Lemma assign_fold_get_other now goal (newIds : list Z) : forall r incorrect configuring k,
  k ∉ incorrect ->
  Registry.get k (fst (fst (fold_left (assign_step now goal) newIds
                                       (r, incorrect, configuring))))
  = Registry.get k r.
Proof.
  induction newIds as [|x newIds IH]; intros r incorrect configuring k Hk; simpl;
    [reflexivity|].
  destruct incorrect as [|s incorrect]; [apply IH; exact Hk|].
  apply not_elem_of_cons in Hk as [Hne Hk].
  rewrite IH by exact Hk. apply get_modify_ne. exact Hne.
Qed.

Lemma assign_fold_configuring now goal (newIds : list Z) : forall r incorrect configuring k,
  k ∈ configuring ->
  k ∈ snd (fold_left (assign_step now goal) newIds (r, incorrect, configuring)).
Proof.
  induction newIds as [|x newIds IH]; intros r incorrect configuring k Hk; simpl;
    [exact Hk|].
  destruct incorrect as [|s incorrect]; [apply IH; exact Hk|].
  apply IH. apply elem_of_app. left. exact Hk.
Qed.

Lemma assign_master_get_other goal master r configuring k :
  master <> Some k ->
  Registry.get k (fst (assign_master goal master (r, configuring)))
  = Registry.get k r.
Proof.
  intros Hne. unfold assign_master. destruct master as [km|]; [|reflexivity].
  destruct (Registry.get km r); [|reflexivity].
  case_bool_decide; [|reflexivity]. simpl.
  apply get_modify_ne. congruence.
Qed.

Lemma assign_master_configuring goal master r configuring k :
  k ∈ configuring -> k ∈ snd (assign_master goal master (r, configuring)).
Proof.
  intros Hk. unfold assign_master. destruct master as [km|]; [|exact Hk].
  destruct (Registry.get km r); [|exact Hk].
  case_bool_decide; [|exact Hk]. simpl. apply elem_of_app. left. exact Hk.
Qed.

(** The entries of [correct] come out of the pass the way the loop left
    them, provided they are neither spare nor the master. *)
Lemma refresh_assign_loop now goal correct incorrect newIds master m :
  let sorted := sort (by_desc (bootTimeOf (users m))) correct in
  let lp := refresh_loop now (heartbeat (_config m)) sorted (users m) in
  let p := refresh_assign now goal correct incorrect newIds master m in
  p_correct p = p_correct lp
  /\ (forall k, k ∈ p_configuring lp -> k ∈ p_configuring p)
  /\ (forall k, k ∉ incorrect -> master <> Some k ->
        Registry.get k (p_users p) = Registry.get k (p_users lp)).
Proof.
  intros sorted lp p. subst p. unfold refresh_assign.
  fold (by_desc (bootTimeOf (users m))). fold sorted. fold lp.
  pose proof (assign_fold_get_other now goal newIds (p_users lp) incorrect
                (p_configuring lp)) as Hget.
  pose proof (assign_fold_configuring now goal newIds (p_users lp) incorrect
                (p_configuring lp)) as Hconf.
  destruct (fold_left (assign_step now goal) newIds
              (p_users lp, incorrect, p_configuring lp)) as [[r1 inc1] conf1].
  simpl in Hget, Hconf.
  pose proof (assign_master_get_other goal master r1 conf1) as Hget2.
  pose proof (assign_master_configuring goal master r1 conf1) as Hconf2.
  destruct (assign_master goal master (r1, conf1)) as [r2 conf2].
  simpl in *. split; [reflexivity|]. split.
  - intros k Hk. apply Hconf2, Hconf, Hk.
  - intros k Hk Hm. rewrite Hget2 by exact Hm. apply Hget. exact Hk.
Qed.

(** Minting leaves every entry under another name as it is. *)
Lemma generateShardConfig_get_other name isMaster m k :
  k <> name ->
  Registry.get k (users (fst (generateShardConfig name isMaster m)))
  = Registry.get k (users m).
Proof.
  intros Hne. unfold generateShardConfig. simpl.
  destruct isMaster; unfold users; simpl.
  - rewrite get_modify_ne by exact Hne. rewrite get_set, decide_False by exact Hne.
    reflexivity.
  - rewrite get_set, decide_False by exact Hne. reflexivity.
Qed.

Lemma generateShardConfig_config name isMaster m :
  _config (fst (generateShardConfig name isMaster m)) = _config m.
Proof. reflexivity. Qed.

End RefreshAssign.

(** ** One reconciliation pass *)

(** The cadence of the heartbeat requests leaves the registry alone. *)
Lemma cadence_users updateId now goal master configuring m :
  users (fst (heartbeat_cadence updateId now goal master configuring m)) = users m.
Proof.
  unfold heartbeat_cadence.
  repeat case_bool_decide; try destruct (disperse _); reflexivity.
Qed.

Section RefreshPass.

Variables (now : Z) (name1 name2 : string) (m : ShardingMaster.t) (r : Registry.t).

Hypothesis users_loaded : _knownUsers m = Some r.
Hypothesis keys_unique : NoDup (Registry.keys r).
Hypothesis goal_known : 0 <= getGoalShardCount m.
Hypothesis name1_free : Registry.get name1 r = None.
Hypothesis name2_free : Registry.get name2 r = None.

Let goal := getGoalShardCount m.
Let hb := heartbeat (_config m).
Let correct := _getCurrentConfigured now goal m.
Let incorrect := _getCurrentUnconfigured now goal m.

(** The state the loop runs in: after the identities were minted. *)
Let m2 :=
  let m1 := if bool_decide (getKnownShardCount m < goal)
            then fst (generateShardConfig name1 false m) else m in
  if bool_decide (_getMasterUser m = None)
  then fst (generateShardConfig name2 true m1) else m1.

Let sorted := sort (by_desc (bootTimeOf (users m2))) correct.
Let looped := refresh_loop now hb sorted (users m2).

Lemma users_eq : users m = r.
Proof. unfold users. rewrite users_loaded. reflexivity. Qed.

Lemma goal_or_default_eq : goal_or_default goal m = goal.
Proof. unfold goal_or_default. rewrite bool_decide_eq_false_2; [reflexivity|]. unfold goal. lia. Qed.

Lemma minted_config : _config m2 = _config m.
Proof.
  unfold m2. repeat case_bool_decide; reflexivity.
Qed.

Lemma minted_get k el :
  Registry.get k r = Some el -> Registry.get k (users m2) = Some el.
Proof.
  intros Hget.
  assert (Hk1 : k <> name1) by (intros ->; congruence).
  assert (Hk2 : k <> name2) by (intros ->; congruence).
  unfold m2. repeat case_bool_decide;
    rewrite ?generateShardConfig_get_other by assumption;
    rewrite users_eq; exact Hget.
Qed.

Lemma correct_iff k :
  k ∈ correct <->
  exists el, Registry.get k r = Some el /\ is_configured now goal hb el = true.
Proof.
  unfold correct, _getCurrentConfigured. rewrite users_loaded, goal_or_default_eq.
  apply (filter_keys_get (is_configured now goal (heartbeat (_config m)))).
  exact keys_unique.
Qed.

Lemma incorrect_iff k :
  k ∈ incorrect <->
  exists el, Registry.get k r = Some el /\ is_unconfigured now goal hb el = true.
Proof.
  unfold incorrect, _getCurrentUnconfigured. rewrite users_loaded, goal_or_default_eq.
  apply (filter_keys_get (is_unconfigured now goal (heartbeat (_config m)))).
  exact keys_unique.
Qed.

Lemma correct_NoDup : NoDup correct.
Proof.
  unfold correct, _getCurrentConfigured. rewrite users_loaded.
  apply filter_keys_NoDup. exact keys_unique.
Qed.

Lemma sorted_iff k : k ∈ sorted <-> k ∈ correct.
Proof. unfold sorted. rewrite sort_perm. reflexivity. Qed.

Lemma sorted_NoDup : NoDup sorted.
Proof. unfold sorted. rewrite sort_perm. exact correct_NoDup. Qed.

Lemma correct_not_spare k : k ∈ correct -> k ∉ incorrect.
Proof.
  rewrite correct_iff, incorrect_iff. intros [el [Hget Hc]] [el' [Hget' Hu]].
  rewrite Hget in Hget'. injection Hget' as <-.
  unfold is_configured in Hc. unfold is_unconfigured in Hu.
  destruct (ShardInfo.isMaster el); [discriminate|]. simpl in *.
  destruct (bool_decide (ShardInfo.goalShardCount el = goal)); discriminate.
Qed.

Lemma correct_not_master k : k ∈ correct -> _getMasterUser m <> Some k.
Proof.
  rewrite correct_iff. intros [el [Hget Hc]] Hm.
  unfold _getMasterUser in Hm. rewrite users_eq in Hm.
  destruct (List.find _ r) as [[k' el']|] eqn:Hf; [|discriminate].
  simpl in Hm. injection Hm as ->.
  apply find_some in Hf as [Hin Hmas]. simpl in Hmas.
  apply list_elem_of_In in Hin. apply elem_get in Hin; [|exact keys_unique].
  rewrite Hget in Hin. injection Hin as <-.
  unfold is_configured in Hc. rewrite Hmas in Hc. discriminate.
Qed.

Lemma locals_eq :
  refresh_locals now name1 name2 m =
  refresh_assign now goal correct incorrect (_getCurrentUnboundIds goal m)
                 (_getMasterUser m) m2.
Proof. reflexivity. Qed.

(** The registry [_refreshShardStatus] leaves is the one of its locals. *)
Lemma refresh_users updateId :
  users (fst (_refreshShardStatus updateId now name1 name2 m))
  = p_users (refresh_locals now name1 name2 m).
Proof.
  unfold _refreshShardStatus, refresh_locals. rewrite users_loaded.
  fold goal. rewrite bool_decide_eq_false_2 by (unfold goal; lia).
  destruct (bool_decide (getKnownShardCount m < goal));
    destruct (bool_decide (_getMasterUser m = None));
    unfold generateShardConfig; cbn [fst]; rewrite cadence_users; reflexivity.
Qed.

(** An entry of [correct] leaves the pass the way the loop left it. *)
Lemma pass_of_loop :
  let p := refresh_locals now name1 name2 m in
  p_correct p = p_correct looped
  /\ (forall k, k ∈ p_configuring looped -> k ∈ p_configuring p)
  /\ (forall k, k ∈ correct ->
        Registry.get k (p_users p) = Registry.get k (p_users looped)).
Proof.
  intros p. subst p. rewrite locals_eq.
  destruct (refresh_assign_loop now goal correct incorrect
              (_getCurrentUnboundIds goal m) (_getMasterUser m) m2)
    as (Hc & Hconf & Hget).
  unfold looped, sorted, hb. rewrite <- minted_config.
  split; [exact Hc|]. split; [exact Hconf|].
  intros k Hk. apply Hget.
  - apply correct_not_spare. exact Hk.
  - apply correct_not_master. exact Hk.
Qed.

Lemma looped_untouched :
  untouched (users m2) sorted (mkPass (users m2) [] [] []).
Proof. intros k _. reflexivity. Qed.

(** A stale entry of [correct] is a shutdown directive after the pass. *)
Lemma pass_demotes_stale k el :
  k ∈ correct -> Registry.get k r = Some el -> is_stale now hb el = true ->
  demoted now k el (refresh_locals now name1 name2 m).
Proof.
  intros Hk Hget Hst.
  destruct pass_of_loop as (Hc & Hconf & Hsame).
  assert (Hd : demoted now k el looped).
  { apply (loop_demotes now hb (users m2)).
    - exact sorted_NoDup.
    - exact looped_untouched.
    - apply sorted_iff. exact Hk.
    - simpl. apply not_elem_of_nil.
    - apply minted_get. exact Hget.
    - left. exact Hst. }
  destruct Hd as (Hg & Hcf & Hnc). repeat split.
  - rewrite Hsame by exact Hk. exact Hg.
  - apply Hconf. exact Hcf.
  - rewrite Hc. exact Hnc.
Qed.

(** Among the entries of [correct] that are not stale and hold the goal id
    [sid], the pass keeps one of greatest [bootTime] and turns every other
    into a shutdown directive. *)
Lemma pass_keeps_one sid :
  (exists k el, k ∈ correct /\ Registry.get k r = Some el
                /\ is_stale now hb el = false /\ ShardInfo.goalShardId el = sid) ->
  exists k0 el0,
    k0 ∈ correct /\ Registry.get k0 r = Some el0
    /\ is_stale now hb el0 = false /\ ShardInfo.goalShardId el0 = sid
    /\ retained k0 el0 (refresh_locals now name1 name2 m)
    /\ forall k el, k ∈ correct -> Registry.get k r = Some el ->
         is_stale now hb el = false -> ShardInfo.goalShardId el = sid ->
         ShardInfo.bootTime el <= ShardInfo.bootTime el0
         /\ (k <> k0 -> demoted now k el (refresh_locals now name1 name2 m)).
Proof.
  intros (k1 & el1 & Hk1 & Hget1 & Hst1 & Hsid1).
  destruct pass_of_loop as (Hc & Hconf & Hsame).
  set (pi := (sid, goal)).
  assert (Hclaims : forall k el, k ∈ correct -> Registry.get k r = Some el ->
            is_stale now hb el = false -> ShardInfo.goalShardId el = sid ->
            claims now hb (users m2) pi k = true).
  { intros k el Hk Hget Hst Hsid. unfold claims.
    rewrite (minted_get k el Hget), Hst. simpl. apply bool_decide_eq_true.
    apply correct_iff in Hk as [el' [Hget' Hcf]].
    rewrite Hget in Hget'. injection Hget' as <-.
    unfold is_configured in Hcf.
    apply andb_true_iff in Hcf as [Hcf _]. apply andb_true_iff in Hcf as [_ Hcf].
    apply bool_decide_eq_true in Hcf. unfold pair_of, pi. congruence. }
  destruct (List.filter (claims now hb (users m2) pi) sorted) as [|k0 rest] eqn:Hf.
  { exfalso. assert (Hin : k1 ∈ List.filter (claims now hb (users m2) pi) sorted).
    { apply elem_of_List_filter. split; [apply sorted_iff; exact Hk1|].
      apply (Hclaims k1 el1); assumption. }
    rewrite Hf in Hin. inversion Hin. }
  destruct (loop_first_claim now hb (users m2) sorted (mkPass (users m2) [] [] [])
              pi k0 rest sorted_NoDup looped_untouched)
    as [(el0 & Hget0 & Hret0 & Hin0) Hrest]; try exact Hf.
  { intros k _. simpl. apply not_elem_of_nil. }
  { simpl. apply not_elem_of_nil. }
  fold looped in Hret0, Hin0, Hrest.
  assert (Hk0 : k0 ∈ List.filter (claims now hb (users m2) pi) sorted)
    by (rewrite Hf; left).
  apply elem_of_List_filter in Hk0 as [Hk0 Hcl0]. apply sorted_iff in Hk0.
  pose proof Hk0 as Hk0'. apply correct_iff in Hk0' as [el0' [Hget0' Hcf0]].
  rewrite (minted_get k0 el0' Hget0') in Hget0. injection Hget0 as ->.
  unfold claims in Hcl0. rewrite (minted_get k0 el0 Hget0') in Hcl0.
  apply andb_true_iff in Hcl0 as [Hst0 Hp0].
  apply negb_true_iff in Hst0. apply bool_decide_eq_true in Hp0.
  exists k0, el0. split; [exact Hk0|]. split; [exact Hget0'|].
  split; [exact Hst0|]. split; [unfold pair_of, pi in Hp0; congruence|].
  split.
  { split; [rewrite Hsame by exact Hk0; exact Hret0 | rewrite Hc; exact Hin0]. }
  intros k el Hk Hget Hst Hsid.
  assert (Hin : k ∈ k0 :: rest).
  { rewrite <- Hf. apply elem_of_List_filter. split; [apply sorted_iff; exact Hk|].
    apply (Hclaims k el); assumption. }
  apply elem_of_cons in Hin as [->|Hin].
  - rewrite Hget0' in Hget. injection Hget as <-. split; [lia|]. congruence.
  - split.
    + pose proof (sorted_filter_head (bootTimeOf (users m2))
                    (claims now hb (users m2) pi) sorted k0 rest
                    (sort_sorted _ _) Hf k Hin) as Hle.
      unfold bootTimeOf in Hle.
      rewrite (minted_get k el Hget), (minted_get k0 el0 Hget0') in Hle.
      exact Hle.
    + intros _. destruct (Hrest k el Hin (minted_get k el Hget)) as (Hg & Hcf & Hnc).
      repeat split.
      * rewrite Hsame by exact Hk. exact Hg.
      * apply Hconf. exact Hcf.
      * rewrite Hc. exact Hnc.
Qed.

End RefreshPass.

(** ** Reconciliation: duplicates, stale entries, dead entries *)

Section Reconciliation.

(** The fields of a shutdown directive. *)
Lemma shutdown_fields now el :
  ShardInfo.goalShardId (shutdown now el) = -1
  /\ ShardInfo.goalShardCount (shutdown now el) = -1
  /\ ShardInfo.stopTime (shutdown now el) = now.
Proof. repeat split. Qed.

(** C1, as amended.  When one or more live entries configured for the goal
    count hold the same goal id and are not inside the reboot window
    (heartbeat age strictly between [requestRebootAfter] and
    [expectRebootAfter]), one pass leaves exactly one of them as it was, an
    entry whose [bootTime] none of the others exceeds, and turns every other
    one into a shutdown directive: goal id and count -1, [stopTime] the time of
    the pass, queued in [configuring] and out of [correct]. *)
Theorem refresh_resolves_duplicates updateId now name1 name2 m r sid :
  _knownUsers m = Some r -> NoDup (Registry.keys r) ->
  0 <= getGoalShardCount m ->
  Registry.get name1 r = None -> Registry.get name2 r = None ->
  (exists k el, claimant now m sid k el) ->
  let m' := fst (_refreshShardStatus updateId now name1 name2 m) in
  let p := refresh_locals now name1 name2 m in
  exists k0 el0,
    claimant now m sid k0 el0
    /\ Registry.get k0 (users m') = Some el0 /\ k0 ∈ p_correct p
    /\ forall k el, claimant now m sid k el ->
         ShardInfo.bootTime el <= ShardInfo.bootTime el0
         /\ (k <> k0 ->
             Registry.get k (users m') = Some (shutdown now el)
             /\ ShardInfo.goalShardId (shutdown now el) = -1
             /\ ShardInfo.goalShardCount (shutdown now el) = -1
             /\ ShardInfo.stopTime (shutdown now el) = now
             /\ k ∈ p_configuring p /\ k ∉ p_correct p).
Proof.
  intros Hr Hnd Hgoal Hn1 Hn2 Hex m' p.
  assert (Hu : users m = r) by (apply users_eq; exact Hr).
  assert (Hcl : forall k el, claimant now m sid k el ->
            k ∈ _getCurrentConfigured now (getGoalShardCount m) m
            /\ Registry.get k r = Some el
            /\ is_stale now (heartbeat (_config m)) el = false
            /\ ShardInfo.goalShardId el = sid).
  { intros k el (Hget & Hcf & Hst & Hsid). rewrite Hu in Hget.
    split; [|auto]. apply (correct_iff now m r Hr Hnd Hgoal). eauto. }
  destruct (pass_keeps_one now name1 name2 m r Hr Hnd Hgoal Hn1 Hn2 sid)
    as (k0 & el0 & Hk0 & Hget0 & Hst0 & Hsid0 & [Hret0 Hin0] & Hall).
  { destruct Hex as (k & el & Hc). apply Hcl in Hc as (? & ? & ? & ?).
    exists k, el. repeat split; assumption. }
  exists k0, el0. split; [|split; [|split]].
  - unfold claimant. rewrite Hu. repeat split; try assumption.
    apply (correct_iff now m r Hr Hnd Hgoal) in Hk0 as [el' [Hget' Hcf]].
    congruence.
  - unfold m'. rewrite (refresh_users now name1 name2 m r Hr Hgoal updateId). exact Hret0.
  - exact Hin0.
  - intros k el Hc. apply Hcl in Hc as (Hk & Hget & Hst & Hsid).
    destruct (Hall k el Hk Hget Hst Hsid) as [Hle Hdem]. split; [exact Hle|].
    intros Hne. destruct (Hdem Hne) as (Hg & Hcf & Hnc).
    unfold m'. rewrite (refresh_users now name1 name2 m r Hr Hgoal updateId).
    repeat split; assumption.
Qed.

(** C8, as amended.  An entry of [correct] whose heartbeat age lies strictly
    between [requestRebootAfter] and [expectRebootAfter] leaves the pass as a
    shutdown directive: out of [correct], queued in [configuring], goal id
    and count -1 and [stopTime] the time of the pass. *)
Theorem refresh_shuts_down_stale updateId now name1 name2 m r k el :
  _knownUsers m = Some r -> NoDup (Registry.keys r) ->
  0 <= getGoalShardCount m ->
  Registry.get name1 r = None -> Registry.get name2 r = None ->
  k ∈ _getCurrentConfigured now (getGoalShardCount m) m ->
  Registry.get k r = Some el ->
  requestRebootAfter (heartbeat (_config m)) < now - ShardInfo.lastHeartbeat el ->
  now - ShardInfo.lastHeartbeat el < expectRebootAfter (heartbeat (_config m)) ->
  let m' := fst (_refreshShardStatus updateId now name1 name2 m) in
  let p := refresh_locals now name1 name2 m in
  (k ∉ p_correct p) /\ (k ∈ p_configuring p)
  /\ Registry.get k (users m') = Some (shutdown now el)
  /\ ShardInfo.goalShardId (shutdown now el) = -1
  /\ ShardInfo.goalShardCount (shutdown now el) = -1
  /\ ShardInfo.stopTime (shutdown now el) = now.
Proof.
  intros Hr Hnd Hgoal Hn1 Hn2 Hk Hget Hlo Hhi m' p.
  destruct (pass_demotes_stale now name1 name2 m r Hr Hnd Hgoal Hn1 Hn2 k el Hk Hget)
    as (Hg & Hcf & Hnc).
  { unfold is_stale. rewrite !bool_decide_eq_true_2 by assumption. reflexivity. }
  unfold m'. rewrite (refresh_users now name1 name2 m r Hr Hgoal updateId).
  repeat split; assumption.
Qed.

Lemma remove_first_spec (y : Z) (ids : list Z) :
  NoDup ids ->
  NoDup (remove_first y ids)
  /\ forall x, x ∈ remove_first y ids <-> x ∈ ids /\ x <> y.
Proof.
  induction ids as [|a ids IH]; simpl; intros Hnd.
  - split; [constructor|]. intros x. split; [intros H; inversion H | intros [H _]; inversion H].
  - apply NoDup_cons in Hnd as [Ha Hnd]. destruct (IH Hnd) as [IH1 IH2].
    destruct (decide (y = a)) as [->|Hne].
    + split; [exact Hnd|]. intros x. rewrite elem_of_cons. split.
      * intros Hx. split; [auto|]. intros ->. contradiction.
      * intros [[->|Hx] Hxa]; [congruence | exact Hx].
    + split.
      * apply NoDup_cons. split; [|exact IH1]. rewrite IH2. tauto.
      * intros x. rewrite !elem_of_cons, IH2. split.
        -- intros [->|[Hx Hxy]]; split; auto.
        -- intros [[->|Hx] Hxy]; auto.
Qed.

Lemma unbound_fold goal (els : list ShardInfo.t) : forall ids,
  NoDup ids ->
  forall x,
    x ∈ fold_left
          (fun ids el =>
             if ShardInfo.isMaster el then ids
             else if bool_decide (ShardInfo.goalShardCount el = goal)
                  then remove_first (ShardInfo.goalShardId el) ids
                  else ids)
          els ids
    <-> x ∈ ids
        /\ ~ exists el, el ∈ els /\ ShardInfo.isMaster el = false
                        /\ ShardInfo.goalShardCount el = goal
                        /\ ShardInfo.goalShardId el = x.
Proof.
  induction els as [|a els IH]; intros ids Hnd x; simpl.
  - split; [intros H; split; [exact H|] | tauto].
    intros [el [Hin _]]. inversion Hin.
  - destruct (ShardInfo.isMaster a) eqn:Hm.
    + rewrite IH by exact Hnd. split; intros [Hx Hno]; split; try exact Hx.
      * intros [el [Hin Hel]]. apply elem_of_cons in Hin as [->|Hin].
        -- destruct Hel as [Hel _]. congruence.
        -- apply Hno. eauto.
      * intros [el [Hin Hel]]. apply Hno. exists el. split; [right; exact Hin | exact Hel].
    + case_bool_decide as Hc.
      * destruct (remove_first_spec (ShardInfo.goalShardId a) ids Hnd) as [Hnd' Hrm].
        rewrite IH by exact Hnd'. rewrite Hrm. split.
        -- intros [[Hx Hne] Hno]. split; [exact Hx|].
           intros [el [Hin Hel]]. apply elem_of_cons in Hin as [->|Hin].
           ++ destruct Hel as (_ & _ & Hid). congruence.
           ++ apply Hno. eauto.
        -- intros [Hx Hno]. split; [split; [exact Hx|]|].
           ++ intros ->. apply Hno. exists a. split; [left|auto].
           ++ intros [el [Hin Hel]]. apply Hno. exists el. split; [right; exact Hin | exact Hel].
      * rewrite IH by exact Hnd. split; intros [Hx Hno]; split; try exact Hx.
        -- intros [el [Hin Hel]]. apply elem_of_cons in Hin as [->|Hin].
           ++ destruct Hel as (_ & Hel & _). contradiction.
           ++ apply Hno. eauto.
        -- intros [el [Hin Hel]]. apply Hno. exists el. split; [right; exact Hin | exact Hel].
Qed.

(** C2, as amended.  An entry whose heartbeat age has reached
    [assumeDeadAfter] is not among the entries [_getCurrentConfigured]
    returns.  The unbound ids are the ids below the goal that no non-master
    entry configured for the goal count holds, whatever its heartbeat: the
    goal id of a dead entry that is still configured for the goal count is
    not unbound. *)
Theorem dead_entry_is_not_live_but_keeps_its_id now goal m r k el :
  _knownUsers m = Some r -> NoDup (Registry.keys r) -> 0 <= goal ->
  Registry.get k r = Some el ->
  (assumeDeadAfter (heartbeat (_config m)) <= now - ShardInfo.lastHeartbeat el ->
   k ∉ _getCurrentConfigured now goal m)
  /\ (forall x, x ∈ _getCurrentUnboundIds goal m <->
        0 <= x < goal
        /\ ~ exists k' el', Registry.get k' r = Some el'
               /\ ShardInfo.isMaster el' = false
               /\ ShardInfo.goalShardCount el' = goal
               /\ ShardInfo.goalShardId el' = x)
  /\ (ShardInfo.isMaster el = false -> ShardInfo.goalShardCount el = goal ->
      ShardInfo.goalShardId el ∉ _getCurrentUnboundIds goal m).
Proof.
  intros Hr Hnd Hgoal Hget.
  assert (Hgd : goal_or_default goal m = goal).
  { unfold goal_or_default. rewrite bool_decide_eq_false_2; [reflexivity | lia]. }
  assert (Hunb : forall x, x ∈ _getCurrentUnboundIds goal m <->
        0 <= x < goal
        /\ ~ exists k' el', Registry.get k' r = Some el'
               /\ ShardInfo.isMaster el' = false
               /\ ShardInfo.goalShardCount el' = goal
               /\ ShardInfo.goalShardId el' = x).
  { intros x. unfold _getCurrentUnboundIds. rewrite Hr, Hgd.
    rewrite bool_decide_eq_false_2 by lia.
    rewrite (unbound_fold goal (Registry.values r) (seqZ 0 goal) (NoDup_seqZ 0 goal)).
    rewrite elem_of_seqZ. split; intros [Hx Hno]; (split; [lia|]).
    - intros (k' & el' & Hg' & Hel). apply Hno. exists el'. split; [|exact Hel].
      unfold Registry.values. apply get_Some_elem in Hg'.
      apply (list_elem_of_fmap_2 snd _ _ Hg').
    - intros (el' & Hin & Hel). apply Hno.
      unfold Registry.values in Hin. apply list_elem_of_fmap in Hin as [[k' v] [-> Hin]].
      exists k', v. split; [apply elem_get; assumption | exact Hel]. }
  split; [|split; [exact Hunb|]].
  - intros Hdead Hin. unfold _getCurrentConfigured in Hin. rewrite Hr, Hgd in Hin.
    apply (filter_keys_get (is_configured now goal (heartbeat (_config m))) k r Hnd) in Hin
      as [el' [Hget' Hcf]].
    rewrite Hget in Hget'. injection Hget' as <-.
    unfold is_configured in Hcf. apply andb_true_iff in Hcf as [_ Hcf].
    apply bool_decide_eq_true in Hcf. lia.
  - intros Hm Hc Hin. apply Hunb in Hin as [_ Hno]. apply Hno. exists k, el. auto.
Qed.

Lemma refresh_resolves_duplicates_witness :
  let m := Sample.master Sample.twins in
  let m' := fst (_refreshShardStatus (Some 0) Sample.now "xxx" "yyy" m) in
  let p := refresh_locals Sample.now "xxx" "yyy" m in
  exists k0 el0,
    claimant Sample.now m 0 k0 el0
    /\ Registry.get k0 (users m') = Some el0 /\ k0 ∈ p_correct p
    /\ forall k el, claimant Sample.now m 0 k el ->
         ShardInfo.bootTime el <= ShardInfo.bootTime el0
         /\ (k <> k0 ->
             Registry.get k (users m') = Some (shutdown Sample.now el)
             /\ ShardInfo.goalShardId (shutdown Sample.now el) = -1
             /\ ShardInfo.goalShardCount (shutdown Sample.now el) = -1
             /\ ShardInfo.stopTime (shutdown Sample.now el) = Sample.now
             /\ k ∈ p_configuring p /\ k ∉ p_correct p).
Proof.
  apply (refresh_resolves_duplicates (Some 0) Sample.now "xxx" "yyy"
           (Sample.master Sample.twins) Sample.twins 0).
  - reflexivity.
  - decide_by_compute.
  - vm_compute. discriminate.
  - reflexivity.
  - reflexivity.
  - exists "aaa", (Sample.worker "aaa" 0 2 400 (Sample.now - 1000)).
    repeat split; vm_compute; reflexivity.
Defined.

(** C1 as stated fails: two live entries configured for shard 0 of 2, the
    one booted last inside the reboot window.  The pass turns the one with
    the greatest [bootTime] into a shutdown directive and keeps the other. *)
Lemma refresh_demotes_newest_when_silent :
  let m := Sample.master Sample.twinsNewestSilent in
  let m' := fst (_refreshShardStatus (Some 0) Sample.now "xxx" "yyy" m) in
  _getCurrentConfigured Sample.now (getGoalShardCount m) m = ["aaa"; "bbb"]
  /\ pair_of <$> Registry.get "aaa" (users m) = Some (0, 2)
  /\ pair_of <$> Registry.get "bbb" (users m) = Some (0, 2)
  /\ ShardInfo.bootTime <$> Registry.get "aaa" (users m) = Some 500
  /\ ShardInfo.bootTime <$> Registry.get "bbb" (users m) = Some 400
  /\ pair_of <$> Registry.get "aaa" (users m') = Some (-1, -1)
  /\ pair_of <$> Registry.get "bbb" (users m') = Some (0, 2).
Proof. vm_compute. repeat split. Qed.

Lemma refresh_shuts_down_stale_witness :
  let m := Sample.master Sample.silentOnTheDot in
  let el := Sample.worker "bbb" 1 2 500 (Sample.now - 30001) in
  let m' := fst (_refreshShardStatus (Some 0) Sample.now "xxx" "yyy" m) in
  let p := refresh_locals Sample.now "xxx" "yyy" m in
  ("bbb" ∉ p_correct p) /\ ("bbb" ∈ p_configuring p)
  /\ Registry.get "bbb" (users m') = Some (shutdown Sample.now el)
  /\ ShardInfo.goalShardId (shutdown Sample.now el) = -1
  /\ ShardInfo.goalShardCount (shutdown Sample.now el) = -1
  /\ ShardInfo.stopTime (shutdown Sample.now el) = Sample.now.
Proof.
  apply (refresh_shuts_down_stale (Some 0) Sample.now "xxx" "yyy"
           (Sample.master Sample.silentOnTheDot) Sample.silentOnTheDot "bbb").
  - reflexivity.
  - decide_by_compute.
  - vm_compute. discriminate.
  - reflexivity.
  - reflexivity.
  - decide_by_compute.
  - reflexivity.
  - vm_compute. reflexivity.
  - vm_compute. reflexivity.
Defined.

(** C8 as stated fails at its lower bound: an entry of [correct] whose
    heartbeat age is exactly [requestRebootAfter] goes through the pass
    untouched and stays in [correct]. *)
Lemma refresh_keeps_entry_silent_on_the_dot :
  let m := Sample.master Sample.silentOnTheDot in
  let m' := fst (_refreshShardStatus (Some 0) Sample.now "xxx" "yyy" m) in
  let p := refresh_locals Sample.now "xxx" "yyy" m in
  "aaa" ∈ _getCurrentConfigured Sample.now (getGoalShardCount m) m
  /\ (fun el => Sample.now - ShardInfo.lastHeartbeat el) <$> Registry.get "aaa" (users m)
     = Some (requestRebootAfter (heartbeat (_config m)))
  /\ Registry.get "aaa" (users m') = Registry.get "aaa" (users m)
  /\ pair_of <$> Registry.get "aaa" (users m') = Some (0, 2)
  /\ ShardInfo.stopTime <$> Registry.get "aaa" (users m') = Some 0
  /\ p_correct p = ["aaa"] /\ p_configuring p = ["bbb"].
Proof.
  split; [decide_by_compute|].
  vm_compute. repeat split.
Qed.

Lemma dead_entry_is_not_live_but_keeps_its_id_witness :
  let m := Sample.master Sample.oneDead in
  let el := Sample.worker "aaa" 0 2 500 (Sample.now - 130000) in
  (assumeDeadAfter (heartbeat (_config m)) <= Sample.now - ShardInfo.lastHeartbeat el ->
   "aaa" ∉ _getCurrentConfigured Sample.now 2 m)
  /\ (forall x, x ∈ _getCurrentUnboundIds 2 m <->
        0 <= x < 2
        /\ ~ exists k' el', Registry.get k' Sample.oneDead = Some el'
               /\ ShardInfo.isMaster el' = false
               /\ ShardInfo.goalShardCount el' = 2
               /\ ShardInfo.goalShardId el' = x)
  /\ (ShardInfo.isMaster el = false -> ShardInfo.goalShardCount el = 2 ->
      ShardInfo.goalShardId el ∉ _getCurrentUnboundIds 2 m).
Proof.
  apply (dead_entry_is_not_live_but_keeps_its_id Sample.now 2
           (Sample.master Sample.oneDead) Sample.oneDead "aaa").
  - reflexivity.
  - decide_by_compute.
  - lia.
  - reflexivity.
Defined.

(** C2 as stated fails: an entry silent for longer than [assumeDeadAfter] is
    left out of the live entries, yet its goal id 0 is not among the unbound
    ids, which are [1] alone. *)
Lemma dead_entry_id_is_not_unbound :
  let m := Sample.master Sample.oneDead in
  (fun el => Sample.now - ShardInfo.lastHeartbeat el) <$> Registry.get "aaa" (users m)
    = Some 130000
  /\ assumeDeadAfter (heartbeat (_config m)) = 120000
  /\ expectRebootAfter (heartbeat (_config m)) = 60000
  /\ _getCurrentConfigured Sample.now 2 m = []
  /\ pair_of <$> Registry.get "aaa" (users m) = Some (0, 2)
  /\ _getCurrentUnboundIds 2 m = [1].
Proof. vm_compute. repeat split. Qed.

End Reconciliation.

(** ** The connection rate limiter *)

Section RateLimit.

Variable conf : ShardMasterConfig.















End RateLimit.

(** ** The handshake *)

Section HandshakeFacts.

Variable getIPName : string -> string.
Variable toNumber : string -> option Z.
Variable verify : string -> string -> string -> bool.
Variable sign : string -> string -> string.
Variable showNumber : Z -> string.

Abbreviation connect := (_socketConnection getIPName toNumber verify sign showNumber).

(** Every way [_socketConnection] turns a socket away: the socket is
    disconnected and nothing else is emitted, no shard or master socket is
    registered, the only listener added is the one for [disconnect], and the
    registry is the one before, except that a second master socket is turned
    away after [lastSeen] was set. *)
Lemma socketConnection_rejected updateId now name1 name2 socket m m' eff why :
  connect updateId now name1 name2 socket m = (m', eff, Rejected why) ->
  eff = [Disconnect (socket_id socket)]
  /\ _config m' = _config m
  /\ _shardSockets m' = _shardSockets m
  /\ _masterShardSocket m' = _masterShardSocket m
  /\ (_listeners m' = _listeners m
      \/ _listeners m' = _listeners m ++ [(socket_id socket, OnDisconnect)])
  /\ (why = TooManyConnections <->
      snd (rate_limit (_config m) now (ipName_of getIPName socket)
                      (_ipConnectHistory m)) = true)
  /\ (why <> MasterAlreadyConnected -> _knownUsers m' = _knownUsers m)
  /\ (why = MasterAlreadyConnected ->
      exists r userId user,
        split_on "," (default "" (authorization socket)) !! 0%nat = Some userId
        /\ _knownUsers m = Some r /\ Registry.get userId r = Some user
        /\ ShardInfo.isMaster user = true
        /\ is_Some (_masterShardSocket m)
        /\ _knownUsers m' = Some (Registry.modify userId (ShardInfo.set_lastSeen now) r)).
Proof.
  unfold _socketConnection.
  destruct (rate_limit (_config m) now (ipName_of getIPName socket)
              (_ipConnectHistory m)) as [history limited] eqn:Hlimit.
  simpl.
  destruct limited.
  { intros H. injection H as <- <- <-. simpl.
    repeat split; auto; try discriminate. }
  destruct (negb (truthy (authorization socket))).
  { intros H. injection H as <- <- <-. simpl.
    repeat split; auto; try discriminate. }
  destruct (split_on "," (default "" (authorization socket)) !! 0%nat) as [userId|] eqn:Hid;
    simpl.
  2:{ intros H. injection H as <- <- <-. simpl.
      repeat split; auto; try discriminate. }
  destruct (_ || _).
  { intros H. injection H as <- <- <-. simpl.
    repeat split; auto; try discriminate. }
  destruct (_knownUsers m) as [r|] eqn:Hr.
  2:{ intros H. injection H as <- <- <-. simpl.
      repeat split; auto; try discriminate. }
  destruct (Registry.get userId r) as [user|] eqn:Huser.
  2:{ intros H. injection H as <- <- <-. simpl.
      repeat split; auto; try discriminate. }
  destruct (bool_decide (is_Some (socket_of userId (_shardSockets m)))).
  { intros H. injection H as <- <- <-. simpl.
    repeat split; auto; try discriminate. }
  destruct (bool_decide (tsPrecision (_config m) < _)).
  { intros H. injection H as <- <- <-. simpl.
    repeat split; auto; try discriminate. }
  destruct (_privKey m) as [privKey|].
  2:{ intros H. injection H as <- <- <-. simpl.
      repeat split; auto; try discriminate. }
  destruct (ShardInfo.key user) as [key|].
  2:{ intros H. injection H as <- <- <-. simpl.
      repeat split; auto; try discriminate. }
  destruct (negb (verify _ _ _)).
  { intros H. injection H as <- <- <-. simpl.
    repeat split; auto; try discriminate. }
  unfold modify_users. simpl. rewrite Hr. simpl.
  destruct (ShardInfo.isMaster user) eqn:Hmaster; simpl.
  - case_bool_decide as Hms.
    + intros H. injection H as <- <- <-. simpl.
      repeat split; auto; try discriminate; try congruence.
      intros _. exists r, userId, user. repeat split; auto.
    + destruct (_refreshShardStatus _ _ _ _ _) as [m3 e2]. discriminate.
  - destruct (_refreshShardStatus _ _ _ _ _) as [m3 e2]. discriminate.
Qed.

Lemma status_event_without_listener now sid payload m :
  (forall userId, (sid, OnStatus userId) ∉ _listeners m) ->
  status_event now sid payload m = (m, []).
Proof.
  intros Hno. unfold status_event.
  destruct (List.find _ (_listeners m)) as [[s l]|] eqn:Hf; [|reflexivity].
  apply find_some in Hf as [Hin Hp]. simpl in Hp.
  apply andb_true_iff in Hp as [Hs Hl]. apply bool_decide_eq_true in Hs. subst s.
  destruct l; try discriminate.
  exfalso. apply (Hno userId). apply list_elem_of_In. exact Hin.
Qed.

Lemma broadcast_visit_effects script m b eff ent :
  snd (broadcast_visit script m (b, eff) ent) = eff
  \/ snd (broadcast_visit script m (b, eff) ent)
     = eff ++ [EmitEvalRequest (snd ent) script].
Proof.
  unfold broadcast_visit. destruct (b_threw b); [auto|].
  destruct (Registry.get (fst ent) (users m)); [|auto].
  case_bool_decide; auto.
Qed.

(** [broadcastEvalToShards] emits [evalRequest] to sockets of
    [_shardSockets] and nothing else. *)
Lemma broadcast_emits_to_shard_sockets script m e :
  e ∈ snd (broadcastEvalToShards script m) ->
  exists sid, e = EmitEvalRequest sid script /\ sid ∈ map snd (_shardSockets m).
Proof.
  unfold broadcastEvalToShards.
  generalize (mkBroadcast (Z.of_nat (length (_shardSockets m)))
                (replicate (length (_shardSockets m)) None) 0 None [] [] false).
  assert (Hgen : forall sockets acc,
            (forall e, e ∈ snd acc ->
               exists sid, e = EmitEvalRequest sid script /\ sid ∈ map snd (_shardSockets m)) ->
            (forall ent, ent ∈ sockets -> ent ∈ _shardSockets m) ->
            e ∈ snd (fold_left (broadcast_visit script m) sockets acc) ->
            exists sid, e = EmitEvalRequest sid script /\ sid ∈ map snd (_shardSockets m)).
  { induction sockets as [|ent sockets IH]; intros [b eff] Heff Hsub.
    - apply Heff.
    - cbn [fold_left]. apply IH; [|intros ent' H; apply Hsub; right; exact H].
      intros e' He'.
      destruct (broadcast_visit_effects script m b eff ent) as [Hv|Hv];
        rewrite Hv in He'; [apply Heff; exact He'|].
      apply elem_of_app in He' as [He'|He']; [apply Heff; exact He'|].
      apply list_elem_of_singleton in He' as ->. exists (snd ent). split; [reflexivity|].
      apply (list_elem_of_fmap_2 snd). apply Hsub. left. }
  intros b. apply Hgen; [|auto].
  intros e' He'. inversion He'.
Qed.


(** C4, as amended.  A connection that [_socketConnection] turns away is
    disconnected and sent nothing; its socket gets no [status] listener, is
    not registered as a shard or master socket, and so is never sent an
    [evalRequest]; and the registry, every [lastSeen] with it, is as before,
    unless the connection carried a verified signature for the master entry
    while a master socket was connected: that one is turned away after the
    entry's [lastSeen] was set to the time of the attempt. *)
Theorem rejected_connection_leaves_registry updateId now name1 name2 socket m m' eff why :
  connect updateId now name1 name2 socket m = (m', eff, Rejected why) ->
  eff = [Disconnect (socket_id socket)]
  /\ _shardSockets m' = _shardSockets m
  /\ _masterShardSocket m' = _masterShardSocket m
  /\ (forall userId, (socket_id socket, OnStatus userId) ∈ _listeners m' ->
        (socket_id socket, OnStatus userId) ∈ _listeners m)
  /\ ((forall userId, (socket_id socket, OnStatus userId) ∉ _listeners m) ->
      forall now' payload,
        status_event now' (socket_id socket) payload m' = (m', []))
  /\ (socket_id socket ∉ map snd (_shardSockets m) ->
      forall script,
        EmitEvalRequest (socket_id socket) script
          ∉ snd (broadcastEvalToShards script m'))
  /\ (why <> MasterAlreadyConnected -> _knownUsers m' = _knownUsers m)
  /\ (why = MasterAlreadyConnected ->
      exists r userId user,
        split_on "," (default "" (authorization socket)) !! 0%nat = Some userId
        /\ _knownUsers m = Some r /\ Registry.get userId r = Some user
        /\ ShardInfo.isMaster user = true
        /\ is_Some (_masterShardSocket m)
        /\ _knownUsers m' = Some (Registry.modify userId (ShardInfo.set_lastSeen now) r)).
Proof.
  intros Hres.
  apply socketConnection_rejected in Hres
    as (Heff & _ & Hss & Hms & Hl & _ & Hsame & Hmaster).
  assert (Hlisten : forall userId,
            (socket_id socket, OnStatus userId) ∈ _listeners m' ->
            (socket_id socket, OnStatus userId) ∈ _listeners m).
  { intros userId Hin. destruct Hl as [Hl|Hl]; rewrite Hl in Hin; [exact Hin|].
    apply elem_of_app in Hin as [Hin|Hin]; [exact Hin|].
    apply list_elem_of_singleton in Hin. discriminate. }
  repeat (split; [assumption|]).
  split; [|split; [|split; assumption]].
  - intros Hno now' payload. apply status_event_without_listener.
    intros userId Hin. apply (Hno userId). apply Hlisten. exact Hin.
  - intros Hnot script Hin.
    apply broadcast_emits_to_shard_sockets in Hin as (sid & Heq & Hsid).
    injection Heq as <-. rewrite Hss in Hsid. contradiction.
Qed.

End HandshakeFacts.



Lemma rejected_connection_leaves_registry_witness :
  let m := Sample.masterConnected in
  let socket := Sample.forgedSocket in
  let result :=
    _socketConnection Sample.getIPName Sample.toNumber Sample.verify Sample.sign
                      Sample.showNumber (Some 0) Sample.now "xxx" "yyy" socket m in
  let m' := fst (fst result) in
  snd result = Rejected SignatureNotVerified
  /\ snd (fst result) = [Disconnect (socket_id socket)]
  /\ _shardSockets m' = _shardSockets m
  /\ _masterShardSocket m' = _masterShardSocket m
  /\ (forall userId, (socket_id socket, OnStatus userId) ∈ _listeners m' ->
        (socket_id socket, OnStatus userId) ∈ _listeners m)
  /\ ((forall userId, (socket_id socket, OnStatus userId) ∉ _listeners m) ->
      forall now' payload,
        status_event now' (socket_id socket) payload m' = (m', []))
  /\ (socket_id socket ∉ map snd (_shardSockets m) ->
      forall script,
        EmitEvalRequest (socket_id socket) script
          ∉ snd (broadcastEvalToShards script m'))
  /\ (SignatureNotVerified <> MasterAlreadyConnected ->
      _knownUsers m' = _knownUsers m).
Proof.
  split; [reflexivity|].
  pose proof (rejected_connection_leaves_registry Sample.getIPName Sample.toNumber
                Sample.verify Sample.sign Sample.showNumber (Some 0) Sample.now "xxx" "yyy"
                Sample.forgedSocket Sample.masterConnected _ _ SignatureNotVerified
                eq_refl) as H.
  destruct H as (H1 & H2 & H3 & H4 & H5 & H6 & H7 & _).
  repeat split; assumption.
Defined.

(** C4 as stated fails: while the master shard is connected, a second socket
    that presents the master's name with a valid signature is turned away,
    and the master entry's [lastSeen] has moved from 0 to the time of the
    attempt. *)
Lemma second_master_socket_updates_lastSeen :
  let m := Sample.masterConnected in
  let result :=
    _socketConnection Sample.getIPName Sample.toNumber Sample.verify Sample.sign
                      Sample.showNumber (Some 0) Sample.now "xxx" "yyy"
                      Sample.secondMasterSocket m in
  snd result = Rejected MasterAlreadyConnected
  /\ snd (fst result) = [Disconnect "s2"]
  /\ ShardInfo.lastSeen <$> Registry.get "mas" (users m) = Some 0
  /\ ShardInfo.lastSeen <$> Registry.get "mas" (users (fst (fst result)))
     = Some Sample.now.
Proof. vm_compute. repeat split. Qed.


(** ** Status reports *)

Section StatusReports.

Lemma on_status_entry now userId status m r user :
  _knownUsers m = Some r -> Registry.get userId r = Some user ->
  let status' := ShardStatus.update (ShardStatus.new (ShardStatus.id status)) status in
  Registry.get userId (users (fst (on_status now userId (Some status) m)))
  = Some (apply_status (heartbeat (_config m)) userId status'
                       (ShardInfo.set_lastSeen now user))
  /\ forall k, k <> userId ->
       Registry.get k (users (fst (on_status now userId (Some status) m)))
       = Registry.get k r.
Proof.
  intros Hr Huser. unfold on_status, modify_users. simpl. rewrite Hr. simpl.
  unfold users. simpl. split.
  - rewrite !get_modify_eq, Huser. reflexivity.
  - intros k Hk. rewrite !get_modify_ne by exact Hk. reflexivity.
Qed.

Lemma apply_status_lastSeen hb userId status user :
  ShardInfo.lastSeen (apply_status hb userId status user) = ShardInfo.lastSeen user.
Proof.
  unfold apply_status. destruct (useMessageStats hb); [|reflexivity].
  case_bool_decide; reflexivity.
Qed.

Lemma apply_status_heartbeat_stats hb userId status user :
  useMessageStats hb = true ->
  ShardInfo.lastHeartbeat (apply_status hb userId status user)
  = if bool_decide (is_Some (ShardInfo.stats user)
                    /\ 0 < ShardStatus.messageCountDelta status)
    then ShardInfo.lastSeen user else ShardInfo.lastHeartbeat user.
Proof.
  intros Hon. unfold apply_status. rewrite Hon.
  destruct (ShardInfo.stats user) as [old|]; simpl.
  - destruct (decide (0 < ShardStatus.messageCountDelta status)) as [Hd|Hd].
    + rewrite !bool_decide_eq_true_2; [reflexivity | split; [eauto | exact Hd] | exact Hd].
    + rewrite !bool_decide_eq_false_2; [reflexivity | intros [_ H]; contradiction | exact Hd].
  - reflexivity.
Qed.

Lemma apply_status_heartbeat_plain hb userId status user :
  useMessageStats hb = false ->
  ShardInfo.lastHeartbeat (apply_status hb userId status user)
  = ShardInfo.lastSeen user.
Proof. intros Hoff. unfold apply_status. rewrite Hoff. reflexivity. Qed.

Lemma apply_status_other_fields hb1 hb2 userId status user :
  ShardInfo.set_lastHeartbeat 0 (apply_status hb1 userId status user)
  = ShardInfo.set_lastHeartbeat 0 (apply_status hb2 userId status user).
Proof.
  unfold apply_status.
  destruct (useMessageStats hb1); destruct (useMessageStats hb2);
    repeat case_bool_decide; reflexivity.
Qed.

(** The listener a [status] event of socket [sid] reaches. *)
Lemma status_event_live now sid userId payload m :
  (sid, OnStatus userId) ∈ _listeners m ->
  (forall u, (sid, OnStatus u) ∈ _listeners m -> u = userId) ->
  sid ∉ map fst (_detached m) ->
  status_event now sid payload m = on_status now userId payload m.
Proof.
  intros Hin Huniq Hlive. unfold status_event.
  destruct (List.find _ (_listeners m)) as [[s l]|] eqn:Hf.
  - apply find_some in Hf as [Hl Hp]. simpl in Hp.
    apply andb_true_iff in Hp as [Hs Hk]. apply bool_decide_eq_true in Hs. subst s.
    destruct l as [|u| | |]; try discriminate.
    apply list_elem_of_In in Hl. rewrite (Huniq u Hl).
    destruct (List.find _ (_detached m)) as [[s' obj]|] eqn:Hd; [|reflexivity].
    exfalso. apply find_some in Hd as [Hd Hs']. simpl in Hs'.
    apply bool_decide_eq_true in Hs'. subst s'. apply Hlive.
    apply list_elem_of_In, in_map_iff. exists (sid, obj). auto.
  - exfalso. apply list_elem_of_In in Hin.
    apply (find_none _ _ Hf) in Hin. simpl in Hin.
    rewrite bool_decide_eq_true_2 in Hin by reflexivity. discriminate.
Qed.

Lemma on_status_unusable now userId m r user :
  _knownUsers m = Some r -> Registry.get userId r = Some user ->
  Registry.get userId (users (fst (on_status now userId None m)))
  = Some (ShardInfo.set_lastSeen now user)
  /\ forall k, k <> userId ->
       Registry.get k (users (fst (on_status now userId None m))) = Registry.get k r.
Proof.
  intros Hr Huser. unfold on_status, modify_users. simpl. rewrite Hr. simpl.
  unfold users. simpl. split.
  - rewrite get_modify_eq, Huser. reflexivity.
  - intros k Hk. rewrite get_modify_ne by exact Hk. reflexivity.
Qed.

(** C10, as amended.  The socket [sid] was accepted for the entry [userId]
    and its listener still writes to the entry the registry holds (the
    registry has not been given new objects since).  Then every status
    report on the socket sets the entry's [lastSeen] to the time of the
    report.  For a payload [ShardStatus.from] accepts: under
    [useMessageStats] the entry's [lastHeartbeat] moves, to that same time,
    only for a report whose [messageCountDelta] is strictly positive (and
    then only once the entry holds earlier stats), so a worker that reports
    zero messages keeps its old [lastHeartbeat]; without [useMessageStats]
    the report sets [lastHeartbeat] to the new [lastSeen].  For a payload
    [ShardStatus.from] throws on, nothing but [lastSeen] changes, in
    either mode.  The two modes agree on every other field of the entry and
    on every other entry. *)
Theorem status_report_heartbeat now sid userId payload m1 m2 r user :
  _knownUsers m1 = Some r -> _knownUsers m2 = Some r ->
  useMessageStats (heartbeat (_config m1)) = true ->
  useMessageStats (heartbeat (_config m2)) = false ->
  Registry.get userId r = Some user ->
  (sid, OnStatus userId) ∈ _listeners m1 ->
  (sid, OnStatus userId) ∈ _listeners m2 ->
  (forall u, (sid, OnStatus u) ∈ _listeners m1 -> u = userId) ->
  (forall u, (sid, OnStatus u) ∈ _listeners m2 -> u = userId) ->
  sid ∉ map fst (_detached m1) -> sid ∉ map fst (_detached m2) ->
  let r1 := users (fst (status_event now sid payload m1)) in
  let r2 := users (fst (status_event now sid payload m2)) in
  exists user1 user2,
    Registry.get userId r1 = Some user1 /\ Registry.get userId r2 = Some user2
    /\ ShardInfo.lastSeen user1 = now /\ ShardInfo.lastSeen user2 = now
    /\ match payload with
       | Some status =>
           ShardInfo.lastHeartbeat user1 =
             (if bool_decide (is_Some (ShardInfo.stats user)
                              /\ 0 < ShardStatus.messageCountDelta status)
              then now else ShardInfo.lastHeartbeat user)
           /\ (ShardInfo.lastHeartbeat user1 <> ShardInfo.lastHeartbeat user ->
               0 < ShardStatus.messageCountDelta status)
           /\ (ShardStatus.messageCountDelta status <= 0 ->
               ShardInfo.lastHeartbeat user1 = ShardInfo.lastHeartbeat user)
           /\ ShardInfo.lastHeartbeat user2 = ShardInfo.lastSeen user2
       | None =>
           user1 = ShardInfo.set_lastSeen now user
           /\ user2 = ShardInfo.set_lastSeen now user
       end
    /\ ShardInfo.set_lastHeartbeat 0 user1 = ShardInfo.set_lastHeartbeat 0 user2
    /\ forall k, k <> userId ->
         Registry.get k r1 = Registry.get k r /\ Registry.get k r2 = Registry.get k r.
Proof.
  intros Hr1 Hr2 Hon Hoff Huser Hin1 Hin2 Hu1 Hu2 Hl1 Hl2 r1 r2.
  unfold r1, r2.
  rewrite (status_event_live now sid userId payload m1 Hin1 Hu1 Hl1).
  rewrite (status_event_live now sid userId payload m2 Hin2 Hu2 Hl2).
  destruct payload as [status|].
  - destruct (on_status_entry now userId status m1 r user Hr1 Huser) as [Hg1 Ho1].
    destruct (on_status_entry now userId status m2 r user Hr2 Huser) as [Hg2 Ho2].
    eexists. eexists. split; [exact Hg1|]. split; [exact Hg2|].
    rewrite !apply_status_lastSeen.
    rewrite (apply_status_heartbeat_stats _ _ _ _ Hon).
    rewrite (apply_status_heartbeat_plain _ _ _ _ Hoff).
    change (ShardInfo.lastSeen (ShardInfo.set_lastSeen now user)) with now.
    change (ShardInfo.stats (ShardInfo.set_lastSeen now user))
      with (ShardInfo.stats user).
    change (ShardInfo.lastHeartbeat (ShardInfo.set_lastSeen now user))
      with (ShardInfo.lastHeartbeat user).
    change (ShardStatus.messageCountDelta
              (ShardStatus.update (ShardStatus.new (ShardStatus.id status)) status))
      with (ShardStatus.messageCountDelta status).
    repeat (split; [reflexivity|]).
    split; [split; [|split; [|split]]|split].
    + reflexivity.
    + case_bool_decide as Hd; [intros _; apply Hd | congruence].
    + intros Hle. rewrite bool_decide_eq_false_2; [reflexivity|]. lia.
    + reflexivity.
    + apply apply_status_other_fields.
    + intros k Hk. split; [apply Ho1 | apply Ho2]; exact Hk.
  - destruct (on_status_unusable now userId m1 r user Hr1 Huser) as [Hg1 Ho1].
    destruct (on_status_unusable now userId m2 r user Hr2 Huser) as [Hg2 Ho2].
    eexists. eexists. split; [exact Hg1|]. split; [exact Hg2|].
    repeat (split; [reflexivity|]).
    split; [split; reflexivity|]. split; [reflexivity|].
    intros k Hk. split; [apply Ho1 | apply Ho2]; exact Hk.
Qed.

Lemma status_report_heartbeat_witness :
  let now := Sample.now in
  let user := Sample.reported in
  let status := Sample.idleReport in
  let m1 := Sample.listening (Sample.masterStats Sample.oneReported) in
  let m2 := Sample.listening (Sample.master Sample.oneReported) in
  let r1 := users (fst (status_event now "s1" (Some status) m1)) in
  let r2 := users (fst (status_event now "s1" (Some status) m2)) in
  exists user1 user2,
    Registry.get "aaa" r1 = Some user1 /\ Registry.get "aaa" r2 = Some user2
    /\ ShardInfo.lastSeen user1 = now /\ ShardInfo.lastSeen user2 = now
    /\ (ShardInfo.lastHeartbeat user1 =
          (if bool_decide (is_Some (ShardInfo.stats user)
                           /\ 0 < ShardStatus.messageCountDelta status)
           then now else ShardInfo.lastHeartbeat user)
        /\ (ShardInfo.lastHeartbeat user1 <> ShardInfo.lastHeartbeat user ->
            0 < ShardStatus.messageCountDelta status)
        /\ (ShardStatus.messageCountDelta status <= 0 ->
            ShardInfo.lastHeartbeat user1 = ShardInfo.lastHeartbeat user)
        /\ ShardInfo.lastHeartbeat user2 = ShardInfo.lastSeen user2)
    /\ ShardInfo.set_lastHeartbeat 0 user1 = ShardInfo.set_lastHeartbeat 0 user2
    /\ forall k, k <> "aaa" ->
         Registry.get k r1 = Registry.get k Sample.oneReported
         /\ Registry.get k r2 = Registry.get k Sample.oneReported.
Proof.
  apply (status_report_heartbeat Sample.now "s1" "aaa" (Some Sample.idleReport)
           (Sample.listening (Sample.masterStats Sample.oneReported))
           (Sample.listening (Sample.master Sample.oneReported))
           Sample.oneReported Sample.reported);
    first [reflexivity
          | right; left
          | intros u Hin; apply list_elem_of_In in Hin; simpl in Hin;
            destruct Hin as [Hin|[Hin|[]]]; [discriminate | congruence]
          | intros Hin; inversion Hin].
Defined.

(** C10 as stated fails.  Without [useMessageStats], a report whose payload
    [ShardStatus.from] throws on moves [lastSeen] and leaves [lastHeartbeat]
    behind.  And once the registry has been read from the users file again,
    a report on a socket accepted before, here one of an interval with five
    messages, is written to the entry object the listener closed over: the
    entry the registry now holds keeps its [lastSeen] and its
    [lastHeartbeat]. *)
Lemma status_report_can_leave_heartbeat_behind :
  let m0 := Sample.listening (Sample.master Sample.oneReported) in
  let later := Sample.now + 1000 in
  let unusable := fst (status_event later "s1" None m0) in
  let reloaded := fst (_updateUsers Sample.usersFile (Some 0) Sample.now "xxx" "yyy" m0) in
  let m2 := fst (status_event later "s1" (Some Sample.busyReport) reloaded) in
  useMessageStats (heartbeat (_config m0)) = false
  /\ ShardInfo.lastSeen <$> Registry.get "aaa" (users m0) = Some (Sample.now - 20000)
  /\ ShardInfo.lastSeen <$> Registry.get "aaa" (users unusable) = Some later
  /\ ShardInfo.lastHeartbeat <$> Registry.get "aaa" (users unusable)
     = Some (Sample.now - 20000)
  /\ Registry.get "aaa" (users reloaded) = Some Sample.reported
  /\ Registry.get "aaa" (users m2) = Some Sample.reported
  /\ ShardInfo.lastSeen Sample.reported = Sample.now - 20000
  /\ ShardInfo.lastHeartbeat Sample.reported = Sample.now - 20000
  /\ (ShardInfo.lastSeen ∘ snd)
       <$> List.find (fun d => bool_decide (fst d = "s1")) (_detached m2)
     = Some later.
Proof. vm_compute. repeat split. Qed.

(** A payload that [ShardStatus.from] throws on moves [lastSeen] and nothing
    else. *)
Lemma unusable_status_sets_lastSeen_only now userId m r user :
  _knownUsers m = Some r -> Registry.get userId r = Some user ->
  on_status now userId None m
  = (set_knownUsers (Some (Registry.modify userId (ShardInfo.set_lastSeen now) r)) m, []).
Proof.
  intros Hr _. unfold on_status, modify_users. simpl. rewrite Hr. reflexivity.
Qed.

End StatusReports.

(** ** Minting fails *)

Section Minting.

Lemma generateShardName_free draws r name :
  _generateShardName draws r = Some name -> Registry.get name r = None.
Proof.
  unfold _generateShardName. intros H. apply find_some in H as [_ H].
  apply negb_true_iff, bool_decide_eq_false in H.
  destruct (Registry.get name r); [|reflexivity].
  exfalso. apply H. eauto.
Qed.

(** C9, as amended.  When key-pair generation fails for a worker identity
    that was being minted, the provisional entry stored under the new name is
    deleted and the registry is the one from before the mint; the failure is
    written to the error log, and the failure e-mail is handed to the mail
    command when mail is enabled in the configuration and not sent when it
    is not. *)
Theorem failed_key_pair_unregisters m r draws name isMaster err :
  _knownUsers m = Some r -> _generateShardName draws r = Some name ->
  let minted := generateShardConfig name isMaster m in
  let failed := generateShardConfig_keyPairFailed name err (fst minted) in
  is_Some (Registry.get name (users (fst minted)))
  /\ snd minted = [GenerateKeyPair name isMaster]
  /\ _knownUsers (fst failed) = Some r
  /\ (enabled (mail (_config m)) = true ->
      snd failed = [LogError "Failed to generate key-pair!"; LogError err;
                    SendEmail (command (mail (_config m)))
                              (failArgs (mail (_config m)))
                              (shardConfigCreateFailMessage (mail (_config m)))])
  /\ (enabled (mail (_config m)) = false ->
      snd failed = [LogError "Failed to generate key-pair!"; LogError err]).
Proof.
  intros Hr Hname minted failed.
  apply generateShardName_free in Hname.
  assert (Hu : users m = r) by (unfold users; rewrite Hr; reflexivity).
  subst failed minted. unfold generateShardConfig_keyPairFailed, generateShardConfig.
  simpl. unfold users at 1 3. simpl. rewrite Hu.
  split; [|split; [reflexivity|split; [|split]]].
  - destruct isMaster.
    + rewrite get_modify_eq, get_set, decide_True by reflexivity. simpl. eauto.
    + rewrite get_set, decide_True by reflexivity. eauto.
  - f_equal. destruct isMaster; unfold users; simpl.
    + rewrite delete_modify. apply delete_set_fresh. exact Hname.
    + apply delete_set_fresh. exact Hname.
  - intros Hen. unfold _sendShardCreateFailEmail. rewrite Hen. reflexivity.
  - intros Hen. unfold _sendShardCreateFailEmail. rewrite Hen. reflexivity.
Qed.

Lemma failed_key_pair_unregisters_witness :
  let m := Sample.masterMail Sample.twins in
  let minted := generateShardConfig "abc" false m in
  let failed := generateShardConfig_keyPairFailed "abc" "ERR_KEYGEN" (fst minted) in
  is_Some (Registry.get "abc" (users (fst minted)))
  /\ snd minted = [GenerateKeyPair "abc" false]
  /\ _knownUsers (fst failed) = Some Sample.twins
  /\ (enabled (mail (_config m)) = true ->
      snd failed = [LogError "Failed to generate key-pair!"; LogError "ERR_KEYGEN";
                    SendEmail (command (mail (_config m)))
                              (failArgs (mail (_config m)))
                              (shardConfigCreateFailMessage (mail (_config m)))])
  /\ (enabled (mail (_config m)) = false ->
      snd failed = [LogError "Failed to generate key-pair!"; LogError "ERR_KEYGEN"]).
Proof.
  apply (failed_key_pair_unregisters (Sample.masterMail Sample.twins) Sample.twins
           ["aaa"; "abc"] "abc" false "ERR_KEYGEN"); reflexivity.
Defined.

(** C9 as stated fails: with mail disabled in the configuration, a failed
    key-pair generation removes the provisional entry and writes to the
    error log; no e-mail is sent. *)
Lemma failed_key_pair_without_mail_sends_no_email :
  let m := Sample.master Sample.twins in
  let minted := generateShardConfig "abc" false m in
  let failed := generateShardConfig_keyPairFailed "abc" "ERR_KEYGEN" (fst minted) in
  enabled (mail (_config m)) = false
  /\ _generateShardName ["aaa"; "abc"] Sample.twins = Some "abc"
  /\ _knownUsers (fst failed) = Some Sample.twins
  /\ snd failed = [LogError "Failed to generate key-pair!"; LogError "ERR_KEYGEN"]
  /\ (forall cmd args stdin, SendEmail cmd args stdin ∉ snd failed).
Proof.
  split; [reflexivity|]. split; [reflexivity|]. split; [reflexivity|].
  split; [reflexivity|].
  intros cmd args stdin Hin.
  repeat (apply elem_of_cons in Hin as [Hin|Hin]; [discriminate|]).
  inversion Hin.
Qed.

End Minting.

(** ** Broadcast evaluate *)

Section BroadcastFacts.

Lemma array_set_lookup_eq i v out : array_set i v out !! i = Some v.
Proof.
  revert out. induction i as [|i IH]; intros [|x out]; simpl; auto.
Qed.

Lemma array_set_lookup_keep i v out j x :
  i <> j -> out !! j = Some x -> array_set i v out !! j = Some x.
Proof.
  revert out j. induction i as [|i IH]; intros [|y out] [|j] Hne Hj; simpl in *;
    try discriminate; try congruence.
  apply IH; [congruence | exact Hj].
Qed.

Lemma take_pending_None sid l :
  take_pending sid l = None <-> sid ∉ map fst l.
Proof.
  induction l as [|[s id] l IH]; simpl.
  - split; [intros _; apply not_elem_of_nil | reflexivity].
  - rewrite not_elem_of_cons. destruct (decide (sid = s)) as [->|Hne].
    + split; [discriminate | intros [H _]; congruence].
    + destruct (take_pending sid l) as [[id' rest]|].
      * split; [discriminate|]. intros [_ H]. apply IH in H. discriminate.
      * split; [|reflexivity]. intros _. split; [exact Hne | apply IH; reflexivity].
Qed.

Lemma take_pending_Some sid l id rest :
  take_pending sid l = Some (id, rest) ->
  (sid, id) ∈ l /\ length l = S (length rest)
  /\ (NoDup (map fst l) ->
      NoDup (map fst rest)
      /\ forall s i, (s, i) ∈ rest <-> (s, i) ∈ l /\ s <> sid).
Proof.
  revert id rest. induction l as [|[s i0] l IH]; intros id rest; simpl; [discriminate|].
  destruct (decide (sid = s)) as [->|Hne].
  - intros H. injection H as <- <-. split; [left|]. split; [reflexivity|].
    intros Hnd. apply NoDup_cons in Hnd as [Hs Hnd]. split; [exact Hnd|].
    intros s' i'. rewrite elem_of_cons. split.
    + intros Hin. split; [right; exact Hin|]. intros ->. apply Hs.
      apply (list_elem_of_fmap_2 fst _ _ Hin).
    + intros [[Heq|Hin] Hs']; [congruence | exact Hin].
  - destruct (take_pending sid l) as [[id' rest']|] eqn:Ht; [|discriminate].
    intros H. injection H as <- <-.
    destruct (IH id' rest' eq_refl) as (Hin & Hlen & Hnd').
    split; [right; exact Hin|]. split; [simpl; lia|].
    intros Hnd. apply NoDup_cons in Hnd as [Hs Hnd].
    destruct (Hnd' Hnd) as [Hndr Hiff]. split.
    + simpl. apply NoDup_cons. split; [|exact Hndr].
      intros Hin'. apply list_elem_of_fmap in Hin' as [[s' i'] [Heq Hin']].
      simpl in Heq. subst s'. apply Hiff in Hin' as [Hin' _]. apply Hs.
      apply (list_elem_of_fmap_2 fst _ _ Hin').
    + intros s' i'. rewrite !elem_of_cons, Hiff. split.
      * intros [Heq|[Hin' Hs']]; [injection Heq as -> ->; auto | auto].
      * intros [[Heq|Hin'] Hs']; auto.
Qed.

Lemma take_pending_elem sid l :
  sid ∈ map fst l -> exists id rest, take_pending sid l = Some (id, rest).
Proof.
  intros Hin. destruct (take_pending sid l) as [[id rest]|] eqn:Ht; [eauto|].
  apply take_pending_None in Ht. contradiction.
Qed.

Lemma take_pending_sublist sid l : forall id rest,
  take_pending sid l = Some (id, rest) -> rest `sublist_of` l.
Proof.
  induction l as [|[s i0] l IH]; intros id rest; simpl; [discriminate|].
  destruct (decide (sid = s)).
  - intros H. injection H as <- <-. apply sublist_cons, reflexivity.
  - destruct (take_pending sid l) as [[id' rest']|]; [|discriminate].
    intros H. injection H as <- <-. apply sublist_skip. apply (IH id' rest' eq_refl).
Qed.

Lemma NoDup_map_inj {A B} (f : A -> B) (l : list A) x y :
  NoDup (map f l) -> x ∈ l -> y ∈ l -> f x = f y -> x = y.
Proof.
  induction l as [|a l IH]; simpl; intros Hnd Hx Hy Heq; [inversion Hx|].
  apply NoDup_cons in Hnd as [Ha Hnd].
  apply elem_of_cons in Hx as [->|Hx]; apply elem_of_cons in Hy as [->|Hy].
  - reflexivity.
  - exfalso. apply Ha. rewrite Heq. apply (list_elem_of_fmap_2 f _ _ Hy).
  - exfalso. apply Ha. rewrite <- Heq. apply (list_elem_of_fmap_2 f _ _ Hx).
  - apply IH; assumption.
Qed.

(** An acknowledgement without an error, while the broadcast is running. *)
Lemma reply_result_running sid res error b id rest :
  running b -> take_pending sid (b_pending b) = Some (id, rest) ->
  truthy error = false ->
  let b' := broadcast_reply sid error res b in
  b_pending b' = rest /\ b_num b' = b_num b
  /\ b_out b' = array_set (Z.to_nat id) res (b_out b)
  /\ (rest <> [] -> running b') /\ (rest = [] -> completed b').
Proof.
  intros (Herr & Hcb & Hnum & Hne) Ht Hfalsy. unfold broadcast_reply.
  rewrite Ht, Hfalsy. unfold done. simpl. rewrite Herr.
  apply take_pending_Some in Ht as (_ & Hlen & _).
  case_bool_decide as Hd; simpl;
    (split; [reflexivity|]; split; [reflexivity|]; split; [reflexivity|]; split).
  - intros Hrest. exfalso. destruct rest; [congruence|]. simpl in Hlen. lia.
  - intros ->. unfold completed. simpl. rewrite Hcb. auto.
  - intros Hrest. unfold running. simpl. repeat split; auto. lia.
  - intros ->. exfalso. simpl in Hlen. lia.
Qed.

(** An acknowledgement with an error, while the broadcast is running. *)
Lemma reply_error_running sid res e b id rest :
  running b -> take_pending sid (b_pending b) = Some (id, rest) ->
  truthy (Some e) = true ->
  failed e (broadcast_reply sid (Some e) res b).
Proof.
  intros (Herr & Hcb & Hnum & Hne) Ht Htruthy. unfold broadcast_reply.
  rewrite Ht, Htruthy. unfold done. simpl.
  apply take_pending_Some in Ht as (_ & Hlen & _).
  rewrite bool_decide_eq_true_2 by lia. unfold failed. simpl.
  rewrite Hcb. repeat split; eauto. lia.
Qed.

Lemma reply_after_failure sid error res e b :
  failed e b -> failed e (broadcast_reply sid error res b).
Proof.
  intros (Hcb & [e0 Herr] & Hnum). unfold broadcast_reply.
  destruct (take_pending sid (b_pending b)) as [[id rest]|];
    [|repeat split; eauto].
  destruct (truthy error) eqn:Htr; unfold done; simpl.
  - destruct error as [e1|]; [|discriminate].
    rewrite bool_decide_eq_false_2 by lia. repeat split; eauto. simpl. lia.
  - rewrite Herr. rewrite bool_decide_eq_false_2 by lia.
    repeat split; eauto. simpl. lia.
Qed.

Lemma replies_after_failure replies : forall e b,
  failed e b -> failed e (broadcast_replies replies b).
Proof.
  induction replies as [|[[sid error] res] replies IH]; intros e b Hf; [exact Hf|].
  apply IH. apply reply_after_failure. exact Hf.
Qed.

Lemma reply_after_completion sid error res b :
  completed b -> broadcast_reply sid error res b = b.
Proof.
  intros (_ & Hp & _). unfold broadcast_reply. rewrite Hp. reflexivity.
Qed.

(** Replies that carry no error, each from another socket that is still
    awaited.  Every one lands at its shard id, and the callback is called,
    with the array, when the last awaited reply is in. *)
Lemma replies_without_error replies : forall b,
  running b \/ completed b ->
  NoDup (map fst (b_pending b)) ->
  NoDup (map reply_socket replies) ->
  (forall r, r ∈ replies -> reply_socket r ∈ map fst (b_pending b)) ->
  (forall r, r ∈ replies -> truthy (reply_error r) = false) ->
  let b' := broadcast_replies replies b in
  (running b' \/ completed b')
  /\ (length (b_pending b') + length replies = length (b_pending b))%nat
  /\ (forall s i, (s, i) ∈ b_pending b' <->
        (s, i) ∈ b_pending b /\ s ∉ map reply_socket replies)
  /\ (NoDup (map (fun a => Z.to_nat (snd a)) (b_pending b)) ->
      (forall r id, r ∈ replies -> (reply_socket r, id) ∈ b_pending b ->
         b_out b' !! Z.to_nat id = Some (reply_result r))
      /\ (forall j x, b_out b !! j = Some x ->
            (forall r id, r ∈ replies -> (reply_socket r, id) ∈ b_pending b ->
               Z.to_nat id <> j) ->
            b_out b' !! j = Some x)).
Proof.
  induction replies as [|[[sid error] res] replies IH]; intros b Hb Hnd Hndr Hin Hok.
  - simpl. split; [exact Hb|]. split; [lia|]. split.
    + intros s i. split; [intros H; split; [exact H | apply not_elem_of_nil] | tauto].
    + intros _. split; [intros r id H; inversion H | auto].
  - simpl in Hndr. apply NoDup_cons in Hndr as [Hsid Hndr].
    assert (Hin0 : sid ∈ map fst (b_pending b)) by (apply (Hin (sid, error, res)); left).
    destruct (take_pending_elem sid (b_pending b) Hin0) as (id & rest & Ht).
    assert (Hrun : running b).
    { destruct Hb as [Hb|(_ & Hp & _)]; [exact Hb|].
      rewrite Hp in Hin0. inversion Hin0. }
    assert (Hfalsy : truthy error = false) by (apply (Hok (sid, error, res)); left).
    destruct (reply_result_running sid res error b id rest Hrun Ht Hfalsy)
      as (Hp1 & Hn1 & Ho1 & Hr1 & Hc1).
    destruct (take_pending_Some sid (b_pending b) id rest Ht) as (Hid & Hlen & Hrest).
    destruct (Hrest Hnd) as [Hndrest Hiff].
    set (b1 := broadcast_reply sid error res b) in *.
    assert (Hb1 : running b1 \/ completed b1).
    { destruct rest; [right; apply Hc1; reflexivity | left; apply Hr1; discriminate]. }
    assert (Hin1 : forall r, r ∈ replies -> reply_socket r ∈ map fst (b_pending b1)).
    { intros r Hr. rewrite Hp1.
      assert (Hr' : reply_socket r ∈ map fst (b_pending b)) by (apply Hin; right; exact Hr).
      apply list_elem_of_fmap in Hr' as [[s i] [Hs Hsi]]. simpl in Hs.
      apply list_elem_of_fmap. exists (s, i). split; [exact Hs|].
      apply Hiff. split; [exact Hsi|]. intros ->. apply Hsid.
      rewrite <- Hs. apply (list_elem_of_fmap_2 reply_socket _ _ Hr). }
    assert (Hok1 : forall r, r ∈ replies -> truthy (reply_error r) = false)
      by (intros r Hr; apply Hok; right; exact Hr).
    rewrite <- Hp1 in Hndrest.
    destruct (IH b1 Hb1 Hndrest Hndr Hin1 Hok1) as (IHb & IHlen & IHiff & IHout).
    change (broadcast_replies ((sid, error, res) :: replies) b)
      with (broadcast_replies replies b1).
    split; [exact IHb|]. split; [rewrite Hp1 in IHlen; simpl; lia|]. split.
    + intros s i. rewrite IHiff, Hp1, Hiff. simpl. rewrite not_elem_of_cons.
      unfold reply_socket at 2. simpl. tauto.
    + intros Hndi.
      assert (Hndi1 : NoDup (map (fun a => Z.to_nat (snd a)) (b_pending b1))).
      { rewrite Hp1. eapply sublist_NoDup; [exact Hndi|].
        apply (fmap_sublist (fun a => Z.to_nat (snd a))).
        apply (take_pending_sublist sid _ id rest Ht). }
      destruct (IHout Hndi1) as [IHset IHkeep]. split.
      * intros r id' Hr Hrid. apply elem_of_cons in Hr as [->|Hr].
        -- unfold reply_socket, reply_result in *. simpl in *.
           assert (id' = id).
           { assert (Heq : (sid, id') = (sid, id))
               by (apply (NoDup_map_inj fst (b_pending b)); auto).
             congruence. }
           subst id'. apply IHkeep.
           ++ rewrite Ho1. apply array_set_lookup_eq.
           ++ intros r id' Hr Hrid' Heq.
              rewrite Hp1 in Hrid'. apply Hiff in Hrid' as [Hrid' Hne].
              assert (Hsame : (reply_socket r, id') = (sid, id))
                by (apply (NoDup_map_inj (fun a => Z.to_nat (snd a)) (b_pending b)); auto).
              injection Hsame as Hs _. contradiction.
        -- apply IHset; [exact Hr|]. rewrite Hp1. apply Hiff. split; [exact Hrid|].
           intros Heq. apply Hsid. rewrite <- Heq.
           apply (list_elem_of_fmap_2 reply_socket _ _ Hr).
      * intros j x Hj Hfree. apply IHkeep.
        -- rewrite Ho1. apply array_set_lookup_keep; [|exact Hj].
           apply (Hfree (sid, error, res) id); [left | exact Hid].
        -- intros r id' Hr Hrid'. rewrite Hp1 in Hrid'. apply Hiff in Hrid' as [Hrid' _].
           apply (Hfree r id'); [right; exact Hr | exact Hrid'].
Qed.

Lemma broadcast_forEach script m sockets : forall b eff k,
  visiting k b -> k + Z.of_nat (length sockets) <= b_num b ->
  (forall ent, ent ∈ sockets -> is_Some (Registry.get (fst ent) (users m))) ->
  let result := fold_left (broadcast_visit script m) sockets (b, eff) in
  visiting (k + Z.of_nat (length sockets)) (fst result)
  /\ b_num (fst result) = b_num b /\ b_out (fst result) = b_out b
  /\ b_pending (fst result) = b_pending b ++ asked_among m sockets
  /\ snd result
     = eff ++ map (fun a => EmitEvalRequest (fst a) script) (asked_among m sockets).
Proof.
  induction sockets as [|ent sockets IH]; intros b eff k Hv Hk Hres; cbv zeta.
  - simpl. rewrite !app_nil_r, Z.add_0_r. auto.
  - cbn [fold_left].
    destruct Hv as (Herr & Hthrew & Hdone & Hnone & Hall).
    destruct (Hres ent) as [user Huser]; [left|].
    assert (Hres' : forall ent', ent' ∈ sockets ->
              is_Some (Registry.get (fst ent') (users m)))
      by (intros ent' H; apply Hres; right; exact H).
    simpl length in *.
    unfold asked_among. cbn [flat_map]. fold (asked_among m sockets).
    assert (Hvisit : broadcast_visit script m (b, eff) ent =
              if bool_decide (ShardInfo.currentShardId user < 0) then (done b, eff)
              else (mkBroadcast (b_num b) (b_out b) (b_numDone b) (b_err b)
                      (b_pending b ++ [(snd ent, ShardInfo.currentShardId user)])
                      (b_cb b) (b_threw b),
                    eff ++ [EmitEvalRequest (snd ent) script]))
      by (unfold broadcast_visit; rewrite Hthrew, Huser; reflexivity).
    rewrite Hvisit, Huser. clear Hvisit.
    case_bool_decide as Hid.
    + assert (Hv1 : visiting (k + 1) (done b)).
      { unfold done. rewrite Herr. unfold visiting.
        case_bool_decide as Hd; simpl; repeat split; auto; try lia.
        - intros _ _. rewrite Hnone by lia. reflexivity.
        - intros Hlt. apply Hnone. lia. }
      destruct (IH (done b) eff (k + 1) Hv1) as (IH1 & IH2 & IH3 & IH4 & IH5);
        [unfold done; rewrite Herr; case_bool_decide; simpl; lia | exact Hres' |].
      assert (Hsame : b_num (done b) = b_num b /\ b_out (done b) = b_out b
                      /\ b_pending (done b) = b_pending b).
      { unfold done. rewrite Herr. case_bool_decide; simpl; auto. }
      destruct Hsame as (Hs1 & Hs2 & Hs3).
      replace (k + Z.of_nat (S (length sockets)))
        with (k + 1 + Z.of_nat (length sockets)) by lia.
      split; [exact IH1|].
      split; [etransitivity; [exact IH2 | exact Hs1]|].
      split; [etransitivity; [exact IH3 | exact Hs2]|].
      split; [etransitivity; [exact IH4 | rewrite Hs3; reflexivity] | exact IH5].
    + set (b1 := mkBroadcast (b_num b) (b_out b) (b_numDone b) (b_err b)
                   (b_pending b ++ [(snd ent, ShardInfo.currentShardId user)])
                   (b_cb b) (b_threw b)).
      assert (Hv1 : visiting (k + 1) b1).
      { unfold visiting, b1. simpl. rewrite length_app. simpl.
        repeat split; auto; lia. }
      destruct (IH b1 (eff ++ [EmitEvalRequest (snd ent) script]) (k + 1) Hv1)
        as (IH1 & IH2 & IH3 & IH4 & IH5); [simpl; lia | exact Hres' |].
      replace (k + Z.of_nat (S (length sockets)))
        with (k + 1 + Z.of_nat (length sockets)) by lia.
      split; [exact IH1|]. split; [exact IH2|]. split; [exact IH3|].
      split.
      * rewrite IH4. unfold b1. simpl. rewrite <- app_assoc. reflexivity.
      * rewrite IH5. rewrite <- app_assoc. reflexivity.
Qed.

(** The call once [forEach] is over: running if someone was asked,
    completed, with nothing but holes, if nobody was. *)
Lemma broadcast_start script m :
  (forall ent, ent ∈ _shardSockets m -> is_Some (Registry.get (fst ent) (users m))) ->
  let start := broadcastEvalToShards script m in
  b_pending (fst start) = asked m
  /\ b_out (fst start) = replicate (length (_shardSockets m)) None
  /\ snd start = map (fun a => EmitEvalRequest (fst a) script) (asked m)
  /\ (_shardSockets m <> [] -> running (fst start) \/ completed (fst start))
  /\ (_shardSockets m = [] -> b_cb (fst start) = []).
Proof.
  intros Hres. unfold broadcastEvalToShards.
  set (num := Z.of_nat (length (_shardSockets m))).
  set (b0 := mkBroadcast num (replicate (length (_shardSockets m)) None) 0 None [] [] false).
  assert (Hv0 : visiting 0 b0).
  { unfold visiting, b0. simpl. repeat split; auto. intros _ H. lia. }
  destruct (broadcast_forEach script m (_shardSockets m) b0 [] 0 Hv0)
    as (Hv & Hnum & Hout & Hpend & Heff); [simpl; lia | exact Hres |].
  fold (asked m) in Hpend, Heff. simpl in Hpend, Heff, Hnum, Hout.
  split; [exact Hpend|]. split; [exact Hout|]. split; [exact Heff|].
  destruct Hv as (Herr & _ & Hdone & Hnone & Hall). rewrite Hnum in Hnone, Hall.
  fold num in Hdone. split.
  - intros Hne. assert (0 < num).
    { unfold num. destruct (_shardSockets m); [congruence | simpl; lia]. }
    destruct (b_pending (fst (fold_left (broadcast_visit script m) (_shardSockets m) (b0, []))))
      as [|a l] eqn:Hp.
    + right. unfold completed. rewrite Hp. simpl in Hdone.
      repeat split; auto. apply Hall; lia.
    + left. unfold running. rewrite Hp. simpl in Hdone. rewrite Hnum.
      repeat split; auto; try discriminate; try lia. apply Hnone. lia.
  - intros Hnil. rewrite Hnil. reflexivity.
Qed.

Lemma asked_sockets_NoDup m :
  NoDup (map snd (_shardSockets m)) -> NoDup (map fst (asked m)).
Proof.
  unfold asked. induction (_shardSockets m) as [|ent l IH]; simpl; intros Hnd;
    [constructor|].
  apply NoDup_cons in Hnd as [Hent Hnd].
  assert (Hsub : forall s, s ∈ map fst
            (flat_map
               (fun ent =>
                  match Registry.get (fst ent) (users m) with
                  | Some user =>
                      if bool_decide (ShardInfo.currentShardId user < 0) then []
                      else [(snd ent, ShardInfo.currentShardId user)]
                  | None => []
                  end) l) -> s ∈ map snd l).
  { clear. induction l as [|e l IHl]; simpl; intros s Hs; [exact Hs|].
    rewrite map_app in Hs. apply elem_of_app in Hs as [Hs|Hs]; [|right; auto].
    destruct (Registry.get (fst e) (users m)); [|inversion Hs].
    case_bool_decide; [inversion Hs|]. simpl in Hs.
    apply list_elem_of_singleton in Hs as ->. left. }
  destruct (Registry.get (fst ent) (users m)); [|apply IH; exact Hnd].
  case_bool_decide; [apply IH; exact Hnd|]. simpl.
  apply NoDup_cons. split; [|apply IH; exact Hnd].
  intros Hin. apply Hent. apply Hsub. exact Hin.
Qed.

Lemma asked_ids_nonneg m a : a ∈ asked m -> 0 <= snd a.
Proof.
  unfold asked. induction (_shardSockets m) as [|ent l IH]; simpl; intros Hin;
    [inversion Hin|].
  apply elem_of_app in Hin as [Hin|Hin]; [|auto].
  destruct (Registry.get (fst ent) (users m)); [|inversion Hin].
  case_bool_decide; [inversion Hin|].
  apply list_elem_of_singleton in Hin as ->. simpl. lia.
Qed.

Lemma NoDup_to_nat (l : list (SocketId * Z)) :
  (forall a, a ∈ l -> 0 <= snd a) -> NoDup (map snd l) ->
  NoDup (map (fun a => Z.to_nat (snd a)) l).
Proof.
  induction l as [|a l IH]; simpl; intros Hpos Hnd; [constructor|].
  apply NoDup_cons in Hnd as [Ha Hnd]. apply NoDup_cons. split.
  - intros Hin. apply Ha. apply list_elem_of_fmap in Hin as [b [Heq Hb]].
    assert (snd a = snd b).
    { assert (0 <= snd a) by (apply Hpos; left).
      assert (0 <= snd b) by (apply Hpos; right; exact Hb). lia. }
    rewrite H. apply (list_elem_of_fmap_2 snd _ _ Hb).
  - apply IH; [|exact Hnd]. intros b Hb. apply Hpos. right. exact Hb.
Qed.

(** A list of replies has no error, or has a first one. *)
Lemma first_error (replies : list Reply) :
  (forall r, r ∈ replies -> truthy (reply_error r) = false)
  \/ exists pre r post,
       replies = pre ++ r :: post /\ truthy (reply_error r) = true
       /\ forall r', r' ∈ pre -> truthy (reply_error r') = false.
Proof.
  induction replies as [|r replies IH].
  - left. intros r H. inversion H.
  - destruct (truthy (reply_error r)) eqn:Hr.
    + right. exists [], r, replies. repeat split; auto. intros r' H. inversion H.
    + destruct IH as [IH|(pre & r0 & post & -> & Hr0 & Hpre)].
      * left. intros r' H. apply elem_of_cons in H as [->|H]; auto.
      * right. exists (r :: pre), r0, post. repeat split; auto.
        intros r' H. apply elem_of_cons in H as [->|H]; auto.
Qed.

(** C6, as amended.  With at least one worker connected, every connected
    worker known to the registry and every queried worker answering at most
    once: [evalRequest] goes to the workers whose current shard id is not
    negative and to no other; the callback is called at most once; it is
    called with the first error as soon as a reply carries one, whatever is
    still outstanding; with no error it is not called while a queried worker
    has yet to reply, and is called with the array once all of them have,
    the reply of each queried worker at the index of its current shard id
    when those ids differ from one another. *)
Theorem broadcast_calls_back_once script m (replies : list Reply) :
  _shardSockets m <> [] ->
  (forall ent, ent ∈ _shardSockets m -> is_Some (Registry.get (fst ent) (users m))) ->
  NoDup (map snd (_shardSockets m)) ->
  NoDup (map reply_socket replies) ->
  (forall r, r ∈ replies -> reply_socket r ∈ map fst (asked m)) ->
  let start := broadcastEvalToShards script m in
  let b := broadcast_replies replies (fst start) in
  snd start = map (fun a => EmitEvalRequest (fst a) script) (asked m)
  /\ (length (b_cb b) <= 1)%nat
  /\ (forall pre r post e,
        replies = pre ++ r :: post -> reply_error r = Some e -> e <> "" ->
        (forall r', r' ∈ pre -> truthy (reply_error r') = false) ->
        b_cb b = [CbError e])
  /\ ((forall r, r ∈ replies -> truthy (reply_error r) = false) ->
      (length replies < length (asked m))%nat -> b_cb b = [])
  /\ ((forall r, r ∈ replies -> truthy (reply_error r) = false) ->
      length replies = length (asked m) ->
      b_cb b = [CbResult (b_out b)]
      /\ (NoDup (map snd (asked m)) ->
          forall r id, r ∈ replies -> (reply_socket r, id) ∈ asked m ->
            b_out b !! Z.to_nat id = Some (reply_result r))).
Proof.
  intros Hne Hres Hnds Hndr Hin start b.
  destruct (broadcast_start script m Hres) as (Hpend & Hout & Heff & Hstart & _).
  fold start in Hpend, Hout, Heff, Hstart. specialize (Hstart Hne).
  assert (Hnda : NoDup (map fst (b_pending (fst start))))
    by (rewrite Hpend; apply asked_sockets_NoDup; exact Hnds).
  assert (Hfail : forall pre r post e,
            replies = pre ++ r :: post -> reply_error r = Some e -> e <> "" ->
            (forall r', r' ∈ pre -> truthy (reply_error r') = false) ->
            b_cb b = [CbError e]).
  { intros pre [[sid error] res] post e Heq He Hnonempty Hpre.
    unfold reply_error in He. simpl in He. subst error.
    subst b. rewrite Heq. unfold broadcast_replies. rewrite fold_left_app.
    cbn [fold_left fst snd].
    fold (broadcast_replies pre (fst start)).
    set (b1 := broadcast_replies pre (fst start)).
    rewrite Heq in Hndr, Hin. rewrite map_app in Hndr. simpl in Hndr.
    apply NoDup_app in Hndr as (Hndpre & Hdisj & Hndpost).
    destruct (replies_without_error pre (fst start) Hstart Hnda Hndpre)
      as (Hb1 & _ & Hiff1 & _).
    { intros r Hr. rewrite Hpend. apply Hin. apply elem_of_app. left. exact Hr. }
    { exact Hpre. }
    fold b1 in Hb1, Hiff1.
    assert (Hsid : sid ∈ map fst (b_pending b1)).
    { assert (Ha : sid ∈ map fst (asked m))
        by (apply (Hin (sid, Some e, res)); apply elem_of_app; right; left).
      rewrite <- Hpend in Ha. apply list_elem_of_fmap in Ha as [[s i] [Hs Hsi]].
      simpl in Hs. subst s. apply list_elem_of_fmap. exists (sid, i).
      split; [reflexivity|]. apply Hiff1. split; [exact Hsi|].
      intros Hp. apply (Hdisj sid Hp). left. }
    destruct (take_pending_elem sid (b_pending b1) Hsid) as (id & rest & Ht).
    assert (Hrun : running b1).
    { destruct Hb1 as [Hb1|(_ & Hp & _)]; [exact Hb1|].
      rewrite Hp in Hsid. inversion Hsid. }
    assert (Htruthy : truthy (Some e) = true).
    { unfold truthy. rewrite bool_decide_eq_false_2 by exact Hnonempty. reflexivity. }
    pose proof (reply_error_running sid res e b1 id rest Hrun Ht Htruthy) as Hf.
    apply (replies_after_failure post) in Hf. destruct Hf as (Hcb & _). exact Hcb. }
  assert (Hok : (forall r, r ∈ replies -> truthy (reply_error r) = false) ->
            (running b \/ completed b)
            /\ (length (b_pending b) + length replies = length (asked m))%nat
            /\ (NoDup (map snd (asked m)) ->
                forall r id, r ∈ replies -> (reply_socket r, id) ∈ asked m ->
                  b_out b !! Z.to_nat id = Some (reply_result r))).
  { intros Hfalsy.
    destruct (replies_without_error replies (fst start) Hstart Hnda Hndr)
      as (Hb & Hlen & _ & Hset); [rewrite Hpend; exact Hin | exact Hfalsy |].
    fold b in Hb, Hlen, Hset. rewrite Hpend in Hlen, Hset.
    split; [exact Hb|]. split; [exact Hlen|].
    intros Hids. apply Hset. apply NoDup_to_nat; [apply asked_ids_nonneg | exact Hids]. }
  split; [exact Heff|]. split; [|split; [exact Hfail|split]].
  - destruct (first_error replies) as [Hfalsy|(pre & r & post & Heq & Hr & Hpre)].
    + destruct (Hok Hfalsy) as ([(_ & Hcb & _)|(_ & _ & Hcb)] & _); rewrite Hcb; simpl; lia.
    + destruct (reply_error r) as [e|] eqn:He; [|discriminate].
      rewrite (Hfail pre r post e Heq He); [simpl; lia | | exact Hpre].
      intros ->. discriminate.
  - intros Hfalsy Hlt. destruct (Hok Hfalsy) as ([(_ & Hcb & _)|(_ & Hp & _)] & Hlen & _).
    + exact Hcb.
    + rewrite Hp in Hlen. simpl in Hlen. lia.
  - intros Hfalsy Hall. destruct (Hok Hfalsy) as ([(_ & _ & _ & Hp)|(_ & _ & Hcb)] & Hlen & Hset).
    + exfalso. destruct (b_pending b); [congruence | simpl in Hlen; lia].
    + split; [exact Hcb | exact Hset].
Qed.

End BroadcastFacts.

Lemma broadcast_calls_back_once_witness :
  let m := Sample.twoConnected in
  let replies : list Reply := [("s1", None, Some "2")] in
  let start := broadcastEvalToShards "1+1" m in
  let b := broadcast_replies replies (fst start) in
  snd start = map (fun a => EmitEvalRequest (fst a) "1+1") (asked m)
  /\ (length (b_cb b) <= 1)%nat
  /\ (forall pre r post e,
        replies = pre ++ r :: post -> reply_error r = Some e -> e <> "" ->
        (forall r', r' ∈ pre -> truthy (reply_error r') = false) ->
        b_cb b = [CbError e])
  /\ ((forall r, r ∈ replies -> truthy (reply_error r) = false) ->
      (length replies < length (asked m))%nat -> b_cb b = [])
  /\ ((forall r, r ∈ replies -> truthy (reply_error r) = false) ->
      length replies = length (asked m) ->
      b_cb b = [CbResult (b_out b)]
      /\ (NoDup (map snd (asked m)) ->
          forall r id, r ∈ replies -> (reply_socket r, id) ∈ asked m ->
            b_out b !! Z.to_nat id = Some (reply_result r))).
Proof.
  apply (broadcast_calls_back_once "1+1" Sample.twoConnected [("s1", None, Some "2")]).
  - discriminate.
  - intros ent Hent. repeat (apply elem_of_cons in Hent as [->|Hent]);
      [vm_compute; eauto .. | inversion Hent].
  - decide_by_compute.
  - decide_by_compute.
  - intros r Hr. repeat (apply elem_of_cons in Hr as [->|Hr]);
      [decide_by_compute .. | inversion Hr].
Defined.

(** C6 as stated fails: the only connected worker reports no current shard,
    so it is sent nothing and never replies, and the callback is called at
    once with an array that holds no reply. *)
Lemma broadcast_skips_worker_without_shard :
  let m := Sample.onlyIdleConnected in
  let start := broadcastEvalToShards "1+1" m in
  _shardSockets m = [("ccc", "s2")]
  /\ ShardInfo.currentShardId <$> Registry.get "ccc" (users m) = Some (-1)
  /\ snd start = []
  /\ b_pending (fst start) = []
  /\ b_cb (fst start) = [CbResult [None]].
Proof. vm_compute. repeat split. Qed.

(** With no worker connected the callback is never called: nothing is
    awaited, and nothing calls [done]. *)
Lemma broadcast_without_workers_never_calls_back script m replies :
  _shardSockets m = [] ->
  b_cb (broadcast_replies replies (fst (broadcastEvalToShards script m))) = [].
Proof.
  intros Hnil. unfold broadcastEvalToShards. rewrite Hnil. simpl.
  induction replies as [|[[sid error] res] replies IH]; [reflexivity|].
  exact IH.
Qed.

(** ** File relay on the worker *)

Section FileRelay.

(** What the test of the two handlers does guarantee: a file that is
    written or read has the project root as a prefix of its name. *)
Lemma relayed_file_has_root_prefix botCWD now filename data file s :
  (ShardingSlave.MkAndWrite file data
     ∈ ShardingSlave.effects (ShardingSlave._receiveMasterFile botCWD now filename data s)
   \/ ShardingSlave.ReadFile file
     ∈ ShardingSlave.effects (ShardingSlave._sendMasterFile botCWD now filename s)) ->
  String.prefix botCWD file = true.
Proof.
  unfold ShardingSlave.effects, ShardingSlave._receiveMasterFile,
    ShardingSlave._sendMasterFile.
  destruct (String.prefix botCWD
              (ShardingSlave.path_resolve (botCWD +:+ "/" +:+ filename))) eqn:Hp;
    simpl; intros [H|H];
    try (inversion H; fail);
    apply list_elem_of_singleton in H; try discriminate;
    injection H; intros; subst; exact Hp.
Qed.

(** C7: the claim holds of no path with this shape.  The project root is
    [/srv/bot]; the file name [../bot-evil/x] resolves to [/srv/bot-evil/x],
    which lies outside of the root but begins with its name, so
    [_receiveMasterFile] writes it and [_sendMasterFile] reads it. *)
Theorem relayed_file_escapes_project_root :
  let botCWD := "/srv/bot" in
  let filename := "../bot-evil/x" in
  let s := ShardingSlave.set_lastSeen 100 Sample.agent in
  ShardingSlave.path_resolve (botCWD +:+ "/" +:+ filename) = "/srv/bot-evil/x"
  /\ ~ ShardingSlave.within botCWD "/srv/bot-evil/x"
  /\ ShardingSlave._receiveMasterFile botCWD 100 filename "data" Sample.agent
     = (s, [ShardingSlave.MkAndWrite "/srv/bot-evil/x" "data"], ShardingSlave.Returned)
  /\ ShardingSlave._sendMasterFile botCWD 100 filename Sample.agent
     = (s, [ShardingSlave.ReadFile "/srv/bot-evil/x"], ShardingSlave.Returned).
Proof.
  repeat split; try reflexivity.
  unfold ShardingSlave.within. decide_by_compute.
Qed.

(** A path that leaves the root for a directory of another name is turned
    away: nothing is written, and the requester is answered [null]. *)
Lemma relayed_file_outside_is_refused :
  ShardingSlave.effects
    (ShardingSlave._receiveMasterFile "/srv/bot" 100 "../etc/passwd" "data" Sample.agent)
  = []
  /\ ShardingSlave.effects
       (ShardingSlave._sendMasterFile "/srv/bot" 100 "../etc/passwd" Sample.agent)
     = [ShardingSlave.Reply None].
Proof. split; reflexivity. Qed.

End FileRelay.

(** ** Evaluation requests on the worker *)

(** Read the fields of a state that is written out. *)
Ltac fields :=
  cbn [ShardingSlave._lastSeen ShardingSlave.goalShardId
       ShardingSlave.goalShardCount ShardingSlave.currentShardId
       ShardingSlave.currentShardCount ShardingSlave._child
       ShardingSlave.forked ShardingSlave._evals ShardingSlave.promises
       ShardingSlave.listeners ShardingSlave.sends
       ShardingSlave.sendCallbacks ShardingSlave.calls ShardingSlave.halted].

Tactic Notation "fields" "in" hyp(H) :=
  cbn [ShardingSlave._lastSeen ShardingSlave.goalShardId
       ShardingSlave.goalShardCount ShardingSlave.currentShardId
       ShardingSlave.currentShardCount ShardingSlave._child
       ShardingSlave.forked ShardingSlave._evals ShardingSlave.promises
       ShardingSlave.listeners ShardingSlave.sends
       ShardingSlave.sendCallbacks ShardingSlave.calls ShardingSlave.halted] in H.

Section EvalRequests.
Import ShardingSlave.

Lemma outs_app cb l1 l2 : outs cb (l1 ++ l2) = outs cb l1 ++ outs cb l2.
Proof. unfold outs. rewrite List.filter_app, map_app. reflexivity. Qed.

Lemma outs_notify cb o ws :
  outs cb (map (fun w => (w, o)) ws) = replicate (waiting cb (Pending ws)) o.
Proof.
  unfold outs. induction ws as [|w ws IH]; simpl; [reflexivity|].
  case_bool_decide; simpl; [f_equal|]; exact IH.
Qed.

Lemma outs_other cb cb' o : cb' <> cb -> outs cb [(cb', o)] = [].
Proof.
  intros Hne. unfold outs. simpl. rewrite bool_decide_eq_false_2 by exact Hne.
  reflexivity.
Qed.

Lemma waiting_snoc_other cb cb' ws :
  cb' <> cb -> waiting cb (Pending (ws ++ [cb'])) = waiting cb (Pending ws).
Proof.
  intros Hne. simpl. rewrite List.filter_app, length_app. simpl.
  rewrite bool_decide_eq_false_2 by exact Hne. simpl. lia.
Qed.

Lemma waiting_snoc_same cb ws :
  waiting cb (Pending (ws ++ [cb])) = S (waiting cb (Pending ws)).
Proof.
  simpl. rewrite List.filter_app, length_app. simpl.
  rewrite bool_decide_eq_true_2 by reflexivity. simpl. lia.
Qed.

(** *** The life cycle of the child leaves evaluation alone *)

Lemma same_evals_refl s : same_evals s s.
Proof. repeat split. Qed.

Lemma same_evals_trans s1 s2 s3 :
  same_evals s1 s2 -> same_evals s2 s3 -> same_evals s1 s3.
Proof.
  unfold same_evals. intros (A1 & A2 & A3 & A4 & A5 & A6) (B1 & B2 & B3 & B4 & B5 & B6).
  repeat split; congruence.
Qed.

Lemma spawnChild_same s : same_evals s (_spawnChild s).
Proof.
  unfold _spawnChild. case_bool_decide; [apply same_evals_refl|].
  destruct (_child s); repeat split.
Qed.

Lemma handleExit_same s : same_evals s (_handleExit s).
Proof.
  unfold _handleExit. case_bool_decide; [|repeat split].
  eapply same_evals_trans; [|apply spawnChild_same]. repeat split.
Qed.

Lemma handleError_same s : same_evals s (_handleError s).
Proof. repeat split. Qed.

Lemma respawnChild_same s : same_evals s (_respawnChild s).
Proof.
  unfold _respawnChild. destruct (_child s); [apply same_evals_refl|].
  case_bool_decide; [apply spawnChild_same | apply same_evals_refl].
Qed.

Lemma exit_same s : same_evals s (exit s).
Proof. unfold exit. case_bool_decide; repeat split. Qed.

(** An [update] event changes the assignment, and then makes at most one
    request, that of the heartbeat. *)
Lemma updateRequest_cases now connected cb settings s :
  exists s', same_evals s s'
    /\ (_updateRequest now connected cb settings s = s'
        \/ _updateRequest now connected cb settings s
           = _evalRequest now hbEvalReq cb s').
Proof.
  unfold _updateRequest. destruct settings as [settings|];
    [|eexists; split; [|left; reflexivity]; repeat split].
  set (s0 := set_goal (id settings) (count settings) (set_lastSeen now s)).
  assert (H0 : same_evals s s0) by repeat split.
  destruct (_ && bool_decide (goalShardId s0 < -1)).
  { eexists; split; [|left; reflexivity].
    eapply same_evals_trans; [exact H0 | apply exit_same]. }
  match goal with
  | |- context [if bool_decide (updateStyle settings = "pull")
                then _generateHeartbeat now connected cb ?x else _] =>
      set (s1 := x)
  end.
  assert (H1 : same_evals s s1).
  { unfold s1. destruct (_ || _); [|exact H0].
    case_bool_decide; (eapply same_evals_trans; [exact H0|]);
      [apply respawnChild_same | apply spawnChild_same]. }
  unfold _generateHeartbeat.
  destruct (decide (updateStyle settings = "pull")) as [Hpull|Hpull].
  - rewrite (bool_decide_eq_true_2 _ Hpull).
    rewrite bool_decide_eq_false_2 by (rewrite Hpull; discriminate).
    exists s1. split; [exact H1|]. destruct connected; simpl; auto.
  - rewrite (bool_decide_eq_false_2 _ Hpull).
    exists s1. split; [exact H1|].
    case_bool_decide; [|auto]. destruct connected; simpl; auto.
Qed.

(** *** Two callbacks that wait alike are called alike *)

Section Balanced.
Variables cb1 cb2 : CbId.

(** [balanced] reads the promises and the calls only. *)
Lemma balanced_ext s s' :
  promises s' = promises s -> calls s' = calls s ->
  balanced cb1 cb2 s -> balanced cb1 cb2 s'.
Proof.
  intros Hp Hc [Hw Ho]. unfold balanced, outcomes. rewrite Hp, Hc. split; assumption.
Qed.

Lemma balanced_same s s' :
  same_evals s s' -> balanced cb1 cb2 s -> balanced cb1 cb2 s'.
Proof. intros (_ & Hp & _ & _ & _ & Hc). apply balanced_ext; assumption. Qed.

Lemma settle_balanced p o s :
  balanced cb1 cb2 s -> balanced cb1 cb2 (settle p o s).
Proof.
  intros [Hw Ho]. unfold settle.
  destruct (promises s !! p) as [[ws|o']|] eqn:Hp; [|split; assumption..].
  split; fields.
  - intros q pr Hq. apply list_lookup_insert_Some in Hq
      as [(_ & <- & _)|(_ & Hq)]; [reflexivity | apply (Hw q pr Hq)].
  - unfold outcomes in *. fields.
    rewrite !outs_app, !outs_notify, Ho, (Hw p (Pending ws) Hp). reflexivity.
Qed.

Lemma chain_balanced p cb s :
  cb <> cb1 -> cb <> cb2 ->
  balanced cb1 cb2 s -> balanced cb1 cb2 (chain p cb s).
Proof.
  intros H1 H2 [Hw Ho]. unfold chain.
  destruct (promises s !! p) as [[ws|o']|] eqn:Hp; [| |split; assumption].
  - split; fields; [|exact Ho].
    intros q pr Hq. apply list_lookup_insert_Some in Hq
      as [(_ & <- & _)|(_ & Hq)]; [|apply (Hw q pr Hq)].
    rewrite !waiting_snoc_other by assumption. apply (Hw p _ Hp).
  - split; fields; [exact Hw|].
    unfold outcomes in *. fields.
    rewrite !outs_app, !outs_other, Ho by assumption. reflexivity.
Qed.

Lemma finish_balanced script p o s :
  balanced cb1 cb2 s -> balanced cb1 cb2 (finish script p o s).
Proof.
  intros Hb. unfold finish. destruct (_child s).
  - apply settle_balanced. eapply balanced_ext; [| |exact Hb]; reflexivity.
  - eapply balanced_ext; [| |exact Hb]; reflexivity.
Qed.

Lemma listener_balanced script p message s :
  balanced cb1 cb2 s -> balanced cb1 cb2 (listener script p message s).
Proof.
  intros Hb. unfold listener.
  destruct (negb (bool_decide (_eval message = Some script))); [exact Hb|].
  destruct (negb (truthy (_error message))); apply finish_balanced; exact Hb.
Qed.

Lemma run_listeners_balanced ls message : forall s,
  balanced cb1 cb2 s -> balanced cb1 cb2 (run_listeners ls message s).
Proof.
  induction ls as [|[script p] ls IH]; intros s Hb; simpl; [exact Hb|].
  destruct (halted s); [exact Hb|]. apply IH. apply listener_balanced. exact Hb.
Qed.

Lemma send_done_balanced script p err s :
  balanced cb1 cb2 s -> balanced cb1 cb2 (send_done script p err s).
Proof.
  intros Hb. unfold send_done. case_bool_decide; [|exact Hb].
  destruct (negb (truthy err)).
  - eapply balanced_ext; [| |exact Hb]; reflexivity.
  - apply finish_balanced. eapply balanced_ext; [| |exact Hb]; reflexivity.
Qed.

Lemma evalRequest_balanced now script cb s :
  cb <> cb1 -> cb <> cb2 ->
  balanced cb1 cb2 s -> balanced cb1 cb2 (_evalRequest now script cb s).
Proof.
  intros H1 H2 Hb. unfold _evalRequest. fields.
  change (_child (set_lastSeen now s)) with (_child s).
  change (_evals (set_lastSeen now s)) with (_evals s).
  destruct (_child s).
  - destruct (_evals s !! script).
    + apply chain_balanced; [exact H1 | exact H2 |].
      eapply balanced_ext; [| |exact Hb]; reflexivity.
    + apply chain_balanced; [exact H1 | exact H2 |].
      destruct Hb as [Hw Ho]. split; fields; [|exact Ho].
      intros q pr Hq. unfold set_lastSeen in Hq. fields in Hq.
      apply lookup_app_Some in Hq as [Hq|[_ Hq]]; [apply (Hw q pr Hq)|].
      destruct (q - length (promises s))%nat; simpl in Hq; [|discriminate].
      injection Hq as <-. reflexivity.
  - destruct Hb as [Hw Ho]. split; fields; [exact Hw|].
    unfold outcomes in *. fields.
    rewrite !outs_app, !outs_other by assumption.
    unfold set_lastSeen. fields. rewrite Ho. reflexivity.
Qed.

Lemma step_balanced e s :
  uses cb1 e = false -> uses cb2 e = false ->
  balanced cb1 cb2 s -> balanced cb1 cb2 (step s e).
Proof.
  intros H1 H2 Hb. unfold step. destruct (halted s); [exact Hb|].
  destruct e as [now script cb|c message|script p err| | |now connected cb settings| |];
    simpl in *.
  - apply bool_decide_eq_false in H1, H2. apply evalRequest_balanced; assumption.
  - apply run_listeners_balanced. exact Hb.
  - apply send_done_balanced. exact Hb.
  - apply (balanced_same _ _ (handleExit_same s) Hb).
  - apply (balanced_same _ _ (handleError_same s) Hb).
  - apply bool_decide_eq_false in H1, H2.
    destruct (updateRequest_cases now connected cb settings s) as (s' & Hs & [->| ->]).
    + apply (balanced_same _ _ Hs Hb).
    + apply evalRequest_balanced; [exact H1 | exact H2 |].
      apply (balanced_same _ _ Hs Hb).
  - apply (balanced_same _ _ (respawnChild_same s) Hb).
  - apply (balanced_same _ _ (exit_same s) Hb).
Qed.

Lemma run_balanced trace : forall s,
  (forall e, e ∈ trace -> uses cb1 e = false /\ uses cb2 e = false) ->
  balanced cb1 cb2 s -> balanced cb1 cb2 (run trace s).
Proof.
  induction trace as [|e trace IH]; intros s Huses Hb; [exact Hb|].
  simpl. apply IH.
  - intros e' He'. apply Huses. right. exact He'.
  - destruct (Huses e) as [H1 H2]; [left|]. apply step_balanced; assumption.
Qed.

End Balanced.

(** *** A callback no request names is never chained and never called *)

Section Unused.
Variable cb0 : CbId.

Lemma unused_ext s s' :
  promises s' = promises s -> calls s' = calls s ->
  unused cb0 s -> unused cb0 s'.
Proof.
  intros Hp Hc [Hw Ho]. unfold unused, outcomes. rewrite Hp, Hc. split; assumption.
Qed.

Lemma unused_same s s' : same_evals s s' -> unused cb0 s -> unused cb0 s'.
Proof. intros (_ & Hp & _ & _ & _ & Hc). apply unused_ext; assumption. Qed.

Lemma new_unused name : unused cb0 (new name).
Proof. split; [intros q pr Hq; destruct q; discriminate | reflexivity]. Qed.

Lemma settle_unused p o s : unused cb0 s -> unused cb0 (settle p o s).
Proof.
  intros [Hw Ho]. unfold settle.
  destruct (promises s !! p) as [[ws|o']|] eqn:Hp; [|split; assumption..].
  split; fields.
  - intros q pr Hq. apply list_lookup_insert_Some in Hq
      as [(_ & <- & _)|(_ & Hq)]; [reflexivity | apply (Hw q pr Hq)].
  - unfold outcomes in *. fields.
    rewrite outs_app, outs_notify, Ho, (Hw p (Pending ws) Hp). reflexivity.
Qed.

Lemma chain_unused p cb s :
  cb <> cb0 -> unused cb0 s -> unused cb0 (chain p cb s).
Proof.
  intros Hne [Hw Ho]. unfold chain.
  destruct (promises s !! p) as [[ws|o']|] eqn:Hp; [| |split; assumption].
  - split; fields; [|exact Ho].
    intros q pr Hq. apply list_lookup_insert_Some in Hq
      as [(_ & <- & _)|(_ & Hq)]; [|apply (Hw q pr Hq)].
    rewrite waiting_snoc_other by exact Hne. apply (Hw p _ Hp).
  - split; fields; [exact Hw|].
    unfold outcomes in *. fields.
    rewrite outs_app, outs_other, Ho by exact Hne. reflexivity.
Qed.

Lemma finish_unused script p o s :
  unused cb0 s -> unused cb0 (finish script p o s).
Proof.
  intros Hu. unfold finish. destruct (_child s).
  - apply settle_unused. eapply unused_ext; [| |exact Hu]; reflexivity.
  - eapply unused_ext; [| |exact Hu]; reflexivity.
Qed.

Lemma run_listeners_unused ls message : forall s,
  unused cb0 s -> unused cb0 (run_listeners ls message s).
Proof.
  induction ls as [|[script p] ls IH]; intros s Hu; simpl; [exact Hu|].
  destruct (halted s); [exact Hu|]. apply IH. unfold listener.
  destruct (negb (bool_decide (_eval message = Some script))); [exact Hu|].
  destruct (negb (truthy (_error message))); apply finish_unused; exact Hu.
Qed.

Lemma send_done_unused script p err s :
  unused cb0 s -> unused cb0 (send_done script p err s).
Proof.
  intros Hu. unfold send_done. case_bool_decide; [|exact Hu].
  destruct (negb (truthy err)).
  - eapply unused_ext; [| |exact Hu]; reflexivity.
  - apply finish_unused. eapply unused_ext; [| |exact Hu]; reflexivity.
Qed.

Lemma evalRequest_unused now script cb s :
  cb <> cb0 -> unused cb0 s -> unused cb0 (_evalRequest now script cb s).
Proof.
  intros Hne Hu. unfold _evalRequest. fields.
  change (_child (set_lastSeen now s)) with (_child s).
  change (_evals (set_lastSeen now s)) with (_evals s).
  destruct (_child s).
  - destruct (_evals s !! script).
    + apply chain_unused; [exact Hne|].
      eapply unused_ext; [| |exact Hu]; reflexivity.
    + apply chain_unused; [exact Hne|].
      destruct Hu as [Hw Ho]. split; fields; [|exact Ho].
      intros q pr Hq. unfold set_lastSeen in Hq. fields in Hq.
      apply lookup_app_Some in Hq as [Hq|[_ Hq]]; [apply (Hw q pr Hq)|].
      destruct (q - length (promises s))%nat; simpl in Hq; [|discriminate].
      injection Hq as <-. reflexivity.
  - destruct Hu as [Hw Ho]. split; fields; [exact Hw|].
    unfold outcomes in *. fields.
    rewrite outs_app, outs_other by exact Hne.
    unfold set_lastSeen. fields. rewrite Ho. reflexivity.
Qed.

Lemma step_unused e s :
  uses cb0 e = false -> unused cb0 s -> unused cb0 (step s e).
Proof.
  intros H0 Hu. unfold step. destruct (halted s); [exact Hu|].
  destruct e as [now script cb|c message|script p err| | |now connected cb settings| |];
    simpl in *.
  - apply bool_decide_eq_false in H0. apply evalRequest_unused; assumption.
  - apply run_listeners_unused. exact Hu.
  - apply send_done_unused. exact Hu.
  - apply (unused_same _ _ (handleExit_same s) Hu).
  - apply (unused_same _ _ (handleError_same s) Hu).
  - apply bool_decide_eq_false in H0.
    destruct (updateRequest_cases now connected cb settings s) as (s' & Hs & [->| ->]).
    + apply (unused_same _ _ Hs Hu).
    + apply evalRequest_unused; [exact H0|]. apply (unused_same _ _ Hs Hu).
  - apply (unused_same _ _ (respawnChild_same s) Hu).
  - apply (unused_same _ _ (exit_same s) Hu).
Qed.

Lemma run_unused trace : forall s,
  (forall e, e ∈ trace -> uses cb0 e = false) ->
  unused cb0 s -> unused cb0 (run trace s).
Proof.
  induction trace as [|e trace IH]; intros s Huses Hu; [exact Hu|].
  simpl. apply IH.
  - intros e' He'. apply Huses. right. exact He'.
  - apply step_unused; [apply Huses; left | exact Hu].
Qed.

End Unused.

(** *** Every promise belongs to one script *)

Section Owned.

Lemma owned_same owner s s' : same_evals s s' -> owned owner s -> owned owner s'.
Proof.
  intros (He & Hp & Hl & _ & Hsc & _). unfold owned.
  rewrite He, Hp, Hl, Hsc. auto.
Qed.

Lemma new_owned name : owned [] (new name).
Proof.
  split; [reflexivity|]. split; [intros c script p H; inversion H|].
  split; [intros script p H; inversion H|].
  intros script p H. simpl in H. rewrite lookup_empty in H. discriminate.
Qed.

Lemma chain_owned owner p cb s : owned owner s -> owned owner (chain p cb s).
Proof.
  intros (Hlen & Hl & Hsc & He). unfold chain.
  destruct (promises s !! p) as [[ws|o']|] eqn:Hp;
    [|(split; [exact Hlen|]; split; [exact Hl|]; split; [exact Hsc | exact He])..].
  unfold owned. fields. rewrite length_insert.
  split; [exact Hlen|]. split; [exact Hl|]. split; [exact Hsc|].
  intros script q Hq. destruct (He script q Hq) as [Ho [ws' Hws']].
  split; [exact Ho|].
  destruct (decide (q = p)) as [->|Hne].
  - exists (ws ++ [cb]). apply list_lookup_insert_eq. apply lookup_lt_Some in Hp. exact Hp.
  - exists ws'. rewrite list_lookup_insert_ne by congruence. exact Hws'.
Qed.

Lemma finish_owned owner script p o s :
  owner !! p = Some script -> owned owner s -> owned owner (finish script p o s).
Proof.
  intros Hown (Hlen & Hl & Hsc & He). unfold finish.
  destruct (_child s) as [cur|];
    [|split; [exact Hlen|]; split; [exact Hl|]; split; [exact Hsc | exact He]].
  unfold settle. fields.
  assert (Hl' : forall c script' p',
            (c, (script', p'))
              ∈ List.filter (fun l => negb (same_listener (cur, (script, p)) l))
                            (listeners s) ->
            owner !! p' = Some script').
  { intros c script' p' Hin. apply elem_of_List_filter in Hin as [Hin _].
    apply (Hl c script' p' Hin). }
  assert (He' : forall script' q, delete script (_evals s) !! script' = Some q ->
            q <> p /\ owner !! q = Some script'
            /\ exists ws, promises s !! q = Some (Pending ws)).
  { intros script' q Hq.
    destruct (decide (script' = script)) as [->|Hne];
      [rewrite lookup_delete_eq in Hq; discriminate|].
    rewrite lookup_delete_ne in Hq by congruence.
    destruct (He script' q Hq) as [Ho Hpend].
    split; [intros ->; congruence | split; assumption]. }
  destruct (promises s !! p) as [[ws|o']|] eqn:Hp; unfold owned; fields.
  - rewrite length_insert. split; [exact Hlen|]. split; [exact Hl'|].
    split; [exact Hsc|].
    intros script' q Hq. destruct (He' script' q Hq) as (Hne & Ho & ws' & Hws').
    split; [exact Ho|]. exists ws'. rewrite list_lookup_insert_ne by congruence.
    exact Hws'.
  - split; [exact Hlen|]. split; [exact Hl'|]. split; [exact Hsc|].
    intros script' q Hq. destruct (He' script' q Hq) as (_ & Ho & Hpend). auto.
  - split; [exact Hlen|]. split; [exact Hl'|]. split; [exact Hsc|].
    intros script' q Hq. destruct (He' script' q Hq) as (_ & Ho & Hpend). auto.
Qed.

Lemma run_listeners_owned owner ls message : forall s,
  (forall script p, (script, p) ∈ ls -> owner !! p = Some script) ->
  owned owner s -> owned owner (run_listeners ls message s).
Proof.
  induction ls as [|[script p] ls IH]; intros s Hls Ho; simpl; [exact Ho|].
  destruct (halted s); [exact Ho|]. apply IH.
  - intros script' p' Hin. apply Hls. right. exact Hin.
  - assert (Hown : owner !! p = Some script) by (apply Hls; left).
    unfold listener.
    destruct (negb (bool_decide (_eval message = Some script))); [exact Ho|].
    destruct (negb (truthy (_error message))); apply finish_owned; assumption.
Qed.

Lemma child_message_owned owner c message s :
  owned owner s -> owned owner (child_message c message s).
Proof.
  intros Ho. apply run_listeners_owned; [|exact Ho].
  intros script p Hin.
  apply list_elem_of_fmap in Hin as [[c0 [s1 p1]] [Heq Hin]].
  simpl in Heq. injection Heq as -> ->.
  apply elem_of_List_filter in Hin as [Hin _].
  destruct Ho as (_ & Hl & _). apply (Hl c0 s1 p1 Hin).
Qed.

Lemma send_done_owned owner script p err s :
  owned owner s -> owned owner (send_done script p err s).
Proof.
  intros Ho. unfold send_done.
  destruct (decide ((script, p) ∈ sendCallbacks s)) as [Hin|Hin];
    [rewrite bool_decide_eq_true_2 by exact Hin
    |rewrite bool_decide_eq_false_2 by exact Hin; exact Ho].
  destruct Ho as (Hlen & Hl & Hsc & He).
  assert (Hown : owner !! p = Some script) by apply (Hsc script p Hin).
  match goal with
  | |- owned owner (if _ then ?x else _) => assert (Ho' : owned owner x)
  end.
  { unfold owned. fields. split; [exact Hlen|]. split; [exact Hl|].
    split; [|exact He].
    intros s0 p0 Hin0. apply elem_of_List_filter in Hin0 as [Hin0 _].
    apply (Hsc s0 p0 Hin0). }
  destruct (negb (truthy err)); [exact Ho'|]. apply finish_owned; assumption.
Qed.

Lemma evalRequest_owned owner now script cb s :
  owned owner s -> exists owner', owned owner' (_evalRequest now script cb s).
Proof.
  intros Ho. unfold _evalRequest. fields.
  change (_child (set_lastSeen now s)) with (_child s).
  change (_evals (set_lastSeen now s)) with (_evals s).
  destruct (_child s) as [child|].
  - destruct (_evals s !! script) as [p|] eqn:Hev.
    + exists owner. apply chain_owned. apply (owned_same owner s); [repeat split | exact Ho].
    + exists (owner ++ [script]). apply chain_owned.
      destruct Ho as (Hlen & Hl & Hsc & He).
      unfold owned, set_lastSeen. fields. rewrite !length_app, Hlen. simpl.
      split; [reflexivity|]. split.
      { intros c s0 p0 Hin. apply elem_of_app in Hin as [Hin|Hin].
        - apply lookup_app_l_Some. apply (Hl c s0 p0 Hin).
        - apply list_elem_of_singleton in Hin. injection Hin as -> -> ->.
          rewrite <- Hlen. apply list_lookup_middle. reflexivity. }
      split.
      { intros s0 p0 Hin. apply elem_of_app in Hin as [Hin|Hin].
        - apply lookup_app_l_Some. apply (Hsc s0 p0 Hin).
        - apply list_elem_of_singleton in Hin. injection Hin as -> ->.
          rewrite <- Hlen. apply list_lookup_middle. reflexivity. }
      intros s0 p0 Hin.
      destruct (decide (s0 = script)) as [->|Hne].
      * rewrite lookup_insert_eq in Hin. injection Hin as <-. split.
        -- rewrite <- Hlen. apply list_lookup_middle. reflexivity.
        -- exists []. apply list_lookup_middle. reflexivity.
      * rewrite lookup_insert_ne in Hin by congruence.
        destruct (He s0 p0 Hin) as [Hown [ws Hws]]. split.
        -- apply lookup_app_l_Some. exact Hown.
        -- exists ws. apply lookup_app_l_Some. exact Hws.
  - exists owner. destruct Ho as (Hlen & Hl & Hsc & He).
    split; [exact Hlen|]. split; [exact Hl|]. split; [exact Hsc | exact He].
Qed.

Lemma step_owned e s :
  (exists owner, owned owner s) -> exists owner, owned owner (step s e).
Proof.
  intros [owner Ho]. unfold step. destruct (halted s); [eauto|].
  destruct e as [now script cb|c message|script p err| | |now connected cb settings| |].
  - apply (evalRequest_owned owner). exact Ho.
  - exists owner. apply child_message_owned. exact Ho.
  - exists owner. apply send_done_owned. exact Ho.
  - exists owner. apply (owned_same _ _ _ (handleExit_same s) Ho).
  - exists owner. apply (owned_same _ _ _ (handleError_same s) Ho).
  - destruct (updateRequest_cases now connected cb settings s) as (s' & Hs & [->| ->]).
    + exists owner. apply (owned_same _ _ _ Hs Ho).
    + apply (evalRequest_owned owner). apply (owned_same _ _ _ Hs Ho).
  - exists owner. apply (owned_same _ _ _ (respawnChild_same s) Ho).
  - exists owner. apply (owned_same _ _ _ (exit_same s) Ho).
Qed.

Lemma run_owned trace : forall s,
  (exists owner, owned owner s) -> exists owner, owned owner (run trace s).
Proof.
  induction trace as [|e trace IH]; intros s Ho; [exact Ho|].
  simpl. apply IH. apply step_owned. exact Ho.
Qed.

End Owned.

(** *** A request in flight stays in flight until it is settled *)

Section InFlight.
Variables (script : string) (p : nat) (cb1 cb2 : CbId) (sent : nat).

Abbreviation flying := (in_flight script p cb1 cb2 sent).

(** [in_flight] does not read the clock, the assignment or the child. *)
Lemma in_flight_same s s' : same_evals s s' -> flying s -> flying s'.
Proof.
  intros (He & Hp & Hl & Hs & Hsc & Hc). unfold in_flight, outcomes, sent_count.
  rewrite He, Hp, Hc, Hs, Hl, Hsc. auto.
Qed.

Lemma settle_in_flight p' o s :
  p' <> p -> flying s -> flying (settle p' o s).
Proof.
  intros Hne Hf. unfold settle.
  destruct (promises s !! p') as [[ws'|o']|] eqn:Hp'; [|exact Hf..].
  destruct Hf as (He & (ws & Hp & Hw1 & Hw2) & Hothers & Ho1 & Ho2 & Hsent & Hl & Hsc).
  destruct (Hothers p' (Pending ws') Hp' Hne) as [Hz1 Hz2].
  unfold in_flight, outcomes, sent_count in *. fields.
  rewrite length_insert.
  split; [exact He|]. split.
  { exists ws. rewrite list_lookup_insert_ne by exact Hne. auto. }
  split.
  { intros q pr Hq Hqp.
    apply list_lookup_insert_Some in Hq as [(_ & <- & _)|(_ & Hq)];
      [split; reflexivity | apply (Hothers q pr Hq Hqp)]. }
  split; [rewrite outs_app, outs_notify, Ho1, Hz1; reflexivity|].
  split; [rewrite outs_app, outs_notify, Ho2, Hz2; reflexivity|].
  split; [exact Hsent|]. split; [exact Hl | exact Hsc].
Qed.

Lemma chain_in_flight q cb s :
  cb <> cb1 -> cb <> cb2 -> flying s -> flying (chain q cb s).
Proof.
  intros H1 H2 Hf. unfold chain.
  destruct (promises s !! q) as [[wsq|oq]|] eqn:Hq; [| |exact Hf].
  - destruct Hf as (He & (ws & Hp & Hw1 & Hw2) & Hothers & Ho1 & Ho2 & Hsent & Hl & Hsc).
    unfold in_flight, outcomes, sent_count in *. fields.
    rewrite length_insert.
    split; [exact He|]. split.
    { destruct (decide (q = p)) as [->|Hne].
      - rewrite Hp in Hq. injection Hq as <-. exists (ws ++ [cb]).
        rewrite list_lookup_insert_eq by (apply lookup_lt_Some in Hp; exact Hp).
        rewrite !waiting_snoc_other by assumption. auto.
      - exists ws. rewrite list_lookup_insert_ne by exact Hne. auto. }
    split.
    { intros q' pr Hq' Hqp.
      apply list_lookup_insert_Some in Hq' as [(<- & <- & _)|(_ & Hq')];
        [|apply (Hothers q' pr Hq' Hqp)].
      rewrite !waiting_snoc_other by assumption.
      apply (Hothers q (Pending wsq) Hq Hqp). }
    split; [exact Ho1|]. split; [exact Ho2|].
    split; [exact Hsent|]. split; [exact Hl | exact Hsc].
  - destruct Hf as (He & Hpend & Hothers & Ho1 & Ho2 & Hsent & Hl & Hsc).
    unfold in_flight, outcomes, sent_count in *. fields.
    split; [exact He|]. split; [exact Hpend|]. split; [exact Hothers|].
    split; [rewrite outs_app, outs_other, Ho1 by assumption; reflexivity|].
    split; [rewrite outs_app, outs_other, Ho2 by assumption; reflexivity|].
    split; [exact Hsent|]. split; [exact Hl | exact Hsc].
Qed.

Lemma finish_in_flight script' p' o s :
  script' <> script -> p' <> p -> flying s -> flying (finish script' p' o s).
Proof.
  intros Hs Hp Hf. unfold finish. destruct (_child s) as [cur|].
  - apply settle_in_flight; [exact Hp|].
    destruct Hf as (He & Hpend & Hothers & Ho1 & Ho2 & Hsent & Hl & Hsc).
    unfold in_flight, outcomes, sent_count in *. fields.
    split; [rewrite lookup_delete_ne by exact Hs; exact He|].
    split; [exact Hpend|]. split; [exact Hothers|].
    split; [exact Ho1|]. split; [exact Ho2|]. split; [exact Hsent|].
    split; [|exact Hsc].
    intros c s0 p0 Hin. apply elem_of_List_filter in Hin as [Hin _].
    apply (Hl c s0 p0 Hin).
  - apply (in_flight_same s); [repeat split | exact Hf].
Qed.

(** A listener whose promise is [p] only if its script is [script], run on
    a message that does not answer [script]. *)
Lemma listener_in_flight script' p' message s :
  (p' = p -> script' = script) -> _eval message <> Some script ->
  flying s -> flying (listener script' p' message s).
Proof.
  intros Hclosure Hmsg Hf. unfold listener.
  case_bool_decide as Heval; simpl; [|exact Hf].
  assert (Hs : script' <> script) by (intros ->; contradiction).
  assert (Hp : p' <> p) by (intros Heq; apply Hs, Hclosure, Heq).
  destruct (negb (truthy (_error message))); apply finish_in_flight; assumption.
Qed.

Lemma run_listeners_in_flight ls message : forall s,
  (forall script' p', (script', p') ∈ ls -> p' = p -> script' = script) ->
  _eval message <> Some script ->
  flying s -> flying (run_listeners ls message s).
Proof.
  induction ls as [|[script' p'] ls IH]; intros s Hcl Hmsg Hf; simpl; [exact Hf|].
  destruct (halted s); [exact Hf|]. apply IH.
  - intros s0 p0 Hin. apply Hcl. right. exact Hin.
  - exact Hmsg.
  - apply listener_in_flight; [|exact Hmsg|exact Hf]. apply Hcl. left.
Qed.

Lemma child_message_in_flight c message s :
  _eval message <> Some script -> flying s -> flying (child_message c message s).
Proof.
  intros Hmsg Hf. apply run_listeners_in_flight; [|exact Hmsg|exact Hf].
  intros s0 p0 Hin. apply list_elem_of_fmap in Hin as [[c0 [s1 p1]] [Heq Hin]].
  simpl in Heq. injection Heq as -> ->.
  apply elem_of_List_filter in Hin as [Hin _].
  destruct Hf as (_ & _ & _ & _ & _ & _ & Hl & _). apply (Hl c0 s1 p1 Hin).
Qed.

Lemma send_done_in_flight script' p' err s :
  bool_decide (script' = script) && truthy err = false ->
  flying s -> flying (send_done script' p' err s).
Proof.
  intros Hsettles Hf. unfold send_done.
  destruct (decide ((script', p') ∈ sendCallbacks s)) as [Hin|Hin];
    [rewrite bool_decide_eq_true_2 by exact Hin
    |rewrite bool_decide_eq_false_2 by exact Hin; exact Hf].
  match goal with
  | |- flying (if _ then ?x else _) => assert (Hf' : flying x)
  end.
  { destruct Hf as (He & Hpend & Hothers & Ho1 & Ho2 & Hsent & Hl & Hsc).
    unfold in_flight, outcomes, sent_count in *. fields.
    repeat (split; [assumption|]).
    intros s0 p0 Hin0. apply elem_of_List_filter in Hin0 as [Hin0 _].
    apply (Hsc s0 p0 Hin0). }
  destruct (truthy err) eqn:Herr; simpl; [|exact Hf'].
  rewrite andb_true_r in Hsettles. apply bool_decide_eq_false in Hsettles.
  apply finish_in_flight; [exact Hsettles| |exact Hf'].
  destruct Hf as (_ & _ & _ & _ & _ & _ & _ & Hsc).
  intros Heq. apply Hsettles. apply (Hsc script' p' Hin). exact Heq.
Qed.

Lemma evalRequest_in_flight now script' cb s :
  cb <> cb1 -> cb <> cb2 -> flying s -> flying (_evalRequest now script' cb s).
Proof.
  intros H1 H2 Hf. unfold _evalRequest. fields.
  change (_child (set_lastSeen now s)) with (_child s).
  change (_evals (set_lastSeen now s)) with (_evals s).
  assert (Hf0 : flying (set_lastSeen now s))
    by (apply (in_flight_same s); [repeat split | exact Hf]).
  destruct (_child s) as [child|].
  - destruct (_evals s !! script') as [q|] eqn:Hq.
    + apply chain_in_flight; assumption.
    + apply chain_in_flight; [exact H1 | exact H2 |].
      destruct Hf as (He & (ws & Hp & Hw1 & Hw2) & Hothers & Ho1 & Ho2 & Hsent & Hl & Hsc).
      assert (Hs : script' <> script) by (intros ->; congruence).
      assert (Hlt : (p < length (promises s))%nat) by (apply lookup_lt_Some in Hp; exact Hp).
      unfold in_flight, outcomes, sent_count, set_lastSeen in *. fields.
      rewrite length_app. simpl.
      split; [rewrite lookup_insert_ne by exact Hs; exact He|].
      split; [exists ws; rewrite lookup_app_l by exact Hlt; auto|].
      split.
      { intros q pr Hq' Hqp. apply lookup_app_Some in Hq' as [Hq'|[_ Hq']];
          [apply (Hothers q pr Hq' Hqp)|].
        destruct (q - length (promises s))%nat; simpl in Hq'; [|discriminate].
        injection Hq' as <-. split; reflexivity. }
      split; [exact Ho1|]. split; [exact Ho2|].
      split.
      { rewrite List.filter_app, length_app. simpl.
        rewrite bool_decide_eq_false_2 by exact Hs. simpl. lia. }
      split.
      { intros c s0 p0 Hin. apply elem_of_app in Hin as [Hin|Hin].
        - destruct (Hl c s0 p0 Hin) as [Hb Hc]. split; [lia | exact Hc].
        - apply list_elem_of_singleton in Hin. injection Hin as -> -> ->.
          split; [lia|]. intros Heq. exfalso. lia. }
      { intros s0 p0 Hin. apply elem_of_app in Hin as [Hin|Hin].
        - destruct (Hsc s0 p0 Hin) as [Hb Hc]. split; [lia | exact Hc].
        - apply list_elem_of_singleton in Hin. injection Hin as -> ->.
          split; [lia|]. intros Heq. exfalso. lia. }
  - destruct Hf as (He & Hpend & Hothers & Ho1 & Ho2 & Hsent & Hl & Hsc).
    unfold in_flight, outcomes, sent_count, set_lastSeen in *. fields.
    split; [exact He|]. split; [exact Hpend|]. split; [exact Hothers|].
    split; [rewrite outs_app, outs_other, Ho1 by assumption; reflexivity|].
    split; [rewrite outs_app, outs_other, Ho2 by assumption; reflexivity|].
    split; [exact Hsent|]. split; [exact Hl | exact Hsc].
Qed.

Lemma step_in_flight e s :
  settles script e = false -> uses cb1 e = false -> uses cb2 e = false ->
  flying s -> flying (step s e).
Proof.
  intros Hsettles H1 H2 Hf. unfold step. destruct (halted s); [exact Hf|].
  destruct e as [now script' cb|c message|script' p' err| | |now connected cb settings| |];
    simpl in *.
  - apply bool_decide_eq_false in H1, H2. apply evalRequest_in_flight; assumption.
  - apply bool_decide_eq_false in Hsettles.
    apply child_message_in_flight; assumption.
  - apply send_done_in_flight; assumption.
  - apply (in_flight_same _ _ (handleExit_same s) Hf).
  - apply (in_flight_same _ _ (handleError_same s) Hf).
  - apply bool_decide_eq_false in H1, H2.
    destruct (updateRequest_cases now connected cb settings s) as (s' & Hs & [->| ->]).
    + apply (in_flight_same _ _ Hs Hf).
    + apply evalRequest_in_flight; [exact H1 | exact H2 |].
      apply (in_flight_same _ _ Hs Hf).
  - apply (in_flight_same _ _ (respawnChild_same s) Hf).
  - apply (in_flight_same _ _ (exit_same s) Hf).
Qed.

Lemma run_in_flight trace : forall s,
  (forall e, e ∈ trace ->
     settles script e = false /\ uses cb1 e = false /\ uses cb2 e = false) ->
  flying s -> flying (run trace s).
Proof.
  induction trace as [|e trace IH]; intros s Hev Hf; [exact Hf|].
  simpl. apply IH.
  - intros e' He'. apply Hev. right. exact He'.
  - destruct (Hev e) as (H0 & H1 & H2); [left|]. apply step_in_flight; assumption.
Qed.

End InFlight.

(** *** Every pending script has its listener *)

Lemma listened_ext s s' :
  _evals s' = _evals s -> listeners s' = listeners s -> sends s' = sends s ->
  listened s -> listened s'.
Proof. unfold listened. intros -> -> ->. auto. Qed.

Lemma listened_same s s' : same_evals s s' -> listened s -> listened s'.
Proof. intros (He & _ & Hl & Hs & _). apply listened_ext; assumption. Qed.

Lemma new_listened name : listened (new name).
Proof. intros script p H. simpl in H. rewrite lookup_empty in H. discriminate. Qed.

Lemma chain_frame q cb s :
  _evals (chain q cb s) = _evals s /\ listeners (chain q cb s) = listeners s
  /\ sends (chain q cb s) = sends s
  /\ sendCallbacks (chain q cb s) = sendCallbacks s
  /\ halted (chain q cb s) = halted s /\ _child (chain q cb s) = _child s.
Proof. unfold chain. destruct (promises s !! q) as [[ws|o]|]; repeat split. Qed.

Lemma settle_frame q o s :
  _evals (settle q o s) = _evals s /\ listeners (settle q o s) = listeners s
  /\ sends (settle q o s) = sends s
  /\ sendCallbacks (settle q o s) = sendCallbacks s
  /\ halted (settle q o s) = halted s /\ _child (settle q o s) = _child s.
Proof. unfold settle. destruct (promises s !! q) as [[ws|o']|]; repeat split. Qed.

Lemma settle_listened q o s : listened s -> listened (settle q o s).
Proof.
  destruct (settle_frame q o s) as (He & Hl & Hs & _). apply listened_ext; assumption.
Qed.

Lemma chain_listened q cb s : listened s -> listened (chain q cb s).
Proof.
  destruct (chain_frame q cb s) as (He & Hl & Hs & _). apply listened_ext; assumption.
Qed.

Lemma finish_listened script q o s : listened s -> listened (finish script q o s).
Proof.
  intros Hl. unfold finish.
  destruct (_child s) as [cur|]; [|apply (listened_ext s); [reflexivity..|exact Hl]].
  apply settle_listened. intros script' p' Hev. fields in Hev. fields.
  apply lookup_delete_Some in Hev as [Hne Hev].
  destruct (Hl script' p' Hev) as (c & Hin & Hs).
  exists c. split; [|exact Hs].
  apply list_elem_of_In, filter_In. split; [apply list_elem_of_In; exact Hin|].
  unfold same_listener. rewrite bool_decide_eq_false_2; [reflexivity|]. congruence.
Qed.

Lemma listener_listened script q message s :
  listened s -> listened (listener script q message s).
Proof.
  intros Hl. unfold listener.
  destruct (negb (bool_decide (_eval message = Some script))); [exact Hl|].
  destruct (negb (truthy (_error message))); apply finish_listened; exact Hl.
Qed.

Lemma run_listeners_listened ls message : forall s,
  listened s -> listened (run_listeners ls message s).
Proof.
  induction ls as [|[script q] ls IH]; intros s Hl; simpl; [exact Hl|].
  destruct (halted s); [exact Hl|]. apply IH, listener_listened, Hl.
Qed.

Lemma send_done_listened script q err s :
  listened s -> listened (send_done script q err s).
Proof.
  intros Hl. unfold send_done. case_bool_decide; [|exact Hl].
  destruct (negb (truthy err)).
  - apply (listened_ext s); [reflexivity..|exact Hl].
  - apply finish_listened. apply (listened_ext s); [reflexivity..|exact Hl].
Qed.

Lemma evalRequest_listened now script cb s :
  listened s -> listened (_evalRequest now script cb s).
Proof.
  intros Hl. unfold _evalRequest.
  change (_child (set_lastSeen now s)) with (_child s).
  change (_evals (set_lastSeen now s)) with (_evals s).
  destruct (_child s) as [child|].
  - destruct (_evals s !! script) as [q|] eqn:Hev.
    + apply chain_listened. apply (listened_ext s); [reflexivity..|exact Hl].
    + apply chain_listened. intros script' p' H. fields in H. fields.
      unfold set_lastSeen. fields.
      apply lookup_insert_Some in H as [[<- <-]|[Hne H]].
      * exists child. split; apply elem_of_app; right; left.
      * destruct (Hl script' p' H) as (c & Hin & Hs).
        exists c. split; apply elem_of_app; left; assumption.
  - apply (listened_ext s); [reflexivity..|exact Hl].
Qed.

Lemma step_listened e s : listened s -> listened (step s e).
Proof.
  intros Hl. unfold step. destruct (halted s); [exact Hl|].
  destruct e as [now script cb|c message|script q err| | |now connected cb settings| |].
  - apply evalRequest_listened, Hl.
  - apply run_listeners_listened, Hl.
  - apply send_done_listened, Hl.
  - apply (listened_same _ _ (handleExit_same s) Hl).
  - apply (listened_same _ _ (handleError_same s) Hl).
  - destruct (updateRequest_cases now connected cb settings s) as (s' & Hs & [->| ->]).
    + apply (listened_same _ _ Hs Hl).
    + apply evalRequest_listened. apply (listened_same _ _ Hs Hl).
  - apply (listened_same _ _ (respawnChild_same s) Hl).
  - apply (listened_same _ _ (exit_same s) Hl).
Qed.

Lemma run_listened trace : forall s, listened s -> listened (run trace s).
Proof.
  induction trace as [|e trace IH]; intros s Hl; [exact Hl|].
  simpl. apply IH, step_listened, Hl.
Qed.

(** The listener of a request made while a child runs: on that child when
    the request created the promise, and on the child of the pending
    request otherwise. *)
Lemma request_listener now script cb s child p :
  _child s = Some child -> listened s ->
  _evals (_evalRequest now script cb s) !! script = Some p ->
  exists c, (c, (script, p)) ∈ listeners (_evalRequest now script cb s)
            /\ (c, script) ∈ sends (_evalRequest now script cb s)
            /\ (pending script s = false -> c = child).
Proof.
  intros Hchild Hl. unfold _evalRequest, pending.
  change (_child (set_lastSeen now s)) with (_child s).
  change (_evals (set_lastSeen now s)) with (_evals s).
  rewrite Hchild. destruct (_evals s !! script) as [q|] eqn:Hev.
  - match goal with |- context [chain ?a ?b ?x] =>
      destruct (chain_frame a b x) as (He & Hls & Hs & _) end.
    rewrite He, Hls, Hs. unfold set_lastSeen. fields. rewrite Hev.
    intros H. injection H as <-.
    destruct (Hl script q Hev) as (c & Hin & Hsent).
    exists c. repeat split; [assumption..|].
    rewrite bool_decide_eq_true_2 by eauto. discriminate.
  - match goal with |- context [chain ?a ?b ?x] =>
      destruct (chain_frame a b x) as (He & Hls & Hs & _) end.
    rewrite He, Hls, Hs. unfold set_lastSeen. fields.
    rewrite lookup_insert_eq. intros H. injection H as <-.
    exists child. repeat split; apply elem_of_app; right; left.
Qed.

(** *** A caller that joined is answered with the outcome of its promise *)

Section Joined.
Variables (script : string) (p : nat) (c : ChildId) (cb : CbId).

Abbreviation joining := (joined script p c cb).

Lemma joined_ext s s' :
  promises s' = promises s -> listeners s' = listeners s ->
  sendCallbacks s' = sendCallbacks s -> calls s' = calls s ->
  joining s -> joining s'.
Proof. unfold joined, outcomes. intros -> -> -> ->. auto. Qed.

Lemma joined_same s s' : same_evals s s' -> joining s -> joining s'.
Proof. intros (_ & Hp & Hl & _ & Hsc & Hc). apply joined_ext; assumption. Qed.

(** Listeners and completion callbacks may go, as long as the listener of
    [p] stays. *)
Lemma joined_weaken s s' :
  promises s' = promises s -> calls s' = calls s ->
  (forall x, x ∈ listeners s' -> x ∈ listeners s) ->
  (forall x, x ∈ sendCallbacks s' -> x ∈ sendCallbacks s) ->
  ((c, (script, p)) ∈ listeners s -> (c, (script, p)) ∈ listeners s') ->
  joining s -> joining s'.
Proof.
  intros Hp Hc Hl Hsc Hkeep (Hz & Hcl & Hcs & Hm). unfold joined, outcomes in *.
  rewrite Hp, Hc. split; [exact Hz|]. split; [|split].
  - intros c' script' Hin. apply (Hcl c'). apply Hl. exact Hin.
  - intros script' Hin. apply Hcs. apply Hsc. exact Hin.
  - destruct (promises s !! p) as [[ws|o]|]; [|exact Hm..].
    destruct Hm as (Hw & Ho & Hin). auto.
Qed.

(** One more call of another callback. *)
Lemma joined_called s s' cb' o :
  promises s' = promises s -> listeners s' = listeners s ->
  sendCallbacks s' = sendCallbacks s -> calls s' = calls s ++ [(cb', o)] ->
  cb' <> cb -> joining s -> joining s'.
Proof.
  intros Hp Hl Hsc Hc Hne. unfold joined, outcomes.
  rewrite Hp, Hl, Hsc, Hc, outs_app, (outs_other _ _ _ Hne), app_nil_r. auto.
Qed.

(** [settle q] in a state [s0] that has lost listeners of [s], the one of
    [p] at most when [q] is [p]. *)
Lemma settle_joined_from q o s s0 :
  promises s0 = promises s -> calls s0 = calls s ->
  sendCallbacks s0 = sendCallbacks s ->
  (forall x, x ∈ listeners s0 -> x ∈ listeners s) ->
  (q <> p -> (c, (script, p)) ∈ listeners s -> (c, (script, p)) ∈ listeners s0) ->
  joining s -> joining (settle q o s0).
Proof.
  intros Hp0 Hc0 Hsc0 Hl0 Hkeep (Hz & Hcl & Hcs & Hm).
  assert (Hcl0 : forall c' script', (c', (script', p)) ∈ listeners s0 -> script' = script).
  { intros c' script' Hin. apply (Hcl c'), Hl0, Hin. }
  unfold settle. rewrite Hp0.
  destruct (promises s !! q) as [[ws|o']|] eqn:Hq.
  - unfold joined, outcomes. fields. rewrite ?Hp0, ?Hc0, ?Hsc0.
    split.
    { intros q' pr Hq' Hne.
      apply list_lookup_insert_Some in Hq' as [(_ & <- & _)|(_ & Hq')];
        [reflexivity | apply (Hz q' pr Hq' Hne)]. }
    split; [exact Hcl0|]. split; [exact Hcs|].
    destruct (decide (q = p)) as [->|Hne].
    + rewrite Hq in Hm. destruct Hm as (Hw & Ho & Hin).
      rewrite list_lookup_insert_eq by (eapply lookup_lt_Some; exact Hq).
      unfold outcomes in Ho. rewrite outs_app, outs_notify, Ho, Hw. reflexivity.
    + rewrite list_lookup_insert_ne by exact Hne.
      rewrite outs_app, outs_notify, (Hz q (Pending ws) Hq Hne). simpl.
      rewrite app_nil_r.
      destruct (promises s !! p) as [[ws'|o'']|]; [|exact Hm..].
      destruct Hm as (Hw & Ho & Hin). auto.
  - unfold joined, outcomes. rewrite ?Hp0, ?Hc0, ?Hsc0.
    split; [exact Hz|]. split; [exact Hcl0|]. split; [exact Hcs|].
    destruct (decide (q = p)) as [->|Hne].
    + rewrite Hq in *. exact Hm.
    + destruct (promises s !! p) as [[ws'|o'']|]; [|exact Hm..].
      destruct Hm as (Hw & Ho & Hin). auto.
  - unfold joined, outcomes. rewrite ?Hp0, ?Hc0, ?Hsc0.
    split; [exact Hz|]. split; [exact Hcl0|]. split; [exact Hcs|].
    destruct (decide (q = p)) as [->|Hne].
    + rewrite Hq in *. exact Hm.
    + destruct (promises s !! p) as [[ws'|o'']|]; [|exact Hm..].
      destruct Hm as (Hw & Ho & Hin). auto.
Qed.

Lemma chain_joined q cb' s : cb' <> cb -> joining s -> joining (chain q cb' s).
Proof.
  intros Hne Hj. unfold chain.
  destruct (promises s !! q) as [[ws|o']|] eqn:Hq; [| |exact Hj].
  - destruct Hj as (Hz & Hcl & Hcs & Hm). unfold joined, outcomes in *. fields.
    split.
    { intros q' pr Hq' Hqp.
      apply list_lookup_insert_Some in Hq' as [(<- & <- & _)|(_ & Hq')];
        [|apply (Hz q' pr Hq' Hqp)].
      rewrite (waiting_snoc_other _ _ _ Hne). apply (Hz q _ Hq Hqp). }
    split; [exact Hcl|]. split; [exact Hcs|].
    destruct (decide (q = p)) as [->|Hqp].
    + rewrite Hq in Hm. destruct Hm as (Hw & Ho & Hin).
      rewrite list_lookup_insert_eq by (eapply lookup_lt_Some; exact Hq).
      rewrite (waiting_snoc_other _ _ _ Hne). auto.
    + rewrite list_lookup_insert_ne by exact Hqp. exact Hm.
  - eapply (joined_called s); [reflexivity..| exact Hne | exact Hj].
Qed.

Lemma finish_joined script' q o s : joining s -> joining (finish script' q o s).
Proof.
  intros Hj. unfold finish.
  destruct (_child s) as [cur|]; [|apply (joined_ext s); [reflexivity..|exact Hj]].
  apply (settle_joined_from q o s); try reflexivity; [| |exact Hj]; fields.
  - intros x Hx. apply list_elem_of_In, filter_In in Hx as [Hx _].
    apply list_elem_of_In. exact Hx.
  - intros Hne Hin. apply list_elem_of_In, filter_In.
    split; [apply list_elem_of_In; exact Hin|].
    unfold same_listener. rewrite bool_decide_eq_false_2; [reflexivity|]. congruence.
Qed.

Lemma listener_joined script' q message s :
  joining s -> joining (listener script' q message s).
Proof.
  intros Hj. unfold listener.
  destruct (negb (bool_decide (_eval message = Some script'))); [exact Hj|].
  destruct (negb (truthy (_error message))); apply finish_joined; exact Hj.
Qed.

Lemma run_listeners_joined ls message : forall s,
  joining s -> joining (run_listeners ls message s).
Proof.
  induction ls as [|[script' q] ls IH]; intros s Hj; simpl; [exact Hj|].
  destruct (halted s); [exact Hj|]. apply IH, listener_joined, Hj.
Qed.

Lemma send_done_joined script' q err s :
  joining s -> joining (send_done script' q err s).
Proof.
  intros Hj. unfold send_done. case_bool_decide; [|exact Hj].
  match goal with |- context [finish script' q _ ?x] => set (s0 := x) end.
  assert (H0 : joining s0).
  { apply (joined_weaken s); try reflexivity; [auto| |auto|exact Hj].
    unfold s0. fields. intros x Hx.
    apply list_elem_of_In, filter_In in Hx as [Hx _]. apply list_elem_of_In. exact Hx. }
  destruct (negb (truthy err)); [exact H0 | apply finish_joined; exact H0].
Qed.

Lemma evalRequest_joined now script' cb' s :
  cb' <> cb -> joining s -> joining (_evalRequest now script' cb' s).
Proof.
  intros Hne Hj. unfold _evalRequest.
  change (_child (set_lastSeen now s)) with (_child s).
  change (_evals (set_lastSeen now s)) with (_evals s).
  destruct (_child s) as [child|].
  - destruct (_evals s !! script') as [q|].
    + apply chain_joined; [exact Hne|].
      apply (joined_ext s); [reflexivity..|exact Hj].
    + apply chain_joined; [exact Hne|].
      destruct Hj as (Hz & Hcl & Hcs & Hm).
      assert (Hlt : (p < length (promises s))%nat).
      { destruct (promises s !! p) as [pr|] eqn:Hp; [|contradiction].
        eapply lookup_lt_Some; exact Hp. }
      unfold joined, outcomes, set_lastSeen in *. fields.
      split.
      { intros q pr Hq Hqp. apply lookup_app_Some in Hq as [Hq|[_ Hq]];
          [apply (Hz q pr Hq Hqp)|].
        destruct (q - length (promises s))%nat; simpl in Hq; [|discriminate].
        injection Hq as <-. reflexivity. }
      split.
      { intros c' script'' Hin. apply elem_of_app in Hin as [Hin|Hin];
          [apply (Hcl c' script'' Hin)|].
        apply list_elem_of_singleton in Hin. injection Hin as _ _ Heq. lia. }
      split.
      { intros script'' Hin. apply elem_of_app in Hin as [Hin|Hin];
          [apply (Hcs script'' Hin)|].
        apply list_elem_of_singleton in Hin. injection Hin as _ Heq. lia. }
      rewrite lookup_app_l by exact Hlt.
      destruct (promises s !! p) as [[ws|o]|]; [|exact Hm..].
      destruct Hm as (Hw & Ho & Hin). repeat split; [assumption..|].
      apply elem_of_app. left. exact Hin.
  - eapply (joined_called s); [reflexivity..| exact Hne | exact Hj].
Qed.

Lemma step_joined e s : uses cb e = false -> joining s -> joining (step s e).
Proof.
  intros Hu Hj. unfold step. destruct (halted s); [exact Hj|].
  destruct e as [now script' cb'|c' message|script' q err| | |now connected cb' settings| |];
    simpl in Hu.
  - apply bool_decide_eq_false in Hu. apply evalRequest_joined; assumption.
  - apply run_listeners_joined, Hj.
  - apply send_done_joined, Hj.
  - apply (joined_same _ _ (handleExit_same s) Hj).
  - apply (joined_same _ _ (handleError_same s) Hj).
  - apply bool_decide_eq_false in Hu.
    destruct (updateRequest_cases now connected cb' settings s) as (s' & Hs & [->| ->]).
    + apply (joined_same _ _ Hs Hj).
    + apply evalRequest_joined; [exact Hu|]. apply (joined_same _ _ Hs Hj).
  - apply (joined_same _ _ (respawnChild_same s) Hj).
  - apply (joined_same _ _ (exit_same s) Hj).
Qed.

Lemma run_joined trace : forall s,
  (forall e, e ∈ trace -> uses cb e = false) -> joining s -> joining (run trace s).
Proof.
  induction trace as [|e trace IH]; intros s Hu Hj; [exact Hj|].
  simpl. apply IH.
  - intros e' He'. apply Hu. right. exact He'.
  - apply step_joined; [apply Hu; left | exact Hj].
Qed.

(** What a caller that joined has been called with: nothing yet, or the
    outcome of the promise, once. *)
Lemma joined_outcomes s :
  joining s ->
  match promises s !! p with
  | Some (Settled o) => outcomes cb s = [o]
  | _ => outcomes cb s = []
  end.
Proof.
  intros (_ & _ & _ & Hm).
  destruct (promises s !! p) as [[ws|o]|]; [|exact Hm|contradiction].
  destruct Hm as (_ & Ho & _). exact Ho.
Qed.

End Joined.

(** *** The message of the child settles the promise *)

Lemma listener_answer script q message s :
  _eval message = Some script ->
  listener script q message s = finish script q (outcome_of message) s.
Proof.
  intros He. unfold listener, outcome_of.
  rewrite (bool_decide_eq_true_2 _ He). simpl.
  destruct (negb (truthy (_error message))); reflexivity.
Qed.

Lemma listener_other script q message s :
  _eval message <> Some script -> listener script q message s = s.
Proof.
  intros He. unfold listener. rewrite (bool_decide_eq_false_2 _ He). reflexivity.
Qed.

Lemma finish_promises script q o s cur :
  _child s = Some cur ->
  promises (finish script q o s)
  = match promises s !! q with
    | Some (Pending _) => <[q := Settled o]> (promises s)
    | _ => promises s
    end
  /\ halted (finish script q o s) = halted s
  /\ _child (finish script q o s) = _child s.
Proof.
  intros Hc. unfold finish. rewrite Hc. unfold settle. fields.
  destruct (promises s !! q) as [[ws|o']|]; repeat split; fields; auto.
Qed.

Lemma run_listeners_settles script p message ls : forall s,
  halted s = false -> is_Some (_child s) -> _eval message = Some script ->
  (forall script', (script', p) ∈ ls -> script' = script) ->
  match promises s !! p with
  | Some (Pending _) => (script, p) ∈ ls
  | Some (Settled o) => o = outcome_of message
  | None => False
  end ->
  promises (run_listeners ls message s) !! p = Some (Settled (outcome_of message)).
Proof.
  induction ls as [|[script' q] ls IH]; intros s Hlive [cur Hcur] He Hcl Hm; simpl.
  - destruct (promises s !! p) as [[ws|o]|]; [inversion Hm | subst o; reflexivity | contradiction].
  - rewrite Hlive.
    assert (Hcl' : forall script'', (script'', p) ∈ ls -> script'' = script).
    { intros script'' Hin. apply Hcl. right. exact Hin. }
    destruct (decide (_eval message = Some script')) as [Hans|Hans].
    + rewrite (listener_answer _ _ _ _ Hans).
      destruct (finish_promises script' q (outcome_of message) s cur Hcur)
        as (Hp & Hh & Hc).
      apply IH; [congruence | rewrite Hc; eauto | exact He | exact Hcl'|].
      rewrite Hp. destruct (decide (q = p)) as [->|Hne].
      * destruct (promises s !! p) as [[ws|o]|] eqn:Hpp; [|rewrite Hpp; exact Hm|contradiction].
        rewrite list_lookup_insert_eq by (eapply lookup_lt_Some; exact Hpp). reflexivity.
      * assert (Hsame : (match promises s !! q with
                          | Some (Pending _) => <[q:=Settled (outcome_of message)]> (promises s)
                          | _ => promises s
                          end) !! p = promises s !! p).
        { destruct (promises s !! q) as [[ws|o]|]; [|reflexivity..].
          apply list_lookup_insert_ne. exact Hne. }
        rewrite Hsame. destruct (promises s !! p) as [[ws|o]|]; [|exact Hm..].
        apply elem_of_cons in Hm as [Heq|Hin]; [congruence | exact Hin].
    + rewrite (listener_other _ _ _ _ Hans).
      apply IH; [exact Hlive | eauto | exact He | exact Hcl'|].
      destruct (promises s !! p) as [[ws|o]|]; [|exact Hm..].
      apply elem_of_cons in Hm as [Heq|Hin]; [|exact Hin].
      injection Heq as <- <-. congruence.
Qed.
(** The state right after a request made with a fresh callback while a child
    runs: the request is in flight, on a new promise when none was pending
    for the script, and on the pending one otherwise. *)
Lemma request_in_flight now script cb1 cb2 owner s child :
  _child s = Some child -> owned owner s ->
  unused cb1 s -> unused cb2 s -> cb1 <> cb2 ->
  exists p,
    in_flight script p cb1 cb2
      (sent_count script s + if pending script s then 0 else 1)
      (_evalRequest now script cb1 s).
Proof.
  intros Hchild (Hlen & Hl & Hsc & He) [Hu1 Ho1] [Hu2 Ho2] Hne.
  unfold _evalRequest, pending. fields.
  change (_child (set_lastSeen now s)) with (_child s).
  change (_evals (set_lastSeen now s)) with (_evals s).
  rewrite Hchild. destruct (_evals s !! script) as [p|] eqn:Hev.
  - rewrite bool_decide_eq_true_2 by eauto.
    destruct (He script p Hev) as [Hown [ws Hws]].
    exists p. unfold chain, set_lastSeen. fields. rewrite Hws.
    unfold in_flight, outcomes, sent_count in *. fields.
    rewrite length_insert.
    split; [exact Hev|]. split.
    { exists (ws ++ [cb1]).
      rewrite list_lookup_insert_eq by (apply lookup_lt_Some in Hws; exact Hws).
      rewrite waiting_snoc_same, waiting_snoc_other by exact Hne.
      rewrite (Hu1 p _ Hws), (Hu2 p _ Hws). auto. }
    split.
    { intros q pr Hq Hqp. rewrite list_lookup_insert_ne in Hq by congruence.
      split; [apply (Hu1 q pr Hq) | apply (Hu2 q pr Hq)]. }
    split; [exact Ho1|]. split; [exact Ho2|]. split; [lia|]. split.
    + intros c s0 p0 Hin. specialize (Hl c s0 p0 Hin). split.
      * apply lookup_lt_Some in Hl. lia.
      * intros ->. congruence.
    + intros s0 p0 Hin. specialize (Hsc s0 p0 Hin). split.
      * apply lookup_lt_Some in Hsc. lia.
      * intros ->. congruence.
  - rewrite bool_decide_eq_false_2 by (intros [x Hx]; discriminate).
    exists (length (promises s)). unfold chain, set_lastSeen. fields.
    rewrite lookup_app_r by lia. rewrite Nat.sub_diag. simpl.
    unfold in_flight, outcomes, sent_count in *. fields.
    rewrite length_insert, length_app. simpl.
    split; [apply lookup_insert_eq|]. split.
    { exists [cb1]. rewrite list_lookup_insert_eq by (rewrite length_app; simpl; lia).
      simpl. rewrite bool_decide_eq_true_2 by reflexivity.
      rewrite bool_decide_eq_false_2 by exact Hne. auto. }
    split.
    { intros q pr Hq Hqp. apply list_lookup_insert_Some in Hq as [(Heq & _)|(_ & Hq)];
        [congruence|].
      apply lookup_app_Some in Hq as [Hq|[Hge Hq]]; [eauto|].
      exfalso. apply lookup_lt_Some in Hq. simpl in Hq. lia. }
    split; [exact Ho1|]. split; [exact Ho2|]. split.
    { rewrite List.filter_app, length_app. simpl.
      rewrite bool_decide_eq_true_2 by reflexivity. simpl. lia. }
    split.
    + intros c s0 p0 Hin. apply elem_of_app in Hin as [Hin|Hin].
      * specialize (Hl c s0 p0 Hin). apply lookup_lt_Some in Hl.
        split; [lia|]. intros Heq. exfalso. lia.
      * apply list_elem_of_singleton in Hin. injection Hin as -> -> ->.
        split; [lia | reflexivity].
    + intros s0 p0 Hin. apply elem_of_app in Hin as [Hin|Hin].
      * specialize (Hsc s0 p0 Hin). apply lookup_lt_Some in Hsc.
        split; [lia|]. intros Heq. exfalso. lia.
      * apply list_elem_of_singleton in Hin. injection Hin as -> ->.
        split; [lia | reflexivity].
Qed.

(** The listeners that run for a message of child [c]. *)
Lemma listeners_of_child c script p s :
  (script, p) ∈ map snd (List.filter (fun l => bool_decide (fst l = c)) (listeners s))
  <-> (c, (script, p)) ∈ listeners s.
Proof.
  rewrite !list_elem_of_In, in_map_iff. split.
  - intros ([c' x] & Hx & Hin). simpl in Hx. subst x.
    apply filter_In in Hin as [Hin Hc]. simpl in Hc.
    apply bool_decide_eq_true in Hc. subst c'. exact Hin.
  - intros Hin. exists (c, (script, p)). split; [reflexivity|].
    apply filter_In. split; [exact Hin|]. simpl.
    apply bool_decide_eq_true_2. reflexivity.
Qed.

(** C5, as amended.  An agent has gone through any history [before] since
    it was constructed.  Two requests for the same script are made, with
    callbacks no other request names; a child process runs when the first
    is made and when the second is made, and between the two no message of
    a child answers the script and no send for it fails.  Then the first is
    unresolved when the second arrives, the first has sent the script to
    the child unless a request for it was pending already, and the second
    sends nothing.  From then on the two callbacks are called alike, each
    at most once.  The answer reaches both: the script was sent to a child
    [c] (the running one, unless a request was pending already), and after
    any later history in which the request is still unresolved and a child
    is present, a message of [c] that answers the script calls both
    callbacks with its outcome, the result or the error, and a failed send
    for the promise [p] of the script calls both with that error. *)
Theorem eval_requests_share_one_result
    name before between after now1 now2 script cb1 cb2 :
  cb1 <> cb2 ->
  (forall e, e ∈ before -> uses cb1 e = false /\ uses cb2 e = false) ->
  (forall e, e ∈ between ->
     settles script e = false /\ uses cb1 e = false /\ uses cb2 e = false) ->
  (forall e, e ∈ after -> uses cb1 e = false /\ uses cb2 e = false) ->
  let s := run before (new name) in
  let s1 := step s (EvalRequest now1 script cb1) in
  let s2 := run between s1 in
  let s3 := step s2 (EvalRequest now2 script cb2) in
  let s4 := run after s3 in
  halted s = false -> is_Some (_child s) ->
  halted s2 = false -> is_Some (_child s2) ->
  outcomes cb1 s2 = []
  /\ sent_count script s1
     = (sent_count script s + if pending script s then 0 else 1)%nat
  /\ sent_count script s3 = sent_count script s1
  /\ outcomes cb1 s4 = outcomes cb2 s4
  /\ (length (outcomes cb1 s4) <= 1)%nat
  /\ exists c p,
       _evals s1 !! script = Some p
       /\ (c, script) ∈ sends s1
       /\ (pending script s = false -> _child s = Some c)
       /\ (halted s4 = false -> is_Some (_child s4) -> outcomes cb1 s4 = [] ->
           (forall message, _eval message = Some script ->
              let s5 := step s4 (ChildMessage c message) in
              outcomes cb1 s5 = [outcome_of message]
              /\ outcomes cb2 s5 = [outcome_of message])
           /\ (forall err, err <> "" -> (script, p) ∈ sendCallbacks s4 ->
                 let s5 := step s4 (SendDone script p (Some err)) in
                 outcomes cb1 s5 = [EvalError err]
                 /\ outcomes cb2 s5 = [EvalError err])).
Proof.
  intros Hne Hbefore Hbetween Hafter s s1 s2 s3 s4 Hlive [child Hchild] Hlive2
         [child2 Hchild2].
  assert (Hu1 : unused cb1 s).
  { apply run_unused; [|apply new_unused]. intros e He. apply (Hbefore e He). }
  assert (Hu2 : unused cb2 s).
  { apply run_unused; [|apply new_unused]. intros e He. apply (Hbefore e He). }
  destruct (run_owned before (new name)) as [owner Ho]; [exists []; apply new_owned|].
  fold s in Ho.
  assert (Hlis : listened s) by (apply run_listened, new_listened).
  destruct (request_in_flight now1 script cb1 cb2 owner s child Hchild Ho Hu1 Hu2 Hne)
    as [p Hf1].
  assert (Hs1 : s1 = _evalRequest now1 script cb1 s)
    by (unfold s1, step; rewrite Hlive; reflexivity).
  rewrite <- Hs1 in Hf1.
  assert (Hf2 : in_flight script p cb1 cb2
                  (sent_count script s + if pending script s then 0 else 1) s2)
    by (apply run_in_flight; assumption).
  pose proof Hf1 as (He1 & (ws1 & Hp1 & Hw11 & _) & Hothers1 & Ho11 & _ & Hsent1
                     & Hcl1 & Hcs1).
  destruct (request_listener now1 script cb1 s child p Hchild Hlis)
    as (c & Hin1 & Hsends1 & Hc); [rewrite <- Hs1; exact He1|].
  rewrite <- Hs1 in Hin1, Hsends1.
  (* the first callback has joined the request *)
  assert (J1 : joined script p c cb1 s1).
  { split; [intros q pr Hq Hqp; apply (Hothers1 q pr Hq Hqp)|].
    split; [intros c' script' Hin; apply (Hcl1 c' script' p Hin); reflexivity|].
    split; [intros script' Hin; apply (Hcs1 script' p Hin); reflexivity|].
    rewrite Hp1. auto. }
  assert (J12 : joined script p c cb1 s2).
  { apply run_joined; [|exact J1]. intros e He. apply (Hbetween e He). }
  destruct Hf2 as (He & (ws & Hp & Hw1 & Hw2) & Hothers & Ho1 & Ho2 & Hsent & _).
  assert (Hs3 : s3 = chain p cb2 (set_lastSeen now2 s2)).
  { unfold s3, step. rewrite Hlive2. unfold _evalRequest. fields.
    change (_child (set_lastSeen now2 s2)) with (_child s2).
    change (_evals (set_lastSeen now2 s2)) with (_evals s2).
    rewrite Hchild2, He. reflexivity. }
  assert (J13 : joined script p c cb1 s3).
  { apply step_joined; [|exact J12]. simpl. apply bool_decide_eq_false_2. congruence. }
  (* and so has the second *)
  assert (J23 : joined script p c cb2 s3).
  { destruct J12 as (_ & Hcl2 & Hcs2 & Hm2). rewrite Hp in Hm2.
    destruct Hm2 as (_ & _ & Hin2).
    rewrite Hs3. unfold chain, set_lastSeen. fields. rewrite Hp.
    unfold joined, outcomes in *. fields.
    split.
    { intros q pr Hq Hqp. rewrite list_lookup_insert_ne in Hq by congruence.
      apply (Hothers q pr Hq Hqp). }
    split; [exact Hcl2|]. split; [exact Hcs2|].
    rewrite list_lookup_insert_eq by (eapply lookup_lt_Some; exact Hp).
    rewrite waiting_snoc_same, Hw2. auto. }
  assert (J14 : joined script p c cb1 s4).
  { apply run_joined; [|exact J13]. intros e He'. apply (Hafter e He'). }
  assert (J24 : joined script p c cb2 s4).
  { apply run_joined; [|exact J23]. intros e He'. apply (Hafter e He'). }
  split; [exact Ho1|]. split; [exact Hsent1|]. split; [|split; [|split]].
  - rewrite Hs3, Hsent1. unfold chain, set_lastSeen. fields. rewrite Hp. exact Hsent.
  - apply run_balanced; [exact Hafter|].
    rewrite Hs3. unfold chain, set_lastSeen. fields. rewrite Hp.
    split; fields.
    + intros q pr Hq. apply list_lookup_insert_Some in Hq as [(_ & <- & _)|(Hqp & Hq)].
      * rewrite waiting_snoc_same, waiting_snoc_other by congruence. lia.
      * destruct (Hothers q pr Hq) as [Hz1 Hz2]; [congruence | lia].
    + unfold outcomes in *. fields. rewrite Ho1, Ho2. reflexivity.
  - pose proof (joined_outcomes _ _ _ _ _ J14) as Hout.
    destruct (promises s4 !! p) as [[ws4|o4]|]; rewrite Hout; simpl; lia.
  - exists c, p. split; [exact He1|]. split; [exact Hsends1|].
    split; [intros Hpend; rewrite Hchild, (Hc Hpend); reflexivity|].
    intros Hlive4 [cur Hcur] Hun.
    pose proof J14 as (_ & Hcl4 & _ & Hm4).
    destruct (promises s4 !! p) as [[ws4|o4]|] eqn:Hp4;
      [|rewrite Hm4 in Hun; discriminate|contradiction].
    destruct Hm4 as (_ & _ & Hin4).
    split.
    + intros message Hans s5.
      assert (Hset : promises s5 !! p = Some (Settled (outcome_of message))).
      { unfold s5, step. rewrite Hlive4. unfold child_message.
        apply (run_listeners_settles script); [exact Hlive4 | eauto | exact Hans | |].
        - intros script' Hin. apply listeners_of_child in Hin.
          apply (Hcl4 c script' Hin).
        - rewrite Hp4. apply listeners_of_child. exact Hin4. }
      split.
      * pose proof (joined_outcomes _ _ _ _ _
                      (step_joined script p c cb1 (ChildMessage c message) s4
                         eq_refl J14)) as Hout.
        fold s5 in Hout. rewrite Hset in Hout. exact Hout.
      * pose proof (joined_outcomes _ _ _ _ _
                      (step_joined script p c cb2 (ChildMessage c message) s4
                         eq_refl J24)) as Hout.
        fold s5 in Hout. rewrite Hset in Hout. exact Hout.
    + intros err Herr Hsc s5.
      assert (Hset : promises s5 !! p = Some (Settled (EvalError err))).
      { unfold s5, step. rewrite Hlive4. unfold send_done.
        rewrite (bool_decide_eq_true_2 _ Hsc). simpl truthy.
        rewrite (bool_decide_eq_false_2 (err = "")) by exact Herr. simpl.
        match goal with |- context [finish script p ?o ?x] =>
          destruct (finish_promises script p o x cur Hcur) as (Hfp & _)
        end.
        rewrite Hfp. fields. rewrite Hp4.
        apply list_lookup_insert_eq. eapply lookup_lt_Some. exact Hp4. }
      split.
      * pose proof (joined_outcomes _ _ _ _ _
                      (step_joined script p c cb1 (SendDone script p (Some err)) s4
                         eq_refl J14)) as Hout.
        fold s5 in Hout. rewrite Hset in Hout. exact Hout.
      * pose proof (joined_outcomes _ _ _ _ _
                      (step_joined script p c cb2 (SendDone script p (Some err)) s4
                         eq_refl J24)) as Hout.
        fold s5 in Hout. rewrite Hset in Hout. exact Hout.
Qed.

End EvalRequests.

Lemma eval_requests_share_one_result_witness :
  let s := ShardingSlave.run Sample.boot (ShardingSlave.new "aaa") in
  let s1 := ShardingSlave.step s (ShardingSlave.EvalRequest 100 "1+1" 1%nat) in
  let s2 := ShardingSlave.run [] s1 in
  let s3 := ShardingSlave.step s2 (ShardingSlave.EvalRequest 200 "1+1" 2%nat) in
  let s4 := ShardingSlave.run [] s3 in
  ShardingSlave.outcomes 1%nat s2 = []
  /\ ShardingSlave.sent_count "1+1" s1
     = (ShardingSlave.sent_count "1+1" s
        + if ShardingSlave.pending "1+1" s then 0 else 1)%nat
  /\ ShardingSlave.sent_count "1+1" s3 = ShardingSlave.sent_count "1+1" s1
  /\ ShardingSlave.outcomes 1%nat s4 = ShardingSlave.outcomes 2%nat s4
  /\ (length (ShardingSlave.outcomes 1%nat s4) <= 1)%nat
  /\ exists c p,
       ShardingSlave._evals s1 !! "1+1" = Some p
       /\ (c, "1+1") ∈ ShardingSlave.sends s1
       /\ (ShardingSlave.pending "1+1" s = false -> ShardingSlave._child s = Some c)
       /\ (ShardingSlave.halted s4 = false -> is_Some (ShardingSlave._child s4) ->
           ShardingSlave.outcomes 1%nat s4 = [] ->
           (forall message, ShardingSlave._eval message = Some "1+1" ->
              let s5 := ShardingSlave.step s4 (ShardingSlave.ChildMessage c message) in
              ShardingSlave.outcomes 1%nat s5 = [ShardingSlave.outcome_of message]
              /\ ShardingSlave.outcomes 2%nat s5 = [ShardingSlave.outcome_of message])
           /\ (forall err, err <> "" ->
                 ("1+1", p) ∈ ShardingSlave.sendCallbacks s4 ->
                 let s5 := ShardingSlave.step s4
                             (ShardingSlave.SendDone "1+1" p (Some err)) in
                 ShardingSlave.outcomes 1%nat s5 = [ShardingSlave.EvalError err]
                 /\ ShardingSlave.outcomes 2%nat s5 = [ShardingSlave.EvalError err])).
Proof.
  apply (eval_requests_share_one_result "aaa" Sample.boot [] []
           100 200 "1+1" 1%nat 2%nat).
  - discriminate.
  - intros e He. apply list_elem_of_singleton in He as ->. split; reflexivity.
  - intros e He. inversion He.
  - intros e He. inversion He.
  - reflexivity.
  - vm_compute. eauto.
  - reflexivity.
  - vm_compute. eauto.
Defined.

(** On that history, once the child answers, both callbacks are called,
    once, with the result of the child, and one message went to it. *)
Lemma two_requests_one_message_sample :
  let s3 := ShardingSlave.run
              (Sample.boot ++ [ShardingSlave.EvalRequest 100 "1+1" 1%nat;
                               ShardingSlave.EvalRequest 200 "1+1" 2%nat;
                               ShardingSlave.ChildMessage 0%nat
                                 (ShardingSlave.mkMessage (Some "1+1") None "2")])
              (ShardingSlave.new "aaa") in
  ShardingSlave.sends s3 = [(0%nat, "1+1")]
  /\ ShardingSlave.outcomes 1%nat s3 = [ShardingSlave.EvalResult "2"]
  /\ ShardingSlave.outcomes 2%nat s3 = [ShardingSlave.EvalResult "2"].
Proof. vm_compute. repeat split. Qed.

(** The same when the child answers with an error, and when the send
    fails: both callbacks are called with that error. *)
Lemma two_requests_one_error_sample :
  let s3 := ShardingSlave.run
              (Sample.boot ++ [ShardingSlave.EvalRequest 100 "1+1" 1%nat;
                               ShardingSlave.EvalRequest 200 "1+1" 2%nat])
              (ShardingSlave.new "aaa") in
  let answered := ShardingSlave.step s3
                    (ShardingSlave.ChildMessage 0%nat
                       (ShardingSlave.mkMessage (Some "1+1") (Some "boom") "")) in
  let unsent := ShardingSlave.step s3 (ShardingSlave.SendDone "1+1" 0%nat (Some "EPIPE")) in
  ShardingSlave.outcomes 1%nat answered = [ShardingSlave.EvalError "boom"]
  /\ ShardingSlave.outcomes 2%nat answered = [ShardingSlave.EvalError "boom"]
  /\ ShardingSlave.outcomes 1%nat unsent = [ShardingSlave.EvalError "EPIPE"]
  /\ ShardingSlave.outcomes 2%nat unsent = [ShardingSlave.EvalError "EPIPE"].
Proof. vm_compute. repeat split. Qed.

(** C5 as stated fails: a request is sent to the child; the orchestrator
    retires the worker and the child exits; the same request arrives again
    while the first is unresolved.  One message went to the child, the second
    callback is called with "Not Running", and the first has not been called
    and is chained on a promise that stays pending. *)
Lemma second_request_after_child_exit_is_answered_alone :
  let s := ShardingSlave.run (Sample.boot ++ Sample.retiredBetween)
                             (ShardingSlave.new "aaa") in
  ShardingSlave.run Sample.boot (ShardingSlave.new "aaa") = Sample.agent
  /\ ShardingSlave.sends s = [(0%nat, "1+1")]
  /\ ShardingSlave._child s = None
  /\ ShardingSlave.halted s = false
  /\ ShardingSlave.promises s = [ShardingSlave.Pending [1%nat]]
  /\ ShardingSlave.outcomes 1%nat s = []
  /\ ShardingSlave.outcomes 2%nat s = [ShardingSlave.EvalError "Not Running"].
Proof. vm_compute. repeat split. Qed.

(** ** The pass as a whole: who holds which shard id afterwards *)

Section AssignFold.

(** [newIds.forEach] hands the id at index [i] to the spare at index [i]
    and leaves the spares beyond the ids alone. *)
Lemma assign_fold_lookup now goal (newIds : list Z) :
  forall r (incorrect : list string) configuring i k,
  NoDup incorrect -> incorrect !! i = Some k ->
  Registry.get k (fst (fst (fold_left (assign_step now goal) newIds
                                       (r, incorrect, configuring))))
  = match newIds !! i with
    | Some x => assigned now goal x <$> Registry.get k r
    | None => Registry.get k r
    end.
Proof.
  induction newIds as [|x newIds IH]; intros r incorrect configuring i k Hnd Hi;
    [reflexivity|].
  destruct incorrect as [|s incorrect]; [discriminate|].
  apply NoDup_cons in Hnd as [Hs Hnd]. cbn [fold_left assign_step].
  destruct i as [|i]; simpl in Hi.
  - injection Hi as ->. rewrite assign_fold_get_other by exact Hs.
    simpl. apply get_modify_eq.
  - rewrite (IH _ incorrect _ i k Hnd Hi). simpl.
    assert (Hne : k <> s).
    { intros ->. apply Hs. apply list_elem_of_lookup. eauto. }
    rewrite get_modify_ne by exact Hne. reflexivity.
Qed.

Lemma remove_fold_NoDup goal (els : list ShardInfo.t) : forall ids,
  NoDup ids ->
  NoDup (fold_left
           (fun ids el =>
              if ShardInfo.isMaster el then ids
              else if bool_decide (ShardInfo.goalShardCount el = goal)
                   then remove_first (ShardInfo.goalShardId el) ids
                   else ids)
           els ids).
Proof.
  induction els as [|a els IH]; intros ids Hnd; simpl; [exact Hnd|].
  apply IH. destruct (ShardInfo.isMaster a); [exact Hnd|].
  case_bool_decide; [|exact Hnd].
  apply remove_first_spec. exact Hnd.
Qed.

(** The registry a pass leaves under a key that is not the master's is the
    one [newIds.forEach] left. *)
Lemma refresh_assign_get now goal correct incorrect newIds master m k :
  master <> Some k ->
  let lp := refresh_loop now (heartbeat (_config m))
              (sort (by_desc (bootTimeOf (users m))) correct) (users m) in
  Registry.get k (p_users (refresh_assign now goal correct incorrect newIds master m))
  = Registry.get k (fst (fst (fold_left (assign_step now goal) newIds
                                         (p_users lp, incorrect, p_configuring lp)))).
Proof.
  intros Hm lp. unfold refresh_assign.
  fold (by_desc (bootTimeOf (users m))). fold lp.
  destruct (fold_left (assign_step now goal) newIds
              (p_users lp, incorrect, p_configuring lp)) as [[r1 inc1] conf1].
  pose proof (assign_master_get_other goal master r1 conf1 k Hm) as Hget.
  destruct (assign_master goal master (r1, conf1)) as [r2 conf2].
  simpl in *. exact Hget.
Qed.

(** The master entry stays a master entry. *)
Lemma refresh_assign_master now goal correct incorrect newIds m k el :
  k ∉ correct -> k ∉ incorrect ->
  Registry.get k (users m) = Some el -> ShardInfo.isMaster el = true ->
  exists el', Registry.get k (p_users (refresh_assign now goal correct incorrect
                                         newIds (Some k) m)) = Some el'
              /\ ShardInfo.isMaster el' = true.
Proof.
  intros Hc Hi Hget Hm. unfold refresh_assign.
  fold (by_desc (bootTimeOf (users m))).
  set (lp := refresh_loop now (heartbeat (_config m))
               (sort (by_desc (bootTimeOf (users m))) correct) (users m)).
  pose proof (assign_fold_get_other now goal newIds (p_users lp) incorrect
                (p_configuring lp) k Hi) as Hfold.
  destruct (fold_left (assign_step now goal) newIds
              (p_users lp, incorrect, p_configuring lp)) as [[r1 inc1] conf1].
  simpl in Hfold.
  assert (Hlp : Registry.get k (p_users lp) = Some el).
  { unfold lp, refresh_loop. rewrite loop_get_other; [exact Hget|].
    rewrite sort_perm. exact Hc. }
  rewrite Hlp in Hfold. unfold assign_master. rewrite Hfold.
  case_bool_decide; simpl.
  - rewrite get_modify_eq, Hfold. simpl. eexists. split; [reflexivity | exact Hm].
  - exists el. split; [exact Hfold | exact Hm].
Qed.

End AssignFold.

Section PassAssignments.

Variables (now : Z) (name1 name2 : string) (m : ShardingMaster.t) (r : Registry.t).

Hypothesis users_loaded : _knownUsers m = Some r.
Hypothesis keys_unique : NoDup (Registry.keys r).
Hypothesis goal_known : 0 <= getGoalShardCount m.
Hypothesis name1_free : Registry.get name1 r = None.
Hypothesis name2_free : Registry.get name2 r = None.

Let goal := getGoalShardCount m.
Let hb := heartbeat (_config m).
Let correct := _getCurrentConfigured now goal m.
Let incorrect := _getCurrentUnconfigured now goal m.
Let newIds := _getCurrentUnboundIds goal m.
Let p := refresh_locals now name1 name2 m.

Let m2 :=
  let m1 := if bool_decide (getKnownShardCount m < goal)
            then fst (generateShardConfig name1 false m) else m in
  if bool_decide (_getMasterUser m = None)
  then fst (generateShardConfig name2 true m1) else m1.

Lemma newIds_NoDup : NoDup newIds.
Proof.
  unfold newIds, _getCurrentUnboundIds. rewrite users_loaded.
  case_bool_decide; [constructor|].
  apply remove_fold_NoDup. apply NoDup_seqZ.
Qed.

(** An unbound id is held by no worker entry configured for the goal. *)
Lemma newIds_free x k el :
  x ∈ newIds -> Registry.get k r = Some el ->
  ShardInfo.isMaster el = false -> ShardInfo.goalShardCount el = goal ->
  ShardInfo.goalShardId el <> x.
Proof.
  unfold newIds, goal, _getCurrentUnboundIds. rewrite users_loaded.
  rewrite (goal_or_default_eq m goal_known). fold goal.
  rewrite bool_decide_eq_false_2 by (unfold goal; lia).
  rewrite (unbound_fold goal (Registry.values r) (seqZ 0 goal) (NoDup_seqZ 0 goal)).
  intros [_ Hno] Hget Hm Hc Hid. apply Hno. exists el. split; [|auto].
  unfold Registry.values. apply get_Some_elem in Hget.
  apply (list_elem_of_fmap_2 snd _ _ Hget).
Qed.

Lemma incorrect_NoDup : NoDup incorrect.
Proof.
  unfold incorrect, _getCurrentUnconfigured. rewrite users_loaded.
  apply filter_keys_NoDup. exact keys_unique.
Qed.

Lemma master_entry k :
  _getMasterUser m = Some k ->
  exists el, Registry.get k r = Some el /\ ShardInfo.isMaster el = true.
Proof.
  unfold _getMasterUser. rewrite (users_eq m r users_loaded).
  destruct (List.find _ r) as [[k' el']|] eqn:Hf; [|discriminate].
  simpl. intros H. injection H as ->.
  apply find_some in Hf as [Hin Hmas]. simpl in Hmas.
  apply list_elem_of_In in Hin. apply elem_get in Hin; [|exact keys_unique].
  eauto.
Qed.

Lemma spare_not_master k : k ∈ incorrect -> _getMasterUser m <> Some k.
Proof.
  intros Hk Hm. apply master_entry in Hm as (el & Hget & Hmas).
  apply (incorrect_iff now m r users_loaded keys_unique goal_known) in Hk
    as (el' & Hget' & Hu).
  rewrite Hget in Hget'. injection Hget' as <-.
  unfold is_unconfigured in Hu. rewrite Hmas in Hu. discriminate.
Qed.

Lemma configured_fields el :
  is_configured now goal hb el = true ->
  ShardInfo.isMaster el = false /\ ShardInfo.goalShardCount el = goal.
Proof.
  unfold is_configured. intros H.
  apply andb_true_iff in H as [H _]. apply andb_true_iff in H as [Hm Hc].
  apply negb_true_iff in Hm. apply bool_decide_eq_true in Hc. auto.
Qed.

Lemma shutdown_not_configured el :
  is_configured now goal hb (shutdown now el) = false.
Proof.
  unfold is_configured, shutdown. simpl.
  rewrite (bool_decide_eq_false_2 (-1 = goal)) by (unfold goal; lia).
  rewrite andb_false_r. reflexivity.
Qed.

Lemma p_eq :
  p = refresh_assign now goal correct incorrect newIds (_getMasterUser m) m2.
Proof. reflexivity. Qed.

(** A key the loop does not visit comes out of it as it went in. *)
Lemma looped_other k el :
  k ∉ correct -> Registry.get k r = Some el ->
  Registry.get k
    (p_users (refresh_loop now (heartbeat (_config m2))
                (sort (by_desc (bootTimeOf (users m2))) correct) (users m2)))
  = Some el.
Proof.
  intros Hk Hget. unfold refresh_loop. rewrite loop_get_other.
  - simpl. apply (minted_get now name1 name2 m r users_loaded name1_free name2_free).
    exact Hget.
  - rewrite sort_perm. exact Hk.
Qed.

(** The spare at index [i] leaves the pass with the unbound id at index
    [i], or as it was when the ids have run out. *)
Lemma pass_spare i k el :
  incorrect !! i = Some k -> Registry.get k r = Some el ->
  Registry.get k (p_users p)
  = Some (match newIds !! i with
          | Some x => assigned now goal x el
          | None => el
          end).
Proof.
  intros Hi Hget.
  assert (Hk : k ∈ incorrect) by (apply list_elem_of_lookup; eauto).
  rewrite p_eq, refresh_assign_get by (apply spare_not_master; exact Hk).
  rewrite (assign_fold_lookup now goal newIds _ incorrect _ i k incorrect_NoDup Hi).
  rewrite (looped_other k el); [destruct (newIds !! i); reflexivity| |exact Hget].
  intros Hc. apply (correct_not_spare now m r users_loaded keys_unique goal_known) in Hc.
  contradiction.
Qed.

(** An entry that is neither correct, nor spare, nor the master leaves the
    pass as it was. *)
Lemma pass_bystander k el :
  k ∉ correct -> k ∉ incorrect -> _getMasterUser m <> Some k ->
  Registry.get k r = Some el ->
  Registry.get k (p_users p) = Some el.
Proof.
  intros Hc Hi Hm Hget.
  rewrite p_eq, refresh_assign_get by exact Hm.
  rewrite assign_fold_get_other by exact Hi.
  apply (looped_other k el); assumption.
Qed.

(** The entries found in the registry that are configured for the goal
    after the pass: those the loop let stand, unchanged, and the spares
    that were handed an unbound id. *)
Lemma pass_configured k el el' :
  Registry.get k r = Some el -> Registry.get k (p_users p) = Some el' ->
  is_configured now goal hb el' = true ->
  (k ∈ correct /\ el' = el /\ is_stale now hb el = false /\ retained k el p)
  \/ (exists i x, incorrect !! i = Some k /\ newIds !! i = Some x
                  /\ el' = assigned now goal x el).
Proof.
  intros Hget Hget' Hcf.
  destruct (decide (k ∈ correct)) as [Hc|Hc].
  - left. split; [exact Hc|].
    destruct (is_stale now hb el) eqn:Hst.
    + destruct (pass_demotes_stale now name1 name2 m r users_loaded keys_unique
                  goal_known name1_free name2_free k el Hc Hget Hst) as (Hd & _).
      fold p in Hd. rewrite Hget' in Hd. injection Hd as ->.
      rewrite shutdown_not_configured in Hcf. discriminate.
    + destruct (pass_keeps_one now name1 name2 m r users_loaded keys_unique
                  goal_known name1_free name2_free (ShardInfo.goalShardId el))
        as (k0 & el0 & Hk0 & Hget0 & _ & _ & Hret & Hall).
      { exists k, el. auto. }
      fold p in Hret, Hall.
      destruct (decide (k = k0)) as [->|Hne].
      * rewrite Hget in Hget0. injection Hget0 as <-.
        destruct Hret as [Hr0 Hin0]. rewrite Hget' in Hr0. injection Hr0 as ->.
        repeat split; assumption.
      * destruct (Hall k el Hc Hget Hst eq_refl) as [_ Hdem].
        destruct (Hdem Hne) as (Hd & _). rewrite Hget' in Hd. injection Hd as ->.
        rewrite shutdown_not_configured in Hcf. discriminate.
  - destruct (decide (k ∈ incorrect)) as [Hi|Hi].
    + right. apply list_elem_of_lookup in Hi as [i Hi].
      rewrite (pass_spare i k el Hi Hget) in Hget'.
      destruct (newIds !! i) as [x|] eqn:Hx; injection Hget' as <-; [eauto|].
      exfalso. apply Hc.
      apply (correct_iff now m r users_loaded keys_unique goal_known). eauto.
    + exfalso. destruct (decide (_getMasterUser m = Some k)) as [Hm|Hm].
      * destruct (master_entry k Hm) as (elm & Hgm & Hmas).
        rewrite Hget in Hgm. injection Hgm as <-.
        destruct (refresh_assign_master now goal correct incorrect newIds m2 k el
                    Hc Hi) as (el'' & Hg'' & Hmas''); [|exact Hmas|].
        { apply (minted_get now name1 name2 m r users_loaded name1_free name2_free).
          exact Hget. }
        rewrite p_eq, Hm, Hg'' in Hget'. injection Hget' as <-.
        apply configured_fields in Hcf as [Hcf _]. congruence.
      * rewrite (pass_bystander k el Hc Hi Hm Hget) in Hget'. injection Hget' as <-.
        apply Hc. apply (correct_iff now m r users_loaded keys_unique goal_known).
        eauto.
Qed.

(** After a pass no two of the entries it found in the registry are
    configured for the goal with the same goal id: every shard id has at
    most one live holder. *)
Theorem pass_leaves_one_holder_per_id updateId k1 k2 e1 e2 e1' e2' :
  let m' := fst (_refreshShardStatus updateId now name1 name2 m) in
  Registry.get k1 r = Some e1 -> Registry.get k2 r = Some e2 ->
  Registry.get k1 (users m') = Some e1' -> Registry.get k2 (users m') = Some e2' ->
  is_configured now goal hb e1' = true -> is_configured now goal hb e2' = true ->
  ShardInfo.goalShardId e1' = ShardInfo.goalShardId e2' ->
  k1 = k2.
Proof.
  intros m' Hg1 Hg2 Hg1' Hg2' Hc1 Hc2 Hid. unfold m' in Hg1', Hg2'.
  rewrite (refresh_users now name1 name2 m r users_loaded goal_known updateId)
    in Hg1', Hg2'.
  fold p in Hg1', Hg2'.
  destruct (pass_configured k1 e1 e1' Hg1 Hg1' Hc1)
    as [(Hk1 & -> & Hst1 & Hret1)|(i & x & Hi & Hx & ->)];
    destruct (pass_configured k2 e2 e2' Hg2 Hg2' Hc2)
      as [(Hk2 & -> & Hst2 & Hret2)|(j & y & Hj & Hy & ->)].
  - destruct (pass_keeps_one now name1 name2 m r users_loaded keys_unique
                goal_known name1_free name2_free (ShardInfo.goalShardId e1))
      as (k0 & el0 & _ & _ & _ & _ & _ & Hall).
    { exists k1, e1. auto. }
    fold p in Hall.
    destruct (decide (k1 = k0)) as [->|Hne1]; destruct (decide (k2 = k0)) as [->|Hne2];
      try reflexivity; exfalso.
    + destruct (Hall k2 e2 Hk2 Hg2 Hst2 (eq_sym Hid)) as [_ Hdem].
      destruct (Hdem Hne2) as (_ & _ & Hnc). apply Hnc. apply Hret2.
    + destruct (Hall k1 e1 Hk1 Hg1 Hst1 eq_refl) as [_ Hdem].
      destruct (Hdem Hne1) as (_ & _ & Hnc). apply Hnc. apply Hret1.
    + destruct (Hall k1 e1 Hk1 Hg1 Hst1 eq_refl) as [_ Hdem].
      destruct (Hdem Hne1) as (_ & _ & Hnc). apply Hnc. apply Hret1.
  - exfalso. simpl in Hid.
    apply configured_fields in Hc1 as [Hm1 Hcount1].
    apply (newIds_free y k1 e1); try assumption.
    apply list_elem_of_lookup. eauto.
  - exfalso. simpl in Hid.
    apply configured_fields in Hc2 as [Hm2 Hcount2].
    apply (newIds_free x k2 e2); try assumption; [|congruence].
    apply list_elem_of_lookup. eauto.
  - simpl in Hid. subst y.
    assert (i = j) by (apply (NoDup_lookup newIds i j x newIds_NoDup); assumption).
    subst j. congruence.
Qed.

(** [newIds.forEach] in a pass: the spare at index [i] of
    [_getCurrentUnconfigured] is given the unbound id at index [i], the goal
    count and the time of the pass as its [bootTime], every other field
    staying as it was; the spares past the last unbound id stay as they
    were. *)
Theorem pass_hands_unbound_ids_to_spares updateId i k el :
  let m' := fst (_refreshShardStatus updateId now name1 name2 m) in
  incorrect !! i = Some k -> Registry.get k r = Some el ->
  (forall x, newIds !! i = Some x ->
     Registry.get k (users m') = Some (assigned now goal x el)
     /\ ShardInfo.goalShardId (assigned now goal x el) = x
     /\ ShardInfo.goalShardCount (assigned now goal x el) = goal
     /\ ShardInfo.bootTime (assigned now goal x el) = now
     /\ 0 <= x < goal)
  /\ (newIds !! i = None -> Registry.get k (users m') = Some el).
Proof.
  intros m' Hi Hget. unfold m'.
  rewrite (refresh_users now name1 name2 m r users_loaded goal_known updateId).
  fold p. rewrite (pass_spare i k el Hi Hget). split.
  - intros x Hx. rewrite Hx. repeat split.
    + assert (Hin : x ∈ newIds) by (apply list_elem_of_lookup; eauto).
      revert Hin. unfold newIds, goal, _getCurrentUnboundIds. rewrite users_loaded.
      rewrite (goal_or_default_eq m goal_known).
      rewrite bool_decide_eq_false_2 by lia.
      rewrite (unbound_fold _ (Registry.values r) _ (NoDup_seqZ 0 _)).
      rewrite elem_of_seqZ. lia.
    + assert (Hin : x ∈ newIds) by (apply list_elem_of_lookup; eauto).
      revert Hin. unfold newIds, goal, _getCurrentUnboundIds. rewrite users_loaded.
      rewrite (goal_or_default_eq m goal_known).
      rewrite bool_decide_eq_false_2 by lia.
      rewrite (unbound_fold _ (Registry.values r) _ (NoDup_seqZ 0 _)).
      rewrite elem_of_seqZ. unfold goal. lia.
  - intros Hx. rewrite Hx. reflexivity.
Qed.

(** A worker entry that is dead on both clocks ([lastHeartbeat] and
    [lastSeen] at least [assumeDeadAfter] old) goes through a pass
    untouched, whatever it holds. *)
Theorem pass_leaves_dead_entry updateId k el :
  let m' := fst (_refreshShardStatus updateId now name1 name2 m) in
  Registry.get k r = Some el -> ShardInfo.isMaster el = false ->
  assumeDeadAfter hb <= now - ShardInfo.lastHeartbeat el ->
  assumeDeadAfter hb <= now - ShardInfo.lastSeen el ->
  Registry.get k (users m') = Some el.
Proof.
  intros m' Hget Hmas Hhb Hseen. unfold m'.
  rewrite (refresh_users now name1 name2 m r users_loaded goal_known updateId).
  fold p. apply pass_bystander; [| | |exact Hget].
  - intros Hc. apply (correct_iff now m r users_loaded keys_unique goal_known) in Hc
      as (el' & Hget' & Hcf).
    rewrite Hget in Hget'. injection Hget' as <-.
    unfold is_configured in Hcf. apply andb_true_iff in Hcf as [_ Hcf].
    apply bool_decide_eq_true in Hcf. fold hb in Hcf. lia.
  - intros Hi. apply (incorrect_iff now m r users_loaded keys_unique goal_known) in Hi
      as (el' & Hget' & Hu).
    rewrite Hget in Hget'. injection Hget' as <-.
    unfold is_unconfigured in Hu. apply andb_true_iff in Hu as [_ Hu].
    apply bool_decide_eq_true in Hu. fold hb in Hu. lia.
  - intros Hm. apply master_entry in Hm as (el' & Hget' & Hmas').
    rewrite Hget in Hget'. injection Hget' as <-. congruence.
Qed.

End PassAssignments.

Lemma pass_leaves_one_holder_per_id_witness : "ccc" = "ccc".
Proof.
  apply (pass_leaves_one_holder_per_id Sample.now "xxx" "yyy"
           (Sample.master Sample.withSpares) Sample.withSpares)
    with (updateId := Some 0) (e1 := Sample.spare "ccc") (e2 := Sample.spare "ccc")
         (e1' := assigned Sample.now 2 1 (Sample.spare "ccc"))
         (e2' := assigned Sample.now 2 1 (Sample.spare "ccc"));
    first [decide_by_compute | vm_compute; reflexivity | vm_compute; discriminate].
Defined.

Lemma pass_hands_unbound_ids_to_spares_witness :
  let m := Sample.master Sample.withSpares in
  let m' := fst (_refreshShardStatus (Some 0) Sample.now "xxx" "yyy" m) in
  let el := Sample.spare "ccc" in
  (forall x, _getCurrentUnboundIds (getGoalShardCount m) m !! 0%nat = Some x ->
     Registry.get "ccc" (users m') = Some (assigned Sample.now (getGoalShardCount m) x el)
     /\ ShardInfo.goalShardId (assigned Sample.now (getGoalShardCount m) x el) = x
     /\ ShardInfo.goalShardCount (assigned Sample.now (getGoalShardCount m) x el)
        = getGoalShardCount m
     /\ ShardInfo.bootTime (assigned Sample.now (getGoalShardCount m) x el) = Sample.now
     /\ 0 <= x < getGoalShardCount m)
  /\ (_getCurrentUnboundIds (getGoalShardCount m) m !! 0%nat = None ->
      Registry.get "ccc" (users m') = Some el).
Proof.
  apply (pass_hands_unbound_ids_to_spares Sample.now "xxx" "yyy"
           (Sample.master Sample.withSpares) Sample.withSpares)
    with (updateId := Some 0) (i := 0%nat) (k := "ccc") (el := Sample.spare "ccc");
    first [decide_by_compute | vm_compute; reflexivity | vm_compute; discriminate].
Defined.

(** In the sample the one unbound id is 1: it goes to the first spare, and
    the second stays without an assignment. *)
Lemma pass_hands_unbound_ids_sample :
  let m := Sample.master Sample.withSpares in
  let m' := fst (_refreshShardStatus (Some 0) Sample.now "xxx" "yyy" m) in
  _getCurrentUnboundIds (getGoalShardCount m) m = [1]
  /\ _getCurrentUnconfigured Sample.now (getGoalShardCount m) m = ["ccc"; "ddd"]
  /\ pair_of <$> Registry.get "ccc" (users m') = Some (1, 2)
  /\ pair_of <$> Registry.get "ddd" (users m') = Some (-1, -1).
Proof. vm_compute. repeat split. Qed.

Lemma pass_leaves_dead_entry_witness :
  let m := Sample.master Sample.oneDead in
  let m' := fst (_refreshShardStatus (Some 0) Sample.now "xxx" "yyy" m) in
  Registry.get "aaa" (users m')
  = Some (Sample.worker "aaa" 0 2 500 (Sample.now - 130000)).
Proof.
  apply (pass_leaves_dead_entry Sample.now "xxx" "yyy"
           (Sample.master Sample.oneDead) Sample.oneDead)
    with (updateId := Some 0) (k := "aaa");
    first [decide_by_compute | vm_compute; reflexivity | vm_compute; discriminate].
Defined.

(** ** What a pass sends *)

Section PassEffects.

(** [_sendHeartbeatRequest] emits at most one [update], to the socket of
    the entry it was given, with the goal of that entry. *)
Lemma sendHeartbeatRequest_effects updating m e :
  e ∈ _sendHeartbeatRequest updating m ->
  exists k el s,
    updating = Some k /\ Registry.get k (users m) = Some el
    /\ ShardInfo.id el <> ""
    /\ (if ShardInfo.isMaster el then _masterShardSocket m
        else socket_of (ShardInfo.id el) (_shardSockets m)) = Some s
    /\ e = EmitUpdate s (request el).
Proof.
  unfold _sendHeartbeatRequest. destruct updating as [k|]; [|intros H; inversion H].
  destruct (Registry.get k (users m)) as [el|] eqn:Hget; [|intros H; inversion H].
  case_bool_decide as Hid; [intros H; inversion H|].
  destruct (if ShardInfo.isMaster el then _ else _) as [s|] eqn:Hs;
    [|intros H; inversion H].
  intros H. apply list_elem_of_singleton in H. subst e.
  exists k, el, s. auto.
Qed.

Lemma shutdown_requests_effects configuring m e :
  e ∈ shutdown_requests configuring m ->
  exists s req, e = EmitUpdate s req /\ req_id req < 0.
Proof.
  unfold shutdown_requests. intros H.
  apply list_elem_of_In, in_flat_map in H as (k & _ & H).
  apply list_elem_of_In in H.
  destruct (Registry.get k (users m)) as [el|] eqn:Hget; [|inversion H].
  case_bool_decide as Hid; [inversion H|].
  apply sendHeartbeatRequest_effects in H as (k' & el' & s & Hk & Hget' & _ & _ & ->).
  injection Hk as <-. rewrite Hget in Hget'. injection Hget' as <-.
  exists s, (request el). split; [reflexivity|]. simpl. lia.
Qed.

Lemma shutdown_requests_sent configuring m k el s :
  k ∈ configuring -> Registry.get k (users m) = Some el ->
  ShardInfo.goalShardId el < 0 -> ShardInfo.id el <> "" ->
  ShardInfo.isMaster el = false ->
  socket_of (ShardInfo.id el) (_shardSockets m) = Some s ->
  EmitUpdate s (request el) ∈ shutdown_requests configuring m.
Proof.
  intros Hk Hget Hneg Hid Hmas Hs. unfold shutdown_requests.
  apply list_elem_of_In, in_flat_map. exists k.
  split; [apply list_elem_of_In; exact Hk|].
  rewrite Hget. rewrite bool_decide_eq_false_2 by lia.
  unfold _sendHeartbeatRequest. rewrite Hget.
  rewrite bool_decide_eq_false_2 by exact Hid. rewrite Hmas, Hs. left. reflexivity.
Qed.

(** Every effect of the cadence is an [update]. *)
Lemma cadence_effects updateId now goal master configuring m e :
  e ∈ snd (heartbeat_cadence updateId now goal master configuring m) ->
  exists s req, e = EmitUpdate s req.
Proof.
  assert (Hsend : forall updating m', e ∈ _sendHeartbeatRequest updating m' ->
            exists s req, e = EmitUpdate s req).
  { intros updating m' H.
    apply sendHeartbeatRequest_effects in H as (_ & el & s & _ & _ & _ & _ & ->).
    eauto. }
  assert (Hshut : forall m', e ∈ shutdown_requests configuring m' ->
            exists s req, e = EmitUpdate s req).
  { intros m' H. apply shutdown_requests_effects in H as (s & req & -> & _). eauto. }
  unfold heartbeat_cadence.
  case_bool_decide as Hdue; [|intros Hin; inversion Hin].
  case_bool_decide as Hpull; [destruct (disperse _)|]; cbn [snd]; intros Hin;
    try (apply elem_of_app in Hin as [Hin|Hin]); eauto.
  destruct updateId as [updateId|]; [|inversion Hin].
  case_bool_decide; eauto.
Qed.

End PassEffects.

Section PassSends.

Variables (now : Z) (name1 name2 : string) (m : ShardingMaster.t) (r : Registry.t).

Hypothesis users_loaded : _knownUsers m = Some r.
Hypothesis goal_known : 0 <= getGoalShardCount m.

Let goal := getGoalShardCount m.
Let p := refresh_locals now name1 name2 m.

Let m2 :=
  let m1 := if bool_decide (getKnownShardCount m < goal)
            then fst (generateShardConfig name1 false m) else m in
  if bool_decide (_getMasterUser m = None)
  then fst (generateShardConfig name2 true m1) else m1.

(** The state the cadence runs in. *)
Let m3 := set_knownUsers (Some (p_users p)) m2.

(** The effects of a pass that runs: the requests for key pairs, then what
    the cadence sends. *)
Lemma refresh_effects updateId :
  snd (_refreshShardStatus updateId now name1 name2 m)
  = (if bool_decide (getKnownShardCount m < goal)
     then [GenerateKeyPair name1 false] else [])
    ++ (if bool_decide (_getMasterUser m = None)
        then [GenerateKeyPair name2 true] else [])
    ++ snd (heartbeat_cadence updateId now goal (_getMasterUser m)
                              (p_configuring p) m3).
Proof.
  unfold _refreshShardStatus. rewrite users_loaded. fold goal.
  rewrite bool_decide_eq_false_2 by (unfold goal; lia).
  unfold m3, p, m2, refresh_locals. fold goal.
  destruct (bool_decide (getKnownShardCount m < goal));
    destruct (bool_decide (_getMasterUser m = None));
    unfold generateShardConfig; reflexivity.
Qed.

Lemma m3_sockets :
  _shardSockets m3 = _shardSockets m /\ _nextHeartbeatTime m3 = _nextHeartbeatTime m
  /\ users m3 = p_users p.
Proof.
  unfold m3, m2. repeat case_bool_decide; repeat split.
Qed.

(** A pass asks for at most one worker identity and at most one master
    identity, however many are missing: one key pair for a worker when
    fewer workers are known than the goal, one for a master when the
    registry holds no master entry, and no other. *)
Theorem pass_asks_for_one_key_pair_each updateId :
  List.filter is_keygen (snd (_refreshShardStatus updateId now name1 name2 m))
  = (if bool_decide (getKnownShardCount m < getGoalShardCount m)
     then [GenerateKeyPair name1 false] else [])
    ++ (if bool_decide (_getMasterUser m = None)
        then [GenerateKeyPair name2 true] else []).
Proof.
  rewrite refresh_effects. fold goal. rewrite !List.filter_app.
  assert (Hnone : List.filter is_keygen
                    (snd (heartbeat_cadence updateId now goal (_getMasterUser m)
                                            (p_configuring p) m3)) = []).
  { destruct (List.filter is_keygen _) as [|e l] eqn:Hf; [reflexivity|].
    assert (Hin : e ∈ List.filter is_keygen
                      (snd (heartbeat_cadence updateId now goal (_getMasterUser m)
                                              (p_configuring p) m3)))
      by (rewrite Hf; left).
    apply elem_of_List_filter in Hin as [Hin Hk].
    apply cadence_effects in Hin as (s & req & ->). discriminate. }
  rewrite Hnone, app_nil_r.
  destruct (bool_decide (getKnownShardCount m < goal));
    destruct (bool_decide (_getMasterUser m = None)); reflexivity.
Qed.

End PassSends.

(** With a goal of two shards, one worker known and no master entry, the
    pass asks for one worker key pair and one master key pair. *)
Lemma pass_asks_for_one_key_pair_each_witness :
  let m := Sample.master [("aaa", Sample.worker "aaa" 0 2 400 (Sample.now - 1000))] in
  List.filter is_keygen (snd (_refreshShardStatus (Some 0) Sample.now "xxx" "yyy" m))
  = [GenerateKeyPair "xxx" false; GenerateKeyPair "yyy" true].
Proof.
  apply (pass_asks_for_one_key_pair_each Sample.now "xxx" "yyy"
           (Sample.master [("aaa", Sample.worker "aaa" 0 2 400 (Sample.now - 1000))])
           [("aaa", Sample.worker "aaa" 0 2 400 (Sample.now - 1000))]
           eq_refl ltac:(vm_compute; discriminate) (Some 0)).
Defined.

Section Cadence.

Lemma getMasterUser_entry m k :
  NoDup (Registry.keys (users m)) -> _getMasterUser m = Some k ->
  exists el, Registry.get k (users m) = Some el /\ ShardInfo.isMaster el = true.
Proof.
  intros Hnd. unfold _getMasterUser.
  destruct (List.find _ (users m)) as [[k' el']|] eqn:Hf; [|discriminate].
  simpl. intros H. injection H as ->.
  apply find_some in Hf as [Hin Hmas]. simpl in Hmas.
  apply list_elem_of_In in Hin. apply elem_get in Hin; [|exact Hnd].
  eauto.
Qed.

(** In the pull style without [disperse], the cadence of a pass sends no
    heartbeat request to a worker that is to keep running: every [update]
    it emits is a shutdown request (negative goal id), or the request to
    the master entry on the master's socket. *)
Theorem undispersed_pull_sends_workers_no_heartbeat
    updateId now goal master configuring m s req :
  updateStyle (heartbeat (_config m)) = "pull" ->
  disperse (heartbeat (_config m)) = false ->
  NoDup (Registry.keys (users m)) ->
  EmitUpdate s req ∈ snd (heartbeat_cadence updateId now goal master configuring m) ->
  req_id req < 0 \/ (req_master req = true /\ _masterShardSocket m = Some s).
Proof.
  intros Hpull Hdisp Hnd. unfold heartbeat_cadence.
  case_bool_decide as Hdue; [|intros Hin; inversion Hin].
  rewrite (bool_decide_eq_true_2 _ Hpull), Hdisp. cbn [snd]. intros Hin.
  apply elem_of_app in Hin as [Hin|Hin].
  - left. apply shutdown_requests_effects in Hin as (s' & req' & Heq & Hneg).
    injection Heq as <- <-. exact Hneg.
  - right.
    apply sendHeartbeatRequest_effects in Hin as (k & el & s' & Hk & Hget & _ & Hs & Heq).
    injection Heq as <- ->.
    match type of Hk with _getMasterUser ?m' = _ =>
      assert (Hu : users m' = users m) by (case_bool_decide; reflexivity);
      assert (Hms : _masterShardSocket m' = _masterShardSocket m)
        by (case_bool_decide; reflexivity)
    end.
    rewrite Hu in Hget. rewrite Hms in Hs.
    unfold _getMasterUser in Hk. rewrite Hu in Hk. fold (_getMasterUser m) in Hk.
    destruct (getMasterUser_entry m k Hnd Hk) as (el' & Hget' & Hmas).
    rewrite Hget in Hget'. injection Hget' as <-.
    rewrite Hmas in Hs. split; [exact Hmas | exact Hs].
Qed.

End Cadence.

Lemma undispersed_pull_sends_workers_no_heartbeat_witness :
  let m := Sample.masterConnected in
  req_id (request Sample.masterEntry) < 0
  \/ (req_master (request Sample.masterEntry) = true
      /\ _masterShardSocket m = Some "s1").
Proof.
  apply (undispersed_pull_sends_workers_no_heartbeat (Some 0) Sample.now 2
           (Some "mas") [] Sample.masterConnected "s1" (request Sample.masterEntry)).
  - reflexivity.
  - reflexivity.
  - decide_by_compute.
  - vm_compute. left.
Defined.

Section PassDirectives.

Variables (now : Z) (name1 name2 : string) (m : ShardingMaster.t) (r : Registry.t).

Hypothesis users_loaded : _knownUsers m = Some r.
Hypothesis keys_unique : NoDup (Registry.keys r).
Hypothesis goal_known : 0 <= getGoalShardCount m.
Hypothesis name1_free : Registry.get name1 r = None.
Hypothesis name2_free : Registry.get name2 r = None.

(** A pass that runs when the heartbeat is due sends the shutdown directive
    it has just written: a correct entry inside the reboot window whose
    worker is connected is sent an [update] with goal id and count -1 on
    that worker's socket. *)
Theorem pass_sends_shutdown_to_stale_worker updateId k el s :
  k ∈ _getCurrentConfigured now (getGoalShardCount m) m ->
  Registry.get k r = Some el ->
  is_stale now (heartbeat (_config m)) el = true ->
  _nextHeartbeatTime m <= now ->
  ShardInfo.id el <> "" ->
  socket_of (ShardInfo.id el) (_shardSockets m) = Some s ->
  EmitUpdate s (mkUpdateRequest (-1) (-1) false)
    ∈ snd (_refreshShardStatus updateId now name1 name2 m).
Proof.
  intros Hk Hget Hst Hdue Hid Hs.
  destruct (pass_demotes_stale now name1 name2 m r users_loaded keys_unique
              goal_known name1_free name2_free k el Hk Hget Hst) as (Hd & Hcf & _).
  assert (Hmas : ShardInfo.isMaster el = false).
  { apply (correct_iff now m r users_loaded keys_unique goal_known) in Hk
      as (el' & Hget' & Hc).
    rewrite Hget in Hget'. injection Hget' as <-.
    unfold is_configured in Hc. destruct (ShardInfo.isMaster el); [discriminate|].
    reflexivity. }
  rewrite (refresh_effects now name1 name2 m r users_loaded goal_known updateId).
  apply elem_of_app. right. apply elem_of_app. right.
  match goal with
  | |- _ ∈ snd (heartbeat_cadence _ _ _ _ ?cfg ?m3) =>
      destruct (m3_sockets now name1 name2 m) as (Hss & Hnext & Hu);
      change (_shardSockets m3 = _shardSockets m) in Hss;
      change (_nextHeartbeatTime m3 = _nextHeartbeatTime m) in Hnext;
      change (users m3 = p_users (refresh_locals now name1 name2 m)) in Hu;
      assert (Hsent : EmitUpdate s (request (shutdown now el))
                        ∈ shutdown_requests cfg m3)
  end.
  { apply (shutdown_requests_sent _ _ k).
    - exact Hcf.
    - rewrite Hu. exact Hd.
    - simpl. lia.
    - exact Hid.
    - exact Hmas.
    - rewrite Hss. exact Hs. }
  change (request (shutdown now el)) with
    (mkUpdateRequest (-1) (-1) (ShardInfo.isMaster el)) in Hsent.
  rewrite Hmas in Hsent.
  unfold heartbeat_cadence.
  rewrite (bool_decide_eq_true_2 (_nextHeartbeatTime _ <= now))
    by (eapply Z.le_trans; [|exact Hdue]; apply Z.eq_le_incl; exact Hnext).
  clear Hss Hnext Hu.
  destruct (bool_decide (updateStyle _ = "pull")); [destruct (disperse _)|];
    cbn [snd]; try (apply elem_of_app; left); exact Hsent.
Qed.

End PassDirectives.

Lemma pass_sends_shutdown_to_stale_worker_witness :
  EmitUpdate "s2" (mkUpdateRequest (-1) (-1) false)
    ∈ snd (_refreshShardStatus (Some 0) Sample.now "xxx" "yyy" Sample.staleConnected).
Proof.
  apply (pass_sends_shutdown_to_stale_worker Sample.now "xxx" "yyy"
           Sample.staleConnected Sample.silentOnTheDot)
    with (k := "bbb") (el := Sample.worker "bbb" 1 2 500 (Sample.now - 30001));
    first [decide_by_compute | vm_compute; reflexivity | vm_compute; discriminate
          | discriminate].
Defined.

(** ** The handshake: what acceptance means *)

Section PassFrame.

(** A pass leaves the sockets, the listeners, the keys and the
    configuration alone. *)
Lemma cadence_frame updateId now goal master configuring m :
  let m' := fst (heartbeat_cadence updateId now goal master configuring m) in
  _shardSockets m' = _shardSockets m /\ _masterShardSocket m' = _masterShardSocket m
  /\ _listeners m' = _listeners m /\ _sockets m' = _sockets m
  /\ _socketUserId m' = _socketUserId m /\ _config m' = _config m
  /\ _ipConnectHistory m' = _ipConnectHistory m.
Proof.
  unfold heartbeat_cadence.
  repeat case_bool_decide; try destruct (disperse _); repeat split.
Qed.

Lemma refresh_frame updateId now name1 name2 m :
  let m' := fst (_refreshShardStatus updateId now name1 name2 m) in
  _shardSockets m' = _shardSockets m /\ _masterShardSocket m' = _masterShardSocket m
  /\ _listeners m' = _listeners m /\ _sockets m' = _sockets m
  /\ _socketUserId m' = _socketUserId m /\ _config m' = _config m
  /\ _ipConnectHistory m' = _ipConnectHistory m.
Proof.
  unfold _refreshShardStatus.
  destruct (_knownUsers m); [|repeat split].
  case_bool_decide; [repeat split|].
  destruct (bool_decide (getKnownShardCount m < getGoalShardCount m));
    destruct (bool_decide (_getMasterUser m = None));
    unfold generateShardConfig; cbn [fst];
    match goal with
    | |- context [heartbeat_cadence ?u ?n ?g ?ma ?c ?m3] =>
        destruct (cadence_frame u n g ma c m3) as (H1 & H2 & H3 & H4 & H5 & H6 & H7);
        rewrite H1, H2, H3, H4, H5, H6, H7
    end; repeat split.
Qed.

Lemma cadence_detached updateId now goal master configuring m :
  _detached (fst (heartbeat_cadence updateId now goal master configuring m))
  = _detached m.
Proof.
  unfold heartbeat_cadence.
  repeat case_bool_decide; try destruct (disperse _); reflexivity.
Qed.

Lemma refresh_detached updateId now name1 name2 m :
  _detached (fst (_refreshShardStatus updateId now name1 name2 m)) = _detached m.
Proof.
  unfold _refreshShardStatus.
  destruct (_knownUsers m); [|reflexivity].
  case_bool_decide; [reflexivity|].
  destruct (bool_decide (getKnownShardCount m < getGoalShardCount m));
    destruct (bool_decide (_getMasterUser m = None));
    unfold generateShardConfig; cbn [fst];
    rewrite cadence_detached; reflexivity.
Qed.

Lemma socket_of_snoc k s (l : list (string * SocketId)) :
  socket_of k l = None -> socket_of k (l ++ [(k, s)]) = Some s.
Proof.
  induction l as [|[k' s'] l IH]; simpl.
  - intros _. rewrite decide_True; reflexivity.
  - destruct (decide (k = k')); [discriminate | exact IH].
Qed.

Lemma socket_of_snoc_other k k' s (l : list (string * SocketId)) :
  k' <> k -> socket_of k' (l ++ [(k, s)]) = socket_of k' l.
Proof.
  intros Hne. induction l as [|[k0 s0] l IH]; simpl.
  - rewrite decide_False; [reflexivity | exact Hne].
  - destruct (decide (k' = k0)); [reflexivity | exact IH].
Qed.

Lemma set_socket_fresh k s (l : list (string * SocketId)) :
  socket_of k l = None -> set_socket k s l = l ++ [(k, s)].
Proof.
  intros Hnone. unfold set_socket. rewrite Hnone.
  rewrite bool_decide_eq_false_2; [reflexivity|]. intros [x Hx]. discriminate.
Qed.

End PassFrame.

Section Acceptance.

Variable getIPName : string -> string.
Variable toNumber : string -> option Z.
Variable verify : string -> string -> string -> bool.
Variable sign : string -> string -> string.
Variable showNumber : Z -> string.

Abbreviation accept := (_socketConnection getIPName toNumber verify sign showNumber).

Lemma truthy_Some (o : option string) :
  truthy o = true <-> exists s, o = Some s /\ s <> "".
Proof.
  destruct o as [s|]; simpl.
  - rewrite negb_true_iff, bool_decide_eq_false. split.
    + intros H. eauto.
    + intros (s' & Heq & Hne). congruence.
  - split; [discriminate | intros (s & Heq & _); discriminate].
Qed.

(** Everything that holds of a connection [_socketConnection] accepts. *)
Lemma socketConnection_accepted updateId now name1 name2 socket m m' eff :
  accept updateId now name1 name2 socket m = (m', eff, Accepted) ->
  exists header userId userSig timestamp stamp r user privKey key,
    authorization socket = Some header
    /\ split_on "," header !! 0%nat = Some userId
    /\ split_on "," header !! 1%nat = Some userSig
    /\ split_on "," header !! 2%nat = Some timestamp
    /\ userId <> "" /\ userSig <> ""
    /\ toNumber timestamp = Some stamp /\ stamp <> 0
    /\ snd (rate_limit (_config m) now (ipName_of getIPName socket)
                       (_ipConnectHistory m)) = false
    /\ _knownUsers m = Some r /\ Registry.get userId r = Some user
    /\ socket_of userId (_shardSockets m) = None
    /\ Z.abs (stamp - now) <= tsPrecision (_config m)
    /\ _privKey m = Some privKey /\ ShardInfo.key user = Some key
    /\ verify key (userId +:+ timestamp) userSig = true
    /\ (ShardInfo.isMaster user = true -> _masterShardSocket m = None)
    /\ (exists rest,
          eff = EmitMasterVerification (socket_id socket)
                  (sign privKey ("Look at me, I'm the captain now. " +:+ showNumber now))
                  ("Look at me, I'm the captain now. " +:+ showNumber now) :: rest)
    /\ _listeners m' =
         _listeners m ++ [(socket_id socket, OnDisconnect)]
           ++ [(socket_id socket, OnStatus userId); (socket_id socket, OnBroadcastEval);
               (socket_id socket, OnRespawnAll); (socket_id socket, OnSendSQL)]
    /\ _socketUserId m' = _socketUserId m ++ [(socket_id socket, userId)]
    /\ _sockets m' = add_socket (socket_id socket) (_sockets m)
    /\ (if ShardInfo.isMaster user
        then _masterShardSocket m' = Some (socket_id socket)
             /\ _shardSockets m' = _shardSockets m
        else _shardSockets m' = _shardSockets m ++ [(userId, socket_id socket)]
             /\ _masterShardSocket m' = _masterShardSocket m).
Proof.
  unfold _socketConnection.
  destruct (rate_limit (_config m) now (ipName_of getIPName socket)
              (_ipConnectHistory m)) as [history limited] eqn:Hlimit.
  simpl.
  destruct limited; [discriminate|].
  destruct (authorization socket) as [header|] eqn:Hauth; [|discriminate].
  destruct (negb (truthy (Some header))); [discriminate|].
  simpl default.
  destruct (split_on "," header !! 0%nat) as [userId|] eqn:Hid; [|discriminate].
  destruct (split_on "," header !! 1%nat) as [userSig|] eqn:Hsig;
    [|simpl; rewrite orb_true_r; discriminate].
  destruct (split_on "," header !! 2%nat) as [timestamp|] eqn:Hts;
    [|simpl; rewrite orb_true_r; discriminate].
  simpl mbind. simpl default.
  destruct (negb (truthy (Some userId))) eqn:Htid; [discriminate|].
  destruct (negb (truthy (Some userSig))) eqn:Htsig; [discriminate|].
  apply negb_false_iff in Htid. apply truthy_Some in Htid as (x1 & Hx1 & Hidne).
  injection Hx1 as <-.
  apply negb_false_iff in Htsig. apply truthy_Some in Htsig as (x2 & Hx2 & Hsigne).
  injection Hx2 as <-.
  simpl orb.
  case_bool_decide as Hstamp; [|discriminate].
  destruct Hstamp as [Hs Hnz]. destruct Hs as [stamp Hstamp]. rewrite Hstamp in *. simpl default.
  destruct (_knownUsers m) as [r|] eqn:Hr; [|discriminate].
  destruct (Registry.get userId r) as [user|] eqn:Huser; [|discriminate].
  case_bool_decide as Hconn; [discriminate|].
  case_bool_decide as Hprec; [discriminate|].
  destruct (_privKey m) as [privKey|] eqn:Hpriv; [|discriminate].
  destruct (ShardInfo.key user) as [key|] eqn:Hkey; [|discriminate].
  destruct (verify key (userId +:+ timestamp) userSig) eqn:Hver; [|discriminate].
  simpl negb. cbv iota.
  unfold modify_users. simpl. rewrite Hr. simpl.
  assert (Hfree : socket_of userId (_shardSockets m) = None).
  { destruct (socket_of userId (_shardSockets m)) eqn:Hs; [|reflexivity].
    exfalso. apply Hconn. eauto. }
  destruct (ShardInfo.isMaster user) eqn:Hmaster; simpl.
  - case_bool_decide as Hms; [discriminate|].
    match goal with
    | |- context [_refreshShardStatus ?u ?n ?a ?b ?x] =>
        pose proof (refresh_frame u n a b x) as Hframe;
        destruct (_refreshShardStatus u n a b x) as [m3 e2]
    end.
    cbn [fst] in Hframe. destruct Hframe as (F1 & F2 & F3 & F4 & F5 & F6 & F7).
    intros H. injection H as <- <-.
    exists header, userId, userSig, timestamp, stamp, r, user, privKey, key.
    rewrite Hmaster.
    repeat match goal with |- _ /\ _ => split end;
      try first [reflexivity | assumption | lia | congruence];
      try (simpl; rewrite ?F1, ?F2, ?F3, ?F4, ?F5; reflexivity).
    + intros _. destruct (_masterShardSocket m); [|reflexivity].
      exfalso. apply Hms. eauto.
    + eauto.
    + simpl. rewrite F3. simpl. rewrite <- app_assoc. reflexivity.
  - match goal with
    | |- context [_refreshShardStatus ?u ?n ?a ?b ?x] =>
        pose proof (refresh_frame u n a b x) as Hframe;
        destruct (_refreshShardStatus u n a b x) as [m3 e2]
    end.
    cbn [fst] in Hframe. destruct Hframe as (F1 & F2 & F3 & F4 & F5 & F6 & F7).
    intros H. injection H as <- <-.
    exists header, userId, userSig, timestamp, stamp, r, user, privKey, key.
    rewrite Hmaster.
    repeat match goal with |- _ /\ _ => split end;
      try first [reflexivity | assumption | lia | congruence];
      try (simpl; rewrite ?F1, ?F2, ?F3, ?F4, ?F5; reflexivity).
    + eauto.
    + simpl. rewrite F3. simpl. rewrite <- app_assoc. reflexivity.
    + simpl. rewrite F1. simpl. apply set_socket_fresh. exact Hfree.
Qed.

(** The [status] listener of an accepted socket closes over the entry
    of the registry. *)
Lemma socketConnection_accepted_detached updateId now name1 name2 socket m m' eff :
  accept updateId now name1 name2 socket m = (m', eff, Accepted) ->
  List.find (fun d => bool_decide (fst d = socket_id socket)) (_detached m') = None.
Proof.
  assert (Hnone : forall l : list (SocketId * ShardInfo.t),
            List.find (fun d => bool_decide (fst d = socket_id socket))
              (List.filter (fun d => negb (bool_decide (fst d = socket_id socket))) l)
            = None).
  { intros l. destruct (List.find _ _) as [d|] eqn:Hf; [|reflexivity].
    apply find_some in Hf as [Hin Hd]. apply filter_In in Hin as [_ Hn].
    rewrite Hd in Hn. discriminate. }
  unfold _socketConnection.
  destruct (rate_limit (_config m) now (ipName_of getIPName socket)
              (_ipConnectHistory m)) as [history limited].
  simpl.
  destruct limited; [discriminate|].
  destruct (negb (truthy (authorization socket))); [discriminate|].
  destruct (split_on "," (default "" (authorization socket)) !! 0%nat) as [userId|];
    simpl; [|discriminate].
  destruct (_ || _); [discriminate|].
  destruct (_knownUsers m) as [r|] eqn:Hr; [|discriminate].
  destruct (Registry.get userId r) as [user|]; [|discriminate].
  destruct (bool_decide (is_Some (socket_of userId (_shardSockets m)))); [discriminate|].
  destruct (bool_decide (tsPrecision (_config m) < _)); [discriminate|].
  destruct (_privKey m) as [privKey|]; [|discriminate].
  destruct (ShardInfo.key user) as [key|]; [|discriminate].
  destruct (negb (verify _ _ _)); [discriminate|].
  unfold modify_users. simpl. rewrite Hr. simpl.
  destruct (ShardInfo.isMaster user); simpl.
  - case_bool_decide as Hms; [discriminate|].
    destruct (_refreshShardStatus _ _ _ _ _) as [m3 e2].
    intros Heq. injection Heq as <- <-. simpl. apply Hnone.
  - destruct (_refreshShardStatus _ _ _ _ _) as [m3 e2].
    intros Heq. injection Heq as <- <-. simpl. apply Hnone.
Qed.

Lemma split_on_field a rest :
  no_comma a = true -> split_on "," (a +:+ String "," rest) = a :: split_on "," rest.
Proof.
  induction a as [|c a IH]; simpl; intros Hno.
  - reflexivity.
  - apply andb_true_iff in Hno as [Hc Hno].
    apply negb_true_iff, bool_decide_eq_false in Hc.
    rewrite decide_False by exact Hc. rewrite (IH Hno). reflexivity.
Qed.

Lemma split_on_last a : no_comma a = true -> split_on "," a = [a].
Proof.
  induction a as [|c a IH]; simpl; intros Hno; [reflexivity|].
  apply andb_true_iff in Hno as [Hc Hno].
  apply negb_true_iff, bool_decide_eq_false in Hc.
  rewrite decide_False by exact Hc. rewrite (IH Hno). reflexivity.
Qed.

Lemma find_status_listener sid userId (l rest : list (SocketId * Listener)) :
  (forall u, (sid, OnStatus u) ∉ l) ->
  List.find (fun sl => bool_decide (fst sl = sid)
                       && match snd sl with OnStatus _ => true | _ => false end)
            (l ++ (sid, OnDisconnect) :: (sid, OnStatus userId) :: rest)
  = Some (sid, OnStatus userId).
Proof.
  intros Hfresh. induction l as [|[s k] l IH]; simpl.
  - rewrite bool_decide_eq_true_2 by reflexivity. reflexivity.
  - destruct (bool_decide (s = sid) && _) eqn:Hhit.
    + exfalso. apply andb_true_iff in Hhit as [Hs Hk].
      apply bool_decide_eq_true in Hs. subst s.
      destruct k; try discriminate.
      eapply Hfresh. left.
    + apply IH. intros u Hin. apply (Hfresh u). right. exact Hin.
Qed.

Lemma delete_socket_absent k (l : list (string * SocketId)) :
  socket_of k l = None -> delete_socket k l = l.
Proof.
  induction l as [|[k' s] l IH]; simpl; [reflexivity|].
  destruct (decide (k = k')); [discriminate|].
  intros H. rewrite (IH H). reflexivity.
Qed.

Lemma delete_socket_snoc k s (l : list (string * SocketId)) :
  socket_of k l = None -> delete_socket k (l ++ [(k, s)]) = l.
Proof.
  induction l as [|[k' s'] l IH]; simpl.
  - intros _. rewrite decide_True; reflexivity.
  - destruct (decide (k = k')); [discriminate|].
    intros H. rewrite (IH H). reflexivity.
Qed.

Lemma find_userId_snoc sid userId (l : list (SocketId * string)) :
  sid ∉ map fst l ->
  List.find (fun su => bool_decide (fst su = sid)) (l ++ [(sid, userId)])
  = Some (sid, userId).
Proof.
  induction l as [|[s u] l IH]; simpl; intros Hfresh.
  - rewrite bool_decide_eq_true_2 by reflexivity. reflexivity.
  - rewrite bool_decide_eq_false_2.
    + apply IH. intros Hin. apply Hfresh. right. exact Hin.
    + intros ->. apply Hfresh. left.
Qed.

Lemma filter_snoc_fresh (sid : SocketId) (l : list SocketId) :
  sid ∉ l ->
  List.filter (fun s => negb (bool_decide (s = sid))) (add_socket sid l) = l.
Proof.
  intros Hfresh. unfold add_socket. rewrite bool_decide_eq_false_2 by exact Hfresh.
  rewrite List.filter_app. simpl.
  rewrite bool_decide_eq_true_2 by reflexivity. simpl. rewrite app_nil_r.
  induction l as [|s l IH]; simpl; [reflexivity|].
  rewrite bool_decide_eq_false_2.
  - simpl. f_equal. apply IH. intros Hin. apply Hfresh. right. exact Hin.
  - intros ->. apply Hfresh. left.
Qed.

(** A connection that [_socketConnection] accepts is authenticated: the
    header names an entry of the registry that holds a public key, the
    signature verifies under that key over name and timestamp, the timestamp
    is a number within [tsPrecision] of the clock, no socket is connected
    for the name, the limiter let the attempt pass, and for the master entry
    no master socket is connected. *)
Theorem accepted_connection_is_authenticated updateId now name1 name2 socket m m' eff :
  accept updateId now name1 name2 socket m = (m', eff, Accepted) ->
  exists header userId userSig timestamp stamp r user key,
    authorization socket = Some header
    /\ split_on "," header !! 0%nat = Some userId
    /\ split_on "," header !! 1%nat = Some userSig
    /\ split_on "," header !! 2%nat = Some timestamp
    /\ _knownUsers m = Some r /\ Registry.get userId r = Some user
    /\ ShardInfo.key user = Some key
    /\ verify key (userId +:+ timestamp) userSig = true
    /\ toNumber timestamp = Some stamp
    /\ Z.abs (stamp - now) <= tsPrecision (_config m)
    /\ socket_of userId (_shardSockets m) = None
    /\ snd (rate_limit (_config m) now (ipName_of getIPName socket)
                       (_ipConnectHistory m)) = false
    /\ (ShardInfo.isMaster user = true -> _masterShardSocket m = None).
Proof.
  intros Hres.
  apply socketConnection_accepted in Hres
    as (header & userId & userSig & timestamp & stamp & r & user & privKey & key
        & H1 & H2 & H3 & H4 & H5 & H6 & H7 & H8 & H9 & H10 & H11 & H12 & H13
        & H14 & H15 & H16 & H17 & _).
  exists header, userId, userSig, timestamp, stamp, r, user, key.
  repeat split; assumption.
Qed.

(** The header an agent builds with [_generateAuthHeader] is accepted:
    when the orchestrator holds the public key of the agent's key pair
    under the agent's name, the timestamp is within [tsPrecision] of the
    orchestrator's clock, the name is not connected, the limiter lets the
    attempt pass and the orchestrator has its private key, the connection
    is accepted. *)
Theorem agent_header_is_accepted updateId now name1 name2 socket m r user key
    name privKey masterKey t :
  authorization socket
    = Some (ShardingSlave._generateAuthHeader sign showNumber name privKey t) ->
  verify key (name +:+ showNumber t) (sign privKey (name +:+ showNumber t)) = true ->
  toNumber (showNumber t) = Some t -> t <> 0 ->
  name <> "" -> sign privKey (name +:+ showNumber t) <> "" ->
  no_comma name = true ->
  no_comma (sign privKey (name +:+ showNumber t)) = true ->
  no_comma (showNumber t) = true ->
  snd (rate_limit (_config m) now (ipName_of getIPName socket)
                  (_ipConnectHistory m)) = false ->
  _knownUsers m = Some r -> Registry.get name r = Some user ->
  ShardInfo.key user = Some key ->
  socket_of name (_shardSockets m) = None ->
  Z.abs (t - now) <= tsPrecision (_config m) ->
  _privKey m = Some masterKey ->
  (ShardInfo.isMaster user = true -> _masterShardSocket m = None) ->
  snd (accept updateId now name1 name2 socket m) = Accepted.
Proof.
  intros Hauth Hver Hnum Hnz Hname Hsig Hc1 Hc2 Hc3 Hlimit Hr Huser Hkey Hfree
    Hprec Hpriv Hmaster.
  unfold _socketConnection.
  destruct (rate_limit (_config m) now (ipName_of getIPName socket)
              (_ipConnectHistory m)) as [history limited].
  simpl in Hlimit. subst limited. cbv iota.
  rewrite Hauth. unfold ShardingSlave._generateAuthHeader.
  set (sig := sign privKey (name +:+ showNumber t)) in *.
  set (ts := showNumber t) in *.
  replace (split_on "," (default "" (Some (name +:+ "," +:+ sig +:+ "," +:+ ts))))
    with [name; sig; ts].
  2:{ simpl default.
      change ("," +:+ sig +:+ "," +:+ ts) with (String "," (sig +:+ String "," ts)).
      rewrite (split_on_field name _ Hc1), (split_on_field sig _ Hc2),
        (split_on_last ts Hc3). reflexivity. }
  simpl.
  rewrite (bool_decide_eq_false_2 (name = "")) by exact Hname.
  rewrite (bool_decide_eq_false_2 (sig = "")) by exact Hsig.
  rewrite Hnum. simpl.
  rewrite (bool_decide_eq_false_2 (_ +:+ _ = ""))
    by (destruct name; simpl; discriminate).
  rewrite (bool_decide_eq_true_2 (is_Some (Some t) ∧ Some t ≠ Some 0))
    by (split; [eauto | congruence]).
  simpl. rewrite Hr, Huser.
  rewrite bool_decide_eq_false_2
    by (rewrite Hfree; intros [x Hx]; discriminate).
  rewrite bool_decide_eq_false_2 by lia.
  rewrite Hpriv, Hkey, Hver. simpl.
  unfold modify_users. simpl. rewrite Hr. simpl.
  destruct (ShardInfo.isMaster user) eqn:Hm; simpl.
  - rewrite (Hmaster eq_refl).
    rewrite bool_decide_eq_false_2 by (intros [x Hx]; discriminate).
    destruct (_refreshShardStatus _ _ _ _ _). reflexivity.
  - destruct (_refreshShardStatus _ _ _ _ _). reflexivity.
Qed.

(** The challenge of an accepted connection verifies at the agent: the
    first thing the orchestrator sends is [masterVerification] with a
    signature under its private key, and an agent configured with the
    public key of that pair is verified once [_masterVerification] has
    handled it. *)
Theorem accepted_connection_verifies_agent updateId now name1 name2 socket m m' eff
    masterKey masterPubKey t s l :
  accept updateId now name1 name2 socket m = (m', eff, Accepted) ->
  _privKey m = Some masterKey ->
  (forall data, verify masterPubKey data (sign masterKey data) = true) ->
  exists sig data rest,
    eff = EmitMasterVerification (socket_id socket) sig data :: rest
    /\ ShardingSlave._verified
         (snd (ShardingSlave._masterVerification verify masterPubKey t sig data s l))
       = true.
Proof.
  intros Hres Hpriv Hpair.
  apply socketConnection_accepted in Hres
    as (header & userId & userSig & timestamp & stamp & r & user & privKey & key
        & _ & _ & _ & _ & _ & _ & _ & _ & _ & _ & _ & _ & _ & Hp & _ & _ & _
        & [rest Heff] & _).
  rewrite Hpriv in Hp. injection Hp as <-.
  eexists _, _, rest. split; [exact Heff|].
  unfold ShardingSlave._masterVerification. rewrite Hpair. reflexivity.
Qed.

(** A socket accepted for a name reports as that name: when the socket
    carried no [status] listener before, a [status] event on it is handled
    by [on_status] for the name in the header it presented. *)
Theorem accepted_socket_reports_as_its_entry updateId now name1 name2 socket m m' eff :
  accept updateId now name1 name2 socket m = (m', eff, Accepted) ->
  (forall u, (socket_id socket, OnStatus u) ∉ _listeners m) ->
  exists header userId,
    authorization socket = Some header
    /\ split_on "," header !! 0%nat = Some userId
    /\ forall now' payload,
         status_event now' (socket_id socket) payload m'
         = on_status now' userId payload m'.
Proof.
  intros Hres Hfresh.
  pose proof (socketConnection_accepted_detached _ _ _ _ _ _ _ _ Hres) as Hlive.
  apply socketConnection_accepted in Hres
    as (header & userId & userSig & timestamp & stamp & r & user & privKey & key
        & H1 & H2 & _ & _ & _ & _ & _ & _ & _ & _ & _ & _ & _ & _ & _ & _ & _
        & _ & Hl & _).
  exists header, userId. repeat split; [assumption..|].
  intros now' payload. unfold status_event. rewrite Hl.
  simpl app. rewrite (find_status_listener _ _ _ _ Hfresh), Hlive. reflexivity.
Qed.

(** Disconnection undoes an accepted connection: when the socket was new
    to the orchestrator, its [disconnect] listener leaves the connected
    sockets, the shard sockets and the master socket as they were before the
    connection, so the same name can connect again. *)
Theorem disconnect_undoes_accepted_connection updateId now name1 name2 socket m m' eff :
  accept updateId now name1 name2 socket m = (m', eff, Accepted) ->
  socket_id socket ∉ _sockets m ->
  socket_id socket ∉ map fst (_socketUserId m) ->
  exists header userId r user,
    authorization socket = Some header
    /\ split_on "," header !! 0%nat = Some userId
    /\ _knownUsers m = Some r /\ Registry.get userId r = Some user
    /\ userId_of (socket_id socket) m' = Some userId
    /\ let m'' := on_disconnect (socket_id socket) (ShardInfo.isMaster user) m' in
       _sockets m'' = _sockets m
       /\ _shardSockets m'' = _shardSockets m
       /\ _masterShardSocket m'' = _masterShardSocket m.
Proof.
  intros Hres Hnew Hnoid.
  apply socketConnection_accepted in Hres
    as (header & userId & userSig & timestamp & stamp & r & user & privKey & key
        & H1 & H2 & _ & _ & Hne & _ & _ & _ & _ & Hr & Huser & Hfree & _ & _ & _
        & _ & Hmaster & _ & _ & Hids & Hsockets & Hreg).
  exists header, userId, r, user.
  assert (Hid : userId_of (socket_id socket) m' = Some userId).
  { unfold userId_of. rewrite Hids, (find_userId_snoc _ _ _ Hnoid). reflexivity. }
  repeat (split; [assumption|]).
  unfold on_disconnect.
  assert (Hid' : forall x, userId_of (socket_id socket) (set_sockets x m') = Some userId).
  { intros x. destruct m'. exact Hid. }
  rewrite !Hid'. simpl truthy.
  rewrite (bool_decide_eq_false_2 (userId = "")) by exact Hne. simpl negb. cbv iota.
  simpl default.
  destruct (ShardInfo.isMaster user) eqn:Hm.
  - destruct Hreg as [Hms Hss]. destruct m'; simpl in *.
    subst. rewrite (filter_snoc_fresh _ _ Hnew), (delete_socket_absent _ _ Hfree).
    rewrite (Hmaster eq_refl). repeat split.
  - destruct Hreg as [Hss Hms]. destruct m'; simpl in *.
    subst. rewrite (filter_snoc_fresh _ _ Hnew), (delete_socket_snoc _ _ _ Hfree).
    repeat split.
Qed.

(** *** A socket that was turned away *)

Lemma socketConnection_rejected_sockets updateId now name1 name2 socket m m' eff why :
  accept updateId now name1 name2 socket m = (m', eff, Rejected why) ->
  _shardSockets m' = _shardSockets m
  /\ _masterShardSocket m' = _masterShardSocket m
  /\ (_sockets m' = _sockets m
      \/ _sockets m' = add_socket (socket_id socket) (_sockets m))
  /\ (_socketUserId m' = _socketUserId m
      \/ exists userId,
           _socketUserId m' = _socketUserId m ++ [(socket_id socket, userId)]
           /\ socket_of userId (_shardSockets m) = None).
Proof.
  unfold _socketConnection.
  destruct (rate_limit (_config m) now (ipName_of getIPName socket)
              (_ipConnectHistory m)) as [history limited] eqn:Hlimit.
  simpl.
  destruct limited.
  { intros H. injection H as <- <- <-. simpl. auto. }
  destruct (negb (truthy (authorization socket))).
  { intros H. injection H as <- <- <-. simpl. auto. }
  destruct (split_on "," (default "" (authorization socket)) !! 0%nat) as [userId|] eqn:Hid;
    simpl.
  2:{ intros H. injection H as <- <- <-. simpl. auto. }
  destruct (_ || _).
  { intros H. injection H as <- <- <-. simpl. auto. }
  destruct (_knownUsers m) as [r|] eqn:Hr.
  2:{ intros H. injection H as <- <- <-. simpl. auto. }
  destruct (Registry.get userId r) as [user|] eqn:Huser.
  2:{ intros H. injection H as <- <- <-. simpl. auto. }
  case_bool_decide as Hconn.
  { intros H. injection H as <- <- <-. simpl. auto. }
  destruct (bool_decide (tsPrecision (_config m) < _)).
  { intros H. injection H as <- <- <-. simpl. auto. }
  destruct (_privKey m) as [privKey|].
  2:{ intros H. injection H as <- <- <-. simpl. auto. }
  destruct (ShardInfo.key user) as [key|].
  2:{ intros H. injection H as <- <- <-. simpl. auto. }
  destruct (negb (verify _ _ _)).
  { intros H. injection H as <- <- <-. simpl. auto. }
  unfold modify_users. simpl. rewrite Hr. simpl.
  destruct (ShardInfo.isMaster user) eqn:Hmaster; simpl.
  - case_bool_decide as Hms.
    + intros H. injection H as <- <- <-. simpl.
      repeat split; auto. right. exists userId. split; [reflexivity|].
      destruct (socket_of userId (_shardSockets m)) eqn:Hs; [|reflexivity].
      exfalso. apply Hconn. eauto.
    + destruct (_refreshShardStatus _ _ _ _ _) as [m3 e2]. discriminate.
  - destruct (_refreshShardStatus _ _ _ _ _) as [m3 e2]. discriminate.
Qed.

Lemma filter_fresh (sid : SocketId) (l : list SocketId) :
  sid ∉ l -> List.filter (fun s => negb (bool_decide (s = sid))) l = l.
Proof.
  induction l as [|s l IH]; simpl; intros Hfresh; [reflexivity|].
  rewrite bool_decide_eq_false_2.
  - simpl. f_equal. apply IH. intros Hin. apply Hfresh. right. exact Hin.
  - intros ->. apply Hfresh. left.
Qed.

Lemma find_userId_fresh sid (l : list (SocketId * string)) :
  sid ∉ map fst l -> List.find (fun su => bool_decide (fst su = sid)) l = None.
Proof.
  induction l as [|[s u] l IH]; simpl; intros Hfresh; [reflexivity|].
  rewrite bool_decide_eq_false_2.
  - apply IH. intros Hin. apply Hfresh. right. exact Hin.
  - intros ->. apply Hfresh. left.
Qed.

(** A socket that was turned away unregisters nobody: whatever name its
    header presented and for whatever reason it was refused, when it
    disconnects, the connected sockets, the shard sockets and the master
    socket are those from before it connected.  Presenting the name of a
    connected worker does not take that worker's socket away. *)
Theorem turned_away_socket_unregisters_nobody updateId now name1 name2 socket m m'
    eff why :
  accept updateId now name1 name2 socket m = (m', eff, Rejected why) ->
  socket_id socket ∉ _sockets m ->
  socket_id socket ∉ map fst (_socketUserId m) ->
  let m'' := on_disconnect (socket_id socket) false m' in
  _sockets m'' = _sockets m
  /\ _shardSockets m'' = _shardSockets m
  /\ _masterShardSocket m'' = _masterShardSocket m.
Proof.
  intros Hres Hnew Hnoid.
  apply socketConnection_rejected_sockets in Hres as (Hss & Hms & Hsockets & Hids).
  unfold on_disconnect.
  assert (Hfilter : List.filter (fun s => negb (bool_decide (s = socket_id socket)))
                      (_sockets m') = _sockets m).
  { destruct Hsockets as [-> | ->];
      [apply filter_fresh | apply filter_snoc_fresh]; exact Hnew. }
  assert (Hid : forall x,
            userId_of (socket_id socket) (set_sockets x m')
            = userId_of (socket_id socket) m').
  { intros x. destruct m'. reflexivity. }
  rewrite !Hid, Hfilter.
  destruct Hids as [Hids|(userId & Hids & Hfree)].
  - unfold userId_of. rewrite Hids, (find_userId_fresh _ _ Hnoid). simpl.
    destruct m'; simpl in *. auto.
  - unfold userId_of. rewrite Hids, (find_userId_snoc _ _ _ Hnoid). simpl.
    destruct (negb (bool_decide (userId = ""))); destruct m'; simpl in *; subst;
      rewrite ?(delete_socket_absent _ _ Hfree); auto.
Qed.

End Acceptance.

Lemma accepted_connection_is_authenticated_witness :
  let m := Sample.noneConnected in
  let socket := Sample.workerSocket in
  exists header userId userSig timestamp stamp r user key,
    authorization socket = Some header
    /\ split_on "," header !! 0%nat = Some userId
    /\ split_on "," header !! 1%nat = Some userSig
    /\ split_on "," header !! 2%nat = Some timestamp
    /\ _knownUsers m = Some r /\ Registry.get userId r = Some user
    /\ ShardInfo.key user = Some key
    /\ Sample.verify key (userId +:+ timestamp) userSig = true
    /\ Sample.toNumber timestamp = Some stamp
    /\ Z.abs (stamp - Sample.now) <= tsPrecision (_config m)
    /\ socket_of userId (_shardSockets m) = None
    /\ snd (rate_limit (_config m) Sample.now (ipName_of Sample.getIPName socket)
                       (_ipConnectHistory m)) = false
    /\ (ShardInfo.isMaster user = true -> _masterShardSocket m = None).
Proof.
  pose (result :=
    _socketConnection Sample.getIPName Sample.toNumber Sample.verify Sample.sign
                      Sample.showNumber (Some 0) Sample.now "xxx" "yyy"
                      Sample.workerSocket Sample.noneConnected).
  apply (accepted_connection_is_authenticated Sample.getIPName Sample.toNumber
           Sample.verify Sample.sign Sample.showNumber (Some 0) Sample.now "xxx" "yyy"
           Sample.workerSocket Sample.noneConnected
           (fst (fst result)) (snd (fst result))).
  vm_compute. reflexivity.
Defined.

Lemma agent_header_is_accepted_witness :
  let header :=
    ShardingSlave._generateAuthHeader Sample.sign Sample.showStamp "ccc" "pub" 999000 in
  let socket := mkSocket "s3" None "10.0.0.8" (Some header) in
  header = "ccc,pub/ccc999000,999000"
  /\ snd (_socketConnection Sample.getIPName Sample.toNumber Sample.verify Sample.sign
            Sample.showStamp (Some 0) Sample.now "xxx" "yyy" socket
            Sample.noneConnected) = Accepted.
Proof.
  split; [vm_compute; reflexivity|].
  apply (agent_header_is_accepted Sample.getIPName Sample.toNumber Sample.verify
           Sample.sign Sample.showStamp (Some 0) Sample.now "xxx" "yyy"
           (mkSocket "s3" None "10.0.0.8"
              (Some (ShardingSlave._generateAuthHeader Sample.sign Sample.showStamp
                       "ccc" "pub" 999000)))
           Sample.noneConnected Sample.oneIdle (Sample.idle "ccc") "pub"
           "ccc" "pub" "priv" 999000);
    first [vm_compute; reflexivity | vm_compute; discriminate
          | vm_compute; intros; reflexivity].
Defined.

Lemma accepted_connection_verifies_agent_witness :
  let result :=
    _socketConnection Sample.getIPName Sample.toNumber Sample.verify Sample.sign
                      Sample.showNumber (Some 0) Sample.now "xxx" "yyy"
                      Sample.workerSocket Sample.noneConnected in
  exists sig data rest,
    snd (fst result) = EmitMasterVerification "s3" sig data :: rest
    /\ ShardingSlave._verified
         (snd (ShardingSlave._masterVerification Sample.verify "priv" Sample.now
                 sig data Sample.agent (ShardingSlave.mkLink false)))
       = true.
Proof.
  intros result.
  apply (accepted_connection_verifies_agent Sample.getIPName Sample.toNumber
           Sample.verify Sample.sign Sample.showNumber (Some 0) Sample.now "xxx" "yyy"
           Sample.workerSocket Sample.noneConnected (fst (fst result)) (snd (fst result))
           "priv" "priv" Sample.now
           Sample.agent (ShardingSlave.mkLink false)).
  - vm_compute. reflexivity.
  - reflexivity.
  - intros data. apply bool_decide_eq_true_2. reflexivity.
Defined.

Lemma accepted_socket_reports_as_its_entry_witness :
  let result :=
    _socketConnection Sample.getIPName Sample.toNumber Sample.verify Sample.sign
                      Sample.showNumber (Some 0) Sample.now "xxx" "yyy"
                      Sample.workerSocket Sample.noneConnected in
  let m' := fst (fst result) in
  exists header userId,
    authorization Sample.workerSocket = Some header
    /\ split_on "," header !! 0%nat = Some userId
    /\ forall now' payload,
         status_event now' "s3" payload m' = on_status now' userId payload m'.
Proof.
  intros result m'.
  apply (accepted_socket_reports_as_its_entry Sample.getIPName Sample.toNumber
           Sample.verify Sample.sign Sample.showNumber (Some 0) Sample.now "xxx" "yyy"
           Sample.workerSocket Sample.noneConnected m' (snd (fst result))).
  - vm_compute. reflexivity.
  - intros u Hin. inversion Hin.
Defined.

Lemma disconnect_undoes_accepted_connection_witness :
  let m := Sample.noneConnected in
  let result :=
    _socketConnection Sample.getIPName Sample.toNumber Sample.verify Sample.sign
                      Sample.showNumber (Some 0) Sample.now "xxx" "yyy"
                      Sample.workerSocket m in
  let m' := fst (fst result) in
  exists header userId r user,
    authorization Sample.workerSocket = Some header
    /\ split_on "," header !! 0%nat = Some userId
    /\ _knownUsers m = Some r /\ Registry.get userId r = Some user
    /\ userId_of "s3" m' = Some userId
    /\ let m'' := on_disconnect "s3" (ShardInfo.isMaster user) m' in
       _sockets m'' = _sockets m
       /\ _shardSockets m'' = _shardSockets m
       /\ _masterShardSocket m'' = _masterShardSocket m.
Proof.
  intros m result m'.
  apply (disconnect_undoes_accepted_connection Sample.getIPName Sample.toNumber
           Sample.verify Sample.sign Sample.showNumber (Some 0) Sample.now "xxx" "yyy"
           Sample.workerSocket m m' (snd (fst result))).
  - vm_compute. reflexivity.
  - intros Hin. inversion Hin.
  - intros Hin. inversion Hin.
Defined.

Lemma turned_away_socket_unregisters_nobody_witness :
  let m := Sample.twoConnected in
  let result :=
    _socketConnection Sample.getIPName Sample.toNumber Sample.verify Sample.sign
                      Sample.showNumber (Some 0) Sample.now "xxx" "yyy"
                      Sample.forgedSocket m in
  let m'' := on_disconnect "s4" false (fst (fst result)) in
  snd result = Rejected AlreadyConnected
  /\ authorization Sample.forgedSocket = Some "aaa,forged,1000000"
  /\ _sockets m'' = _sockets m
  /\ _shardSockets m'' = _shardSockets m
  /\ _masterShardSocket m'' = _masterShardSocket m.
Proof.
  intros m result m''.
  split; [vm_compute; reflexivity|].
  split; [reflexivity|].
  apply (turned_away_socket_unregisters_nobody Sample.getIPName Sample.toNumber
           Sample.verify Sample.sign Sample.showNumber (Some 0) Sample.now "xxx" "yyy"
           Sample.forgedSocket m (fst (fst result)) (snd (fst result))
           AlreadyConnected).
  - vm_compute. reflexivity.
  - intros Hin. apply list_elem_of_In in Hin. vm_compute in Hin.
    repeat destruct Hin as [Hin|Hin]; try discriminate. exact Hin.
  - intros Hin. inversion Hin.
Defined.

(** ** Restarting every worker: [respawnAll] *)

Section Respawn.

Variable m : ShardingMaster.t.

Let delay := respawnDelay (_config m).
Let connected (info : ShardInfo.t) : Prop :=
  is_Some (socket_of (ShardInfo.id info) (_shardSockets m)).

Lemma respawn_visit_skip i info infos :
  runs_goal info = false ->
  respawn_visit m i (info :: infos) = respawn_visit m i infos.
Proof.
  unfold runs_goal. intros H. apply negb_false_iff in H. simpl. rewrite H. reflexivity.
Qed.

Lemma respawn_visit_take i info infos :
  runs_goal info = true ->
  respawn_visit m i (info :: infos)
  = match socket_of (ShardInfo.id info) (_shardSockets m) with
    | Some socket => [EmitRespawn socket (i * delay)]
    | None => []
    end ++ respawn_visit m (i + 1) infos.
Proof.
  unfold runs_goal. intros H. apply negb_true_iff in H. simpl. rewrite H. reflexivity.
Qed.

Lemma respawn_delays_app e1 e2 :
  respawn_delays (e1 ++ e2) = respawn_delays e1 ++ respawn_delays e2.
Proof. unfold respawn_delays. apply flat_map_app. Qed.

Lemma respawn_visit_range infos : forall i d,
  d ∈ respawn_delays (respawn_visit m i infos) ->
  exists k, i <= k < i + Z.of_nat (length (List.filter runs_goal infos))
            /\ d = k * delay.
Proof.
  induction infos as [|info infos IH]; intros i d Hin; [inversion Hin|].
  simpl List.filter. destruct (runs_goal info) eqn:Hrun.
  - rewrite (respawn_visit_take _ _ _ Hrun), respawn_delays_app in Hin.
    apply elem_of_app in Hin as [Hin|Hin].
    + destruct (socket_of _ _); [|inversion Hin].
      apply list_elem_of_singleton in Hin. subst d.
      exists i. simpl length. split; [lia | reflexivity].
    + destruct (IH _ _ Hin) as (k & Hk & ->).
      exists k. simpl length. split; [lia | reflexivity].
  - rewrite (respawn_visit_skip _ _ _ Hrun) in Hin. apply (IH _ _ Hin).
Qed.

Lemma respawn_visit_sorted infos : forall i,
  0 < delay -> StronglySorted Z.lt (respawn_delays (respawn_visit m i infos)).
Proof.
  induction infos as [|info infos IH]; intros i Hpos; [constructor|].
  destruct (runs_goal info) eqn:Hrun.
  - rewrite (respawn_visit_take _ _ _ Hrun), respawn_delays_app.
    destruct (socket_of _ _); simpl; [|apply IH; exact Hpos].
    constructor; [apply IH; exact Hpos|].
    apply Forall_forall. intros d Hd.
    apply respawn_visit_range in Hd as (k & Hk & ->). nia.
  - rewrite (respawn_visit_skip _ _ _ Hrun). apply IH. exact Hpos.
Qed.

(** What the loop emits, by position: [i0] is the counter on entry, and
    the positions are those among the entries that run their goal shard. *)
Lemma respawn_visit_positions infos : forall i0 e,
  e ∈ respawn_visit m i0 infos <->
  exists i info socket,
    List.filter runs_goal infos !! i = Some info
    /\ socket_of (ShardInfo.id info) (_shardSockets m) = Some socket
    /\ e = EmitRespawn socket ((i0 + Z.of_nat i) * delay).
Proof.
  induction infos as [|info infos IH]; intros i0 e.
  - split; [intros Hin; inversion Hin|].
    intros (i & info & socket & Hi & _). destruct i; discriminate.
  - simpl List.filter. destruct (runs_goal info) eqn:Hrun.
    + rewrite (respawn_visit_take _ _ _ Hrun), elem_of_app, IH. split.
      * intros [Hin|(i & info' & socket & Hi & Hs & ->)].
        -- destruct (socket_of _ _) as [socket|] eqn:Hs; [|inversion Hin].
           apply list_elem_of_singleton in Hin. subst e.
           exists 0%nat, info, socket. repeat split; [exact Hs|].
           f_equal. lia.
        -- exists (S i), info', socket. repeat split; [exact Hi | exact Hs|].
           f_equal. lia.
      * intros (i & info' & socket & Hi & Hs & ->). destruct i as [|i].
        -- simpl in Hi. injection Hi as <-. left. rewrite Hs.
           apply list_elem_of_singleton. f_equal. lia.
        -- right. exists i, info', socket. repeat split; [exact Hi | exact Hs|].
           f_equal. lia.
    + rewrite (respawn_visit_skip _ _ _ Hrun). apply IH.
Qed.

(** [respawnAll] staggers the restarts.  Among the entries of the registry
    that run the shard they are to run, counted from 0 in registry order,
    the entry at position [i] is sent [respawn] with the delay
    [i * respawnDelay] on its shard socket when it has one, and nothing
    else is sent: an entry without a shard socket, as the master entry
    always is, takes its position and is sent nothing.  With a positive
    [respawnDelay] the delays grow strictly from one event to the next, so
    no two workers are told to restart at the same time. *)
Theorem respawnAll_staggers_restarts r :
  _knownUsers m = Some r -> 0 < respawnDelay (_config m) ->
  let running := List.filter runs_goal (Registry.values r) in
  exists eff,
    respawnAll m = Some eff
    /\ (forall e, e ∈ eff ->
          exists i info socket,
            running !! i = Some info
            /\ socket_of (ShardInfo.id info) (_shardSockets m) = Some socket
            /\ e = EmitRespawn socket (Z.of_nat i * respawnDelay (_config m)))
    /\ (forall i info socket,
          running !! i = Some info ->
          socket_of (ShardInfo.id info) (_shardSockets m) = Some socket ->
          EmitRespawn socket (Z.of_nat i * respawnDelay (_config m)) ∈ eff)
    /\ StronglySorted Z.lt (respawn_delays eff).
Proof.
  intros Hr Hpos running. unfold respawnAll. rewrite Hr.
  eexists. split; [reflexivity|].
  split; [|split].
  - intros e He. apply respawn_visit_positions in He. exact He.
  - intros i info socket Hi Hs. apply respawn_visit_positions.
    exists i, info, socket. repeat split; assumption.
  - apply respawn_visit_sorted. exact Hpos.
Qed.

End Respawn.

Lemma respawnAll_staggers_restarts_witness :
  let m := Sample.masterFirst in
  let running := List.filter runs_goal (Registry.values (users m)) in
  exists eff,
    respawnAll m = Some eff
    /\ (forall e, e ∈ eff ->
          exists i info socket,
            running !! i = Some info
            /\ socket_of (ShardInfo.id info) (_shardSockets m) = Some socket
            /\ e = EmitRespawn socket (Z.of_nat i * respawnDelay (_config m)))
    /\ (forall i info socket,
          running !! i = Some info ->
          socket_of (ShardInfo.id info) (_shardSockets m) = Some socket ->
          EmitRespawn socket (Z.of_nat i * respawnDelay (_config m)) ∈ eff)
    /\ StronglySorted Z.lt (respawn_delays eff).
Proof.
  apply (respawnAll_staggers_restarts Sample.masterFirst (users Sample.masterFirst)).
  - reflexivity.
  - reflexivity.
Defined.

(** In [masterFirst] the master entry runs its shard and comes first in
    the registry: it takes position 0 and, having no shard socket, is sent
    nothing, so the two workers are told to restart after one and after two
    seconds. *)
Lemma respawnAll_sample :
  respawnAll Sample.masterFirst
  = Some [EmitRespawn "s1" 1000; EmitRespawn "s2" 2000].
Proof. vm_compute. reflexivity. Qed.

(** ** The worker: callbacks and the life of the child *)

Section Callbacks.
Import ShardingSlave.

Variable cb0 : CbId.

Lemma list_sum_insert {A} (f : A -> nat) (l : list A) : forall p x y,
  l !! p = Some x ->
  (list_sum (map f (<[p:=y]> l)) + f x = list_sum (map f l) + f y)%nat.
Proof.
  induction l as [|a l IH]; intros p x y Hp; [discriminate|].
  destruct p as [|p]; simpl in *.
  - injection Hp as ->. lia.
  - specialize (IH p x y Hp). lia.
Qed.

Lemma budget_ext s s' :
  promises s' = promises s -> calls s' = calls s -> budget cb0 s' = budget cb0 s.
Proof. unfold budget, waits, outcomes. intros -> ->. reflexivity. Qed.

Lemma budget_same s s' : same_evals s s' -> budget cb0 s' = budget cb0 s.
Proof. intros (_ & Hp & _ & _ & _ & Hc). apply budget_ext; assumption. Qed.

Lemma settle_budget p o s : budget cb0 (settle p o s) = budget cb0 s.
Proof.
  unfold settle. destruct (promises s !! p) as [[ws|o']|] eqn:Hp; try reflexivity.
  unfold budget, waits, outcomes. fields.
  rewrite outs_app, length_app, outs_notify, length_replicate.
  pose proof (list_sum_insert (waiting cb0) (promises s) p _ (Settled o) Hp) as H.
  simpl waiting in *. lia.
Qed.

Lemma chain_budget p cb s :
  (budget cb0 (chain p cb s)
   <= budget cb0 s + if bool_decide (cb = cb0) then 1 else 0)%nat.
Proof.
  unfold chain. destruct (promises s !! p) as [[ws|o']|] eqn:Hp; [| |lia].
  - unfold budget, waits, outcomes. fields.
    pose proof (list_sum_insert (waiting cb0) (promises s) p _
                  (Pending (ws ++ [cb])) Hp) as H.
    case_bool_decide as Hcb.
    + subst cb. rewrite waiting_snoc_same in H. lia.
    + rewrite (waiting_snoc_other _ _ _ Hcb) in H. lia.
  - unfold budget, waits, outcomes. fields.
    rewrite outs_app, length_app.
    case_bool_decide as Hcb.
    + subst cb. unfold outs at 2. simpl.
      rewrite bool_decide_eq_true_2 by reflexivity. simpl. lia.
    + rewrite (outs_other _ _ _ Hcb). simpl. lia.
Qed.

Lemma finish_budget script p o s : budget cb0 (finish script p o s) = budget cb0 s.
Proof.
  unfold finish. destruct (_child s); [|apply budget_ext; reflexivity].
  rewrite settle_budget. apply budget_ext; reflexivity.
Qed.

Lemma listener_budget script p message s :
  budget cb0 (listener script p message s) = budget cb0 s.
Proof.
  unfold listener.
  destruct (negb (bool_decide (_eval message = Some script))); [reflexivity|].
  destruct (negb (truthy (_error message))); apply finish_budget.
Qed.

Lemma run_listeners_budget ls message : forall s,
  budget cb0 (run_listeners ls message s) = budget cb0 s.
Proof.
  induction ls as [|[script p] ls IH]; intros s; simpl; [reflexivity|].
  destruct (halted s); [reflexivity|]. rewrite IH. apply listener_budget.
Qed.

Lemma send_done_budget script p err s :
  budget cb0 (send_done script p err s) = budget cb0 s.
Proof.
  unfold send_done. case_bool_decide; [|reflexivity].
  destruct (negb (truthy err)); [apply budget_ext; reflexivity|].
  rewrite finish_budget. apply budget_ext; reflexivity.
Qed.

Lemma evalRequest_budget now script cb s :
  (budget cb0 (_evalRequest now script cb s)
   <= budget cb0 s + if bool_decide (cb = cb0) then 1 else 0)%nat.
Proof.
  unfold _evalRequest.
  change (_child (set_lastSeen now s)) with (_child s).
  change (_evals (set_lastSeen now s)) with (_evals s).
  destruct (_child s).
  - destruct (_evals s !! script).
    + etransitivity; [apply chain_budget|].
      rewrite (budget_ext s (set_lastSeen now s)) by reflexivity. lia.
    + etransitivity; [apply chain_budget|].
      apply Nat.add_le_mono_r.
      unfold budget, waits, outcomes, set_lastSeen. fields.
      rewrite map_app, list_sum_app. simpl. lia.
  - unfold budget, waits, outcomes, set_lastSeen. fields.
    rewrite outs_app, length_app.
    case_bool_decide as Hcb.
    + subst cb. unfold outs at 2. simpl.
      rewrite bool_decide_eq_true_2 by reflexivity. simpl. lia.
    + rewrite (outs_other _ _ _ Hcb). simpl. lia.
Qed.

Lemma step_budget e s :
  (budget cb0 (step s e) <= budget cb0 s + if uses cb0 e then 1 else 0)%nat.
Proof.
  unfold step. destruct (halted s); [lia|].
  destruct e as [now script cb|c message|script p err| | |now connected cb settings| |];
    simpl uses.
  - apply evalRequest_budget.
  - unfold child_message. rewrite run_listeners_budget. lia.
  - rewrite send_done_budget. lia.
  - rewrite (budget_same _ _ (handleExit_same s)). lia.
  - rewrite (budget_same _ _ (handleError_same s)). lia.
  - destruct (updateRequest_cases now connected cb settings s) as (s' & Hs & [->| ->]).
    + rewrite (budget_same _ _ Hs). lia.
    + etransitivity; [apply evalRequest_budget|].
      rewrite (budget_same _ _ Hs). lia.
  - rewrite (budget_same _ _ (respawnChild_same s)). lia.
  - rewrite (budget_same _ _ (exit_same s)). lia.
Qed.

Lemma run_budget trace : forall s,
  (budget cb0 (run trace s)
   <= budget cb0 s + length (List.filter (uses cb0) trace))%nat.
Proof.
  induction trace as [|e trace IH]; intros s; simpl; [lia|].
  etransitivity; [apply IH|].
  pose proof (step_budget e s). destruct (uses cb0 e); simpl; lia.
Qed.

End Callbacks.

(** A callback is called no more often than it was handed in: in every
    history of a new agent, the calls of [cb] number at most the
    [evalRequest] and [update] events that named it.  The acknowledgement
    of one request is therefore called at most once, whatever the child
    answers and however often. *)
Theorem callback_called_at_most_once_per_request name trace cb :
  (length (ShardingSlave.outcomes cb
             (ShardingSlave.run trace (ShardingSlave.new name)))
   <= length (List.filter (ShardingSlave.uses cb) trace))%nat.
Proof.
  pose proof (run_budget cb trace (ShardingSlave.new name)) as H.
  unfold ShardingSlave.budget in H.
  change (ShardingSlave.waits cb (ShardingSlave.new name)) with 0%nat in H.
  change (ShardingSlave.outcomes cb (ShardingSlave.new name)) with (@nil ShardingSlave.EvalOutcome) in H.
  simpl in H. lia.
Qed.

Section ChildLife.
Import ShardingSlave.

Lemma same_child_refl s : same_child s s.
Proof. repeat split. Qed.

Lemma same_child_trans s1 s2 s3 :
  same_child s1 s2 -> same_child s2 s3 -> same_child s1 s3.
Proof.
  unfold same_child. intros (A1 & A2 & A3 & A4) (B1 & B2 & B3 & B4).
  repeat split; congruence.
Qed.

Lemma settle_child p o s : same_child s (settle p o s).
Proof.
  unfold settle. destruct (promises s !! p) as [[ws|o']|]; repeat split.
Qed.

Lemma chain_child p cb s : same_child s (chain p cb s).
Proof.
  unfold chain. destruct (promises s !! p) as [[ws|o']|]; repeat split.
Qed.

Lemma finish_child script p o s : same_child s (finish script p o s).
Proof.
  unfold finish. destruct (_child s) eqn:Hc; [|repeat split].
  eapply same_child_trans; [|apply settle_child].
  repeat split; fields; auto.
Qed.

Lemma listener_child script p message s : same_child s (listener script p message s).
Proof.
  unfold listener.
  destruct (negb (bool_decide (_eval message = Some script)));
    [apply same_child_refl|].
  destruct (negb (truthy (_error message))); apply finish_child.
Qed.

Lemma run_listeners_child ls message : forall s,
  same_child s (run_listeners ls message s).
Proof.
  induction ls as [|[script p] ls IH]; intros s; simpl; [apply same_child_refl|].
  destruct (halted s); [apply same_child_refl|].
  eapply same_child_trans; [apply listener_child | apply IH].
Qed.

Lemma send_done_child script p err s : same_child s (send_done script p err s).
Proof.
  unfold send_done. case_bool_decide; [|apply same_child_refl].
  destruct (negb (truthy err)); [repeat split|].
  eapply same_child_trans; [|apply finish_child]. repeat split.
Qed.

Lemma evalRequest_child now script cb s : same_child s (_evalRequest now script cb s).
Proof.
  unfold _evalRequest.
  change (_child (set_lastSeen now s)) with (_child s).
  change (_evals (set_lastSeen now s)) with (_evals s).
  destruct (_child s) eqn:Hc.
  - destruct (_evals s !! script).
    + eapply same_child_trans; [|apply chain_child]. repeat split.
    + eapply same_child_trans; [|apply chain_child].
      repeat split; fields; try reflexivity; congruence.
  - repeat split; fields; try reflexivity; congruence.
Qed.

Lemma generateHeartbeat_child now connected cb s :
  same_child s (_generateHeartbeat now connected cb s).
Proof.
  unfold _generateHeartbeat. destruct connected; simpl;
    [apply evalRequest_child | apply same_child_refl].
Qed.

(** *** Without a child the agent reports no shard *)

Lemma idle_same s s' : same_child s s' -> idle_reports_none s -> idle_reports_none s'.
Proof.
  unfold idle_reports_none. intros (H1 & _ & H3 & _) Hi. rewrite H1, H3. exact Hi.
Qed.

Lemma spawnChild_idle s : idle_reports_none s -> idle_reports_none (_spawnChild s).
Proof.
  unfold _spawnChild. case_bool_decide as Hgoal; [auto|].
  destruct (_child s) eqn:Hc; [auto|]. intros _ Hnone. discriminate.
Qed.

Lemma respawnChild_idle s : idle_reports_none s -> idle_reports_none (_respawnChild s).
Proof.
  unfold _respawnChild. destruct (_child s) eqn:Hc; [auto|].
  case_bool_decide; [apply spawnChild_idle | auto].
Qed.

Lemma handleExit_idle s : idle_reports_none (_handleExit s).
Proof.
  unfold _handleExit. case_bool_decide; [apply spawnChild_idle|];
    intros _; simpl; lia.
Qed.

Lemma updateRequest_idle now connected cb settings s :
  idle_reports_none s -> idle_reports_none (_updateRequest now connected cb settings s).
Proof.
  intros Hi. unfold _updateRequest. destruct settings as [settings|]; [|exact Hi].
  set (s0 := set_goal (id settings) (count settings) (set_lastSeen now s)).
  assert (H0 : idle_reports_none s0) by exact Hi.
  destruct (_ && bool_decide (goalShardId s0 < -1)).
  { unfold exit. case_bool_decide; exact H0. }
  match goal with
  | |- context [if bool_decide (updateStyle settings = "pull")
                then _generateHeartbeat now connected cb ?x else _] =>
      set (s1 := x)
  end.
  assert (H1 : idle_reports_none s1).
  { unfold s1. destruct (_ || _); [|exact H0].
    case_bool_decide; [apply respawnChild_idle | apply spawnChild_idle]; exact H0. }
  repeat case_bool_decide;
    repeat (eapply idle_same; [apply generateHeartbeat_child|]); exact H1.
Qed.

Lemma step_idle e s : idle_reports_none s -> idle_reports_none (step s e).
Proof.
  intros Hi. unfold step. destruct (halted s); [exact Hi|].
  destruct e as [now script cb|c message|script p err| | |now connected cb settings| |].
  - apply (idle_same _ _ (evalRequest_child now script cb s) Hi).
  - apply (idle_same _ _ (run_listeners_child _ message s) Hi).
  - apply (idle_same _ _ (send_done_child script p err s) Hi).
  - apply handleExit_idle.
  - intros _. simpl. lia.
  - apply updateRequest_idle. exact Hi.
  - apply respawnChild_idle. exact Hi.
  - unfold exit. case_bool_decide; exact Hi.
Qed.

(** The status never names a shard that no child runs: starting from a
    state with that property, after every history an agent without a child
    has a negative [currentShardId]. *)
Theorem agent_without_child_reports_no_shard trace : forall s,
  (_child s = None -> currentShardId s < 0) ->
  _child (run trace s) = None -> currentShardId (run trace s) < 0.
Proof.
  induction trace as [|e trace IH]; intros s Hi; [exact Hi|].
  simpl. apply IH. apply step_idle. exact Hi.
Qed.

(** *** A child that failed to start is not retried *)

Lemma given_up_same n s s' : same_child s s' -> given_up n s -> given_up n s'.
Proof.
  unfold given_up. intros (H1 & H2 & _ & H4) (A & B & C). rewrite H1, H2, H4. auto.
Qed.

Lemma spawnChild_given_up n s : given_up n s -> _spawnChild s = s.
Proof.
  intros (_ & Hg & _). unfold _spawnChild.
  rewrite bool_decide_eq_true_2 by exact Hg. reflexivity.
Qed.

Lemma step_given_up n e s :
  is_update e = false -> given_up n s -> given_up n (step s e).
Proof.
  intros He Hg. unfold step. destruct (halted s); [exact Hg|].
  destruct e as [now script cb|c message|script p err| | |now connected cb settings| |];
    try discriminate.
  - apply (given_up_same _ _ _ (evalRequest_child now script cb s) Hg).
  - apply (given_up_same _ _ _ (run_listeners_child _ message s) Hg).
  - apply (given_up_same _ _ _ (send_done_child script p err s) Hg).
  - destruct Hg as (Hc & Hgoal & Hf). unfold _handleExit.
    rewrite bool_decide_eq_false_2 by (simpl; lia). repeat split; assumption.
  - destruct Hg as (Hc & Hgoal & Hf). repeat split; simpl; first [lia | exact Hf].
  - destruct Hg as (Hc & Hgoal & Hf). unfold _respawnChild. rewrite Hc.
    rewrite bool_decide_eq_false_2 by lia. repeat split; assumption.
  - destruct Hg as (Hc & Hgoal & Hf). unfold exit.
    rewrite bool_decide_eq_false_2 by lia. repeat split; assumption.
Qed.

Lemma run_given_up n trace : forall s,
  (forall e, e ∈ trace -> is_update e = false) ->
  given_up n s -> given_up n (run trace s).
Proof.
  induction trace as [|e trace IH]; intros s Hno Hg; [exact Hg|].
  simpl. apply IH.
  - intros e' He'. apply Hno. right. exact He'.
  - apply step_given_up; [apply Hno; left | exact Hg].
Qed.

(** A child that failed to start is not retried: once the [error] event
    of the child was handled, no child is forked and the agent has no goal
    until the orchestrator sends the next [update], whatever else happens
    in between: requests, messages, exits, [respawn] events. *)
Theorem failed_child_is_not_retried s trace :
  halted s = false ->
  (forall e, e ∈ trace -> is_update e = false) ->
  let s' := run trace (step s ChildError) in
  _child s' = None /\ goalShardId s' < 0 /\ forked s' = forked s.
Proof.
  intros Hrun Hno. apply run_given_up; [exact Hno|].
  unfold step. rewrite Hrun. repeat split.
Qed.

End ChildLife.

Lemma agent_without_child_reports_no_shard_witness :
  let trace := [ShardingSlave.UpdateRequest 150 false 0%nat (Sample.assign (-1) (-1));
                ShardingSlave.ChildExit] in
  ShardingSlave._child (ShardingSlave.run trace Sample.agent) = None
  /\ ShardingSlave.currentShardId (ShardingSlave.run trace Sample.agent) < 0.
Proof.
  split; [vm_compute; reflexivity|].
  apply (agent_without_child_reports_no_shard
           [ShardingSlave.UpdateRequest 150 false 0%nat (Sample.assign (-1) (-1));
            ShardingSlave.ChildExit] Sample.agent).
  - intros H. vm_compute in H. discriminate.
  - vm_compute. reflexivity.
Defined.

Lemma failed_child_is_not_retried_witness :
  let trace := [ShardingSlave.EvalRequest 200 "1+1" 1%nat; ShardingSlave.Respawn;
                ShardingSlave.ChildExit] in
  let s' := ShardingSlave.run trace (ShardingSlave.step Sample.agent ShardingSlave.ChildError) in
  ShardingSlave._child s' = None /\ ShardingSlave.goalShardId s' < 0
  /\ ShardingSlave.forked s' = ShardingSlave.forked Sample.agent.
Proof.
  apply (failed_child_is_not_retried Sample.agent
           [ShardingSlave.EvalRequest 200 "1+1" 1%nat; ShardingSlave.Respawn;
            ShardingSlave.ChildExit]).
  - reflexivity.
  - intros e He. apply list_elem_of_In in He. simpl in He.
    destruct He as [<-|[<-|[<-|[]]]]; reflexivity.
Defined.

(** ** File relay: names that stay inside the project root *)

Section Paths.
Import ShardingSlave.

Abbreviation split_on := ShardingMaster.split_on.

Lemma split_on_nonempty sep s : split_on sep s <> [].
Proof.
  destruct s as [|c s]; simpl; [discriminate|].
  destruct (decide (c = sep)); [discriminate|].
  destruct (split_on sep s); discriminate.
Qed.

Lemma split_on_app sep a b :
  split_on sep (a +:+ String sep b) = split_on sep a ++ split_on sep b.
Proof.
  induction a as [|c a IH]; simpl.
  - rewrite decide_True by reflexivity. reflexivity.
  - destruct (decide (c = sep)); [rewrite IH; reflexivity|].
    rewrite IH. pose proof (split_on_nonempty sep a) as Hne.
    destruct (split_on sep a); [contradiction | reflexivity].
Qed.

Lemma split_on_free sep s : has_char sep s = false -> split_on sep s = [s].
Proof.
  induction s as [|c s IH]; simpl; intros Hno; [reflexivity|].
  apply orb_false_iff in Hno as [Hc Hno]. apply bool_decide_eq_false in Hc.
  rewrite decide_False by exact Hc. rewrite (IH Hno). reflexivity.
Qed.

Lemma split_on_parts_free sep s :
  Forall (fun seg => has_char sep seg = false) (split_on sep s).
Proof.
  induction s as [|c s IH]; simpl; [repeat constructor|].
  destruct (decide (c = sep)); [constructor; [reflexivity | exact IH]|].
  destruct (split_on sep s) as [|x xs]; [repeat constructor|].
  - simpl. rewrite bool_decide_eq_false_2 by exact n. reflexivity.
  - inversion IH; subst. constructor; [|assumption].
    simpl. rewrite bool_decide_eq_false_2 by exact n. assumption.
Qed.

Lemma append_empty_r s : s +:+ "" = s.
Proof.
  induction s as [|c s IH]; [reflexivity|].
  change (String c s +:+ "") with (String c (s +:+ "")). rewrite IH. reflexivity.
Qed.

Lemma append_assoc a b c : (a +:+ b) +:+ c = a +:+ b +:+ c.
Proof.
  induction a as [|x a IH]; [reflexivity|].
  change (String x a +:+ b) with (String x (a +:+ b)).
  change (String x (a +:+ b) +:+ c) with (String x ((a +:+ b) +:+ c)).
  change (String x a +:+ b +:+ c) with (String x (a +:+ b +:+ c)).
  rewrite IH. reflexivity.
Qed.

Lemma prefix_append a b : String.prefix a (a +:+ b) = true.
Proof.
  induction a as [|x a IH]; simpl; [destruct b; reflexivity|].
  destruct (ascii_dec x x); [exact IH | contradiction].
Qed.

(** *** Resolving segments *)

Lemma resolve_kept seg acc : kept seg = true -> resolve_step acc seg = acc ++ [seg].
Proof.
  unfold kept, resolve_step. intros H. apply andb_true_iff in H as [H1 H2].
  apply negb_true_iff in H1, H2. rewrite H1, H2. reflexivity.
Qed.

Lemma resolve_without_dotdot segs : forall acc,
  ".." ∉ segs ->
  fold_left resolve_step segs acc = acc ++ List.filter kept segs.
Proof.
  induction segs as [|seg segs IH]; intros acc Hno; simpl;
    [rewrite app_nil_r; reflexivity|].
  assert (Hseg : seg <> "..") by (intros ->; apply Hno; left).
  assert (Hrest : ".." ∉ segs) by (intros Hin; apply Hno; right; exact Hin).
  rewrite (IH _ Hrest). unfold kept at 2, resolve_step.
  rewrite (bool_decide_eq_false_2 (seg = "..")) by exact Hseg.
  destruct (bool_decide (seg = "") || bool_decide (seg = ".")); simpl;
    [reflexivity | rewrite <- app_assoc; reflexivity].
Qed.

Lemma removelast_Forall {A} (P : A -> Prop) (l : list A) :
  Forall P l -> Forall P (removelast l).
Proof.
  induction 1 as [|x l Hx Hl IH]; simpl; [constructor|].
  destruct l; [constructor | constructor; assumption].
Qed.

Lemma resolve_proper segs : forall acc,
  Forall (fun seg => has_char "/" seg = false) segs ->
  Forall (fun seg => proper seg = true) acc ->
  Forall (fun seg => proper seg = true) (fold_left resolve_step segs acc).
Proof.
  induction segs as [|seg segs IH]; intros acc Hfree Hacc; simpl; [exact Hacc|].
  inversion Hfree as [|? ? Hseg Hrest]; subst.
  apply IH; [exact Hrest|]. unfold resolve_step.
  destruct (bool_decide (seg = "") || bool_decide (seg = ".")) eqn:H1; [exact Hacc|].
  destruct (bool_decide (seg = "..")) eqn:H2; [apply removelast_Forall; exact Hacc|].
  apply Forall_app. split; [exact Hacc|]. repeat constructor.
  unfold proper, kept. rewrite H1, H2, Hseg. reflexivity.
Qed.

Lemma resolve_segments_proper path :
  Forall (fun seg => proper seg = true) (resolve_segments path).
Proof.
  apply resolve_proper; [apply split_on_parts_free | constructor].
Qed.

Lemma proper_kept segs :
  Forall (fun seg => proper seg = true) segs -> List.filter kept segs = segs.
Proof.
  induction 1 as [|seg segs Hseg Hsegs IH]; simpl; [reflexivity|].
  unfold proper in Hseg. apply andb_true_iff in Hseg as [Hk _].
  rewrite Hk, IH. reflexivity.
Qed.

Lemma proper_no_dotdot segs :
  Forall (fun seg => proper seg = true) segs -> ".." ∉ segs.
Proof.
  intros Hall Hin. rewrite Forall_forall in Hall.
  specialize (Hall _ Hin). discriminate.
Qed.

(** *** Joining and splitting again *)

Abbreviation glue :=
  (fold_right (fun seg rest => "/" +:+ seg +:+ rest) "").

Lemma glue_app l1 l2 : glue (l1 ++ l2) = glue l1 +:+ glue l2.
Proof.
  induction l1 as [|x l1 IH]; simpl; [reflexivity|].
  rewrite IH, !append_assoc. reflexivity.
Qed.

Lemma segments_glue segs :
  Forall (fun seg => proper seg = true) segs -> segs <> [] ->
  segments (glue segs) = "" :: segs.
Proof.
  induction 1 as [|seg segs Hseg Hsegs IH]; intros Hne; [contradiction|].
  assert (Hfree : has_char "/" seg = false).
  { unfold proper in Hseg. apply andb_true_iff in Hseg as [_ Hf].
    apply negb_true_iff in Hf. exact Hf. }
  assert (Hstep : forall x rest,
            split_on "/" ("/" +:+ x +:+ rest) = "" :: split_on "/" (x +:+ rest))
    by reflexivity.
  unfold segments in *.
  change (glue (seg :: segs)) with ("/" +:+ seg +:+ glue segs).
  rewrite Hstep. f_equal.
  destruct segs as [|seg' segs].
  - change (glue []) with "". rewrite append_empty_r. apply split_on_free, Hfree.
  - specialize (IH ltac:(discriminate)).
    change (glue (seg' :: segs)) with ("/" +:+ seg' +:+ glue segs) in IH.
    rewrite Hstep in IH. injection IH as IH.
    change (glue (seg' :: segs)) with (String "/" (seg' +:+ glue segs)).
    rewrite split_on_app, (split_on_free _ _ Hfree), IH. reflexivity.
Qed.

Lemma resolve_join segs :
  Forall (fun seg => proper seg = true) segs ->
  resolve_segments (join segs) = segs.
Proof.
  intros Hall. unfold resolve_segments, join.
  destruct segs as [|seg segs]; [reflexivity|].
  rewrite (segments_glue _ Hall) by discriminate.
  change (fold_left resolve_step ("" :: seg :: segs) [])
    with (fold_left resolve_step (seg :: segs) []).
  rewrite (resolve_without_dotdot _ _ (proper_no_dotdot _ Hall)).
  apply proper_kept. exact Hall.
Qed.

Lemma join_prefix l1 l2 : String.prefix (join l1) (join (l1 ++ l2)) = true.
Proof.
  unfold join. destruct l1 as [|x l1].
  - destruct l2 as [|y l2]; [reflexivity|].
    change (String.prefix "/" (String "/" (y +:+ glue l2)) = true).
    simpl. destruct (y +:+ glue l2); reflexivity.
  - change (match (x :: l1) ++ l2 with [] => "/" | _ :: _ => glue ((x :: l1) ++ l2) end)
      with (glue ((x :: l1) ++ l2)).
    rewrite glue_app. apply prefix_append.
Qed.

(** Where a file name without [..] resolves to: the segments of the root,
    then the kept segments of the name. *)
Lemma resolve_below botCWD filename :
  ".." ∉ segments filename ->
  resolve_segments (botCWD +:+ "/" +:+ filename)
  = resolve_segments botCWD ++ List.filter kept (segments filename).
Proof.
  intros Hno. unfold resolve_segments at 1, segments at 1.
  change ("/" +:+ filename) with (String "/" filename).
  rewrite split_on_app, fold_left_app.
  apply (resolve_without_dotdot _ _ Hno).
Qed.

(** A file name without a [..] segment stays inside: for a project root
    that is a resolved path, [_receiveMasterFile] writes, and
    [_sendMasterFile] reads, a file that lies in the root or below it. *)
Theorem relayed_file_without_dotdot_stays_inside botCWD now filename data s :
  path_resolve botCWD = botCWD ->
  ".." ∉ segments filename ->
  exists file,
    effects (_receiveMasterFile botCWD now filename data s) = [MkAndWrite file data]
    /\ effects (_sendMasterFile botCWD now filename s) = [ReadFile file]
    /\ within botCWD file.
Proof.
  intros Hroot Hno.
  exists (path_resolve (botCWD +:+ "/" +:+ filename)).
  assert (Hfile : path_resolve (botCWD +:+ "/" +:+ filename)
                  = join (resolve_segments botCWD
                            ++ List.filter kept (segments filename))).
  { unfold path_resolve. rewrite (resolve_below _ _ Hno). reflexivity. }
  assert (Hpre : String.prefix botCWD (path_resolve (botCWD +:+ "/" +:+ filename))
                 = true).
  { rewrite Hfile. rewrite <- Hroot at 1. apply join_prefix. }
  unfold effects, _receiveMasterFile, _sendMasterFile. rewrite Hpre. simpl.
  repeat split.
  unfold within. rewrite Hfile, resolve_join.
  - apply prefix_app_r. reflexivity.
  - apply Forall_app. split; [apply resolve_segments_proper|].
    change (List.filter kept (segments filename))
      with ([] ++ List.filter kept (segments filename)).
    rewrite <- (resolve_without_dotdot _ [] Hno).
    apply resolve_proper; [apply split_on_parts_free | constructor].
Qed.

End Paths.

Lemma relayed_file_without_dotdot_stays_inside_witness :
  exists file,
    ShardingSlave.effects
      (ShardingSlave._receiveMasterFile "/srv/bot" 100 "save/./guilds//1.json" "data"
         Sample.agent)
    = [ShardingSlave.MkAndWrite file "data"]
    /\ ShardingSlave.effects
         (ShardingSlave._sendMasterFile "/srv/bot" 100 "save/./guilds//1.json"
            Sample.agent)
       = [ShardingSlave.ReadFile file]
    /\ ShardingSlave.within "/srv/bot" file.
Proof.
  apply (relayed_file_without_dotdot_stays_inside "/srv/bot" 100
           "save/./guilds//1.json" "data" Sample.agent).
  - vm_compute. reflexivity.
  - intros Hin. apply list_elem_of_In in Hin. vm_compute in Hin.
    repeat destruct Hin as [Hin|Hin]; try discriminate. exact Hin.
Defined.

(** The file of the sample is [/srv/bot/save/guilds/1.json]. *)
Lemma relayed_file_inside_sample :
  ShardingSlave.effects
    (ShardingSlave._receiveMasterFile "/srv/bot" 100 "save/./guilds//1.json" "data"
       Sample.agent)
  = [ShardingSlave.MkAndWrite "/srv/bot/save/guilds/1.json" "data"].
Proof. vm_compute. reflexivity. Qed.

(** ** Broadcast evaluate with nobody connected *)

Lemma broadcast_without_workers_never_calls_back_witness :
  let m := Sample.noneConnected in
  let replies : list Reply := [("s1", None, Some "2")] in
  _shardSockets m = []
  /\ b_cb (broadcast_replies replies (fst (broadcastEvalToShards "1+1" m))) = [].
Proof.
  split; [reflexivity|].
  apply (broadcast_without_workers_never_calls_back "1+1" Sample.noneConnected
           [("s1", None, Some "2")]).
  reflexivity.
Defined.

(** ** The dispersed cadence *)

Section Disperse.

Lemma getShardById_entry m shardId k :
  NoDup (Registry.keys (users m)) -> _getShardById shardId m = Some k ->
  exists el, Registry.get k (users m) = Some el
             /\ ShardInfo.isMaster el = false
             /\ ShardInfo.goalShardId el = shardId.
Proof.
  intros Hnd. unfold _getShardById.
  destruct (List.find _ (users m)) as [[k' el']|] eqn:Hf; [|discriminate].
  simpl. intros H. injection H as ->.
  apply find_some in Hf as [Hin Hp]. simpl in Hp.
  apply andb_true_iff in Hp as [Hmas Hid].
  apply negb_true_iff in Hmas. apply bool_decide_eq_true in Hid.
  apply list_elem_of_In in Hin. apply elem_get in Hin; [|exact Hnd].
  eauto.
Qed.

Lemma sendHeartbeatRequest_length updating m :
  (length (_sendHeartbeatRequest updating m) <= 1)%nat.
Proof.
  unfold _sendHeartbeatRequest. destruct updating as [k|]; [|simpl; lia].
  destruct (Registry.get k (users m)) as [el|]; [|simpl; lia].
  case_bool_decide; [simpl; lia|].
  destruct (if ShardInfo.isMaster el then _ else _); simpl; lia.
Qed.

(** In the dispersed pull style a pass that is due takes one slot of the
    interval: the next heartbeat is due [interval / (goal + 1)] later, and
    besides the shutdown requests at most one [update] is sent, to the
    worker entry whose goal id is the slot, on that worker's socket, or,
    in the last slot, to the entry the pass found as master, on the master
    socket. *)
Theorem dispersed_pull_sends_one_heartbeat_per_slot
    updateId now goal master configuring m :
  updateStyle (heartbeat (_config m)) = "pull" ->
  disperse (heartbeat (_config m)) = true ->
  _nextHeartbeatTime m <= now ->
  NoDup (Registry.keys (users m)) ->
  (forall k el, master = Some k -> Registry.get k (users m) = Some el ->
     ShardInfo.isMaster el = true) ->
  let result := heartbeat_cadence (Some updateId) now goal master configuring m in
  _nextHeartbeatTime (fst result)
  = _nextHeartbeatTime m + interval (heartbeat (_config m)) / (goal + 1)
  /\ exists slot,
       snd result = shutdown_requests configuring m ++ slot
       /\ (length slot <= 1)%nat
       /\ forall s req, EmitUpdate s req ∈ slot ->
            exists k el,
              Registry.get k (users m) = Some el /\ req = request el
              /\ if bool_decide (goal <= updateId)
                 then master = Some k /\ _masterShardSocket m = Some s
                 else ShardInfo.goalShardId el = updateId
                      /\ ShardInfo.isMaster el = false
                      /\ socket_of (ShardInfo.id el) (_shardSockets m) = Some s.
Proof.
  intros Hpull Hdisp Hdue Hnd Hmaster. unfold heartbeat_cadence.
  rewrite (bool_decide_eq_true_2 _ Hdue), (bool_decide_eq_true_2 _ Hpull), Hdisp.
  cbn [fst snd].
  match goal with
  | |- context [_sendHeartbeatRequest master ?x] => set (m' := x)
  end.
  assert (Hu : users m' = users m) by (unfold m'; case_bool_decide; reflexivity).
  assert (Hss : _shardSockets m' = _shardSockets m)
    by (unfold m'; case_bool_decide; reflexivity).
  assert (Hms : _masterShardSocket m' = _masterShardSocket m)
    by (unfold m'; case_bool_decide; reflexivity).
  split; [unfold m'; case_bool_decide; reflexivity|].
  eexists. split; [reflexivity|].
  split; [case_bool_decide; apply sendHeartbeatRequest_length|].
  intros s req Hin. case_bool_decide as Hlast.
  - apply sendHeartbeatRequest_effects in Hin as (k & el & s' & Hk & Hget & _ & Hs & Heq).
    injection Heq as <- ->. rewrite Hu in Hget.
    rewrite (Hmaster k el Hk Hget), Hms in Hs.
    exists k, el. repeat split; assumption.
  - apply sendHeartbeatRequest_effects in Hin as (k & el & s' & Hk & Hget & _ & Hs & Heq).
    injection Heq as <- ->.
    assert (Hk' : _getShardById updateId m = Some k).
    { unfold _getShardById in *. rewrite Hu in Hk. exact Hk. }
    rewrite Hu in Hget.
    destruct (getShardById_entry m updateId k Hnd Hk') as (el' & Hget' & Hmas & Hid).
    rewrite Hget in Hget'. injection Hget' as <-.
    rewrite Hmas, Hss in Hs.
    exists k, el. repeat split; assumption.
Qed.

End Disperse.

Lemma dispersed_pull_sends_one_heartbeat_per_slot_witness :
  let m := Sample.twinsDispersed in
  let result := heartbeat_cadence (Some 0) Sample.now 2 (Some "mas") [] m in
  _nextHeartbeatTime (fst result)
  = _nextHeartbeatTime m + interval (heartbeat (_config m)) / (2 + 1)
  /\ exists slot,
       snd result = shutdown_requests [] m ++ slot
       /\ (length slot <= 1)%nat
       /\ forall s req, EmitUpdate s req ∈ slot ->
            exists k el,
              Registry.get k (users m) = Some el /\ req = request el
              /\ if bool_decide (2 <= 0)
                 then Some "mas" = Some k /\ _masterShardSocket m = Some s
                 else ShardInfo.goalShardId el = 0
                      /\ ShardInfo.isMaster el = false
                      /\ socket_of (ShardInfo.id el) (_shardSockets m) = Some s.
Proof.
  apply (dispersed_pull_sends_one_heartbeat_per_slot 0 Sample.now 2 (Some "mas") []
           Sample.twinsDispersed).
  - reflexivity.
  - reflexivity.
  - vm_compute. discriminate.
  - decide_by_compute.
  - intros k el Hk Hget. injection Hk as <-. vm_compute in Hget.
    injection Hget as <-. reflexivity.
Defined.

(** In [twinsDispersed] the slot 0 goes to the first entry found with goal
    id 0, the worker [aaa], and to no other. *)
Lemma dispersed_slot_sample :
  snd (heartbeat_cadence (Some 0) Sample.now 2 (Some "mas") [] Sample.twinsDispersed)
  = [EmitUpdate "s1" (mkUpdateRequest 0 2 false)].
Proof. vm_compute. reflexivity. Qed.
